(* ===== verification/_CoqProject ===== *)
-Q . S2P
Prelude.v
Hid.v
CtapHid.v
CtapHidLimits.v
Cbor.v
CborRef.v
Schema.v
Platform.v
Session.v
Demo.v
Der.v
Tpm.v
DemoTpm.v
Store.v
StoreProps.v
StoreRoundtrip.v
StoreUpdates.v
Integrity.v
StoreRefine.v
DemoStore.v
Ctap2Types.v
Ctap2.v
Ctap2Facts.v
WorldFacts.v
StoreCounts.v
Ctap2Pin.v
WorldSafe.v
Settings.v
Ctap2Restart.v
Ctap2Assert.v
Ctap2Counter.v
Ctap2Mgmt.v
Ctap2Data.v
Ctap2Safe.v
Ctap2Mirror.v
Renewal.v
DemoCtap2.v
DemoSafe.v
Management.v
ManagementProps.v
Requests.v
Serve.v
SelectionNames.v
Daemon.v
Schedule.v
DaemonProps.v
Dialogue.v
DaemonSafe.v
Authority.v
Lives.v
DaemonLive.v
Cli.v
CliProps.v
DemoDaemon.v
DemoLives.v
DemoService.v
