(* ===== verification/Prelude.v ===== *)
(** * A verification of linux-tpm-fido2

    linux-tpm-fido2 is a FIDO2 authenticator in software: a daemon that shows the
    kernel a virtual HID device, speaks CTAPHID and CTAP2 on it, keeps its keys in
    a TPM 2.0 and its records in an SQLite database, and is administered over a
    Unix socket. This library models the program in [src/src/] and proves what
    makes it correct.

    ** Parts of the program and files of the development

    A host report goes through [main.rs] to the packet handler of [ctaphid.rs],
    which assembles messages and hands CBOR requests to the authenticator of
    [ctap2.rs]. The authenticator asks the user ([approval.rs], [polkit.rs],
    [session.rs], [systemd_logind.rs]), uses keys through [tpm.rs] and keeps
    credentials, the client PIN and the daemon passphrase with [store.rs].
    Connections of [management.rs] run in threads of their own, use the store
    directly and send TPM commands to the main thread.

    - [Prelude] (this file): results with an explicit panic ([res]), the state and
      error monad [M] (a state change made before an error stays), integers at
      their width ([u8], [u32], ...), big-endian bytes, lists, and the automation.
    - [Hid]: [hid.rs], the report descriptor and the device's identity.
    - [CtapHid]: [ctaphid.rs]. [PacketHandler] is a record over any authenticator
      (class [AuthenticatorOps], of which [Daemon.authenticator_ops] is the
      instance); [handle_packet], [handle_init_packet],
      [handle_continuation_packet], [allocate_cid], [dispatch], [encode_message].
      [CtapHidLimits] has the log line [describe_report], the free function
      [handle_packet] and what happens beyond the limits of a message.
    - [Cbor], [CborRef]: the CBOR values of [ctap2.rs], their accessors and the
      canonical form; a reference codec that satisfies the laws assumed of
      [ciborium].
    - [Schema]: the records of [store.rs] and [tpm.rs] and the tables that the
      files of [migrations/] leave behind.
    - [Platform]: the operating system and the cryptographic crates, as classes.
    - [Session]: [session.rs], [systemd_logind.rs], [polkit.rs], [approval.rs].
    - [Der], [Tpm]: [tpm.rs], with the transient handles each call opens.
    - [Store], [StoreProps], [StoreRoundtrip], [StoreUpdates], [Integrity],
      [StoreRefine]: [store.rs]. [StoreRefine.Vault] is the store as plain values.
    - [Ctap2Types], [Ctap2]: [ctap2.rs]; the first has the data and the functions
      without effects, the second the methods of [Authenticator], on a state [St]
      of the authenticator's fields and the world. [Ctap2Facts], [WorldFacts],
      [Ctap2Pin], [Ctap2Restart], [Ctap2Assert], [StoreCounts], [Ctap2Counter],
      [Ctap2Mgmt], [Ctap2Data], [WorldSafe], [Settings], [Ctap2Safe], [Ctap2Mirror],
      [Renewal] prove its properties.
    - [Management], [ManagementProps], [Requests], [SelectionNames]: [management.rs]. A
      connection is a finite tree of store calls and TPM commands ([Prog]), since
      other threads run between two of them. [Serve] is the server: the set-up of
      the socket and the loop of [serve], which gives each connection a thread.
    - [Daemon], [Schedule], [DaemonProps], [Dialogue], [DaemonSafe], [Authority],
      [DaemonLive]: the loop of [run_daemon] in [main.rs], as a step relation over the
      main thread, the connections, their queue of commands and the shared world.
      [Schedule] is the relation as a function of the choice of the next move.
      [Dialogue] finds in a run the requests of the host with their outcomes.
    - [Lives]: the daemon over restarts. A life is a start, any run of the step
      relation and its end, by a kill between two steps or a panic; the next life
      starts from the store it leaves.
    - [Cli], [CliProps]: the command line, the rest of [main.rs].
    - [Demo], [DemoTpm], [DemoStore], [DemoCtap2], [DemoSafe], [DemoDaemon],
      [DemoLives], [DemoService]: concrete instances of every parameter. They show
      that the laws can hold together, run the model on concrete requests, and hold
      the witnesses of the theorems and the runs that show behaviour the code should
      not have.

    ** Conventions

    Definitions keep the names of the source; where a name is taken an underscore
    follows it ([client_pin_], [selection_]). A Rust function that changes state
    is a function in [M] on the whole state; [Err] is its error, [Panic] is a
    panic ([todo!], an index out of range, an overflow where [overflow_checks]
    says that they are checked). Byte strings are lists of [Z]; theorems that need
    the bytes to be bytes say so. Log output and zeroization of buffers are left out;
    the messages of errors are kept up to the values formatted into them.

    ** What is assumed of the outside

    Code outside the repository is a class and each of its functions takes the
    number of calls made before (the tick of the [World]), so that its answers may
    change with time: [Platform] (random bytes, files, environment, D-Bus, the
    terminal, the clock, faults of SQLite), [Crypto], [CborCodec], [Esapi] (the
    TPM's commands), [StoreCodec] (serialized records, PEM, PHC strings),
    [ManagementCodec] (serialized messages, hexadecimal), [SocketApi] (the calls of
    the server), [Terminal] (prompts, the UHID device). What theorems rely on is
    in [CborLaws], [PlatformLaws], [CryptoLaws], [EsapiFlushes], [StoreCodecLaws],
    [Healthy] and [ManagementCodecLaws]: reading back what was encoded, lengths,
    decryption of what was encrypted, and for [Healthy] that the database answers.
    [EsapiReturns], [PlatformReturns] and [CodecReturns] say that the crates return,
    with what a parser accepted in a form its printer accepts, and [PhcFits] that
    Argon2 returns hashes of the length asked for, and that salts and hashes of 32
    bytes can be written; the theorems on panics and on what requests achieve use them.
    A theorem that names none of them holds for every behaviour of the outside.

    The model assumes two granularities of steps ([Daemon.step]). On a management
    connection a function of the store is one step: SQLite serializes the
    transactions, but a store function that makes several queries could, in the
    program, see another thread's change in between. On the main thread the whole
    handling of an event of the device, that is a whole CTAP2 request with its store
    calls and its prompts, and a whole TPM command are one step each: in the program a
    connection can run between two store calls of a request. "Any interleaving" means
    of these steps. The D-Bus calls of one detection of the session are answered at one
    tick; each of them asks something else ([Session.detect_session]).

    Reading from a connection blocks, without a timeout, until the peer has written
    enough or closed the stream ([Management.ReadResult], [Daemon.Reading]): a silent
    peer keeps its thread for ever. The peer's taking of the answer, or its end, is the
    last step of a connection; a peer that does neither keeps the thread too.

    ** What is proved

    - Framing ([CtapHid]): the packets of a message, whatever its length up to
      7609 bytes, are assembled again to the message and dispatched once; the
      handler's state stays well formed under every packet; a wrong sequence number
      ends the transaction with an error; allocated channels are fresh. A longer
      response, which nothing prevents, cannot be assembled ([CtapHidLimits]).
    - CBOR ([Cbor]): a response decodes to a map with the entries that were given,
      in canonical order; the message that authenticates a management request does
      not depend on the order of the parameters.
    - Session ([Session]): which session is taken; an approval is given only on a
      yes of polkit for the leader of the session or, where polkit cannot be asked, of the terminal, and a denial
      of polkit is final.
    - TPM ([Tpm], [Der]): a signature is made under the policy the credential is
      bound to, never under a null session; no handle stays open after signing; the
      DER encoding reads back; the range of PCR indices.
    - Store ([StoreProps], [StoreRoundtrip], [StoreUpdates], [StoreRefine]): keys
      stay unique, foreign keys valid and ids of keyslots new under every operation; a failed
      transaction changes nothing; a load returns what was saved, and after an
      update exactly the row meant has changed; every sequence of operations on the
      tables refines the same operations on plain values, errors included; a row
      whose fields differ from those its integrity code was made for is not loaded
      ([Integrity], with what the former format of the codes lets through).
    - Client PIN ([Ctap2Pin]): over every sequence of requests without a right PIN and
      a Reset, the requests that enter a wrong PIN, as the stored verifier says, are at
      most as many as there were retries, and each costs exactly one; a blocked PIN
      stays blocked until it is reset; a PIN that was set authenticates; a request
      counts as verified only with a token of the right permission, and a command that
      rejects one drops the token.
    - Restarts ([Lives], on [Ctap2Restart], [Ctap2Counter] and [Ctap2Mirror]), for
      every interleaving of the threads in every life: the daemon always starts, and
      its PIN and the retries that are left are those it was stopped with; of two
      assertions with a credential the later has the larger counter; the credentials
      of a user come back after a restart as they were in memory.
    - Registration and assertion ([Ctap2Assert], [Ctap2Data]): which credentials
      match; what the answer says, that the user was asked and that the counter
      was stored before the signature was given out; what a relying party reads in
      the authenticator data; without a daemon passphrase the four gated commands are refused;
      what a reset forgets.
    - Credential management ([Ctap2Mgmt]): enumerations stay in range for every
      sequence of requests and list each relying party once.
    - Management requests ([Requests], on [Renewal]), from the request to the stored
      credentials, without interference: a request to renew policies, and one to
      change the passphrase, is answered, with an entry for each credential that says
      what became of it, [ok] or the TPM's own error wherever it could be renewed; a policy or a recovery slot is renewed as the entry says, of
      the credential it names, and nothing else changes. A new passphrase is the one
      accepted afterwards.
    - Panics ([Ctap2Safe], on [WorldSafe], and [DaemonSafe], on [Settings]): the
      requests after which the main thread panics are the commands that are not
      implemented and a getNextAssertion after a request that may have deleted
      credentials. Where shifts are not checked nothing else panics, in any
      interleaving, whatever the host and the management clients send; where they are
      checked, PCR indices beyond 31 are the other cause.
    - Who may do what over the socket ([Authority]), for every interleaving: every TPM
      command was sent by a connection whose request authorizes it, for a credential
      the store had for its peer and with the passphrase it needs; a list shows only
      the peer's credentials. [ManagementProps], [SelectionNames]: a wrong passphrase
      changes nothing; requests and responses survive the framing; the name of a PCR
      selection reads back.
    - Daemon ([DaemonProps]), for every interleaving of the threads: the
      invariants of the framing layer, of the store and of the command queue hold,
      what is written to the device are whole reports. Every queued TPM command is answered in its turn,
      and a connection is stuck only while its peer is silent: once it has the message or
      the end of the stream it can be brought to its end ([DaemonLive]). The CBOR
      responses that are written are the answers to the requests, each once and in
      order, and the count of PIN guesses holds for the whole daemon ([Dialogue]).
    - Server and command line ([Serve], [CliProps]): connections are served only
      on a socket that belongs to its owner alone, and the server, whose listener does
      not block, ends when its stop flag is set (the program never sets it); [list-credentials] prints what the store holds for its user.

    ** Bounds and fuel

    Nothing in the model is cut off. [CtapHid.continuation_packets],
    [Session.trim_start], [Session.trim_end], [Hid.parse_items] and the reference
    decoder take the length of their input as fuel, and each iteration consumes at
    least a byte (shown for packets by [reassembly_inverts_framing] and for the
    decoder by [decode_encode]). [Ctap2.open_tpm] has the hundred attempts of the
    source. [Serve.accept_loop] takes the number of iterations as fuel and says
    whether it was left; the theorem bounds the iterations after the stop flag is
    set. Every [M] function is total, and a [Prog] is a finite tree.

    ** What is not modelled

    The parsing of the command line (the clap crate), the columns that hold times,
    the migration of databases of earlier versions, timing (the sleeps of the
    loops), store calls of the main thread that interleave with a connection's, a
    second answer to the same D-Bus question, errors of the UHID device while the daemon runs, which end it, and a kill
    of the process in the middle of a request. *)
From Stdlib Require Import ZArith Lia Ascii String.
From stdpp Require Import base tactics option list list_numbers numbers strings gmap sorting.

#[local] Open Scope Z_scope.

(** ** Notations *)

Abbreviation bytes := (list Z).

(** ** Results: [Result<A, E>] plus an explicit panic *)

Inductive res (E A : Type) : Type :=
| Ok (a : A)
| Err (e : E)
| Panic.
Arguments Ok {E A} a.
Arguments Err {E A} e.
Arguments Panic {E A}.

#[export] Instance res_ret {E} : MRet (res E) := fun A a => Ok a.
#[export] Instance res_bind {E} : MBind (res E) := fun A B k r =>
  match r with Ok a => k a | Err e => Err e | Panic => Panic end.

(** [Option::ok_or] *)
Definition ok_or {E A} (o : option A) (e : E) : res E A :=
  match o with Some a => Ok a | None => Err e end.

(** [Result::ok] *)
Definition res_ok {E A} (r : res E A) : option A :=
  match r with Ok a => Some a | _ => None end.

(** [Result::map_err] *)
Definition map_err {E F A} (f : E -> F) (r : res E A) : res F A :=
  match r with Ok a => Ok a | Err e => Err (f e) | Panic => Panic end.

(** [if !cond { return Err(e) }] *)
Definition guard {E} (b : bool) (e : E) : res E unit :=
  if b then Ok tt else Err e.

(** ** State, error and panic: the monad of the [&mut self] methods.
    The state survives an error, as a mutation before an early return does. *)

Definition M (S E A : Type) : Type := S -> res E A * S.

#[export] Instance M_ret {S E} : MRet (M S E) := fun A a s => (Ok a, s).
#[export] Instance M_bind {S E} : MBind (M S E) := fun A B k m s =>
  match m s with
  | (Ok a, s') => k a s'
  | (Err e, s') => (Err e, s')
  | (Panic, s') => (Panic, s')
  end.

Definition throw {S E A} (e : E) : M S E A := fun s => (Err e, s).
Definition panic {S E A} : M S E A := fun s => (Panic, s).
Definition lift {S E A} (r : res E A) : M S E A := fun s => (r, s).
Definition gets {S E A} (f : S -> A) : M S E A := fun s => (Ok (f s), s).
Definition modify {S E} (f : S -> S) : M S E unit := fun s => (Ok tt, f s).

(** Run a computation and hand its [Result] to the caller as a value. *)
Definition attempt {S E F A} (m : M S E A) : M S F (res E A) := fun s =>
  match m s with
  | (Panic, s') => (Panic, s')
  | (r, s') => (Ok r, s')
  end.

Definition unless {S E} (b : bool) (m : M S E unit) : M S E unit :=
  if b then mret tt else m.

(** ** Machine integers *)

Definition u8 (z : Z) : Z := z mod 2 ^ 8.
Definition u16 (z : Z) : Z := z mod 2 ^ 16.
Definition u32 (z : Z) : Z := z mod 2 ^ 32.
Definition u32_max : Z := 2 ^ 32 - 1.

(** [u32::saturating_add], [u32::saturating_sub] *)
Definition saturating_add (a b : Z) : Z := Z.min (a + b) u32_max.
Definition saturating_sub (a b : Z) : Z := Z.max (a - b) 0.

(** [u8::try_from], [u32::try_from], [u64::try_from] *)
Definition try_u8 (z : Z) : option Z := if (0 <=? z) && (z <? 2 ^ 8) then Some z else None.
Definition try_u32 (z : Z) : option Z := if (0 <=? z) && (z <? 2 ^ 32) then Some z else None.
Definition try_u64 (z : Z) : option Z := if (0 <=? z) && (z <? 2 ^ 64) then Some z else None.

Definition byte_ok (b : Z) : Prop := 0 <= b < 256.
Abbreviation bytes_ok := (Forall byte_ok).

Definition byte_okb (b : Z) : bool := (0 <=? b) && (b <? 256).
Definition bytes_okb (l : bytes) : bool := forallb byte_okb l.

(** [to_be_bytes] and [from_be_bytes] *)
Fixpoint be_bytes (n : nat) (z : Z) : bytes :=
  match n with
  | O => []
  | S n' => (Z.shiftr z (8 * Z.of_nat n') mod 256) :: be_bytes n' z
  end.

Definition be_val (l : bytes) : Z := foldl (fun acc b => acc * 256 + b) 0 l.

(** [String::as_bytes]: a [String] is its UTF-8 bytes. *)
Definition as_bytes (s : string) : bytes :=
  map (fun c => Z.of_N (N_of_ascii c)) (list_ascii_of_string s).

(** ** Slices *)

(** [&l[a..b]], for [a <= b <= l.len()] *)
Definition slice {A} (a b : nat) (l : list A) : list A := take (b - a) (drop a l).

(** [l[a..a + src.len()].copy_from_slice(src)] *)
Definition copy_at {A} (a : nat) (src l : list A) : list A :=
  take a l ++ src ++ drop (a + length src) l.

(** [Vec::first] with [split_first] *)
Definition split_first {A} (l : list A) : option (A * list A) :=
  match l with [] => None | x :: t => Some (x, t) end.

(** [iter().position(p)] *)
Fixpoint position {A} (p : A -> bool) (l : list A) : option nat :=
  match l with
  | [] => None
  | x :: t => if p x then Some 0%nat else S <$> position p t
  end.

(** [iter().find(p)] *)
Fixpoint find_by {A} (p : A -> bool) (l : list A) : option A :=
  match l with
  | [] => None
  | x :: t => if p x then Some x else find_by p t
  end.

(** [iter().enumerate()] *)
Definition enumerate {A} (l : list A) : list (nat * A) := imap (fun i x => (i, x)) l.

(** ** Orders: [Vec<u8>::cmp] and the stable [sort_by] *)

Fixpoint bytes_leb (a b : bytes) : bool :=
  match a, b with
  | [], _ => true
  | _ :: _, [] => false
  | x :: a', y :: b' => (x <? y) || ((x =? y) && bytes_leb a' b')
  end.

Fixpoint insert_by {A} (leb : A -> A -> bool) (x : A) (l : list A) : list A :=
  match l with
  | [] => [x]
  | y :: t => if leb x y then x :: y :: t else y :: insert_by leb x t
  end.

Definition sort_by {A} (leb : A -> A -> bool) (l : list A) : list A :=
  foldr (insert_by leb) [] l.

(** ** Relations kept by every run of a computation *)

(** [keeps R m]: every run of [m], successful, failing or panicking, relates
    the state before to the state after by [R]. *)
Definition keeps {S E A} (R : relation S) (m : M S E A) : Prop :=
  forall s, R s (m s).2.

(** An invariant as a relation between states. *)
Definition inv_rel {S} (I : S -> Prop) : relation S := fun s s' => I s -> I s'.

(** ** Automation *)

Create HintDb fido.

(** Case analysis on the matches and conditionals of the goal. *)
Ltac crush :=
  repeat (case_match || simplify_eq/=); try done; try lia.

(** Case analysis on the matches and conditionals of the hypotheses. *)
Ltac crush_hyps :=
  repeat match goal with
  | H : context [match ?x with _ => _ end] |- _ =>
      destruct x eqn:?; simplify_eq/=
  end; try done.

(** Turn boolean tests of the code into propositions. *)
Ltac bools :=
  repeat match goal with
  | H : _ && _ = true |- _ => apply andb_true_iff in H as [? ?]
  | H : _ && _ = false |- _ => apply andb_false_iff in H
  | H : _ || _ = true |- _ => apply orb_true_iff in H
  | H : _ || _ = false |- _ => apply orb_false_iff in H as [? ?]
  | H : negb _ = true |- _ => apply negb_true_iff in H
  | H : negb _ = false |- _ => apply negb_false_iff in H
  | H : (_ =? _)%Z = true |- _ => apply Z.eqb_eq in H
  | H : (_ =? _)%Z = false |- _ => apply Z.eqb_neq in H
  | H : (_ <? _)%Z = true |- _ => apply Z.ltb_lt in H
  | H : (_ <? _)%Z = false |- _ => apply Z.ltb_ge in H
  | H : (_ <=? _)%Z = true |- _ => apply Z.leb_le in H
  | H : (_ <=? _)%Z = false |- _ => apply Z.leb_gt in H
  | H : (_ =? _)%nat = true |- _ => apply Nat.eqb_eq in H
  | H : (_ =? _)%nat = false |- _ => apply Nat.eqb_neq in H
  | H : (_ <? _)%nat = true |- _ => apply Nat.ltb_lt in H
  | H : (_ <? _)%nat = false |- _ => apply Nat.ltb_ge in H
  | H : (_ <=? _)%nat = true |- _ => apply Nat.leb_le in H
  | H : (_ <=? _)%nat = false |- _ => apply Nat.leb_gt in H
  | H : bool_decide _ = true |- _ => apply bool_decide_eq_true in H
  | H : bool_decide _ = false |- _ => apply bool_decide_eq_false in H
  end.

(** ** Bytes and integers *)

Lemma byte_okb_spec b : byte_okb b = true <-> byte_ok b.
Proof. unfold byte_okb, byte_ok. rewrite andb_true_iff. lia. Qed.

Lemma bytes_okb_spec l : bytes_okb l = true <-> bytes_ok l.
Proof.
  unfold bytes_okb. rewrite forallb_forall, List.Forall_forall.
  by setoid_rewrite byte_okb_spec.
Qed.

(** Well-formedness of a concrete byte string, by evaluation. *)
Ltac bytes_ok_eval := apply bytes_okb_spec; vm_compute; reflexivity.

Lemma byte_ok_mod z : byte_ok (z mod 256).
Proof. unfold byte_ok. apply Z.mod_pos_bound. lia. Qed.
#[export] Hint Resolve byte_ok_mod : fido.

Lemma byte_ok_0 : byte_ok 0.
Proof. unfold byte_ok. lia. Qed.
#[export] Hint Resolve byte_ok_0 : fido.

Lemma length_be_bytes n z : length (be_bytes n z) = n.
Proof. induction n; simpl; congruence. Qed.

Lemma be_bytes_ok n z : bytes_ok (be_bytes n z).
Proof. induction n; simpl; constructor; auto with fido. Qed.
#[export] Hint Resolve be_bytes_ok : fido.

Lemma be_val_app a b : be_val (a ++ b) = be_val a * 256 ^ Z.of_nat (length b) + be_val b.
Proof.
  unfold be_val. rewrite foldl_app. generalize (foldl (fun acc b => acc * 256 + b) 0 a).
  induction b as [|x b IH] using rev_ind; intros z.
  - simpl. lia.
  - rewrite !foldl_app. simpl. rewrite IH, length_app. simpl.
    rewrite Nat.add_1_r, Nat2Z.inj_succ, Z.pow_succ_r by lia. lia.
Qed.

Lemma be_val_cons x l : be_val (x :: l) = x * 256 ^ Z.of_nat (length l) + be_val l.
Proof. change (x :: l) with ([x] ++ l). rewrite be_val_app. reflexivity. Qed.

Lemma be_val_bound l : bytes_ok l -> 0 <= be_val l < 256 ^ Z.of_nat (length l).
Proof.
  induction 1 as [|x l Hx _ IH]; [done|]. unfold byte_ok in Hx.
  rewrite be_val_cons. simpl length. rewrite Nat2Z.inj_succ, Z.pow_succ_r by lia. nia.
Qed.

Lemma be_val_be_bytes n z : be_val (be_bytes n z) = z mod 256 ^ Z.of_nat n.
Proof.
  induction n as [|n IH]; [by rewrite Z.mod_1_r|].
  simpl be_bytes. rewrite be_val_cons, length_be_bytes, IH, Z.shiftr_div_pow2 by lia.
  rewrite (Z.pow_mul_r 2 8) by lia. change (2 ^ 8) with 256.
  rewrite Nat2Z.inj_succ, Z.pow_succ_r, (Z.mul_comm 256) by lia.
  rewrite Z.rem_mul_r by lia. lia.
Qed.

Lemma be_val_to_be_bytes n z :
  0 <= z < 256 ^ Z.of_nat n -> be_val (be_bytes n z) = z.
Proof. intros. rewrite be_val_be_bytes. by apply Z.mod_small. Qed.

Lemma be_val_inj a b :
  bytes_ok a -> bytes_ok b -> length a = length b -> be_val a = be_val b -> a = b.
Proof.
  intros Ha. revert b. induction Ha as [|x a Hx Ha IH]; intros b Hb; [by destruct b|].
  destruct Hb as [|y b Hy Hb]; [done|]. simpl. intros [= Hl]. rewrite !be_val_cons, Hl.
  intros He. pose proof (be_val_bound a Ha) as Ba. pose proof (be_val_bound b Hb) as Bb.
  rewrite Hl in Ba. unfold byte_ok in *.
  assert (x = y) as -> by nia. f_equal. apply IH; [done..|lia].
Qed.

Lemma be_bytes_be_val n l : bytes_ok l -> length l = n -> be_bytes n (be_val l) = l.
Proof.
  intros Hl Hn. apply be_val_inj; auto with fido.
  - by rewrite length_be_bytes.
  - rewrite be_val_to_be_bytes; [done|]. rewrite <- Hn. by apply be_val_bound.
Qed.

Lemma be_bytes_inj n a b :
  0 <= a < 256 ^ Z.of_nat n -> 0 <= b < 256 ^ Z.of_nat n ->
  be_bytes n a = be_bytes n b -> a = b.
Proof. intros Ha Hb H. rewrite <- (be_val_to_be_bytes n a), H by done. by apply be_val_to_be_bytes. Qed.

Lemma as_bytes_ok s : bytes_ok (as_bytes s).
Proof.
  unfold as_bytes. induction (list_ascii_of_string s) as [|c l IH]; constructor; [|done].
  unfold byte_ok. pose proof (N_ascii_bounded c). lia.
Qed.
#[export] Hint Resolve as_bytes_ok : fido.

Lemma as_bytes_inj a b : as_bytes a = as_bytes b -> a = b.
Proof.
  unfold as_bytes. intros H.
  assert (list_ascii_of_string a = list_ascii_of_string b) as E.
  { revert H. generalize (list_ascii_of_string b).
    induction (list_ascii_of_string a) as [|x l IH]; intros [|y m]; simpl; try done.
    intros [= Hxy Hr%IH]. apply N2Z.inj in Hxy.
    rewrite <- (ascii_N_embedding x), <- (ascii_N_embedding y). by rewrite Hxy, Hr. }
  by rewrite <- (string_of_list_ascii_of_string a), E, string_of_list_ascii_of_string.
Qed.

(** ** Lists *)

Lemma position_Some {A} (p : A -> bool) l i :
  position p l = Some i <->
  exists x, l !! i = Some x /\ p x = true /\
    forall j y, (j < i)%nat -> l !! j = Some y -> p y = false.
Proof.
  revert i. induction l as [|x l IH]; intros i; simpl.
  - split; [done|]. intros (? & H & _). done.
  - destruct (p x) eqn:Hp.
    + split; [intros [= <-]; exists x; split_and!; try done; lia|].
      intros (y & Hy & Hpy & Hmin). destruct i; [done|].
      specialize (Hmin 0%nat x ltac:(lia) eq_refl). congruence.
    + rewrite fmap_Some. setoid_rewrite IH. split.
      * intros (j & (y & Hy & Hpy & Hmin) & ->). exists y. split_and!; try done.
        intros [|k] z Hk Hz; simplify_eq/=; [done|]. apply (Hmin k z); [lia|done].
      * intros (y & Hy & Hpy & Hmin). destruct i as [|i]; simplify_eq/=; [congruence|].
        exists i. split; [|done]. exists y. split_and!; try done.
        intros j z Hj Hz. apply (Hmin (S j) z); [lia|done].
Qed.

Lemma position_None {A} (p : A -> bool) l :
  position p l = None <-> Forall (fun x => p x = false) l.
Proof.
  induction l as [|x l IH]; simpl; [by split|]. destruct (p x) eqn:Hp.
  - split; [done|]. inversion 1; congruence.
  - rewrite fmap_None, IH, Forall_cons. naive_solver.
Qed.

Lemma find_by_Some {A} (p : A -> bool) l x :
  find_by p l = Some x -> x ∈ l /\ p x = true.
Proof.
  induction l as [|y l IH]; simpl; [done|]. destruct (p y) eqn:Hp.
  - intros [= ->]. split; [left|done].
  - intros [? ?]%IH. split; [by right|done].
Qed.

Lemma find_by_None {A} (p : A -> bool) l :
  find_by p l = None <-> Forall (fun x => p x = false) l.
Proof.
  induction l as [|x l IH]; simpl; [by split|]. destruct (p x) eqn:Hp.
  - split; [done|]. inversion 1; congruence.
  - rewrite IH, Forall_cons. naive_solver.
Qed.

Lemma find_by_position {A} (p : A -> bool) l :
  find_by p l = (position p l ≫= fun i => l !! i).
Proof.
  induction l as [|x l IH]; simpl; [done|]. destruct (p x); [done|].
  rewrite IH. by destruct (position p l).
Qed.

Lemma enumerate_cons {A} (x : A) l :
  enumerate (x :: l) = (0%nat, x) :: (prod_map S id <$> enumerate l).
Proof.
  unfold enumerate. simpl. f_equal. rewrite fmap_imap. apply imap_ext. done.
Qed.

Lemma elem_of_enumerate {A} (l : list A) i x : (i, x) ∈ enumerate l <-> l !! i = Some x.
Proof.
  unfold enumerate. rewrite elem_of_lookup_imap. split; [|naive_solver].
  intros (j & y & [= -> ->] & ?). done.
Qed.

Lemma filter_all {A} (P : A -> Prop) `{!forall x, Decision (P x)} (l : list A) :
  Forall P l -> filter P l = l.
Proof. induction 1 as [|x l Hx _ IH]; [done|]. by rewrite filter_cons_True, IH. Qed.

Lemma filter_none {A} (P : A -> Prop) `{!forall x, Decision (P x)} (l : list A) :
  Forall (fun x => ~ P x) l -> filter P l = [].
Proof. induction 1 as [|x l Hx _ IH]; [done|]. by rewrite filter_cons_False, IH. Qed.

Lemma fmap_bind {A B C} (f : B -> C) (g : A -> list B) (l : list A) :
  f <$> (l ≫= g) = l ≫= (fun x => f <$> g x).
Proof. induction l as [|x l IH]; [done|]. by rewrite !bind_cons, fmap_app, IH. Qed.

Lemma slice_app_l {A} (a b : list A) : slice 0 (length a) (a ++ b) = a.
Proof. unfold slice. rewrite Nat.sub_0_r, drop_0. apply take_app_length. Qed.

Lemma length_slice {A} a b (l : list A) :
  (a <= b <= length l)%nat -> length (slice a b l) = (b - a)%nat.
Proof. intros. unfold slice. rewrite length_take, length_drop. lia. Qed.

Lemma length_copy_at {A} a (src l : list A) :
  (a + length src <= length l)%nat -> length (copy_at a src l) = length l.
Proof. intros. unfold copy_at. rewrite !length_app, length_take, length_drop. lia. Qed.

Lemma bytes_ok_slice a b l : bytes_ok l -> bytes_ok (slice a b l).
Proof. intros. unfold slice. by apply Forall_take, Forall_drop. Qed.

Lemma bytes_ok_copy_at a src l : bytes_ok src -> bytes_ok l -> bytes_ok (copy_at a src l).
Proof. intros. unfold copy_at. rewrite !Forall_app. auto using Forall_take, Forall_drop. Qed.
#[export] Hint Resolve bytes_ok_slice bytes_ok_copy_at : fido.

(** ** Orders and sorting *)

Lemma bytes_leb_refl a : bytes_leb a a = true.
Proof. induction a as [|x a IH]; simpl; [done|]. rewrite IH, Z.eqb_refl. by rewrite orb_true_r. Qed.

Lemma bytes_leb_total a b : bytes_leb a b = true \/ bytes_leb b a = true.
Proof.
  revert b. induction a as [|x a IH]; intros [|y b]; simpl; auto.
  rewrite !orb_true_iff, !andb_true_iff, !Z.ltb_lt, !Z.eqb_eq.
  destruct (IH b), (Z.lt_trichotomy x y) as [|[|]]; naive_solver.
Qed.

Lemma bytes_leb_antisym a b : bytes_leb a b = true -> bytes_leb b a = true -> a = b.
Proof.
  revert b. induction a as [|x a IH]; intros [|y b]; simpl; try done.
  rewrite !orb_true_iff, !andb_true_iff, !Z.ltb_lt, !Z.eqb_eq.
  intros [|[-> ?]] [|[? ?]]; try lia. f_equal; auto.
Qed.

Lemma bytes_leb_trans a b c :
  bytes_leb a b = true -> bytes_leb b c = true -> bytes_leb a c = true.
Proof.
  revert b c. induction a as [|x a IH]; intros [|y b] [|z c]; simpl; try done.
  rewrite !orb_true_iff, !andb_true_iff, !Z.ltb_lt, !Z.eqb_eq.
  intros [|[-> ?]] [|[-> ?]]; [left; lia..|right; eauto].
Qed.

Section sort.
Context {A : Type} (leb : A -> A -> bool).
Let le (x y : A) : Prop := leb x y = true.

Lemma insert_by_perm x l : insert_by leb x l ≡ₚ x :: l.
Proof. induction l as [|y l IH]; simpl; [done|]. case_match; [done|]. rewrite IH. constructor. Qed.

Lemma sort_by_perm l : sort_by leb l ≡ₚ l.
Proof. induction l as [|x l IH]; simpl; [done|]. by rewrite insert_by_perm, IH. Qed.

Lemma length_sort_by l : length (sort_by leb l) = length l.
Proof. by rewrite sort_by_perm. Qed.

Lemma elem_of_sort_by x l : x ∈ sort_by leb l <-> x ∈ l.
Proof. by rewrite sort_by_perm. Qed.

Context (leb_total : forall x y, le x y \/ le y x).
Context (leb_trans : forall x y z, le x y -> le y z -> le x z).

Lemma insert_by_sorted x l :
  StronglySorted le l -> StronglySorted le (insert_by leb x l).
Proof.
  induction 1 as [|y l Hl IH Hy]; simpl; [by repeat constructor|].
  destruct (leb x y) eqn:E.
  - constructor; [by constructor|]. constructor; [done|].
    eapply Forall_impl; [exact Hy|]. intros z. by apply leb_trans.
  - constructor; [done|]. rewrite insert_by_perm. constructor; [|done].
    destruct (leb_total x y); unfold le in *; congruence.
Qed.

Lemma sort_by_sorted l : StronglySorted le (sort_by leb l).
Proof. induction l; simpl; [constructor|by apply insert_by_sorted]. Qed.

(** Sorting leaves a sorted list alone: the sort is stable. *)
Lemma sort_by_id l : StronglySorted le l -> sort_by leb l = l.
Proof.
  induction 1 as [|x l Hl IH Hx]; simpl; [done|]. rewrite IH.
  destruct Hx as [|y l' Hy]; [done|]. simpl. unfold le in Hy. by rewrite Hy.
Qed.

Lemma sort_by_idemp l : sort_by leb (sort_by leb l) = sort_by leb l.
Proof. apply sort_by_id, sort_by_sorted. Qed.

(** Sorting commutes with filtering. *)
Lemma sort_by_filter (q : A -> bool) l : sort_by leb (List.filter q l) = List.filter q (sort_by leb l).
Proof.
  assert (forall x k, StronglySorted le k -> List.filter q (insert_by leb x k) =
    if q x then insert_by leb x (List.filter q k) else List.filter q k) as Hins.
  { intros x k. induction 1 as [|y k Hk IH Hy]; simpl; [done|].
    destruct (leb x y) eqn:E; simpl.
    - destruct (q x); [|done]. destruct (q y); simpl; [by rewrite E|].
      destruct (List.filter q k) as [|z k'] eqn:Ez; [done|]. simpl.
      assert (z ∈ k) as Hz.
      { apply list_elem_of_In. apply (filter_In q). rewrite Ez. by left. }
      rewrite Forall_forall in Hy. assert (leb x z = true) as -> by (eapply leb_trans; [exact E|by apply Hy]).
      done.
    - rewrite IH. destruct (q x); [|done]. destruct (q y); simpl; [by rewrite E|done]. }
  induction l as [|x l IH]; simpl; [done|]. rewrite Hins by apply sort_by_sorted.
  destruct (q x); simpl; by rewrite IH.
Qed.

(** Two sorted lists with the same elements are equal, where the order
    separates the elements. *)
Lemma sorted_perm_unique l k :
  (forall x y, x ∈ l -> y ∈ l -> le x y -> le y x -> x = y) ->
  StronglySorted le l -> StronglySorted le k -> l ≡ₚ k -> l = k.
Proof.
  intros Hanti Hl. revert k Hanti. induction Hl as [|x l Hl IH Hx]; intros k Hanti Hk Hp.
  { symmetry in Hp. by apply Permutation_nil_r in Hp as ->. }
  destruct Hk as [|y k Hk Hy]; [by apply Permutation_nil_r in Hp|].
  assert (x = y) as ->.
  { rewrite Forall_forall in Hx, Hy.
    assert (y ∈ x :: l) as Hyl by (rewrite Hp; left).
    assert (x ∈ y :: k) as Hxk by (rewrite <- Hp; left).
    apply elem_of_cons in Hyl as [->|Hyl]; [done|].
    apply elem_of_cons in Hxk as [->|Hxk]; [done|].
    apply Hanti; [left|by right|by apply Hx|by apply Hy]. }
  f_equal. apply IH; [|done|by apply Permutation_cons_inv in Hp].
  intros a b Ha Hb. apply Hanti; by right.
Qed.
End sort.

Lemma sort_by_perm_eq {A} (leb : A -> A -> bool) l k :
  (forall x y, leb x y = true \/ leb y x = true) ->
  (forall x y z, leb x y = true -> leb y z = true -> leb x z = true) ->
  (forall x y, x ∈ l -> y ∈ l -> leb x y = true -> leb y x = true -> x = y) ->
  l ≡ₚ k -> sort_by leb l = sort_by leb k.
Proof.
  intros Htot Htr Hanti Hp. apply (sorted_perm_unique leb); auto using sort_by_sorted.
  - intros x y Hx Hy. apply Hanti; by rewrite <- (sort_by_perm leb).
  - by rewrite !sort_by_perm.
Qed.

(** Sorting commutes with a map that keeps the order. *)
Lemma sort_by_fmap {A B} (leb : B -> B -> bool) (leb' : A -> A -> bool) (f : A -> B) l :
  (forall x y, leb (f x) (f y) = leb' x y) -> sort_by leb (f <$> l) = f <$> sort_by leb' l.
Proof.
  intros Hf. induction l as [|x l IH]; [done|].
  change (insert_by leb (f x) (sort_by leb (f <$> l)) = f <$> insert_by leb' x (sort_by leb' l)).
  rewrite IH. clear IH. induction (sort_by leb' l) as [|y k IH]; csimpl; [done|].
  rewrite Hf. destruct (leb' x y); csimpl; [done|]. by rewrite IH.
Qed.

Section sort_Forall2.
Context {A B : Type} (R : A -> B -> Prop) (leb : A -> A -> bool) (leb' : B -> B -> bool).
Context (Hleb : forall x y x' y', R x y -> R x' y' -> leb x x' = leb' y y').

Lemma insert_by_Forall2 x y l k :
  R x y -> Forall2 R l k -> Forall2 R (insert_by leb x l) (insert_by leb' y k).
Proof.
  intros Hxy. induction 1 as [|x' y' l k Hxy' Hlk IH]; simpl; [by repeat constructor|].
  rewrite (Hleb x y x' y') by done. case_match; by repeat constructor.
Qed.

(** Sorting related lists by related orders gives related lists. *)
Lemma sort_by_Forall2 l k : Forall2 R l k -> Forall2 R (sort_by leb l) (sort_by leb' k).
Proof. induction 1; simpl; [constructor|by apply insert_by_Forall2]. Qed.
End sort_Forall2.

Lemma mapM_Forall2 {E A B C} (R : A -> B -> Prop) (f : A -> res E C) (g : B -> C) l k :
  (forall x y, y ∈ k -> R x y -> f x = Ok (g y)) -> Forall2 R l k -> mapM f l = Ok (g <$> k).
Proof.
  intros Hf. induction 1 as [|x y l k Hxy Hlk IH]; simpl; [done|].
  rewrite (Hf x y) by (done || left). simpl. rewrite IH; [done|]. intros. eapply Hf; [by right|done].
Qed.

(** ** Runs of the monad *)

Lemma bind_Ok {S E A B} (m : M S E A) (k : A -> M S E B) s b s' :
  (m ≫= k) s = (Ok b, s') <-> exists a s1, m s = (Ok a, s1) /\ k a s1 = (Ok b, s').
Proof.
  unfold mbind, M_bind. destruct (m s) as [[a|e|] s1]; [|naive_solver..].
  split; [eauto|]. intros (? & ? & [= -> ->] & ?). done.
Qed.

Lemma bind_run_Ok {S E A B} (m : M S E A) (k : A -> M S E B) s a s1 :
  m s = (Ok a, s1) -> (m ≫= k) s = k a s1.
Proof. unfold mbind, M_bind. by intros ->. Qed.

Lemma bind_run_Err {S E A B} (m : M S E A) (k : A -> M S E B) s e s1 :
  m s = (Err e, s1) -> (m ≫= k) s = (Err e, s1).
Proof. unfold mbind, M_bind. by intros ->. Qed.

Lemma mapM_run_Ok {S E A B} (f : A -> M S E B) l s ys s' :
  mapM f l s = (Ok ys, s') -> Forall2 (fun x y => exists s1 s2, f x s1 = (Ok y, s2)) l ys.
Proof.
  revert s ys s'. induction l as [|x l IH]; intros s ys s'; simpl; [by intros [= <- <-]|].
  intros (y & s1 & Hy & (ys1 & s2 & Hys & [= <- <-])%bind_Ok)%bind_Ok.
  constructor; [by exists s, s1|by eapply IH].
Qed.

Lemma lift_Ok {S E A} (r : res E A) (s : S) a s' :
  lift r s = (Ok a, s') <-> r = Ok a /\ s' = s.
Proof. unfold lift. naive_solver. Qed.

Lemma ret_Ok {S E A} (x : A) (s : S) a s' :
  (mret x : M S E A) s = (Ok a, s') <-> a = x /\ s' = s.
Proof. unfold mret, M_ret. naive_solver. Qed.

Lemma gets_Ok {S E A} (f : S -> A) (s : S) a s' :
  (gets f : M S E A) s = (Ok a, s') <-> a = f s /\ s' = s.
Proof. unfold gets. naive_solver. Qed.

Lemma modify_Ok {S E} (f : S -> S) (s : S) a s' :
  (modify f : M S E unit) s = (Ok a, s') <-> s' = f s.
Proof. unfold modify. destruct a. naive_solver. Qed.

Lemma attempt_Ok {S E F A} (m : M S E A) (s : S) (r : res E A) s' :
  (attempt m : M S F _) s = (Ok r, s') <-> m s = (r, s') /\ r <> Panic.
Proof. unfold attempt. destruct (m s) as [[]]; naive_solver. Qed.

Lemma map_err_Ok {E F A} (f : E -> F) (r : res E A) a : map_err f r = Ok a <-> r = Ok a.
Proof. destruct r; naive_solver. Qed.

Lemma ok_or_Ok {E A} (o : option A) (e : E) a : ok_or o e = Ok a <-> o = Some a.
Proof. destruct o; naive_solver. Qed.

Lemma res_bind_Ok {E A B} (r : res E A) (k : A -> res E B) b :
  (r ≫= k) = Ok b <-> exists a, r = Ok a /\ k a = Ok b.
Proof. destruct r; naive_solver. Qed.

Lemma res_ret_Ok {E A} (x a : A) : (mret x : res E A) = Ok a -> a = x.
Proof. by intros [= ->]. Qed.

Lemma guard_Ok {E} (b : bool) (e : E) u : guard b e = Ok u <-> b = true.
Proof. destruct b, u; naive_solver. Qed.

(** Take a successful run apart into the successful runs of its parts. *)
Ltac run_inv_with tac :=
  repeat match goal with
  | H : (_ ≫= _) _ = (Ok _, _) |- _ => apply bind_Ok in H as (? & ? & ? & ?)
  | H : lift _ _ = (Ok _, _) |- _ => apply lift_Ok in H as [? ?]
  | H : mret _ _ = (Ok _, _) |- _ => apply ret_Ok in H as [? ?]
  | H : gets _ _ = (Ok _, _) |- _ => apply gets_Ok in H as [? ?]
  | H : modify _ _ = (Ok _, _) |- _ => apply modify_Ok in H
  | H : attempt _ _ = (Ok _, _) |- _ => apply attempt_Ok in H as [? ?]
  | H : throw _ _ = (Ok _, _) |- _ => discriminate H
  | H : panic _ = (Ok _, _) |- _ => discriminate H
  | H : map_err _ _ = Ok _ |- _ => apply map_err_Ok in H
  | H : ok_or _ _ = Ok _ |- _ => apply ok_or_Ok in H
  | H : (_ ≫= _) = Ok _ |- _ => apply res_bind_Ok in H as (? & ? & ?)
  | H : guard _ _ = Ok _ |- _ => apply guard_Ok in H
  | H : mret _ = Ok _ |- _ => apply res_ret_Ok in H
  | H : (match ?x with _ => _ end) _ = (Ok _, _) |- _ => destruct x eqn:?
  | H : (match ?x with _ => _ end) = Ok _ |- _ => destruct x eqn:?
  | _ => progress simplify_eq
  | _ => progress tac
  end.
Ltac run_inv := run_inv_with ltac:(fail).

Section keeps.
Context {S E : Type} (R : relation S) `{!PreOrder R}.

Lemma keeps_ret {A} (a : A) : keeps R (mret a : M S E A).
Proof. intros s. simpl. reflexivity. Qed.
Lemma keeps_throw {A} (e : E) : keeps R (throw e : M S E A).
Proof. intros s. simpl. reflexivity. Qed.
Lemma keeps_panic {A} : keeps R (panic : M S E A).
Proof. intros s. simpl. reflexivity. Qed.
Lemma keeps_lift {A} (r : res E A) : keeps R (lift r : M S E A).
Proof. intros s. simpl. reflexivity. Qed.
Lemma keeps_gets {A} (f : S -> A) : keeps R (gets f : M S E A).
Proof. intros s. simpl. reflexivity. Qed.
Lemma keeps_modify f : (forall s, R s (f s)) -> keeps R (modify f : M S E unit).
Proof. intros H s. apply H. Qed.
Lemma keeps_bind {A B} (m : M S E A) (k : A -> M S E B) :
  keeps R m -> (forall a, keeps R (k a)) -> keeps R (m ≫= k).
Proof.
  intros Hm Hk s. specialize (Hm s). unfold mbind, M_bind.
  destruct (m s) as [[a|e|] s1]; simpl in *; [|done..]. etrans; [exact Hm|apply Hk].
Qed.
Lemma keeps_unless (b : bool) (m : M S E unit) : keeps R m -> keeps R (unless b m).
Proof. destruct b; [intros _; apply keeps_ret|done]. Qed.
Lemma keeps_attempt {F A} (m : M S F A) : keeps R m -> keeps R (attempt m : M S E (res F A)).
Proof. intros Hm s. specialize (Hm s). unfold attempt. by destruct (m s) as [[]]. Qed.
Lemma keeps_if {A} (b : bool) (m1 m2 : M S E A) :
  keeps R m1 -> keeps R m2 -> keeps R (if b then m1 else m2).
Proof. by destruct b. Qed.
Lemma keeps_mapM {A B} (f : A -> M S E B) l :
  (forall x, keeps R (f x)) -> keeps R (mapM f l).
Proof.
  intros Hf. induction l as [|x l IH]; simpl; [apply keeps_ret|].
  apply keeps_bind; [done|]. intros y. apply keeps_bind; [done|]. intros ys. apply keeps_ret.
Qed.
End keeps.

#[export] Instance inv_rel_preorder {S} (I : S -> Prop) : PreOrder (inv_rel I).
Proof. split; unfold inv_rel; repeat intro; auto. Qed.

(** What [m] keeps holds of each of its runs. *)
Lemma keeps_run {S E A} (R : relation S) (m : M S E A) s r s' : keeps R m -> m s = (r, s') -> R s s'.
Proof. intros Hm H. specialize (Hm s). by rewrite H in Hm. Qed.

Create HintDb keeps.
#[export] Hint Resolve keeps_ret keeps_throw keeps_panic keeps_lift keeps_gets : keeps.
#[export] Hint Extern 1 (PreOrder _) => typeclasses eauto : keeps.

(** Walk a computation down to its leaves, which are left to [tac]. *)
Ltac keeps_walk tac :=
  repeat first
    [ solve [eauto with keeps]
    | tac
    | apply keeps_bind; [typeclasses eauto| | intro]
    | apply keeps_attempt
    | apply keeps_mapM; [typeclasses eauto|intro]
    | apply keeps_unless; [typeclasses eauto|]
    | match goal with |- keeps _ (match ?x with _ => _ end) => destruct x eqn:? end
    | match goal with |- keeps _ (let '_ := ?x in _) => destruct x eqn:? end ].

(** ** Computations that do not panic *)

(** From a state in [P], [m] ends in a value or an error, and in [P] again. *)
Definition safe {S E A} (P : S -> Prop) (m : M S E A) : Prop :=
  forall s, P s -> (m s).1 <> Panic /\ P (m s).2.

Section safe.
Context {S E : Type} (P : S -> Prop).

Lemma safe_ret {A} (a : A) : safe P (mret a : M S E A).
Proof. by intros s. Qed.
Lemma safe_throw {A} (e : E) : safe P (throw e : M S E A).
Proof. by intros s. Qed.
Lemma safe_lift {A} (r : res E A) : r <> Panic -> safe P (lift r : M S E A).
Proof. by intros Hr s. Qed.
Lemma safe_gets {A} (f : S -> A) : safe P (gets f : M S E A).
Proof. by intros s. Qed.
Lemma safe_modify f : (forall s, P s -> P (f s)) -> safe P (modify f : M S E unit).
Proof. intros Hf s Hs. split; [done|by apply Hf]. Qed.
(** The continuation may rely on what [m] says about its result. *)
Lemma safe_bind_post {A B} (Q : A -> Prop) (m : M S E A) (k : A -> M S E B) :
  (forall s a s', m s = (Ok a, s') -> P s -> Q a) ->
  safe P m -> (forall a, Q a -> safe P (k a)) -> safe P (m ≫= k).
Proof.
  intros HQ Hm Hk s Hs. unfold mbind, M_bind. destruct (Hm s Hs) as [Hr Hp].
  destruct (m s) as [[a|e|] s1] eqn:E1; simpl in *; [|done..]. apply Hk; eauto.
Qed.
Lemma safe_bind {A B} (m : M S E A) (k : A -> M S E B) :
  safe P m -> (forall a, safe P (k a)) -> safe P (m ≫= k).
Proof. intros Hm Hk. apply (safe_bind_post (fun _ => True)); auto. Qed.
Lemma safe_attempt {F A} (m : M S F A) : safe P m -> safe P (attempt m : M S E (res F A)).
Proof. intros Hm s Hs. destruct (Hm s Hs). unfold attempt. by destruct (m s) as [[] ?]. Qed.
Lemma safe_unless (b : bool) (m : M S E unit) : safe P m -> safe P (unless b m).
Proof. destruct b; [intros _; apply safe_ret|done]. Qed.
Lemma safe_mapM {A B} (f : A -> M S E B) l : (forall x, safe P (f x)) -> safe P (mapM f l).
Proof.
  intros Hf. induction l as [|x l IH]; simpl; [apply safe_ret|].
  apply safe_bind; [done|]. intros y. apply safe_bind; [done|]. intros ys. apply safe_ret.
Qed.
Lemma safe_keeps {A} (m : M S E A) :
  keeps (inv_rel P) m -> (forall s, P s -> (m s).1 <> Panic) -> safe P m.
Proof. intros Hk Hm s Hs. split; [by apply Hm|by apply Hk]. Qed.
End safe.

(** Pure steps that do not panic. *)
Lemma res_bind_safe {E A B} (r : res E A) (k : A -> res E B) :
  r <> Panic -> (forall a, r = Ok a -> k a <> Panic) -> (r ≫= k) <> Panic.
Proof. intros Hr Hk. destruct r; simpl; auto. Qed.
Lemma ok_or_safe {E A} (o : option A) (e : E) : ok_or o e <> Panic.
Proof. by destruct o. Qed.
Lemma guard_safe {E} (b : bool) (e : E) : guard b e <> Panic.
Proof. by destruct b. Qed.
Lemma map_err_safe {E F A} (f : E -> F) (r : res E A) : r <> Panic -> map_err f r <> Panic.
Proof. by destruct r. Qed.

Create HintDb safe.
#[export] Hint Resolve safe_ret safe_throw safe_gets ok_or_safe guard_safe map_err_safe : safe.

(** Walk a pure or a stateful computation down to its leaves. *)
Ltac safe_walk tac :=
  repeat first
    [ solve [eauto with safe]
    | discriminate
    | tac
    | apply safe_bind; [|intro]
    | apply safe_lift
    | apply safe_attempt
    | apply safe_mapM; intro
    | apply safe_unless
    | apply res_bind_safe; [|intros ? ?]
    | apply map_err_safe
    | match goal with |- safe _ (match ?x with _ => _ end) => destruct x eqn:? end
    | match goal with |- (match ?x with _ => _ end) <> _ => destruct x eqn:? end ].

