(* ===== verification/Hid.v ===== *)
(** The virtual HID device of [src/src/hid.rs]: the report size shared by the
    framing layer, the FIDO report descriptor and the device identity handed to
    UHID. The descriptor is read back by a small item parser, which states what
    the descriptor declares to the host. *)
From Stdlib Require Import ZArith Lia String.
From stdpp Require Import base list option strings.
From S2P Require Import Prelude.

#[local] Open Scope Z_scope.

Module Hid.

Definition REPORT_SIZE : nat := 64.
Definition FIDO_USAGE_PAGE : Z := 0xf1d0.
Definition FIDO_USAGE_CTAPHID : Z := 0x01.
Definition VENDOR_ID : Z := 0x1209.
Definition PRODUCT_ID : Z := 0xf1d0.

Definition FIDO_REPORT_DESCRIPTOR : bytes :=
  [ 0x06; 0xd0; 0xf1; 0x09; 0x01; 0xa1; 0x01;
    0x09; 0x20; 0x15; 0x00; 0x26; 0xff; 0x00; 0x75; 0x08; 0x95; 0x40; 0x81; 0x02;
    0x09; 0x21; 0x15; 0x00; 0x26; 0xff; 0x00; 0x75; 0x08; 0x95; 0x40; 0x91; 0x02;
    0xc0 ].

Inductive Bus := USB | Bluetooth.

Record CreateParams := {
  name : string; phys : string; uniq : string; bus : Bus;
  vendor : Z; product : Z; version : Z; country : Z; rd_data : bytes }.

Definition create_params : CreateParams :=
  {| name := "Linux TPM FIDO2"; phys := "linux-tpm-fido2/uhid";
     uniq := "linux-tpm-fido2-dev"; bus := USB;
     vendor := VENDOR_ID; product := PRODUCT_ID; version := 1; country := 0;
     rd_data := FIDO_REPORT_DESCRIPTOR |}.

(** *** Reading a report descriptor

    HID short items: the prefix byte holds the tag and type in its upper six
    bits and the number of little-endian data bytes (0, 1, 2 or 4) in the lower
    two. *)
Definition item_size (prefix : Z) : nat :=
  match Z.land prefix 3 with 0 => 0%nat | 1 => 1%nat | 2 => 2%nat | _ => 4%nat end.

Fixpoint parse_items (fuel : nat) (d : bytes) : option (list (Z * Z)) :=
  match fuel, d with
  | _, [] => Some []
  | O, _ => None
  | S fuel, p :: d =>
      let n := item_size p in
      if (length d <? n)%nat then None
      else rest ← parse_items fuel (drop n d);
           Some ((Z.land p 0xfc, be_val (reverse (take n d))) :: rest)
  end.

(** A report field of the descriptor: the usage, size and count in force at an
    Input (0x80) or Output (0x90) item. *)
Inductive direction := Input | Output.

Record field := { f_dir : direction; f_page : Z; f_usage : Z; f_bits : Z; f_count : Z }.

Record globals := { g_page : Z; g_usage : Z; g_bits : Z; g_count : Z }.

Fixpoint fields (g : globals) (items : list (Z * Z)) : list field :=
  match items with
  | [] => []
  | (tag, v) :: rest =>
      let emit d := {| f_dir := d; f_page := g_page g; f_usage := g_usage g;
                       f_bits := g_bits g; f_count := g_count g |} in
      if tag =? 0x04 then fields {| g_page := v; g_usage := g_usage g; g_bits := g_bits g; g_count := g_count g |} rest
      else if tag =? 0x08 then fields {| g_page := g_page g; g_usage := v; g_bits := g_bits g; g_count := g_count g |} rest
      else if tag =? 0x74 then fields {| g_page := g_page g; g_usage := g_usage g; g_bits := v; g_count := g_count g |} rest
      else if tag =? 0x94 then fields {| g_page := g_page g; g_usage := g_usage g; g_bits := g_bits g; g_count := v |} rest
      else if tag =? 0x80 then emit Input :: fields g rest
      else if tag =? 0x90 then emit Output :: fields g rest
      else fields g rest
  end.

Definition report_fields (d : bytes) : option (list field) :=
  fields {| g_page := 0; g_usage := 0; g_bits := 0; g_count := 0 |} <$> parse_items (length d) d.

Definition field_bytes (f : field) : Z := f_bits f * f_count f / 8.

(** The descriptor handed to UHID declares one Input and one Output field of
    the FIDO usage page, each as long as the reports of the framing layer. *)
Lemma descriptor_declares_reports :
  exists i o, report_fields (rd_data create_params) = Some [i; o] /\
    f_dir i = Input /\ f_dir o = Output /\
    f_page i = FIDO_USAGE_PAGE /\ f_page o = FIDO_USAGE_PAGE /\
    field_bytes i = Z.of_nat REPORT_SIZE /\ field_bytes o = Z.of_nat REPORT_SIZE.
Proof. eexists _, _. split; [vm_compute; reflexivity|]. by vm_compute. Qed.

End Hid.
