(* ===== verification/CtapHid.v ===== *)
(** CTAPHID framing: [src/src/ctaphid.rs]. Reports of 64 bytes are assembled
    per channel into messages, which are dispatched to the authenticator, and
    responses are cut into reports again.

    The authenticator is a client of this file through the class
    [AuthenticatorOps]; the theorems hold for every implementation of it. *)
From Stdlib Require Import ZArith Lia String.
From stdpp Require Import base list option gmap strings.
From S2P Require Import Prelude Hid.

#[local] Open Scope Z_scope.

Import Hid.

(** What the framing layer calls: [ctap2::Authenticator::handle_cbor],
    [cancel_pending] and [handle_tpm_command]. [handle_cbor] always returns a
    response, unless it panics. *)
Class AuthenticatorOps (A C : Type) := {
  ao_handle_cbor : bytes -> M A Empty_set bytes;
  ao_cancel_pending : A -> A;
  ao_handle_tpm_command : C -> M A string unit }.

Module CtapHid.

Definition BROADCAST_CID : Z := 0xffffffff.

Inductive CtapHidCommand := Ping | Init | Wink | Cbor | Cancel | Error.

#[export] Instance CtapHidCommand_eq_dec : EqDecision CtapHidCommand.
Proof. solve_decision. Defined.

Definition from_byte (b : Z) : option CtapHidCommand :=
  match b with
  | 0x01 => Some Ping
  | 0x06 => Some Init
  | 0x08 => Some Wink
  | 0x10 => Some Cbor
  | 0x11 => Some Cancel
  | 0x3f => Some Error
  | _ => None
  end.

Definition byte (c : CtapHidCommand) : Z :=
  match c with
  | Ping => 0x01 | Init => 0x06 | Wink => 0x08 | Cbor => 0x10 | Cancel => 0x11 | Error => 0x3f
  end.

Definition TYPE_INIT : Z := 0x80.

Inductive CtapHidError := ErrCommand | ErrLength | ErrSeq.

Definition error_code (e : CtapHidError) : Z :=
  match e with ErrCommand => 0x01 | ErrLength => 0x03 | ErrSeq => 0x04 end.

Definition CAPABILITY_CBOR : Z := 0x04.
Definition CAPABILITY_NMSG : Z := 0x08.

Definition MAX_PAYLOAD_SIZE : nat := (REPORT_SIZE - 7) + 128 * (REPORT_SIZE - 5).

Record PendingRequest := {
  p_cid : Z;
  p_command : CtapHidCommand;
  p_expected_len : nat;
  p_payload : bytes;
  p_next_sequence : Z }.

Record Response := { r_cid : Z; r_command : CtapHidCommand; r_payload : bytes }.

Inductive PacketOutcome := NeedMore | Respond (r : Response).

Definition error (cid : Z) (code : CtapHidError) : Response :=
  {| r_cid := cid; r_command := Error; r_payload := [error_code code] |}.

Definition handle_init (cid allocated_cid : Z) (payload : bytes) : Response :=
  if negb (length payload =? 8)%nat then error cid ErrLength
  else {| r_cid := cid; r_command := Init;
          r_payload := payload ++ be_bytes 4 allocated_cid ++ [2] ++ [0; 1; 0]
                       ++ [Z.lor CAPABILITY_CBOR CAPABILITY_NMSG] |}.

Section handler.
Context {A C : Type} `{!AuthenticatorOps A C}.

Record PacketHandler := {
  pending : gmap Z PendingRequest;
  next_cid : Z;
  authenticator : A }.

Definition set_pending (p : gmap Z PendingRequest) (h : PacketHandler) : PacketHandler :=
  {| pending := p; next_cid := next_cid h; authenticator := authenticator h |}.
Definition set_next_cid (n : Z) (h : PacketHandler) : PacketHandler :=
  {| pending := pending h; next_cid := n; authenticator := authenticator h |}.
Definition set_authenticator (a : A) (h : PacketHandler) : PacketHandler :=
  {| pending := pending h; next_cid := next_cid h; authenticator := a |}.

(** [PacketHandler::new], given the authenticator it creates. *)
Definition new (a : A) : PacketHandler :=
  {| pending := ∅; next_cid := 1; authenticator := a |}.

(** Run an authenticator method on the [authenticator] field. *)
Definition on_authenticator {E T} (m : M A E T) : M PacketHandler E T := fun h =>
  let '(r, a) := m (authenticator h) in (r, set_authenticator a h).

Definition handle_tpm_command (c : C) : M PacketHandler string unit :=
  on_authenticator (ao_handle_tpm_command c).

(** The channel allocated by an INIT, with the state after the allocation. *)
Definition allocate_cid (cid : Z) (h : PacketHandler) : Z * PacketHandler :=
  if cid =? BROADCAST_CID then
    let h := if next_cid h =? 0 then set_next_cid 1 h else h in
    let allocated := next_cid h in
    (allocated, set_next_cid (Z.max (u32 (next_cid h + 1)) 1) h)
  else (cid, h).

Definition dispatch (cid : Z) (command : CtapHidCommand) (payload : bytes)
    : M PacketHandler Empty_set Response := fun h =>
  match command with
  | Init =>
      let '(allocated_cid, h) := allocate_cid cid h in
      (Ok (handle_init cid allocated_cid payload), h)
  | Ping => (Ok {| r_cid := cid; r_command := Ping; r_payload := payload |}, h)
  | Wink => (Ok {| r_cid := cid; r_command := Wink; r_payload := [] |}, h)
  | Cbor =>
      (p ← on_authenticator (ao_handle_cbor payload);
       mret {| r_cid := cid; r_command := Cbor; r_payload := p |}) h
  | Cancel =>
      let h := set_pending (delete cid (pending h)) h in
      let h := set_authenticator (ao_cancel_pending (authenticator h)) h in
      (Ok (error cid ErrCommand), h)
  | Error => (Ok (error cid ErrCommand), h)
  end.

Definition respond (m : M PacketHandler Empty_set Response)
    : M PacketHandler Empty_set (option PacketOutcome) :=
  r ← m; mret (Some (Respond r)).

Definition handle_init_packet (cid command_id : Z) (report : bytes)
    : M PacketHandler Empty_set (option PacketOutcome) := fun h =>
  let payload_len := Z.to_nat (be_val [report !!! 5%nat; report !!! 6%nat]) in
  if (MAX_PAYLOAD_SIZE <? payload_len)%nat then
    (Ok (Some (Respond (error cid ErrLength))), set_pending (delete cid (pending h)) h)
  else match from_byte command_id with
  | None => (Ok (Some (Respond (error cid ErrCommand))), h)
  | Some command =>
      let first_len := Nat.min payload_len (REPORT_SIZE - 7) in
      let payload := slice 7 (7 + first_len) report in
      if (length payload =? payload_len)%nat then
        respond (dispatch cid command payload) (set_pending (delete cid (pending h)) h)
      else
        let p := {| p_cid := cid; p_command := command; p_expected_len := payload_len;
                    p_payload := payload; p_next_sequence := 0 |} in
        (Ok (Some NeedMore), set_pending (<[cid := p]> (pending h)) h)
  end.

Definition handle_continuation_packet (cid sequence : Z) (report : bytes)
    : M PacketHandler Empty_set (option PacketOutcome) := fun h =>
  match pending h !! cid with
  | None => (Ok None, h)
  | Some p =>
      if negb (p_cid p =? cid) || negb (p_next_sequence p =? sequence) then
        (Ok (Some (Respond (error (p_cid p) ErrSeq))), set_pending (delete cid (pending h)) h)
      else
        let remaining := (p_expected_len p - length (p_payload p))%nat in
        let chunk_len := Nat.min remaining (REPORT_SIZE - 5) in
        let payload := p_payload p ++ slice 5 (5 + chunk_len) report in
        if (length payload =? p_expected_len p)%nat then
          respond (dispatch (p_cid p) (p_command p) payload)
            (set_pending (delete cid (pending h)) h)
        else
          let p' := {| p_cid := p_cid p; p_command := p_command p;
                       p_expected_len := p_expected_len p; p_payload := payload;
                       p_next_sequence := u8 (p_next_sequence p + 1) |} in
          (Ok (Some NeedMore), set_pending (<[cid := p']> (pending h)) h)
  end.

Definition handle_packet (report : bytes) : M PacketHandler Empty_set (option PacketOutcome) :=
  if negb (length report =? REPORT_SIZE)%nat then mret None
  else
    let cid := be_val (slice 0 4 report) in
    let packet_type := report !!! 4%nat in
    if negb (Z.land packet_type TYPE_INIT =? 0) then
      handle_init_packet cid (Z.land packet_type (Z.lxor TYPE_INIT 0xff)) report
    else handle_continuation_packet cid packet_type report.
End handler.
Arguments PacketHandler : clear implicits.

(** *** Cutting a response into reports *)

Definition zero_report : bytes := replicate REPORT_SIZE 0.

Definition first_packet (cid : Z) (command : CtapHidCommand) (payload : bytes) : bytes :=
  let first := copy_at 0 (be_bytes 4 cid) zero_report in
  let first := <[4%nat := Z.lor (byte command) TYPE_INIT]> first in
  let first := copy_at 5 (be_bytes 2 (u16 (Z.of_nat (length payload)))) first in
  let first_len := Nat.min (length payload) (REPORT_SIZE - 7) in
  copy_at 7 (take first_len payload) first.

Definition continuation_packet (cid sequence : Z) (chunk : bytes) : bytes :=
  let continuation := copy_at 0 (be_bytes 4 cid) zero_report in
  let continuation := <[4%nat := sequence]> continuation in
  copy_at 5 chunk continuation.

(** The loop [while offset < payload.len()], on the rest of the payload. One
    iteration consumes at least one byte, so [fuel = length rest] is enough. *)
Fixpoint continuation_packets (fuel : nat) (cid sequence : Z) (rest : bytes) : list bytes :=
  match fuel, rest with
  | _, [] => []
  | O, _ => []
  | S fuel, _ =>
      let chunk_len := Nat.min (length rest) (REPORT_SIZE - 5) in
      continuation_packet cid sequence (take chunk_len rest)
      :: continuation_packets fuel cid (u8 (sequence + 1)) (drop chunk_len rest)
  end.

Definition encode_message (cid : Z) (command : CtapHidCommand) (payload : bytes) : list bytes :=
  let rest := drop (Nat.min (length payload) (REPORT_SIZE - 7)) payload in
  first_packet cid command payload :: continuation_packets (length rest) cid 0 rest.

Definition packets (r : Response) : list bytes :=
  encode_message (r_cid r) (r_command r) (r_payload r).

Definition command_name (c : CtapHidCommand) : string :=
  match c with
  | Ping => "PING" | Init => "INIT" | Wink => "WINK"
  | Cbor => "CBOR" | Cancel => "CANCEL" | Error => "ERROR"
  end.

(** *** Runs of the handler *)

(** The channel a report belongs to. *)
Definition chan (report : bytes) : Z := be_val (slice 0 4 report).

Section runs.
Context {A C : Type} `{!AuthenticatorOps A C}.

(** [runs h rs h']: the handler processes the reports [rs] in order without
    panicking, from [h] to [h']. *)
Inductive runs (h : PacketHandler A) : list bytes -> PacketHandler A -> Prop :=
| runs_nil : runs h [] h
| runs_snoc rs r o h1 h2 :
    runs h rs h1 -> handle_packet r h1 = (Ok o, h2) -> runs h (rs ++ [r]) h2.

(** The invariant of the assembly table. *)
Definition wf_pending (cid : Z) (p : PendingRequest) : Prop :=
  p_cid p = cid /\ 0 <= p_next_sequence p <= 127 /\
  length (p_payload p) = (57 + 59 * Z.to_nat (p_next_sequence p))%nat /\
  (length (p_payload p) < p_expected_len p <= MAX_PAYLOAD_SIZE)%nat.

Definition wf (h : PacketHandler A) : Prop :=
  map_Forall wf_pending (pending h) /\ 1 <= next_cid h <= u32_max.

(** The channel [cid] has received the first [k + 1] reports of a message. *)
Definition partial (cid : Z) (c : CtapHidCommand) (payload : bytes) (k : nat)
    (h : PacketHandler A) : Prop :=
  pending h !! cid = Some {|
    p_cid := cid; p_command := c; p_expected_len := length payload;
    p_payload := take (57 + 59 * k) payload; p_next_sequence := Z.of_nat k |}.

(** [n] channel allocations in a row. *)
Fixpoint allocations (n : nat) (h : PacketHandler A) : list Z :=
  match n with
  | O => []
  | S n => let '(c, h) := allocate_cid BROADCAST_CID h in c :: allocations n h
  end.
End runs.

(** The report number of the last report of a message of [n] bytes. *)
Definition last_report (n : nat) : nat := if (n <=? 57)%nat then 0 else (n - 57 + 58) / 59.

(** *** Shape of the reports *)

Lemma from_byte_byte c : from_byte (byte c) = Some c.
Proof. by destruct c. Qed.

Lemma copy_at_body (hdr chunk : bytes) n k :
  length hdr = k ->
  copy_at k chunk (hdr ++ replicate n 0) = hdr ++ chunk ++ replicate (n - length chunk) 0.
Proof.
  intros <-. unfold copy_at. rewrite take_app_length, drop_app_add.
  by rewrite drop_replicate.
Qed.

Lemma first_packet_eq cid c payload :
  first_packet cid c payload =
    (be_bytes 4 cid ++ [Z.lor (byte c) TYPE_INIT]
     ++ be_bytes 2 (u16 (Z.of_nat (length payload))))
    ++ take 57 payload ++ replicate (57 - length payload) 0.
Proof.
  unfold first_packet. cbv zeta. change (REPORT_SIZE - 7)%nat with 57%nat.
  replace (take (Nat.min (length payload) 57) payload) with (take 57 payload)
    by (destruct (Nat.min_spec (length payload) 57) as [[? ->]|[? ->]];
        [by rewrite !take_ge by lia|done]).
  replace (57 - length payload)%nat with (57 - length (take 57 payload))%nat
    by (rewrite length_take; lia).
  symmetry. rewrite <- (copy_at_body _ _ 57 7) by reflexivity. reflexivity.
Qed.

Lemma continuation_packet_eq cid sequence chunk :
  continuation_packet cid sequence chunk =
    (be_bytes 4 cid ++ [sequence]) ++ chunk ++ replicate (59 - length chunk) 0.
Proof. symmetry. rewrite <- (copy_at_body _ _ 59 5) by reflexivity. reflexivity. Qed.

Lemma length_first_packet cid c payload : length (first_packet cid c payload) = REPORT_SIZE.
Proof.
  rewrite first_packet_eq, !length_app, length_take, length_replicate, !length_be_bytes.
  unfold REPORT_SIZE. cbn [length]. lia.
Qed.

Lemma length_continuation_packet cid sequence chunk :
  (length chunk <= 59)%nat -> length (continuation_packet cid sequence chunk) = REPORT_SIZE.
Proof.
  intros. rewrite continuation_packet_eq, !length_app, length_replicate, length_be_bytes.
  unfold REPORT_SIZE. cbn [length]. lia.
Qed.

(** A report is a header of [4 + 1] bytes and a body. *)
Lemma chan_app cid (l : bytes) : 0 <= cid < 2 ^ 32 -> chan (be_bytes 4 cid ++ l) = cid.
Proof.
  intros. unfold chan. rewrite (slice_app_l (be_bytes 4 cid)).
  by apply be_val_to_be_bytes.
Qed.

Lemma chan_first_packet cid c payload :
  0 <= cid < 2 ^ 32 -> chan (first_packet cid c payload) = cid.
Proof. intros. rewrite first_packet_eq, <- !(assoc_L (++)). by apply chan_app. Qed.

Lemma chan_continuation_packet cid sequence chunk :
  0 <= cid < 2 ^ 32 -> chan (continuation_packet cid sequence chunk) = cid.
Proof. intros. rewrite continuation_packet_eq, <- !(assoc_L (++)). by apply chan_app. Qed.

Lemma sequence_not_init z : 0 <= z < 128 -> Z.land z TYPE_INIT = 0.
Proof.
  intros Hz. apply Z.bits_inj'. intros n Hn. unfold TYPE_INIT. change 0x80 with (2 ^ 7).
  rewrite Z.land_spec, Z.bits_0, Z.pow2_bits_eqb by lia.
  destruct (Z.eqb_spec 7 n) as [<-|]; [|apply andb_false_r].
  rewrite Z.testbit_eqb, Z.div_small by lia. done.
Qed.

(** Reading back the fields of a first report. *)
Lemma first_packet_fields cid c payload :
  (length payload <= MAX_PAYLOAD_SIZE)%nat ->
  let r := first_packet cid c payload in
  r !!! 4%nat = Z.lor (byte c) TYPE_INIT /\
  Z.to_nat (be_val [r !!! 5%nat; r !!! 6%nat]) = length payload /\
  slice 7 (7 + Nat.min (length payload) 57) r = take 57 payload.
Proof.
  intros Hlen. unfold MAX_PAYLOAD_SIZE, REPORT_SIZE in Hlen. cbv zeta.
  rewrite first_packet_eq. split_and!.
  - reflexivity.
  - change (be_val _) with (be_val (be_bytes 2 (u16 (Z.of_nat (length payload))))).
    rewrite be_val_be_bytes. unfold u16. change (256 ^ Z.of_nat 2) with 65536.
    change (2 ^ 16) with 65536. rewrite Z.mod_mod, Z.mod_small; lia.
  - unfold slice. rewrite drop_app_length' by reflexivity.
    replace (7 + Nat.min (length payload) 57 - 7)%nat with (Nat.min (length payload) 57) by lia.
    rewrite take_app_le by (rewrite length_take; lia).
    destruct (Nat.le_gt_cases (length payload) 57).
    + rewrite Nat.min_l, !take_ge; rewrite ?length_take; lia || done.
    + by rewrite Nat.min_r, take_take by lia.
Qed.

Section assembly.
Context {A C : Type} `{!AuthenticatorOps A C}.
Implicit Types h : PacketHandler A.

Lemma handle_packet_first cid c payload h :
  0 <= cid < 2 ^ 32 -> (length payload <= MAX_PAYLOAD_SIZE)%nat ->
  handle_packet (first_packet cid c payload) h =
    if (length payload <=? 57)%nat then
      respond (dispatch cid c payload) (set_pending (delete cid (pending h)) h)
    else (Ok (Some NeedMore), set_pending (<[cid := {|
      p_cid := cid; p_command := c; p_expected_len := length payload;
      p_payload := take 57 payload; p_next_sequence := 0 |}]> (pending h)) h).
Proof.
  intros Hcid Hlen. destruct (first_packet_fields cid c payload Hlen) as (H4 & H56 & Hs).
  unfold handle_packet. rewrite length_first_packet, Nat.eqb_refl. cbn [negb].
  fold (chan (first_packet cid c payload)). rewrite chan_first_packet, H4 by done.
  replace (Z.land (Z.lor (byte c) TYPE_INIT) TYPE_INIT =? 0) with false by (by destruct c).
  replace (Z.land (Z.lor (byte c) TYPE_INIT) (Z.lxor TYPE_INIT 255)) with (byte c) by (by destruct c).
  cbn [negb]. unfold handle_init_packet. rewrite H56, (proj2 (Nat.ltb_ge _ _)) by done.
  rewrite from_byte_byte. change (REPORT_SIZE - 7)%nat with 57%nat. rewrite Hs, length_take.
  destruct (Nat.leb_spec (length payload) 57).
  - rewrite Nat.min_r, Nat.eqb_refl by lia. by rewrite take_ge.
  - rewrite Nat.min_l by lia. by rewrite (proj2 (Nat.eqb_neq _ _)) by lia.
Qed.

Lemma handle_packet_cont cid c payload k h :
  0 <= cid < 2 ^ 32 -> (k < 128)%nat -> (57 + 59 * k < length payload)%nat ->
  partial cid c payload k h ->
  handle_packet (continuation_packet cid (Z.of_nat k) (take 59 (drop (57 + 59 * k) payload))) h =
    if (length payload <=? 57 + 59 * S k)%nat then
      respond (dispatch cid c payload) (set_pending (delete cid (pending h)) h)
    else (Ok (Some NeedMore), set_pending (<[cid := {|
      p_cid := cid; p_command := c; p_expected_len := length payload;
      p_payload := take (57 + 59 * S k) payload; p_next_sequence := Z.of_nat (S k) |}]> (pending h)) h).
Proof.
  intros Hcid Hk Hlen Hp. set (chunk := take 59 (drop (57 + 59 * k) payload)).
  assert (length chunk = Nat.min 59 (length payload - (57 + 59 * k))) as Hchunk
    by (unfold chunk; by rewrite length_take, length_drop).
  unfold handle_packet. rewrite length_continuation_packet, Nat.eqb_refl by lia. cbn [negb].
  fold (chan (continuation_packet cid (Z.of_nat k) chunk)).
  rewrite chan_continuation_packet by done.
  change (continuation_packet cid (Z.of_nat k) chunk !!! 4%nat) with (Z.of_nat k).
  rewrite sequence_not_init by lia. cbn [Z.eqb negb].
  unfold handle_continuation_packet. rewrite Hp. cbn [p_cid p_next_sequence p_expected_len p_payload p_command].
  rewrite !Z.eqb_refl. cbn [negb orb]. rewrite length_take, (Nat.min_l (57 + 59 * k)) by lia.
  change (REPORT_SIZE - 5)%nat with 59%nat.
  replace (slice 5 _ _) with chunk; cycle 1.
  { rewrite continuation_packet_eq. unfold slice.
    rewrite drop_app_length' by reflexivity. rewrite take_app_le, take_ge by lia. done. }
  unfold chunk. rewrite take_take_drop.
  replace (57 + 59 * k + 59)%nat with (57 + 59 * S k)%nat by lia.
  rewrite length_take. destruct (Nat.leb_spec (length payload) (57 + 59 * S k)).
  - rewrite Nat.min_r, Nat.eqb_refl by lia. by rewrite take_ge.
  - rewrite Nat.min_l, (proj2 (Nat.eqb_neq _ _)) by lia. do 5 f_equal.
    unfold u8. rewrite Z.mod_small; lia.
Qed.

(** A report only touches the assembly state of its own channel. *)
Lemma dispatch_pending cid c payload h :
  pending (dispatch cid c payload h).2 = pending h \/
  pending (dispatch cid c payload h).2 = delete cid (pending h).
Proof.
  destruct c; simpl; auto; unfold allocate_cid, on_authenticator, mbind, M_bind.
  - repeat case_match; simplify_eq/=; auto.
  - destruct (ao_handle_cbor payload (authenticator h)) as [[]]; simpl; auto.
Qed.

Lemma respond_state (m : M (PacketHandler A) Empty_set Response) h :
  (respond m h).2 = (m h).2.
Proof. unfold respond, mbind, M_bind. by destruct (m h) as [[]]. Qed.

Lemma respond_dispatch_other cid c payload h cid' :
  cid' <> cid -> pending (respond (dispatch cid c payload) h).2 !! cid' = pending h !! cid'.
Proof.
  intros. rewrite respond_state.
  destruct (dispatch_pending cid c payload h) as [->| ->]; [done|by rewrite lookup_delete_ne].
Qed.

Lemma handle_packet_other report h cid :
  (forall c p, pending h !! c = Some p -> p_cid p = c) ->
  chan report <> cid -> pending (handle_packet report h).2 !! cid = pending h !! cid.
Proof.
  intros Hp Hc. unfold handle_packet. fold (chan report).
  destruct (negb _); [done|]. destruct (negb _).
  - unfold handle_init_packet. repeat case_match; simpl;
      rewrite ?respond_dispatch_other by done; simpl;
      by rewrite ?lookup_delete_ne, ?lookup_insert_ne by done.
  - unfold handle_continuation_packet.
    destruct (pending h !! chan report) as [p|] eqn:E; [|done].
    apply Hp in E. repeat case_match; simpl;
      rewrite ?respond_dispatch_other by congruence; simpl;
      by rewrite ?lookup_delete_ne, ?lookup_insert_ne by done.
Qed.

(** The invariant is kept by every report, whatever its bytes. *)
Lemma wf_dispatch cid c payload h : wf h -> wf (dispatch cid c payload h).2.
Proof.
  intros [Hp Hn]. split.
  - destruct (dispatch_pending cid c payload h) as [->| ->]; [done|].
    by apply map_Forall_delete.
  - unfold u32_max in *. destruct c; simpl; auto; unfold allocate_cid, on_authenticator, mbind, M_bind.
    + assert (forall n, 1 <= Z.max (u32 n) 1 <= 2 ^ 32 - 1) as Hmax.
      { intros n. unfold u32. pose proof (Z.mod_pos_bound n (2 ^ 32) ltac:(lia)). lia. }
      repeat case_match; simplify_eq/=; auto.
    + by destruct (ao_handle_cbor payload (authenticator h)) as [[]].
Qed.

Lemma wf_set_pending h m :
  wf h -> map_Forall wf_pending m -> wf (set_pending m h).
Proof. intros [??] ?. by split. Qed.

Lemma wf_delete h cid : wf h -> wf (set_pending (delete cid (pending h)) h).
Proof. intros H. apply wf_set_pending; [done|]. apply map_Forall_delete, H. Qed.

Lemma wf_insert h cid p :
  wf h -> wf_pending cid p -> wf (set_pending (<[cid := p]> (pending h)) h).
Proof. intros H ?. apply wf_set_pending; [done|]. apply map_Forall_insert_2; [done|apply H]. Qed.

Lemma wf_new (a : A) : wf (new a).
Proof. split; [apply map_Forall_empty|]. unfold u32_max. simpl. lia. Qed.

Lemma wf_continuation cid sequence report h :
  wf h -> length report = REPORT_SIZE -> wf (handle_continuation_packet cid sequence report h).2.
Proof.
  intros Hwf Hlen. unfold handle_continuation_packet.
  destruct (pending h !! cid) as [p|] eqn:E; [|done].
  destruct (proj1 Hwf _ _ E) as (Hc & Hs & Hpl & Hexp).
  destruct (_ || _) eqn:Hb; [by apply wf_delete|]. bools.
  change (REPORT_SIZE - 5)%nat with 59%nat. unfold REPORT_SIZE in Hlen.
  case_match eqn:Hend.
  { rewrite respond_state. by apply wf_dispatch, wf_delete. }
  apply wf_insert; [done|]. rewrite Nat.eqb_neq, length_app, length_slice in Hend by lia.
  unfold wf_pending, MAX_PAYLOAD_SIZE, REPORT_SIZE, u8 in *. cbn [p_cid p_next_sequence p_payload p_expected_len].
  rewrite length_app, length_slice by lia.
  destruct (Nat.min_spec (p_expected_len p - length (p_payload p)) 59) as [[? Hm]|[? Hm]];
    rewrite Hm in *; [lia|].
  rewrite Z.mod_small by lia. rewrite Z2Nat.inj_add by lia. lia.
Qed.

Lemma wf_init cid command_id report h :
  wf h -> length report = REPORT_SIZE -> wf (handle_init_packet cid command_id report h).2.
Proof.
  intros Hwf Hlen. unfold handle_init_packet. case_match eqn:Hmax; [by apply wf_delete|].
  destruct (from_byte command_id) as [c|]; [|done]. case_match eqn:Hend.
  { rewrite respond_state. by apply wf_dispatch, wf_delete. }
  apply wf_insert; [done|]. unfold wf_pending, MAX_PAYLOAD_SIZE, REPORT_SIZE in *. bools.
  rewrite length_slice in Hend by lia.
  cbn [p_cid p_next_sequence p_payload p_expected_len]. rewrite length_slice by lia.
  change (Z.to_nat 0) with 0%nat. lia.
Qed.

Lemma wf_handle_packet report h : wf h -> wf (handle_packet report h).2.
Proof.
  intros Hwf. unfold handle_packet. destruct (negb _) eqn:Hl; [done|]. bools.
  case_match; [by apply wf_init|by apply wf_continuation].
Qed.

Lemma runs_wf h rs h' : runs h rs h' -> wf h -> wf h'.
Proof.
  induction 1 as [|rs r o h1 h2 _ IH Hr]; [done|]. intros Hwf.
  apply IH, (wf_handle_packet r) in Hwf. by rewrite Hr in Hwf.
Qed.
End assembly.

(** *** The reports of a message, by position *)

Lemma continuation_packets_lookup fuel cid s (rest : bytes) k :
  (length rest <= fuel)%nat -> (59 * k < length rest)%nat ->
  0 <= s -> s + Z.of_nat k < 256 ->
  continuation_packets fuel cid s rest !! k =
    Some (continuation_packet cid (s + Z.of_nat k) (take 59 (drop (59 * k) rest))).
Proof.
  revert s rest k. induction fuel as [|fuel IH]; intros s rest k Hf Hk Hs Hsk; [lia|].
  destruct rest as [|x rest]; [simpl in *; lia|].
  cbn [continuation_packets]. set (l := x :: rest) in *. cbv zeta.
  change (REPORT_SIZE - 5)%nat with 59%nat. destruct k as [|k]; cbn [lookup list_lookup].
  - rewrite Z.add_0_r, drop_0. do 2 f_equal.
    destruct (Nat.min_spec (length l) 59) as [[? ->]|[? ->]]; [by rewrite !take_ge by lia|done].
  - assert (0 < length l)%nat by (unfold l; simpl; lia).
    rewrite IH; rewrite ?length_drop; unfold u8; rewrite ?Z.mod_small by lia; try lia.
    rewrite drop_drop. do 2 f_equal; [lia|]. do 2 f_equal. lia.
Qed.

Lemma length_continuation_packets fuel cid s (rest : bytes) n :
  (length rest <= fuel)%nat -> (59 * n < length rest + 59 <= 59 * n + 59)%nat ->
  length (continuation_packets fuel cid s rest) = n.
Proof.
  revert s rest n. induction fuel as [|fuel IH]; intros s rest n Hf Hn.
  { destruct rest; simpl in *; lia. }
  destruct rest as [|x rest]; [simpl in *; lia|].
  cbn [continuation_packets]. set (l := x :: rest) in *. cbv zeta.
  change (REPORT_SIZE - 5)%nat with 59%nat.
  assert (0 < length l)%nat by (unfold l; simpl; lia).
  destruct n as [|n]; [lia|]. cbn [length]. f_equal.
  apply IH; rewrite length_drop; lia.
Qed.

Lemma last_report_spec n :
  (57 < n)%nat -> (57 + 59 * (last_report n - 1) < n <= 57 + 59 * last_report n)%nat /\
                  (1 <= last_report n)%nat.
Proof.
  intros Hn. unfold last_report. rewrite (proj2 (Nat.leb_gt _ _)) by done.
  pose proof (Nat.div_mod_eq (n - 57 + 58) 59). pose proof (Nat.mod_upper_bound (n - 57 + 58) 59).
  lia.
Qed.

Lemma length_encode_message cid c (payload : bytes) :
  length (encode_message cid c payload) = S (last_report (length payload)).
Proof.
  unfold encode_message. cbn [length]. f_equal. change (REPORT_SIZE - 7)%nat with 57%nat.
  apply length_continuation_packets; [done|]. rewrite length_drop.
  destruct (Nat.leb_spec (length payload) 57) as [|Hn].
  - unfold last_report. rewrite (proj2 (Nat.leb_le _ _)) by done. lia.
  - destruct (last_report_spec _ Hn). lia.
Qed.

Lemma encode_message_lookup_0 cid c payload :
  encode_message cid c payload !! 0%nat = Some (first_packet cid c payload).
Proof. done. Qed.

Lemma encode_message_lookup_S cid c (payload : bytes) k :
  (k < last_report (length payload))%nat -> (length payload <= MAX_PAYLOAD_SIZE)%nat ->
  encode_message cid c payload !! S k =
    Some (continuation_packet cid (Z.of_nat k) (take 59 (drop (57 + 59 * k) payload))).
Proof.
  intros Hk Hlen. unfold MAX_PAYLOAD_SIZE, REPORT_SIZE in Hlen.
  assert (57 < length payload)%nat as Hn.
  { unfold last_report in Hk. destruct (Nat.leb_spec (length payload) 57); lia. }
  destruct (last_report_spec _ Hn).
  unfold encode_message. cbn [lookup list_lookup]. change (REPORT_SIZE - 7)%nat with 57%nat.
  rewrite Nat.min_r by lia.
  rewrite continuation_packets_lookup; rewrite ?length_drop; try lia.
  rewrite drop_drop. done.
Qed.

Section interleaving.
Context {A C : Type} `{!AuthenticatorOps A C}.
Implicit Types h : PacketHandler A.
Context (cid : Z) (c : CtapHidCommand) (payload : bytes).
Context (Hcid : 0 <= cid < 2 ^ 32) (Hlen : (length payload <= MAX_PAYLOAD_SIZE)%nat).

Let msg : list bytes := encode_message cid c payload.
Let last : nat := last_report (length payload).

(** One more report of the message, not the last one. *)
Lemma own_report k r h1 o h2 :
  (k < last)%nat -> msg !! k = Some r ->
  (forall k', k = S k' -> partial cid c payload k' h1) ->
  handle_packet r h1 = (Ok o, h2) -> partial cid c payload k h2.
Proof.
  intros Hk Hr Hp Hrun. destruct (Nat.leb_spec (length payload) 57) as [|Hn].
  { unfold last, last_report in Hk. rewrite (proj2 (Nat.leb_le _ _)) in Hk by done. lia. }
  destruct (last_report_spec _ Hn) as [Hb _]. fold last in Hb.
  destruct k as [|k].
  - unfold msg in Hr. rewrite encode_message_lookup_0 in Hr. simplify_eq.
    rewrite handle_packet_first, (proj2 (Nat.leb_gt _ _)) in Hrun by done. simplify_eq.
    unfold partial. simpl. by rewrite lookup_insert_eq.
  - specialize (Hp k eq_refl). unfold msg in Hr.
    rewrite encode_message_lookup_S in Hr by (fold last; lia || done). simplify_eq.
    unfold MAX_PAYLOAD_SIZE, REPORT_SIZE in Hlen.
    rewrite (handle_packet_cont cid c payload k), (proj2 (Nat.leb_gt _ _)) in Hrun by (lia || done).
    simplify_eq. unfold partial. simpl pending. by rewrite lookup_insert_eq.
Qed.

(** After [k + 1] reports of the message, interleaved with reports of other
    channels, the channel holds the first [k + 1] chunks. *)
Lemma runs_partial h0 rs h k :
  runs h0 rs h -> wf h0 -> (k < last)%nat ->
  filter (fun r => chan r = cid) rs = take (S k) msg -> partial cid c payload k h.
Proof.
  intros Hrun Hwf. revert k. induction Hrun as [|rs r o h1 h2 Hrun IH Hr]; intros k Hk Hf.
  { unfold msg, encode_message in Hf. done. }
  pose proof (runs_wf _ _ _ Hrun Hwf) as Hwf1.
  rewrite filter_app in Hf. destruct (decide (chan r = cid)) as [Hch|Hch].
  - rewrite filter_cons_True, filter_nil in Hf by done.
    assert (k < length msg)%nat as Hkl.
    { unfold msg. rewrite length_encode_message. fold last. lia. }
    destruct (lookup_lt_is_Some_2 msg k Hkl) as [r' Hr'].
    rewrite (take_S_r _ _ _ Hr') in Hf. apply app_inj_tail in Hf as [Hf ->].
    apply (own_report k r' h1 o); [done..| |done].
    intros k' ->. apply IH; [lia|done].
  - rewrite filter_cons_False, filter_nil, app_nil_r in Hf by done.
    specialize (IH k Hk Hf). unfold partial. rewrite <- IH.
    replace h2 with (handle_packet r h1).2 by (by rewrite Hr).
    apply handle_packet_other; [|done]. intros c' p Hp. by apply (proj1 Hwf1).
Qed.

Lemma handle_packet_last h0 rs h r :
  runs h0 rs h -> wf h0 ->
  filter (fun r => chan r = cid) rs = take last msg -> msg !! last = Some r ->
  handle_packet r h = respond (dispatch cid c payload) (set_pending (delete cid (pending h)) h).
Proof.
  intros Hrun Hwf Hf Hr.
  assert (last = 0%nat \/ exists k, last = S k) as [El|[k El]] by (destruct (last); eauto);
    rewrite El in Hf, Hr.
  - unfold msg in Hr. rewrite encode_message_lookup_0 in Hr. injection Hr as <-.
    rewrite handle_packet_first by done. unfold last, last_report in El.
    destruct (Nat.leb_spec (length payload) 57) as [|Hn]; [done|].
    destruct (last_report_spec _ Hn) as [_ Hl]. unfold last_report in Hl.
    rewrite (proj2 (Nat.leb_gt _ _)) in Hl by done. lia.
  - assert (57 < length payload)%nat as Hn.
    { unfold last, last_report in El. destruct (Nat.leb_spec (length payload) 57); lia. }
    destruct (last_report_spec _ Hn) as [Hb _]. fold last in Hb. rewrite El in Hb.
    unfold msg in Hr. rewrite encode_message_lookup_S in Hr by (fold last; lia || done).
    injection Hr as <-. unfold MAX_PAYLOAD_SIZE, REPORT_SIZE in Hlen.
    rewrite (handle_packet_cont cid c payload k); [by rewrite (proj2 (Nat.leb_le _ _)) by lia|lia..|].
    apply (runs_partial h0 rs); [done..|lia|done].
Qed.
End interleaving.

Section theorems.
Context {A C : Type} `{!AuthenticatorOps A C}.
Implicit Types h : PacketHandler A.

(** C11. Reassembly is the inverse of framing, whatever is interleaved with the
    message. Let the reports of one channel be the reports that
    [encode_message] produces for a payload of at most [MAX_PAYLOAD_SIZE]
    bytes, and let reports of other channels arrive between them in any
    order. Then the last report of the message dispatches exactly that
    command with exactly that payload, and drops the channel's entry of the
    assembly table. *)
Theorem reassembly_inverts_framing cid c (payload : bytes) h0 rs h r :
  0 <= cid < 2 ^ 32 -> (length payload <= MAX_PAYLOAD_SIZE)%nat ->
  runs h0 rs h -> wf h0 ->
  filter (fun r => chan r = cid) rs = take (last_report (length payload)) (encode_message cid c payload) ->
  encode_message cid c payload !! last_report (length payload) = Some r ->
  handle_packet r h = respond (dispatch cid c payload) (set_pending (delete cid (pending h)) h).
Proof. intros. by apply (handle_packet_last cid c payload) with h0 rs. Qed.

(** C33. The invariant of the assembly table holds in every reachable state:
    an entry is filed under its own channel, has received exactly
    [57 + 59 * next_sequence] bytes, fewer than it expects, and expects at most
    [MAX_PAYLOAD_SIZE]; so [expected_len - payload.len()] never underflows,
    [next_sequence] never wraps, and [next_cid] is never 0. *)
Theorem reachable_handler_wf (a : A) rs h : runs (new a) rs h -> wf h.
Proof. intros Hrun. apply (runs_wf _ _ _ Hrun), wf_new. Qed.

(** A continuation report whose sequence number is not the expected one
    aborts the assembly on its channel: the response is a CTAPHID_ERROR with
    code ERR_INVALID_SEQ on that channel, the channel's entry is dropped, and
    nothing else of the handler changes. *)
Theorem bad_sequence_aborts report h p :
  wf h -> length report = REPORT_SIZE ->
  Z.land (report !!! 4%nat) TYPE_INIT = 0 ->
  pending h !! chan report = Some p -> report !!! 4%nat <> p_next_sequence p ->
  handle_packet report h =
    (Ok (Some (Respond {| r_cid := chan report; r_command := Error; r_payload := [4] |})),
     set_pending (delete (chan report) (pending h)) h).
Proof.
  intros Hwf Hl Hi Hp Hs. destruct (proj1 Hwf _ _ Hp) as [Hc _].
  unfold handle_packet. rewrite Hl, Hi, Nat.eqb_refl, Z.eqb_refl. cbn [negb].
  fold (chan report). unfold handle_continuation_packet. rewrite Hp, Hc, Z.eqb_refl.
  by rewrite (proj2 (Z.eqb_neq _ _)) by done.
Qed.

Lemma allocate_broadcast h :
  1 <= next_cid h < u32_max ->
  allocate_cid BROADCAST_CID h = (next_cid h, set_next_cid (next_cid h + 1) h).
Proof.
  unfold allocate_cid, u32_max, u32. intros Hn. rewrite Z.eqb_refl.
  rewrite (proj2 (Z.eqb_neq _ _)) by lia. rewrite Z.mod_small, Z.max_l by lia. done.
Qed.

(** Channel allocation: the first [2 ^ 32 - 2] INIT requests on the broadcast
    channel get the channels 1, 2, 3, ... in this order, so no two clients
    share a channel and none is given the broadcast channel. *)
Theorem allocations_are_fresh n (a : A) :
  Z.of_nat n < u32_max -> allocations n (new a) = seqZ 1 (Z.of_nat n).
Proof.
  intros Hn.
  assert (forall h, 1 <= next_cid h -> next_cid h + Z.of_nat n <= u32_max ->
            allocations n h = seqZ (next_cid h) (Z.of_nat n)) as Hgen.
  { clear Hn. induction n as [|n IH]; intros h Hlo Hhi; [done|].
    cbn [allocations]. rewrite allocate_broadcast by lia.
    rewrite IH by (simpl; lia). simpl next_cid.
    rewrite (seqZ_cons (next_cid h)) by lia.
    do 2 f_equal; lia. }
  apply Hgen; simpl; lia.
Qed.
End theorems.

(** *** Witnesses *)

(** An authenticator that echoes the request, for the witnesses. *)
Module Echo.
#[export] Instance ops : AuthenticatorOps nat unit := {
  ao_handle_cbor := fun p n => (Ok (0 :: p), S n);
  ao_cancel_pending := fun _ => 0%nat;
  ao_handle_tpm_command := fun _ => mret tt }.

Definition payload : bytes := replicate 100 0xaa.
Definition first : bytes := first_packet 7 Cbor payload.
Definition second : bytes := continuation_packet 7 0 (drop 57 payload).
(** An INIT request on the broadcast channel. *)
Definition other : bytes := first_packet BROADCAST_CID Init [1; 2; 3; 4; 5; 6; 7; 8].

Definition h0 : PacketHandler nat := new 0%nat.
Definition h1 : PacketHandler nat := (handle_packet first h0).2.
Definition h2 : PacketHandler nat := (handle_packet other h1).2.
Definition h3 : PacketHandler nat := (handle_packet second h2).2.

Lemma runs_h1 : runs h0 [first] h1.
Proof. apply (runs_snoc _ [] _ (Some NeedMore) h0); [constructor|vm_compute; reflexivity]. Qed.
Lemma runs_h2 : runs h0 [first; other] h2.
Proof. eapply (runs_snoc _ [first] _ _ h1); [apply runs_h1|vm_compute; reflexivity]. Qed.
End Echo.
#[local] Existing Instance Echo.ops.

Lemma reassembly_inverts_framing_witness :
  handle_packet Echo.second Echo.h2 =
    (Ok (Some (Respond {| r_cid := 7; r_command := Cbor; r_payload := 0 :: Echo.payload |})), Echo.h3).
Proof.
  rewrite (reassembly_inverts_framing 7 Cbor Echo.payload Echo.h0 [Echo.first; Echo.other]);
    [vm_compute; reflexivity|lia|apply Nat.leb_le; vm_compute; reflexivity
    |apply Echo.runs_h2|apply wf_new|vm_compute; reflexivity|vm_compute; reflexivity].
Defined.

Lemma reachable_handler_wf_witness : wf Echo.h2.
Proof. apply (reachable_handler_wf 0%nat [Echo.first; Echo.other]), Echo.runs_h2. Defined.

Lemma bad_sequence_aborts_witness :
  handle_packet (continuation_packet 7 1 []) Echo.h1 =
    (Ok (Some (Respond {| r_cid := 7; r_command := Error; r_payload := [4] |})),
     set_pending (delete 7 (pending Echo.h1)) Echo.h1).
Proof.
  apply (bad_sequence_aborts (continuation_packet 7 1 []) Echo.h1
    {| p_cid := 7; p_command := Cbor; p_expected_len := 100;
       p_payload := take 57 Echo.payload; p_next_sequence := 0 |});
    [apply (runs_wf _ _ _ Echo.runs_h1), wf_new|vm_compute; reflexivity..|vm_compute; discriminate].
Defined.

Lemma allocations_are_fresh_witness : allocations 3 (new 0%nat) = [1; 2; 3].
Proof. apply (allocations_are_fresh 3 0%nat). unfold u32_max. lia. Defined.

End CtapHid.
