(* ===== verification/CtapHidLimits.v ===== *)
(** The edges of the framing layer: the log line of a report, the handler for a
    single report, and what becomes of a message that is too long. *)
From Stdlib Require Import ZArith Lia String Ascii.
From stdpp Require Import base list option strings gmap pretty.
From S2P Require Import Prelude Hid CtapHid.

#[local] Open Scope Z_scope.

Module CtapHidLimits.
Import Hid CtapHid.

(** ** The log line of a report *)

(** [{:x}] of a number, zero-padded to [width] digits. *)
Definition hex_digit (d : Z) : ascii := ascii_of_N (Z.to_N (if d <? 10 then 48 + d else 87 + d)).

Fixpoint hex_fixed (width : nat) (z : Z) : string :=
  match width with
  | O => ""
  | S width => String (hex_digit (Z.shiftr z (4 * Z.of_nat width) mod 16)) (hex_fixed width z)
  end.

Definition describe_report (report : bytes) : string :=
  if negb (length report =? REPORT_SIZE)%nat then ("invalid-size len=" +:+ pretty (length report))%string
  else
    let cid := be_val (slice 0 4 report) in
    let packet_type := report !!! 4%nat in
    if negb (Z.land packet_type TYPE_INIT =? 0) then
      let payload_len := be_val [report !!! 5%nat; report !!! 6%nat] in
      let cmd_byte := Z.land packet_type (Z.lxor TYPE_INIT 0xff) in
      let cmd_name := match from_byte cmd_byte with Some c => command_name c | None => "UNKNOWN"%string end in
      ("init cid=0x" +:+ hex_fixed 8 cid +:+ " cmd=" +:+ cmd_name +:+ "(0x" +:+ hex_fixed 2 cmd_byte
       +:+ ") payload_len=" +:+ pretty payload_len)%string
    else ("cont cid=0x" +:+ hex_fixed 8 cid +:+ " seq=" +:+ pretty packet_type)%string.

(** ** A handler for one report *)

(** [ctaphid::handle_packet], given the authenticator of the default handler: a
    request that needs more reports gets no answer. *)
Definition handle_single_packet {A C} `{!AuthenticatorOps A C} (report : bytes) (a : A)
    : res Empty_set (option Response) :=
  outcome ← (handle_packet report (new a)).1;
  Ok match outcome with Some (Respond response) => Some response | _ => None end.

(** The line logged for the first report of a message names its channel, its
    command and its length. *)
Lemma describe_first_packet cid c (payload : bytes) :
  0 <= cid < 2 ^ 32 -> (length payload <= MAX_PAYLOAD_SIZE)%nat ->
  describe_report (first_packet cid c payload) =
    ("init cid=0x" +:+ hex_fixed 8 cid +:+ " cmd=" +:+ command_name c +:+ "(0x" +:+ hex_fixed 2 (byte c)
     +:+ ") payload_len=" +:+ pretty (Z.of_nat (length payload)))%string.
Proof.
  intros Hcid Hlen. destruct (first_packet_fields cid c payload Hlen) as (H4 & H56 & _).
  unfold describe_report. rewrite length_first_packet, Nat.eqb_refl. cbn [negb].
  fold (chan (first_packet cid c payload)). rewrite chan_first_packet, H4 by done.
  replace (Z.land (Z.lor (byte c) TYPE_INIT) TYPE_INIT =? 0) with false by (by destruct c).
  replace (Z.land (Z.lor (byte c) TYPE_INIT) (Z.lxor TYPE_INIT 255)) with (byte c) by (by destruct c).
  cbn [negb]. rewrite from_byte_byte. do 8 f_equal. rewrite <- H56, Z2Nat.id; [done|].
  change (be_val _) with (be_val (be_bytes 2 (u16 (Z.of_nat (length payload))))).
  apply be_val_bound, be_bytes_ok.
Qed.

(** ** Messages that are too long *)

(** The 130th report of a message of more than [MAX_PAYLOAD_SIZE] bytes carries
    the sequence number 128. *)
Lemma oversized_report cid c (payload : bytes) :
  (MAX_PAYLOAD_SIZE < length payload)%nat ->
  encode_message cid c payload !! 129%nat =
    Some (continuation_packet cid 128 (take 59 (drop (57 + 59 * 128) payload))).
Proof.
  intros Hlen. unfold MAX_PAYLOAD_SIZE, REPORT_SIZE in Hlen. unfold encode_message.
  cbn [lookup list_lookup]. change (REPORT_SIZE - 7)%nat with 57%nat. rewrite Nat.min_r by lia.
  rewrite continuation_packets_lookup; rewrite ?length_drop; try lia. by rewrite drop_drop.
Qed.

Section oversized.
Context {A C : Type} `{!AuthenticatorOps A C}.

(** C34. Nothing in the framing layer limits the length of a response, but a
    message has at most 128 continuation reports: in a response of more than
    [MAX_PAYLOAD_SIZE] bytes the 130th report has the bit of a first report set.
    A receiver that follows the same rules answers that report with an error on
    the channel instead of completing the message. *)
Theorem oversized_response_unreadable cid c (payload : bytes) (h : PacketHandler A) :
  0 <= cid < 2 ^ 32 -> (MAX_PAYLOAD_SIZE < length payload)%nat ->
  exists r e h', encode_message cid c payload !! 129%nat = Some r /\
    handle_packet r h = (Ok (Some (Respond (error cid e))), h').
Proof.
  intros Hcid Hlen. set (chunk := take 59 (drop (57 + 59 * 128) payload)).
  assert (length chunk <= 59)%nat as Hc by (unfold chunk; rewrite length_take; lia).
  exists (continuation_packet cid 128 chunk). unfold handle_packet.
  rewrite length_continuation_packet, Nat.eqb_refl by done. cbn [negb].
  fold (chan (continuation_packet cid 128 chunk)). rewrite chan_continuation_packet by done.
  change (continuation_packet cid 128 chunk !!! 4%nat) with 128.
  change (Z.land 128 TYPE_INIT =? 0) with false. cbn [negb].
  change (Z.land 128 (Z.lxor TYPE_INIT 255)) with 0. unfold handle_init_packet.
  case_match; (do 2 eexists; split; [by apply oversized_report|]); reflexivity.
Qed.
End oversized.

End CtapHidLimits.
