(* ===== verification/Cbor.v ===== *)
(** CBOR values as [src/src/ctap2.rs] uses them: the [ciborium] value type, the
    typed map accessors, the canonical ordering of the maps in a response and in
    the message that credential-management requests are authenticated with.

    The byte codec is a library ([ciborium::into_writer], [from_reader]): it is
    the class [CborCodec], and what the code relies on of it is [CborLaws]. *)
From Stdlib Require Import ZArith Lia String.
From stdpp Require Import base list option strings sorting.
From S2P Require Import Prelude.

#[local] Open Scope Z_scope.

(** [ciborium::value::Value] *)
Inductive Value :=
| VInteger (z : Z)
| VBytes (b : bytes)
| VFloat (bits : Z)
| VText (s : string)
| VBool (b : bool)
| VNull
| VTag (tag : Z) (v : Value)
| VArray (l : list Value)
| VMap (m : list (Value * Value)).

(** Induction on values, through the lists of arrays and maps. *)
Section Value_ind.
Context (P : Value -> Prop).
Context (Hint : forall z, P (VInteger z)) (Hbytes : forall b, P (VBytes b))
  (Hfloat : forall b, P (VFloat b)) (Htext : forall s, P (VText s))
  (Hbool : forall b, P (VBool b)) (Hnull : P VNull)
  (Htag : forall t v, P v -> P (VTag t v))
  (Harray : forall l, Forall P l -> P (VArray l))
  (Hmap : forall m, Forall (fun kv => P kv.1 /\ P kv.2) m -> P (VMap m)).

Fixpoint Value_induction (v : Value) : P v :=
  match v with
  | VInteger z => Hint z
  | VBytes b => Hbytes b
  | VFloat b => Hfloat b
  | VText s => Htext s
  | VBool b => Hbool b
  | VNull => Hnull
  | VTag t v => Htag t v (Value_induction v)
  | VArray l =>
      Harray l ((fix go l := match l return Forall P l with
        | [] => Forall_nil_2 P
        | x :: l => Forall_cons_2 P x l (Value_induction x) (go l)
        end) l)
  | VMap m =>
      Hmap m ((fix go m := match m return Forall (fun kv => P kv.1 /\ P kv.2) m with
        | [] => Forall_nil_2 _
        | kv :: m => Forall_cons_2 _ kv m
            (match kv return P kv.1 /\ P kv.2 with (k, x) => conj (Value_induction k) (Value_induction x) end) (go m)
        end) m)
  end.
End Value_ind.

(** ** The codec *)

(** [ciborium::into_writer] on a value, and [ciborium::from_reader] on a byte
    slice, which reads one value and ignores what follows it. *)
Class CborCodec := {
  cbor_encode : Value -> bytes;
  cbor_decode : bytes -> option Value }.

(** Values that CBOR can carry: 64-bit heads. *)
Fixpoint value_ok (v : Value) : bool :=
  match v with
  | VInteger z => (- 2 ^ 64 <=? z) && (z <? 2 ^ 64)
  | VBytes b => bytes_okb b && (Z.of_nat (length b) <? 2 ^ 64)
  | VFloat b => (0 <=? b) && (b <? 2 ^ 64)
  | VText s => Z.of_nat (String.length s) <? 2 ^ 64
  | VBool _ | VNull => true
  | VTag t v => (0 <=? t) && (t <? 2 ^ 64) && value_ok v
  | VArray l => (Z.of_nat (length l) <? 2 ^ 64) && forallb value_ok l
  | VMap m => (Z.of_nat (length m) <? 2 ^ 64)
              && forallb (fun kv => value_ok kv.1 && value_ok kv.2) m
  end.

(** Decoding reads back an encoded value, whatever follows it. *)
Class CborLaws {codec : CborCodec} := {
  cbor_roundtrip v rest : value_ok v = true -> cbor_decode (cbor_encode v ++ rest) = Some v }.

(** ** Accessors *)

Definition as_integer (v : Value) : option Z := match v with VInteger z => Some z | _ => None end.
Definition as_bytes_value (v : Value) : option bytes := match v with VBytes b => Some b | _ => None end.
Definition as_text (v : Value) : option string := match v with VText s => Some s | _ => None end.
Definition as_bool (v : Value) : option bool := match v with VBool b => Some b | _ => None end.
Definition as_array (v : Value) : option (list Value) := match v with VArray l => Some l | _ => None end.
Definition as_map (v : Value) : option (list (Value * Value)) := match v with VMap m => Some m | _ => None end.

(** The trait [MapKey], implemented by [i128] and [&str]. *)
Class MapKey (K : Type) := matches : K -> Value -> bool.
#[export] Instance MapKey_i128 : MapKey Z := fun k v => bool_decide (as_integer v = Some k).
#[export] Instance MapKey_str : MapKey string := fun k v => bool_decide (as_text v = Some k).

Section accessors.
Context {K : Type} `{!MapKey K}.

Fixpoint map_value (m : list (Value * Value)) (key : K) : option Value :=
  match m with
  | [] => None
  | (candidate, v) :: m => if matches key candidate then Some v else map_value m key
  end.

Definition map_bytes (m : list (Value * Value)) (key : K) : option bytes :=
  map_value m key ≫= as_bytes_value.
Definition map_integer (m : list (Value * Value)) (key : K) : option Z :=
  map_value m key ≫= as_integer.
Definition map_text (m : list (Value * Value)) (key : K) : option string :=
  map_value m key ≫= as_text.
Definition map_bool (m : list (Value * Value)) (key : K) : option bool :=
  map_value m key ≫= as_bool.
Definition map_array (m : list (Value * Value)) (key : K) : option (list Value) :=
  map_value m key ≫= as_array.
Definition map_map (m : list (Value * Value)) (key : K) : option (list (Value * Value)) :=
  map_value m key ≫= as_map.
End accessors.

(** ** Canonical form *)

Section canonical.
Context {codec : CborCodec}.

Definition canonical_key_bytes (v : Value) : bytes := cbor_encode v.

Definition key_leb (a b : Value * Value) : bool :=
  bytes_leb (canonical_key_bytes a.1) (canonical_key_bytes b.1).

Fixpoint canonicalize_value (v : Value) : Value :=
  match v with
  | VArray values => VArray (map canonicalize_value values)
  | VMap entries =>
      VMap (sort_by key_leb (map (fun '(key, value) => (key, canonicalize_value value)) entries))
  | other => other
  end.

Definition encode_response (response : Value) : bytes :=
  0x00 :: cbor_encode (canonicalize_value response).

Definition management_auth_message (sub_command : Z) (params : option (list (Value * Value))) : bytes :=
  u8 sub_command ::
  match params with
  | Some params => cbor_encode (canonicalize_value (VMap params))
  | None => []
  end.

End canonical.

(** ** The canonical form, written independently of the code: the order of
    the CTAP2 canonical encoding is the bytewise lexicographic order of the
    encoded keys. *)

Inductive bytes_lt : bytes -> bytes -> Prop :=
| bytes_lt_prefix b bs : bytes_lt [] (b :: bs)
| bytes_lt_head b c bs cs : b < c -> bytes_lt (b :: bs) (c :: cs)
| bytes_lt_tail b bs cs : bytes_lt bs cs -> bytes_lt (b :: bs) (b :: cs).

Section canonical_form.
Context {codec : CborCodec}.

(** The encoded key of one entry comes before that of another. *)
Definition key_before (a b : Value * Value) : Prop := bytes_lt (cbor_encode a.1) (cbor_encode b.1).

(** The same, or it is the same key. *)
Definition key_not_after (a b : Value * Value) : Prop :=
  key_before a b \/ cbor_encode a.1 = cbor_encode b.1.

(** Every map of a value, at any depth below arrays and map values, has its
    entries in order of the encoded keys. *)
Fixpoint canonical (v : Value) : Prop :=
  match v with
  | VArray l => (fix all l := match l with [] => True | x :: l => canonical x /\ all l end) l
  | VMap m =>
      StronglySorted key_not_after m /\
      (fix all m := match m with [] => True | kv :: m => canonical kv.2 /\ all m end) m
  | _ => True
  end.
End canonical_form.

(** ** Lemmas *)

Lemma canonical_array {codec : CborCodec} l : canonical (VArray l) <-> Forall canonical l.
Proof. simpl. induction l; rewrite ?Forall_cons, ?Forall_nil; tauto. Qed.

Lemma canonical_map {codec : CborCodec} m :
  canonical (VMap m) <->
  StronglySorted key_not_after m /\ Forall (fun kv => canonical kv.2) m.
Proof.
  simpl. match goal with |- _ /\ ?X <-> _ /\ ?Y => enough (X <-> Y) by tauto end.
  induction m; rewrite ?Forall_cons, ?Forall_nil; tauto.
Qed.

Lemma bytes_leb_lt a b : bytes_leb a b = true <-> bytes_lt a b \/ a = b.
Proof.
  revert b. induction a as [|x a IH]; intros [|y b]; simpl.
  - split; [by right|done].
  - split; [left; constructor|done].
  - split; [done|]. by intros [H|?]; [inversion H|].
  - rewrite orb_true_iff, andb_true_iff, Z.ltb_lt, Z.eqb_eq, IH. split.
    + intros [?|[-> [?| ->]]]; [left; by constructor|left; by constructor|by right].
    + intros [H|[= -> ->]]; [|auto]. inversion H; subst; auto.
Qed.

Lemma strongly_sorted_impl {A} (R R' : A -> A -> Prop) l :
  (forall a b, R a b -> R' a b) -> StronglySorted R l -> StronglySorted R' l.
Proof.
  intros Himp. induction 1 as [|a l _ IH Hall]; constructor; [done|].
  eapply Forall_impl; [exact Hall|]. auto.
Qed.

Lemma key_leb_not_after {codec : CborCodec} a b : key_leb a b = true <-> key_not_after a b.
Proof. apply bytes_leb_lt. Qed.

Lemma key_leb_total {codec : CborCodec} a b : key_leb a b = true \/ key_leb b a = true.
Proof. apply bytes_leb_total. Qed.

Lemma key_leb_trans {codec : CborCodec} a b c :
  key_leb a b = true -> key_leb b c = true -> key_leb a c = true.
Proof. apply bytes_leb_trans. Qed.

Lemma cbor_encode_inj {codec : CborCodec} {laws : CborLaws} v w :
  value_ok v = true -> value_ok w = true -> cbor_encode v = cbor_encode w -> v = w.
Proof.
  intros Hv Hw He. pose proof (cbor_roundtrip v [] Hv) as Hr.
  rewrite He, (cbor_roundtrip w []) in Hr by done. by injection Hr.
Qed.

Lemma canonicalize_canonical {codec : CborCodec} v : canonical (canonicalize_value v).
Proof.
  induction v as [| | | | | | |l IH|m IH] using Value_induction; try done.
  - cbn [canonicalize_value]. apply canonical_array. by rewrite Forall_map.
  - cbn [canonicalize_value]. apply canonical_map. split.
    + eapply strongly_sorted_impl; [|apply sort_by_sorted; [apply key_leb_total|apply key_leb_trans]].
      intros a b. by rewrite <- key_leb_not_after.
    + rewrite sort_by_perm, Forall_map. eapply Forall_impl; [exact IH|]. by intros [k x] [_ ?].
Qed.

Lemma canonicalize_id {codec : CborCodec} v : canonical v -> canonicalize_value v = v.
Proof.
  induction v as [| | | | | | |l IH|m IH] using Value_induction; try done.
  - rewrite canonical_array. intros Hc. cbn [canonicalize_value]. f_equal.
    induction IH as [|x l Hx _ IH']; [done|]. inversion Hc; subst. simpl. f_equal; auto.
  - rewrite canonical_map. intros [Hs Hc]. cbn [canonicalize_value]. f_equal.
    rewrite (map_ext_in _ id), map_id.
    + apply sort_by_id. eapply strongly_sorted_impl; [|exact Hs]. intros a b. by rewrite key_leb_not_after.
    + intros [k x] Hin. simpl. f_equal. rewrite Forall_forall in IH, Hc.
      apply list_elem_of_In in Hin. apply (IH _ Hin), (Hc _ Hin).
Qed.

Lemma value_ok_canonicalize {codec : CborCodec} v : value_ok (canonicalize_value v) = value_ok v.
Proof.
  induction v as [| | | | | | |l IH|m IH] using Value_induction; try done; cbn [canonicalize_value value_ok].
  - rewrite length_map. f_equal. induction IH as [|x l Hx _ IH']; [done|]. simpl. by rewrite Hx, IH'.
  - rewrite length_sort_by, length_map. f_equal. apply eq_bool_prop_intro.
    rewrite !Is_true_true, !forallb_forall. setoid_rewrite <- list_elem_of_In.
    setoid_rewrite elem_of_sort_by. rewrite Forall_forall in IH. split.
    + intros Hall [k x] Hin. destruct (IH _ Hin) as [_ Hx]. simpl in *. rewrite <- Hx.
      apply (Hall (k, canonicalize_value x)). apply list_elem_of_fmap. by exists (k, x).
    + intros Hall [k x] ([k' x'] & [= -> ->] & Hin)%list_elem_of_fmap.
      destruct (IH _ Hin) as [_ Hx]. simpl in *. rewrite Hx. apply (Hall (k', x') Hin).
Qed.

(** A key of the accessors matches one value only. *)
Class MapKeyInj (K : Type) `{!MapKey K} :=
  matches_inj (k : K) (v w : Value) : matches k v = true -> matches k w = true -> v = w.

#[export] Instance MapKeyInj_i128 : MapKeyInj Z.
Proof. intros k v w. unfold matches, MapKey_i128. rewrite !bool_decide_eq_true. destruct v, w; naive_solver. Qed.
#[export] Instance MapKeyInj_str : MapKeyInj string.
Proof. intros k v w. unfold matches, MapKey_str. rewrite !bool_decide_eq_true. destruct v, w; naive_solver. Qed.

Lemma map_value_Some `{!MapKey K} (m : list (Value * Value)) (k : K) v :
  map_value m k = Some v -> exists key, (key, v) ∈ m /\ matches k key = true.
Proof.
  induction m as [|[key x] m IH]; simpl; [done|]. destruct (matches k key) eqn:E.
  - intros [= ->]. exists key. split; [left|done].
  - intros (key' & ? & ?)%IH. exists key'. split; [by right|done].
Qed.

Lemma map_value_elem `{!MapKey K, !MapKeyInj K} (m : list (Value * Value)) (k : K) key v :
  NoDup m.*1 -> (key, v) ∈ m -> matches k key = true -> map_value m k = Some v.
Proof.
  induction m as [|[key' x] m IH]; simpl; [by intros _ ?%not_elem_of_nil|].
  intros [Hn Hd]%NoDup_cons Hin Hm. apply elem_of_cons in Hin as [[= <- <-]|Hin]; [by rewrite Hm|].
  destruct (matches k key') eqn:E; [|by apply IH].
  destruct Hn. rewrite (matches_inj k key' key) by done. by apply (list_elem_of_fmap_2 fst _ (key, v)).
Qed.

Lemma map_value_perm `{!MapKey K, !MapKeyInj K} (m n : list (Value * Value)) (k : K) :
  NoDup m.*1 -> m ≡ₚ n -> map_value m k = map_value n k.
Proof.
  intros Hd Hp. assert (NoDup n.*1) as Hd' by (by rewrite <- Hp).
  destruct (map_value m k) as [v|] eqn:E.
  - apply map_value_Some in E as (key & Hin & Hk). symmetry.
    eapply map_value_elem; [done| |done]. by rewrite <- Hp.
  - destruct (map_value n k) as [v|] eqn:E'; [|done].
    apply map_value_Some in E' as (key & Hin & Hk). rewrite <- Hp in Hin.
    by rewrite (map_value_elem m k key v) in E.
Qed.

Lemma map_value_fmap `{!MapKey K} (f : Value -> Value) (m : list (Value * Value)) (k : K) :
  map_value (map (fun '(key, v) => (key, f v)) m) k = f <$> map_value m k.
Proof. induction m as [|[key v] m IH]; simpl; [done|]. by destruct (matches k key). Qed.

Lemma map_keys_fst (f : Value -> Value) (m : list (Value * Value)) :
  (map (fun '(key, v) => (key, f v)) m).*1 = m.*1.
Proof. induction m as [|[k v] m IH]; simpl; [done|]. f_equal. apply IH. Qed.

(** Canonicalization changes neither the keys of a map nor what they map to. *)
Lemma map_value_canonicalize {codec : CborCodec} `{!MapKey K, !MapKeyInj K} (m : list (Value * Value)) (k : K) m' :
  NoDup m.*1 -> canonicalize_value (VMap m) = VMap m' ->
  map_value m' k = canonicalize_value <$> map_value m k.
Proof.
  intros Hd [= <-]. rewrite <- map_value_fmap. symmetry. apply map_value_perm.
  - by rewrite map_keys_fst.
  - symmetry. apply sort_by_perm.
Qed.

Lemma canonicalize_perm {codec : CborCodec} {laws : CborLaws} (m n : list (Value * Value)) :
  NoDup m.*1 -> Forall (fun kv => value_ok kv.1 = true) m -> m ≡ₚ n ->
  canonicalize_value (VMap m) = canonicalize_value (VMap n).
Proof.
  intros Hd Hok Hp. cbn [canonicalize_value]. f_equal.
  apply sort_by_perm_eq; [apply key_leb_total|apply key_leb_trans| |by apply fmap_Permutation].
  intros x y Hx Hy H1 H2. assert (x.1 = y.1) as Hk.
  { apply list_elem_of_fmap in Hx as ([k v] & -> & Hx), Hy as ([k' v'] & -> & Hy).
    rewrite Forall_forall in Hok. apply cbor_encode_inj; [apply (Hok _ Hx)|apply (Hok _ Hy)|].
    by apply bytes_leb_antisym. }
  rewrite <- (map_keys_fst canonicalize_value) in Hd. destruct x as [k v], y as [k' v']; simpl in Hk; subst k'.
  revert Hd Hx Hy. generalize (map (fun '(key, v) => (key, canonicalize_value v)) m). clear.
  intros l Hd Hx Hy. apply list_elem_of_lookup in Hx as [i Hi], Hy as [j Hj].
  assert (i = j) as <-; [|congruence].
  eapply NoDup_lookup; [exact Hd|by rewrite list_lookup_fmap, Hi|by rewrite list_lookup_fmap, Hj].
Qed.

(** ** Theorems *)

(** Keys that differ are strictly ordered. *)
Lemma sorted_keys_strict {codec : CborCodec} {laws : CborLaws} (m : list (Value * Value)) :
  NoDup m.*1 -> Forall (fun kv => value_ok kv.1 = true) m ->
  StronglySorted key_not_after m -> StronglySorted key_before m.
Proof.
  intros Hd Hok Hs. induction Hs as [|[k v] m _ IH Hall]; [constructor|].
  apply NoDup_cons in Hd as [Hn Hd]. apply Forall_cons in Hok as [Hk Hok].
  constructor; [by apply IH|]. rewrite Forall_forall in Hall, Hok |- *. intros [k' v'] Hin.
  destruct (Hall _ Hin) as [?|He]; [done|]. destruct Hn.
  apply cbor_encode_inj in He as ->; [|done|apply (Hok _ Hin)]. by apply (list_elem_of_fmap_2 fst _ (k', v')).
Qed.

(** C38. Responses are canonical CBOR and lose nothing: after the status byte 0,
    decoding the response of a map with distinct keys gives a map with the same
    keys, which stand in strictly ascending bytewise lexicographic order of
    their encodings; every map inside it is in that order too; and every key
    has the (canonicalized) value it had in the map the handler built. The
    order is [bytes_lt], written without the code's comparator. *)
Theorem response_canonical_and_complete {codec : CborCodec} {laws : CborLaws} (m : list (Value * Value)) :
  NoDup m.*1 -> value_ok (VMap m) = true ->
  exists payload m', encode_response (VMap m) = 0 :: payload /\
    cbor_decode payload = Some (VMap m') /\
    StronglySorted key_before m' /\ canonical (VMap m') /\ m'.*1 ≡ₚ m.*1 /\
    (forall k : Z, map_value m' k = canonicalize_value <$> map_value m k) /\
    (forall k : string, map_value m' k = canonicalize_value <$> map_value m k).
Proof.
  intros Hd Hok. destruct (canonicalize_value (VMap m)) as [| | | | | | | |m'] eqn:E; try done.
  assert (m'.*1 ≡ₚ m.*1) as Hkeys.
  { injection E as <-. rewrite sort_by_perm. by rewrite map_keys_fst. }
  assert (canonical (VMap m')) as Hcan by (rewrite <- E; apply canonicalize_canonical).
  pose proof (value_ok_canonicalize (VMap m)) as Hok'. rewrite E, Hok in Hok'.
  exists (cbor_encode (VMap m')), m'. split_and!.
  - unfold encode_response. by rewrite E.
  - rewrite <- (app_nil_r (cbor_encode _)). by apply cbor_roundtrip.
  - apply sorted_keys_strict; [by rewrite Hkeys| |by apply canonical_map in Hcan as [? _]].
    cbn [value_ok] in Hok'. apply andb_true_iff in Hok' as [_ Hall]. rewrite forallb_forall in Hall.
    apply Forall_forall. intros kv Hin%list_elem_of_In.
    by apply Hall, andb_true_iff in Hin as [? _].
  - done.
  - done.
  - intros k. by apply map_value_canonicalize.
  - intros k. by apply map_value_canonicalize.
Qed.

(** The message a credential-management request is authenticated with does
    not depend on the order in which the client wrote the entries of
    subCommandParams: both sides hash the same canonical bytes. *)
Theorem management_auth_message_order {codec : CborCodec} {laws : CborLaws} sub_command (p q : list (Value * Value)) :
  NoDup p.*1 -> Forall (fun kv => value_ok kv.1 = true) p -> p ≡ₚ q ->
  management_auth_message sub_command (Some p) = management_auth_message sub_command (Some q).
Proof. intros. unfold management_auth_message. by rewrite (canonicalize_perm p q). Qed.
