(* ===== verification/CborRef.v ===== *)
(** A reference CBOR codec (RFC 8949, definite lengths, preferred heads) that
    satisfies [CborLaws]. The model is parametric in the codec; this one shows
    that the laws can hold and lets the witnesses run on concrete messages. *)
From Stdlib Require Import ZArith Lia String Ascii.
From stdpp Require Import base list option strings sorting sets.
From S2P Require Import Prelude Cbor.

#[local] Open Scope Z_scope.

Module CborRef.

(** The head of a data item: major type and argument. *)
Definition head (mt n : Z) : bytes :=
  if n <? 24 then [mt * 32 + n]
  else if n <? 2 ^ 8 then (mt * 32 + 24) :: be_bytes 1 n
  else if n <? 2 ^ 16 then (mt * 32 + 25) :: be_bytes 2 n
  else if n <? 2 ^ 32 then (mt * 32 + 26) :: be_bytes 4 n
  else (mt * 32 + 27) :: be_bytes 8 n.

Fixpoint encode (v : Value) : bytes :=
  match v with
  | VInteger z => if 0 <=? z then head 0 z else head 1 (-1 - z)
  | VBytes b => head 2 (Z.of_nat (length b)) ++ b
  | VText s => head 3 (Z.of_nat (length (as_bytes s))) ++ as_bytes s
  | VArray l => head 4 (Z.of_nat (length l)) ++ concat (map encode l)
  | VMap m => head 5 (Z.of_nat (length m))
              ++ concat (map (fun kv => encode kv.1 ++ encode kv.2) m)
  | VTag t v => head 6 t ++ encode v
  | VBool false => [0xf4]
  | VBool true => [0xf5]
  | VNull => [0xf6]
  | VFloat b => 0xfb :: be_bytes 8 b
  end.

Definition take_bytes (n : nat) (bs : bytes) : option (bytes * bytes) :=
  if (length bs <? n)%nat then None else Some (take n bs, drop n bs).

(** Major type, additional information and argument. *)
Definition decode_head (bs : bytes) : option (Z * Z * Z * bytes) :=
  match bs with
  | [] => None
  | b :: r =>
      let mt := b / 32 in
      let info := b mod 32 in
      let long n := '(a, r) ← take_bytes n r; Some (mt, info, be_val a, r) in
      if info <? 24 then Some (mt, info, info, r)
      else match info with
      | 24 => long 1%nat
      | 25 => long 2%nat
      | 26 => long 4%nat
      | 27 => long 8%nat
      | _ => None
      end
  end.

Definition string_of_bytes (b : bytes) : string :=
  string_of_list_ascii (map (fun z => ascii_of_N (Z.to_N z)) b).

Fixpoint repeat_dec {A} (dec : bytes -> option (A * bytes)) (n : nat) (r : bytes)
    : option (list A * bytes) :=
  match n with
  | O => Some ([], r)
  | S n => '(x, r) ← dec r; '(l, r) ← repeat_dec dec n r; Some (x :: l, r)
  end.

Fixpoint decode (fuel : nat) (bs : bytes) : option (Value * bytes) :=
  match fuel with
  | O => None
  | S fuel =>
      '(mt, info, n, r) ← decode_head bs;
      match mt with
      | 0 => Some (VInteger n, r)
      | 1 => Some (VInteger (-1 - n), r)
      | 2 => if Z.of_nat (length r) <? n then None
             else '(b, r) ← take_bytes (Z.to_nat n) r; Some (VBytes b, r)
      | 3 => if Z.of_nat (length r) <? n then None
             else '(b, r) ← take_bytes (Z.to_nat n) r; Some (VText (string_of_bytes b), r)
      | 4 => if Z.of_nat (length r) <? n then None
             else '(l, r) ← repeat_dec (decode fuel) (Z.to_nat n) r; Some (VArray l, r)
      | 5 => if Z.of_nat (length r) <? n then None
             else '(m, r) ← repeat_dec (fun r => '(k, r) ← decode fuel r;
                                                '(v, r) ← decode fuel r; Some ((k, v), r))
                              (Z.to_nat n) r; Some (VMap m, r)
      | 6 => '(v, r) ← decode fuel r; Some (VTag n v, r)
      | 7 => match info with
             | 20 => Some (VBool false, r)
             | 21 => Some (VBool true, r)
             | 22 => Some (VNull, r)
             | 27 => Some (VFloat n, r)
             | _ => None
             end
      | _ => None
      end
  end.

#[export] Instance codec : CborCodec := {
  cbor_encode := encode;
  cbor_decode := fun bs => fst <$> decode (length bs) bs }.

(** ** The round trip *)

Lemma take_bytes_app (a b : bytes) n : length a = n -> take_bytes n (a ++ b) = Some (a, b).
Proof.
  intros <-. unfold take_bytes. rewrite length_app, (proj2 (Nat.ltb_ge _ _)) by lia.
  by rewrite take_app_length, drop_app_length.
Qed.

Lemma decode_head_head mt n rest :
  0 <= mt < 8 -> 0 <= n < 2 ^ 64 ->
  exists info, decode_head (head mt n ++ rest) = Some (mt, info, n, rest).
Proof.
  intros Hmt Hn.
  assert (forall i, 0 <= i < 32 -> (mt * 32 + i) / 32 = mt /\ (mt * 32 + i) mod 32 = i) as Hdm.
  { intros i Hi. split.
    - rewrite Z.add_comm, Z.div_add, Z.div_small; lia.
    - rewrite Z.add_comm, Z_mod_plus_full, Z.mod_small; lia. }
  assert (forall i k, 24 <= i < 28 -> 0 <= n < 256 ^ Z.of_nat k ->
    24 = i /\ k = 1%nat \/ 25 = i /\ k = 2%nat \/ 26 = i /\ k = 4%nat \/ 27 = i /\ k = 8%nat ->
    decode_head (((mt * 32 + i) :: be_bytes k n) ++ rest) = Some (mt, i, n, rest)) as Hlong.
  { intros i k Hi Hk Hik. unfold decode_head. cbn [app]. destruct (Hdm i) as [-> ->]; [lia|].
    rewrite (proj2 (Z.ltb_ge _ _)) by lia.
    destruct Hik as [[<- ->]|[[<- ->]|[[<- ->]|[<- ->]]]];
      rewrite take_bytes_app by apply length_be_bytes; cbn [mbind option_bind];
      by rewrite be_val_to_be_bytes. }
  unfold head. repeat case_match; bools.
  - exists n. unfold decode_head. cbn [app]. destruct (Hdm n) as [-> ->]; [lia|].
    by rewrite (proj2 (Z.ltb_lt _ _)) by lia.
  - exists 24. apply Hlong; [lia|simpl; lia|tauto].
  - exists 25. apply Hlong; [lia|simpl; lia|tauto].
  - exists 26. apply Hlong; [lia|simpl; lia|tauto].
  - exists 27. apply Hlong; [lia|change (256 ^ Z.of_nat 8) with (2 ^ 64); lia|tauto].
Qed.

Lemma length_head mt n : (1 <= length (head mt n))%nat.
Proof. unfold head. repeat case_match; simpl; lia. Qed.

Lemma length_encode v : (1 <= length (encode v))%nat.
Proof.
  destruct v; cbn [encode]; rewrite ?length_app; repeat case_match;
    try (pose proof (length_head 0 z)); try (pose proof (length_head 1 (-1 - z)));
    rewrite ?length_be_bytes; simpl; try lia;
  match goal with |- context [head ?a ?b] => pose proof (length_head a b); lia end.
Qed.

Lemma string_of_as_bytes s : string_of_bytes (as_bytes s) = s.
Proof.
  unfold string_of_bytes, as_bytes. rewrite List.map_map.
  rewrite <- (string_of_list_ascii_of_string s) at 2. f_equal.
  rewrite <- (map_id (list_ascii_of_string s)) at 2. apply map_ext. intros c.
  by rewrite N2Z.id, ascii_N_embedding.
Qed.

(** Decoding a sequence of items, each of which the decoder reads back. *)
Lemma repeat_dec_concat {A} (dec : bytes -> option (A * bytes)) (enc : A -> bytes) l rest :
  Forall (fun x => forall rest, dec (enc x ++ rest) = Some (x, rest)) l ->
  repeat_dec dec (length l) (concat (map enc l) ++ rest) = Some (l, rest).
Proof.
  induction 1 as [|x l Hx _ IH]; simpl; [done|].
  rewrite <- app_assoc, Hx. simpl. by rewrite IH.
Qed.

Lemma length_concat_ge {A} (enc : A -> bytes) l :
  Forall (fun x => (1 <= length (enc x))%nat) l -> (length l <= length (concat (map enc l)))%nat.
Proof. induction 1; simpl; rewrite ?length_app; lia. Qed.

Lemma length_concat_elem {A} (enc : A -> bytes) l x :
  x ∈ l -> (length (enc x) <= length (concat (map enc l)))%nat.
Proof.
  induction 1; simpl; rewrite length_app; lia.
Qed.

(** The decoder, at a given fuel, reads the encoding of [v] back whatever follows. *)
Definition reads_back fuel v : Prop :=
  forall rest, decode fuel (encode v ++ rest) = Some (v, rest).

Lemma reads_back_integer fuel z : value_ok (VInteger z) = true -> reads_back (S fuel) (VInteger z).
Proof.
  cbn [value_ok]. intros Hok rest. bools. cbn [encode]. case_match eqn:Hz; bools.
  - destruct (decode_head_head 0 z rest) as [i Hi]; [lia..|]. simpl. by rewrite Hi.
  - destruct (decode_head_head 1 (-1 - z) rest) as [i Hi]; [lia..|]. simpl. rewrite Hi.
    simpl. do 3 f_equal. lia.
Qed.

Lemma reads_back_bytes fuel b : value_ok (VBytes b) = true -> reads_back (S fuel) (VBytes b).
Proof.
  cbn [value_ok]. intros Hok rest. bools. cbn [encode]. rewrite <- app_assoc.
  destruct (decode_head_head 2 (Z.of_nat (length b)) (b ++ rest)) as [i Hi]; [lia..|].
  simpl. rewrite Hi. simpl. rewrite length_app, (proj2 (Z.ltb_ge _ _)) by lia.
  by rewrite take_bytes_app by lia.
Qed.

Lemma reads_back_float fuel b : value_ok (VFloat b) = true -> reads_back (S fuel) (VFloat b).
Proof.
  cbn [value_ok]. intros Hok rest. bools. cbn [encode decode decode_head app].
  change (0xfb / 32) with 7. change (0xfb mod 32) with 27.
  cbn [Z.ltb Z.compare Pos.compare Pos.compare_cont].
  rewrite take_bytes_app by apply length_be_bytes.
  cbn [mbind option_bind]. rewrite be_val_to_be_bytes; [done|].
  change (256 ^ Z.of_nat 8) with (2 ^ 64). lia.
Qed.

Lemma length_as_bytes s : length (as_bytes s) = String.length s.
Proof. unfold as_bytes. rewrite length_map. induction s; simpl; congruence. Qed.

Lemma reads_back_text fuel s : value_ok (VText s) = true -> reads_back (S fuel) (VText s).
Proof.
  cbn [value_ok]. intros Hok rest. bools. cbn [encode]. rewrite <- app_assoc.
  pose proof (length_as_bytes s).
  destruct (decode_head_head 3 (Z.of_nat (length (as_bytes s))) (as_bytes s ++ rest)) as [i Hi]; [lia..|].
  simpl. rewrite Hi. simpl. rewrite length_app, (proj2 (Z.ltb_ge _ _)) by lia.
  rewrite take_bytes_app by lia. simpl. by rewrite string_of_as_bytes.
Qed.

Lemma reads_back_tag fuel t v :
  value_ok (VTag t v) = true -> reads_back fuel v -> reads_back (S fuel) (VTag t v).
Proof.
  cbn [value_ok]. intros Hok IH rest. bools. cbn [encode]. rewrite <- app_assoc.
  destruct (decode_head_head 6 t (encode v ++ rest)) as [i Hi]; [lia..|].
  simpl. rewrite Hi. simpl. by rewrite IH.
Qed.

Lemma reads_back_array fuel l :
  Z.of_nat (length l) < 2 ^ 64 -> Forall (reads_back fuel) l -> reads_back (S fuel) (VArray l).
Proof.
  intros Hl IH rest. cbn [encode]. rewrite <- app_assoc.
  destruct (decode_head_head 4 (Z.of_nat (length l)) (concat (map encode l) ++ rest)) as [i Hi]; [lia..|].
  simpl. rewrite Hi. simpl.
  pose proof (length_concat_ge encode l (Forall_true _ _ length_encode)).
  rewrite length_app, (proj2 (Z.ltb_ge _ _)) by lia. rewrite Nat2Z.id.
  by rewrite repeat_dec_concat.
Qed.

(** A map is the concatenation of its keys and values. *)
Definition encode_entry (kv : Value * Value) : bytes := encode kv.1 ++ encode kv.2.

Lemma length_encode_entry kv : (1 <= length (encode_entry kv))%nat.
Proof. unfold encode_entry. rewrite length_app. pose proof (length_encode kv.1). lia. Qed.

Lemma reads_back_map fuel m :
  Z.of_nat (length m) < 2 ^ 64 ->
  Forall (fun kv => reads_back fuel kv.1 /\ reads_back fuel kv.2) m -> reads_back (S fuel) (VMap m).
Proof.
  intros Hl IH rest. cbn [encode]. change (fun kv => _) with encode_entry. rewrite <- app_assoc.
  destruct (decode_head_head 5 (Z.of_nat (length m)) (concat (map encode_entry m) ++ rest))
    as [i Hi]; [lia..|].
  simpl. rewrite Hi. simpl.
  pose proof (length_concat_ge encode_entry m (Forall_true _ _ length_encode_entry)).
  rewrite length_app, (proj2 (Z.ltb_ge _ _)) by lia. rewrite Nat2Z.id.
  rewrite repeat_dec_concat; [done|]. eapply Forall_impl; [exact IH|].
  intros [k x] [Hk Hx] r. unfold encode_entry. simpl in *. rewrite <- app_assoc, Hk. simpl.
  by rewrite Hx.
Qed.

(** With at least as much fuel as the encoding has bytes, the decoder reads a
    value back and leaves the rest. *)
Lemma decode_encode v fuel :
  value_ok v = true -> (length (encode v) <= fuel)%nat -> reads_back fuel v.
Proof.
  revert fuel. induction v as [z|b|b|s|b| |t v IH|l IH|m IH] using Value_induction;
    intros [|fuel] Hok Hf;
    try match type of Hf with (length (encode ?v) <= 0)%nat => pose proof (length_encode v); lia end.
  - by apply reads_back_integer.
  - by apply reads_back_bytes.
  - by apply reads_back_float.
  - by apply reads_back_text.
  - intros rest. by destruct b.
  - done.
  - apply reads_back_tag; [done|]. cbn [value_ok encode] in *. bools. rewrite length_app in Hf.
    pose proof (length_head 6 t). apply IH; [done|lia].
  - cbn [value_ok encode] in *. apply andb_true_iff in Hok as [?%Z.ltb_lt Hok].
    apply reads_back_array; [done|]. rewrite length_app in Hf.
    pose proof (length_head 4 (Z.of_nat (length l))). rewrite forallb_forall in Hok.
    rewrite Forall_forall in IH |- *. intros x Hx.
    pose proof (length_concat_elem encode l x Hx).
    apply IH; [done|by apply Hok, list_elem_of_In|lia].
  - cbn [value_ok encode] in *. apply andb_true_iff in Hok as [?%Z.ltb_lt Hok].
    apply reads_back_map; [done|]. rewrite length_app in Hf.
    pose proof (length_head 5 (Z.of_nat (length m))). rewrite forallb_forall in Hok.
    rewrite Forall_forall in IH |- *. intros [k x] Hx. destruct (IH _ Hx) as [IHk IHx].
    pose proof (length_concat_elem encode_entry m _ Hx) as Hle.
    specialize (Hok (k, x)). rewrite <- list_elem_of_In in Hok. specialize (Hok Hx). bools.
    unfold encode_entry in Hle. simpl in *. rewrite length_app in Hle.
    change (fun kv : Value * Value => encode kv.1 ++ encode kv.2) with encode_entry in Hf.
    split; [apply IHk|apply IHx]; done || (unfold encode_entry in *; simpl in *; lia).
Qed.

#[export] Instance laws : CborLaws.
Proof.
  constructor. intros v rest Hok. unfold cbor_decode, cbor_encode, codec.
  by rewrite (decode_encode v) by (done || (rewrite length_app; lia)).
Qed.

(** ** Witnesses of the theorems of [Cbor] *)

Definition sample_map : list (Value * Value) :=
  [(VText "up", VBool true); (VInteger 3, VMap [(VText "rk", VNull); (VInteger 1, VBytes [1; 2])]);
   (VInteger (-7), VArray [VText "usb"])].

End CborRef.

#[local] Existing Instance CborRef.codec.
#[local] Existing Instance CborRef.laws.

Lemma response_canonical_and_complete_witness :
  exists payload m', encode_response (VMap CborRef.sample_map) = 0 :: payload /\
    cbor_decode payload = Some (VMap m') /\
    StronglySorted key_before m' /\ canonical (VMap m') /\ m'.*1 ≡ₚ CborRef.sample_map.*1 /\
    (forall k : Z, map_value m' k = canonicalize_value <$> map_value CborRef.sample_map k) /\
    (forall k : string, map_value m' k = canonicalize_value <$> map_value CborRef.sample_map k).
Proof.
  apply (response_canonical_and_complete CborRef.sample_map);
    [repeat constructor; set_solver|vm_compute; reflexivity].
Defined.

Lemma management_auth_message_order_witness :
  management_auth_message 6 (Some CborRef.sample_map) =
  management_auth_message 6 (Some (reverse CborRef.sample_map)).
Proof.
  apply (management_auth_message_order 6 CborRef.sample_map (reverse CborRef.sample_map));
    [repeat constructor; set_solver|repeat constructor|by rewrite reverse_Permutation].
Defined.
