(* ===== verification/Schema.v ===== *)
(** Data shared by the store, the TPM layer and the authenticator: the stored
    records of [src/src/store.rs], the key and policy records of [src/src/tpm.rs],
    and the SQLite tables that [migrations/*.sql] leave behind. *)
From Stdlib Require Import ZArith String.
From stdpp Require Import base list option strings gmap.
From S2P Require Import Prelude.

#[local] Open Scope Z_scope.

(** ** Keys and policies *)

(** [tpm::TpmCredential] and [store::StoredTpmKey]: the same five fields, copied
    field by field where the code converts one into the other. *)
Record TpmCredential := {
  private : bytes; public : bytes; public_key_x : bytes; public_key_y : bytes;
  auth_value : option bytes }.
Abbreviation StoredTpmKey := TpmCredential.

#[export] Instance TpmCredential_eq_dec : EqDecision TpmCredential.
Proof. solve_decision. Defined.

(** [tpm::RecoveryKdf] *)
Inductive RecoveryKdf := Argon2id (memory_kib iterations parallelism : Z).

#[export] Instance RecoveryKdf_eq_dec : EqDecision RecoveryKdf.
Proof. solve_decision. Defined.

Definition argon2id_default : RecoveryKdf := Argon2id 65536 3 1.

(** [tpm::PcrPolicyBinding] *)
Record PcrPolicyBinding := {
  b_selection : string; b_digest : bytes; b_policy_ref : option bytes;
  b_authority_name : option bytes; b_authority_signature : option bytes }.

(** [tpm::RecoveryMaterial] *)
Record RecoveryMaterial := {
  rm_label : option string; rm_passphrase_salt : bytes; rm_passphrase_hash : bytes;
  rm_kdf : RecoveryKdf; rm_key : TpmCredential; rm_authority_name : bytes }.

(** [store::StoredPcrPolicy] *)
Record StoredPcrPolicy := {
  selection : string; digest : bytes; policy_ref : option bytes;
  authority_name : option bytes; authority_signature : option bytes; policy_version : Z }.

#[export] Instance StoredPcrPolicy_eq_dec : EqDecision StoredPcrPolicy.
Proof. solve_decision. Defined.

Definition current_version : Z := 1.
Definition is_version_supported (version : Z) : bool := bool_decide (version ∈ [1]).

(** [store::StoredRecoverySlot] *)
Record StoredRecoverySlot := {
  label : option string; passphrase_salt : bytes; passphrase_hash : bytes;
  kdf : RecoveryKdf; slot_key : StoredTpmKey }.

#[export] Instance StoredRecoverySlot_eq_dec : EqDecision StoredRecoverySlot.
Proof. solve_decision. Defined.

(** ** Stored records *)

(** [store::StoredCtap2Credential] *)
Record StoredCtap2Credential := {
  s_id : bytes; s_rp_id : string; s_discoverable : bool; s_user_id : option Z;
  s_user_handle : bytes; s_user_name : option string; s_user_display_name : option string;
  s_key : StoredTpmKey; s_policy : option StoredPcrPolicy;
  s_recovery : option StoredRecoverySlot; s_sign_count : Z; s_integrity_mac : option bytes }.

#[export] Instance StoredCtap2Credential_eq_dec : EqDecision StoredCtap2Credential.
Proof. solve_decision. Defined.

Definition set_integrity_mac (m : option bytes) (c : StoredCtap2Credential) : StoredCtap2Credential :=
  {| s_id := s_id c; s_rp_id := s_rp_id c; s_discoverable := s_discoverable c;
     s_user_id := s_user_id c; s_user_handle := s_user_handle c; s_user_name := s_user_name c;
     s_user_display_name := s_user_display_name c; s_key := s_key c; s_policy := s_policy c;
     s_recovery := s_recovery c; s_sign_count := s_sign_count c; s_integrity_mac := m |}.

(** [store::StoredClientPinState] *)
Record StoredClientPinState := {
  sp_pin_salt : bytes; sp_pin_verifier : bytes; sp_retries : Z; sp_integrity_mac : option bytes }.

(** [store::TpmKeyBlob] *)
Record TpmKeyBlob := { kb_private : bytes; kb_public : bytes; kb_auth_value : option bytes }.

(** ** Tables *)

(** A row of [credential_metadata]. Times are not modelled. *)
Record MetadataRow := {
  m_credential_id : bytes; m_rp_id : string; m_user_handle : bytes; m_user_name : option string;
  m_user_display_name : option string; m_sign_count : Z; m_user_id : option Z;
  m_integrity_mac : option bytes; m_discoverable : Z }.

Inductive SlotKind := Primary | Recovery.

#[export] Instance SlotKind_eq_dec : EqDecision SlotKind.
Proof. solve_decision. Defined.

(** A row of [credential_keyslots]. *)
Record KeyslotRow := {
  k_keyslot_id : Z; k_credential_id : bytes; k_slot_kind : SlotKind; k_slot_label : option string;
  k_policy_selection : option string; k_policy_digest : option bytes; k_policy_ref : option bytes;
  k_authority_name : option bytes; k_authority_signature : option bytes; k_policy_version : Z;
  k_tpm_key : bytes; k_public_key : string }.

(** A row of [credential_tokens]; the only token type is ['passphrase']. *)
Record TokenRow := { t_keyslot_id : Z; t_label : option string; t_kdf_params : string }.

(** The row of [client_pin_state] with [state_id = 1]. *)
Record PinRow := {
  pr_pin_salt : bytes; pr_pin_verifier : bytes; pr_retries : Z; pr_integrity_mac : option bytes }.

(** The store directory: whether [credentials.sqlite] exists, its tables, and the
    contents of the file [integrity.hmac-key]. *)
Record Db := {
  db_exists : bool;
  metadata : list MetadataRow;
  keyslots : list KeyslotRow;
  next_keyslot_id : Z;
  tokens : list TokenRow;
  pin_row : option PinRow;
  daemon_config : gmap string bytes;
  hmac_key_file : option bytes }.

Definition empty_db : Db :=
  {| db_exists := false; metadata := []; keyslots := []; next_keyslot_id := 1; tokens := [];
     pin_row := None; daemon_config := ∅; hmac_key_file := None |}.

Definition set_exists (d : Db) : Db :=
  {| db_exists := true; metadata := metadata d; keyslots := keyslots d;
     next_keyslot_id := next_keyslot_id d; tokens := tokens d; pin_row := pin_row d;
     daemon_config := daemon_config d; hmac_key_file := hmac_key_file d |}.
Definition set_metadata (m : list MetadataRow) (d : Db) : Db :=
  {| db_exists := db_exists d; metadata := m; keyslots := keyslots d;
     next_keyslot_id := next_keyslot_id d; tokens := tokens d; pin_row := pin_row d;
     daemon_config := daemon_config d; hmac_key_file := hmac_key_file d |}.
Definition set_keyslots (k : list KeyslotRow) (n : Z) (d : Db) : Db :=
  {| db_exists := db_exists d; metadata := metadata d; keyslots := k;
     next_keyslot_id := n; tokens := tokens d; pin_row := pin_row d;
     daemon_config := daemon_config d; hmac_key_file := hmac_key_file d |}.
Definition set_tokens (t : list TokenRow) (d : Db) : Db :=
  {| db_exists := db_exists d; metadata := metadata d; keyslots := keyslots d;
     next_keyslot_id := next_keyslot_id d; tokens := t; pin_row := pin_row d;
     daemon_config := daemon_config d; hmac_key_file := hmac_key_file d |}.
Definition set_pin_row (p : option PinRow) (d : Db) : Db :=
  {| db_exists := db_exists d; metadata := metadata d; keyslots := keyslots d;
     next_keyslot_id := next_keyslot_id d; tokens := tokens d; pin_row := p;
     daemon_config := daemon_config d; hmac_key_file := hmac_key_file d |}.
Definition set_config (c : gmap string bytes) (d : Db) : Db :=
  {| db_exists := db_exists d; metadata := metadata d; keyslots := keyslots d;
     next_keyslot_id := next_keyslot_id d; tokens := tokens d; pin_row := pin_row d;
     daemon_config := c; hmac_key_file := hmac_key_file d |}.
Definition set_hmac_key_file (k : option bytes) (d : Db) : Db :=
  {| db_exists := db_exists d; metadata := metadata d; keyslots := keyslots d;
     next_keyslot_id := next_keyslot_id d; tokens := tokens d; pin_row := pin_row d;
     daemon_config := daemon_config d; hmac_key_file := k |}.
