(* ===== verification/Platform.v ===== *)
(** What the program runs on. Everything outside the repository is a parameter:
    the operating system and the D-Bus services ([Platform]), the cryptographic
    crates ([Crypto]). A call to the outside is answered by a function of the
    number of calls made before it, the tick of the [World]; a theorem that holds
    for every [Platform] therefore holds for every sequence of answers. *)
From Stdlib Require Import ZArith String.
From stdpp Require Import base list option strings gmap.
From S2P Require Import Prelude Schema.

#[local] Open Scope Z_scope.

(** ** The world *)

(** The number of external calls so far, the store directory, and the transient
    TPM objects and sessions that are open. *)
Record World := { w_tick : nat; w_db : Db; w_handles : list nat }.

Definition set_tick (t : nat) (w : World) : World :=
  {| w_tick := t; w_db := w_db w; w_handles := w_handles w |}.
Definition set_db (d : Db) (w : World) : World :=
  {| w_tick := w_tick w; w_db := d; w_handles := w_handles w |}.
Definition set_handles (h : list nat) (w : World) : World :=
  {| w_tick := w_tick w; w_db := w_db w; w_handles := h |}.

(** The next external call. *)
Definition next {E} : M World E nat := fun w => (Ok (w_tick w), set_tick (S (w_tick w)) w).

(** ** The platform *)

(** A D-Bus value, as far as the code distinguishes them. *)
Inductive Variant := VaBool (b : bool) | VaStr (s : string) | VaU32 (n : Z) | VaOther.

(** An entry of logind's [ListSessions]: session id, uid, user, seat, path. *)
Record LogindSession := {
  ls_id : string; ls_uid : Z; ls_user : string; ls_seat : string; ls_path : string }.

Class Platform := {
  (** [env::var(name).ok()] and [libc::geteuid()] *)
  env_var : string -> option string;
  geteuid : Z;
  (** [ListSessions] on the system bus, [None] on any failure, and the properties
      of a session object *)
  list_sessions : nat -> option (list LogindSession);
  session_property : nat -> string -> string -> option Variant;
  (** [/proc/<pid>/stat] *)
  proc_stat : nat -> Z -> res string string;
  (** [CheckAuthorization] for a process subject: pid, start time, uid *)
  check_authorization : nat -> Z -> Z -> Z -> res string bool;
  (** writing the prompt to stdout, reading a line from stdin *)
  stdout_ok : nat -> bool;
  stdin_line : nat -> option string;
  (** [Instant::now()], in nanoseconds *)
  now : nat -> Z;
  (** [getrandom::fill] of a buffer of the given length; [None] is a failure *)
  getrandom : nat -> nat -> option bytes;
  (** [EphemeralSecret::generate()] *)
  generate_secret : nat -> bytes;
  (** [std::fs::metadata] of a path *)
  file_metadata : nat -> string -> res string unit;
  (** an error of SQLite or of the file system during a store operation *)
  db_fault : nat -> option string;
  (** an error reading or writing the file of the integrity key *)
  key_file_fault : nat -> option string }.

(** [getrandom::fill] fills the buffer it is given. *)
Class PlatformLaws {pf : Platform} := {
  length_getrandom t n b : getrandom t n = Some b -> length b = n }.

(** ** Cryptography *)

Class Crypto := {
  (** [Sha256::digest] *)
  sha256 : bytes -> bytes;
  (** [Hmac<Sha256>]: key, message. Any key length is accepted. *)
  hmac_sha256 : bytes -> bytes -> bytes;
  (** [pbkdf2_hmac::<Sha256>]: password, salt, rounds, output length *)
  pbkdf2_hmac_sha256 : bytes -> bytes -> Z -> nat -> bytes;
  (** [Hkdf::<Sha256>::new(salt, ikm).expand(info, out)] *)
  hkdf_sha256 : bytes -> bytes -> bytes -> nat -> option bytes;
  (** AES-256-CBC without padding: key, iv, data (whole blocks) *)
  aes256_cbc_encrypt : bytes -> bytes -> bytes -> bytes;
  aes256_cbc_decrypt : bytes -> bytes -> bytes -> bytes;
  (** P-256: [PublicKey::from_sec1_bytes] succeeds, the uncompressed public key
      of a secret, and [diffie_hellman(..).raw_secret_bytes()] *)
  p256_valid : bytes -> bool;
  p256_public_key : bytes -> bytes;
  p256_ecdh : bytes -> bytes -> bytes;
  (** Argon2id, version 0x13: parameters, salt, password, output length *)
  argon2id_hash : RecoveryKdf -> bytes -> bytes -> nat -> res string bytes }.

Class CryptoLaws {cr : Crypto} := {
  length_sha256 m : length (sha256 m) = 32%nat;
  length_hmac_sha256 k m : length (hmac_sha256 k m) = 32%nat;
  hmac_sha256_ok k m : bytes_ok (hmac_sha256 k m);
  length_pbkdf2 p s r n : length (pbkdf2_hmac_sha256 p s r n) = n;
  pbkdf2_ok p s r n : bytes_ok (pbkdf2_hmac_sha256 p s r n);
  aes256_cbc_roundtrip k iv d : length k = 32%nat -> length iv = 16%nat -> (length d mod 16 = 0)%nat ->
    aes256_cbc_decrypt k iv (aes256_cbc_encrypt k iv d) = d;
  length_aes256_cbc_encrypt k iv d : length (aes256_cbc_encrypt k iv d) = length d;
  length_aes256_cbc_decrypt k iv d : length (aes256_cbc_decrypt k iv d) = length d }.

(** [constant_time_equal] of [ctap2.rs] and [store.rs]. *)
Definition constant_time_equal (left right : bytes) : bool :=
  (length left =? length right)%nat
  && (foldl (fun difference '(l, r) => Z.lor difference (Z.lxor l r)) 0 (zip left right) =? 0).

(** ** Lemmas *)

Lemma constant_time_fold d l r :
  length l = length r ->
  foldl (fun difference '(l, r) => Z.lor difference (Z.lxor l r)) d (zip l r) = 0 <-> d = 0 /\ l = r.
Proof.
  revert d r. induction l as [|x l IH]; intros d [|y r] Hl; simplify_eq/=; [naive_solver|].
  rewrite IH by done. rewrite Z.lor_eq_0_iff, Z.lxor_eq_0_iff. naive_solver.
Qed.

Lemma constant_time_equal_eq l r : constant_time_equal l r = true <-> l = r.
Proof.
  unfold constant_time_equal. rewrite andb_true_iff, Nat.eqb_eq, Z.eqb_eq. split.
  - intros [Hlen H]. by apply constant_time_fold in H as [_ ?].
  - intros ->. split; [done|]. by apply constant_time_fold.
Qed.

Lemma constant_time_equal_refl l : constant_time_equal l l = true.
Proof.
  unfold constant_time_equal. rewrite Nat.eqb_refl. simpl. apply Z.eqb_eq.
  enough (forall d, foldl (fun difference '(l, r) => Z.lor difference (Z.lxor l r)) d (zip l l) = d) by done.
  induction l as [|x l IH]; intros d; [done|]. simpl. by rewrite Z.lxor_nilpotent, Z.lor_0_r, IH.
Qed.
