(* ===== verification/Session.v ===== *)
(** The daemon's session identity and the user's approval:
    [src/src/session.rs], [src/src/systemd_logind.rs], [src/src/polkit.rs] and
    [src/src/approval.rs]. *)
From Stdlib Require Import ZArith Lia String Ascii.
From stdpp Require Import base list option strings pretty.
From S2P Require Import Prelude Schema Platform.

#[local] Open Scope Z_scope.

Module Session.

(** ** Text: the parts of [str] the code uses *)

(** The number of bytes of the whitespace character that the text starts with, 0
    if it starts with another one ([char::is_whitespace], in UTF-8). *)
Definition ws_prefix (l : bytes) : nat :=
  match l with
  | b :: l =>
      if (9 <=? b) && (b <=? 13) || (b =? 32) then 1%nat
      else match l with
      | c :: l =>
          if (b =? 0xc2) && ((c =? 0x85) || (c =? 0xa0)) then 2%nat
          else match l with
          | d :: _ =>
              if (b =? 0xe1) && (c =? 0x9a) && (d =? 0x80)
                 || (b =? 0xe2) && (c =? 0x80)
                    && ((0x80 <=? d) && (d <=? 0x8a) || (d =? 0xa8) || (d =? 0xa9) || (d =? 0xaf))
                 || (b =? 0xe2) && (c =? 0x81) && (d =? 0x9f)
                 || (b =? 0xe3) && (c =? 0x80) && (d =? 0x80)
              then 3%nat else 0%nat
          | [] => 0%nat
          end
      | [] => 0%nat
      end
  | [] => 0%nat
  end.

Fixpoint trim_start (fuel : nat) (l : bytes) : bytes :=
  match fuel with
  | O => l
  | S fuel => match ws_prefix l with O => l | n => trim_start fuel (drop n l) end
  end.

(** The same from the end: some suffix of the text is a whitespace character. *)
Definition ws_suffix (l : bytes) : nat :=
  let n := length l in
  if (ws_prefix (drop (n - 1) l) =? 1)%nat then 1%nat
  else if (ws_prefix (drop (n - 2) l) =? 2)%nat then 2%nat
  else if (ws_prefix (drop (n - 3) l) =? 3)%nat then 3%nat
  else 0%nat.

Fixpoint trim_end (fuel : nat) (l : bytes) : bytes :=
  match fuel with
  | O => l
  | S fuel => match ws_suffix l with O => l | n => trim_end fuel (take (length l - n) l) end
  end.

(** [str::trim] *)
Definition trim_bytes (l : bytes) : bytes :=
  let l := trim_start (length l) l in trim_end (length l) l.
Definition trim (s : string) : bytes := trim_bytes (as_bytes s).

(** [str::split_whitespace], with the token read so far. *)
Fixpoint split_ws (fuel : nat) (cur l : bytes) : list bytes :=
  let emit rest := match cur with [] => rest | _ => cur :: rest end in
  match fuel, l with
  | _, [] => emit []
  | O, _ => []
  | S fuel, b :: t =>
      match ws_prefix l with
      | O => split_ws fuel (cur ++ [b]) t
      | n => emit (split_ws fuel [] (drop n l))
      end
  end.
Definition split_whitespace (l : bytes) : list bytes := split_ws (length l) [] l.

(** [str::parse] to an unsigned integer of at most [max]. *)
Fixpoint parse_digits (max acc : Z) (l : bytes) : option Z :=
  match l with
  | [] => Some acc
  | b :: l =>
      if (48 <=? b) && (b <=? 57) then
        let acc := acc * 10 + (b - 48) in
        if acc <=? max then parse_digits max acc l else None
      else None
  end.
Definition parse_unsigned (max : Z) (l : bytes) : option Z :=
  match l with
  | [] => None
  | 43 :: [] => None
  | 43 :: l => parse_digits max 0 l
  | l => parse_digits max 0 l
  end.

(** [str::rfind] of one ASCII character. *)
Fixpoint rfind (c : Z) (l : bytes) : option nat :=
  match l with
  | [] => None
  | b :: l =>
      match rfind c l with
      | Some i => Some (S i)
      | None => if b =? c then Some 0%nat else None
      end
  end.

(** ** Sessions *)

Inductive DaemonSessionModel := ActiveGraphicalSession | PerUserDaemon | SystemBroker.

Definition as_str (m : DaemonSessionModel) : string :=
  match m with
  | ActiveGraphicalSession => "active-graphical-session"
  | PerUserDaemon => "per-user-daemon"
  | SystemBroker => "system-broker"
  end.

Record SessionContext := {
  model : DaemonSessionModel;
  user : option string;
  uid : option Z;
  session_id : option string;
  leader_pid : option Z;
  seat : option string;
  display : option string;
  wayland_display : option string;
  dbus_session_bus_address : option string }.

Definition non_empty (o : option string) : option string :=
  match o with Some s => if bool_decide (s = ""%string) then None else Some s | None => None end.

Definition or_else {A} (a b : option A) : option A :=
  match a with Some x => Some x | None => b end.

Section platform.
Context {pf : Platform}.

(** *** [systemd_logind::detect_session]

    The D-Bus calls of one detection are answered at one tick [t]. Each of them
    asks something else ([ListSessions] once, then a property of a session's
    path, each pair of path and name once), and [session_property] is an
    arbitrary function of both, so the answers may differ from call to call in
    any way; all that the single tick excludes is two different answers to the
    same question, which is asked twice only if logind lists one path twice. *)

Definition bool_property (t : nat) (path name : string) : option bool :=
  session_property t path name ≫= fun v => match v with VaBool b => Some b | _ => None end.
Definition string_of (v : Variant) : option string :=
  match v with VaStr s => Some s | _ => None end.
Definition string_property (t : nat) (path name : string) : option string :=
  session_property t path name ≫= string_of.
Definition u32_property (t : nat) (path name : string) : option Z :=
  session_property t path name ≫= fun v => match v with VaU32 n => Some n | _ => None end.

(** The body of the loop for an active session: its context and whether it is
    graphical. A property that cannot be read ends the whole detection. *)
Definition session_context (t : nat) (s : LogindSession) : option (SessionContext * bool) :=
  session_type ← string_property t (ls_path s) "Type";
  leader ← u32_property t (ls_path s) "Leader";
  disp ← session_property t (ls_path s) "Display";
  Some ({| model := ActiveGraphicalSession;
           user := non_empty (Some (ls_user s));
           uid := Some (ls_uid s);
           session_id := Some (ls_id s);
           leader_pid := Some leader;
           seat := Some (ls_seat s);
           display := non_empty (string_of disp);
           wayland_display := None;
           dbus_session_bus_address := None |},
        bool_decide (session_type = "x11"%string) || bool_decide (session_type = "wayland"%string)).

Fixpoint scan_sessions (t : nat) (sessions : list LogindSession)
    (active_non_graphical : option SessionContext) : option SessionContext :=
  match sessions with
  | [] => active_non_graphical
  | s :: rest =>
      if bool_decide (ls_seat s = ""%string) then scan_sessions t rest active_non_graphical
      else
        active ← bool_property t (ls_path s) "Active";
        if negb active then scan_sessions t rest active_non_graphical
        else
          '(context, graphical) ← session_context t s;
          if graphical : bool then Some context
          else scan_sessions t rest (or_else active_non_graphical (Some context))
  end.

Definition detect_session (t : nat) : option SessionContext :=
  sessions ← list_sessions t; scan_sessions t sessions None.

(** *** [SessionContext::detect] *)

Definition env_fallback : SessionContext :=
  let parse_uid name := env_var name ≫= fun v => parse_unsigned u32_max (as_bytes v) in
  {| model := ActiveGraphicalSession;
     user := or_else (non_empty (env_var "SUDO_USER")) (non_empty (env_var "USER"));
     uid := or_else (or_else (parse_uid "SUDO_UID") (parse_uid "UID")) (Some geteuid);
     session_id := non_empty (env_var "XDG_SESSION_ID");
     leader_pid := None;
     seat := non_empty (env_var "XDG_SEAT");
     display := non_empty (env_var "DISPLAY");
     wayland_display := non_empty (env_var "WAYLAND_DISPLAY");
     dbus_session_bus_address := non_empty (env_var "DBUS_SESSION_BUS_ADDRESS") |}.

Definition detect_at (t : nat) : SessionContext :=
  match detect_session t with Some ctx => ctx | None => env_fallback end.

Definition detect {E} : M World E SessionContext := t ← next; mret (detect_at t).

Definition same_session (a b : SessionContext) : bool :=
  bool_decide (uid a = uid b) && bool_decide (session_id a = session_id b).

Definition verify_matches_current {E} (self : SessionContext) : M World E bool :=
  current ← detect; mret (same_session current self).

Definition describe (s : SessionContext) : string :=
  let part (prefix : string) (o : option string) :=
    match o with Some x => [prefix +:+ x]%string | None => [] end in
  String.concat " "
    ([("model=" +:+ as_str (model s))%string]
     ++ part "user=" (user s)
     ++ part "uid=" (pretty <$> uid s)
     ++ part "session=" (session_id s)
     ++ part "seat=" (seat s)
     ++ part "display=" (display s)
     ++ part "wayland=" (wayland_display s)
     ++ match dbus_session_bus_address s with Some _ => ["dbus=session-bus"%string] | None => [] end).

(** *** [polkit::check_session] *)

(** A byte that does not start a character: slicing there panics. *)
Definition is_continuation (b : Z) : bool := (0x80 <=? b) && (b <? 0xc0).

(** [&s[i..]] *)
Definition slice_from {E} (i : nat) (l : bytes) : res E bytes :=
  if (length l <? i)%nat then Panic
  else match drop i l with
  | b :: _ => if is_continuation b then Panic else Ok (drop i l)
  | [] => Ok []
  end.

Definition process_start_time_ticks (stat : string) : res string Z :=
  let l := as_bytes stat in
  after_comm ← ok_or (rfind 41 l) "malformed /proc/pid/stat"%string;
  rest ← slice_from (after_comm + 2) l;
  field ← ok_or (split_whitespace rest !! 19%nat) "missing starttime in /proc/pid/stat"%string;
  ok_or (parse_unsigned (2 ^ 64 - 1) field) "invalid digit found in string"%string.

(** [user_uid as i32] *)
Definition as_i32 (z : Z) : Z := if z <? 2 ^ 31 then z else z - 2 ^ 32.

Definition check_session (session_id : string) (pid user_uid : Z) : M World string bool :=
  t ← next;
  stat ← lift (proc_stat t pid);
  start_time ← lift (process_start_time_ticks stat);
  t ← next;
  lift (check_authorization t pid start_time (as_i32 user_uid)).

(** *** [approval::approve] *)

Definition affirmative (answer : string) : bool :=
  bool_decide (trim answer ∈ as_bytes <$> ["y"; "Y"; "yes"; "YES"; "Yes"]%string).

(** The prompt on the terminal. *)
Definition approve_on_terminal {E} : M World E bool :=
  t ← next;
  if negb (stdout_ok t) then mret false
  else
    t ← next;
    match stdin_line t with
    | None => mret false
    | Some answer => mret (affirmative answer)
    end.

Definition approve {E} (prompt : string) (session : SessionContext) : M World E bool :=
  match session_id session, leader_pid session, uid session with
  | Some sid, Some pid, Some user_uid =>
      r ← attempt (check_session sid pid user_uid);
      match r with
      | Ok b => mret b
      | Err _ => approve_on_terminal
      | Panic => panic
      end
  | _, _, _ => approve_on_terminal
  end.
End platform.

(** ** Properties *)

Section properties.
Context {pf : Platform}.

(** A session attached to a seat and active. *)
Definition seated_active (t : nat) (s : LogindSession) : Prop :=
  ls_seat s <> ""%string /\ bool_property t (ls_path s) "Active" = Some true.

Definition graphical (t : nat) (s : LogindSession) : Prop :=
  exists ctx, session_context t s = Some (ctx, true).

(** What a scan that starts with the candidate [acc] selects. *)
Definition scan_spec (t : nat) (sessions : list LogindSession) (acc : option SessionContext)
    (ctx : SessionContext) : Prop :=
  (exists before s after, sessions = before ++ s :: after /\ seated_active t s /\
     session_context t s = Some (ctx, true) /\
     Forall (fun s' => seated_active t s' -> ~ graphical t s') before) \/
  (Forall (fun s' => seated_active t s' -> ~ graphical t s') sessions /\
   (acc = Some ctx \/
    (acc = None /\ exists before s after, sessions = before ++ s :: after /\ seated_active t s /\
       session_context t s = Some (ctx, false) /\
       Forall (fun s' => ~ seated_active t s') before))).

Lemma scan_spec_skip t s rest acc ctx :
  ~ seated_active t s -> scan_spec t rest acc ctx -> scan_spec t (s :: rest) acc ctx.
Proof.
  intros Hs [(b & x & a & -> & Hx & Hc & Hb)|[Hall [->|(-> & b & x & a & -> & Hx & Hc & Hb)]]].
  - left. exists (s :: b), x, a. split_and!; try done. by constructor.
  - right. split; [by constructor|by left].
  - right. split; [by constructor|]. right. split; [done|]. exists (s :: b), x, a.
    split_and!; try done. by constructor.
Qed.

Lemma scan_sessions_sound t sessions acc ctx :
  scan_sessions t sessions acc = Some ctx -> scan_spec t sessions acc ctx.
Proof.
  revert acc. induction sessions as [|s rest IH]; intros acc; simpl.
  { intros ->. right. split; [constructor|by left]. }
  case_bool_decide as Hseat.
  { intros H%IH. apply scan_spec_skip; [by intros [? _]|done]. }
  destruct (bool_property t (ls_path s) "Active") as [[]|] eqn:Ha; simpl; [| |done]; cycle 1.
  { intros H%IH. apply scan_spec_skip; [intros [_ ?]; congruence|done]. }
  destruct (session_context t s) as [[c [|]]|] eqn:Hc; simpl; [| |done].
  - intros [= ->]. left. exists [], s, rest. split_and!; try done.
  - assert (seated_active t s) as Hs by by split.
    assert (~ graphical t s) as Hg by (intros [? ?]; congruence).
    intros [(b & x & a & -> & Hx & Hc' & Hb)|[Hall Hacc]]%IH.
    { left. exists (s :: b), x, a. split_and!; try done. by constructor. }
    right. split; [by constructor|].
    destruct acc as [c0|]; simpl in Hacc.
    + destruct Hacc as [?|[? _]]; [by left|done].
    + destruct Hacc as [[= ->]|[? _]]; [|done]. right. split; [done|].
      exists [], s, rest. split_and!; try done.
Qed.

(** The session the daemon binds to: when logind answers, the context is
    that of the first session that is attached to a seat, active and graphical
    (x11 or wayland); only if no seated active session is graphical is it the
    first seated active one. *)
Theorem detect_session_selects t sessions ctx :
  list_sessions t = Some sessions -> detect_session t = Some ctx ->
  exists before s after g, sessions = before ++ s :: after /\ seated_active t s /\
    session_context t s = Some (ctx, g) /\
    if g : bool then Forall (fun s' => seated_active t s' -> ~ graphical t s') before
    else Forall (fun s' => seated_active t s' -> ~ graphical t s') sessions /\
         Forall (fun s' => ~ seated_active t s') before.
Proof.
  unfold detect_session. intros -> H. simpl in H.
  apply scan_sessions_sound in H as [(b & s & a & ? & ? & ? & ?)|[Hall [?|(_ & b & s & a & ? & ? & ? & ?)]]];
    [|done|].
  - by exists b, s, a, true.
  - by exists b, s, a, false.
Qed.

(** *** What consent is, written without the code that looks for it *)

(** A whitespace character, and text of nothing but whitespace. *)
Definition ws_char (c : bytes) : Prop := c <> [] /\ ws_prefix c = length c.
Definition blank (l : bytes) : Prop := exists chars, Forall ws_char chars /\ l = concat chars.

(** The text is one of the five words of agreement, between whitespace. *)
Definition says_yes (line : string) : Prop :=
  exists pre word post, as_bytes line = pre ++ as_bytes word ++ post /\ blank pre /\ blank post /\
    word ∈ ["y"; "Y"; "yes"; "YES"; "Yes"]%string.

(** The start time in [/proc/pid/stat]: the 20th word after the last closing
    parenthesis and the byte that follows it. *)
Definition start_time_field (stat : string) (start : Z) : Prop :=
  exists comm c d rest field, as_bytes stat = comm ++ 41 :: c :: d :: rest /\ 41 ∉ c :: d :: rest /\
    is_continuation d = false /\ split_whitespace (d :: rest) !! 19%nat = Some field /\
    parse_unsigned (2 ^ 64 - 1) field = Some start.

(** Polkit, asked about the leader of the recorded session, answers [c]. *)
Definition polkit_answers (session : SessionContext) (t : nat) (c : bool) : Prop :=
  exists sid pid u stat start, session_id session = Some sid /\ leader_pid session = Some pid /\
    uid session = Some u /\ proc_stat t pid = Ok stat /\ start_time_field stat start /\
    check_authorization (S t) pid start (as_i32 u) = Ok c.

Lemma rfind_absent c l : c ∉ l -> rfind c l = None.
Proof.
  induction l as [|b l IH]; simpl; [done|]. intros [Hb Hl]%not_elem_of_cons.
  rewrite IH by done. destruct (Z.eqb_spec b c); [by subst|done].
Qed.

Lemma rfind_last c pre post : c ∉ post -> rfind c (pre ++ c :: post) = Some (length pre).
Proof.
  intros Hp. induction pre as [|b pre IH]; simpl; [|by rewrite IH].
  rewrite rfind_absent by done. by rewrite Z.eqb_refl.
Qed.

Lemma rfind_Some c l i :
  rfind c l = Some i -> exists pre post, l = pre ++ c :: post /\ c ∉ post /\ length pre = i.
Proof.
  intros H. destruct (decide (c ∈ l)) as [(pre & post & -> & Hp)%list_elem_of_split_r|Hn].
  - rewrite rfind_last in H by done. injection H as <-. eauto.
  - by rewrite rfind_absent in H.
Qed.

Lemma process_start_time_field stat start :
  process_start_time_ticks stat = Ok start <-> start_time_field stat start.
Proof.
  unfold process_start_time_ticks. split.
  - destruct (rfind 41 (as_bytes stat)) as [i|] eqn:E; [|done].
    apply rfind_Some in E as (comm & post & Hs & Hp & <-). rewrite Hs. cbn [ok_or mbind res_bind].
    unfold slice_from. case_match eqn:Hl; [done|].
    replace (drop (length comm + 2) (comm ++ 41 :: post)) with (drop 1 post)
      by (rewrite drop_app_ge by lia; by replace (length comm + 2 - length comm)%nat with 2%nat by lia).
    destruct post as [|c [|d rest]]; [done|done|]. cbn [drop].
    destruct (is_continuation d) eqn:Hd; cbn [mbind res_bind]; [done|].
    destruct (split_whitespace (d :: rest) !! 19%nat) as [field|] eqn:Hf; cbn [ok_or mbind res_bind]; [|done].
    destruct (parse_unsigned (2 ^ 64 - 1) field) as [n|] eqn:Hn; cbn [ok_or]; [|done]. intros [= <-]. exists comm, c, d, rest, field. done.
  - intros (comm & c & d & rest & field & -> & Hp & Hd & Hf & Hn).
    rewrite rfind_last by done. cbn [ok_or mbind res_bind]. unfold slice_from.
    rewrite (proj2 (Nat.ltb_ge _ _)) by (rewrite length_app; simpl; lia).
    replace (drop (length comm + 2) (comm ++ 41 :: c :: d :: rest)) with (d :: rest)
      by (rewrite drop_app_ge by lia; by replace (length comm + 2 - length comm)%nat with 2%nat by lia).
    rewrite Hd. cbn [mbind res_bind]. rewrite Hf. cbn [ok_or mbind res_bind]. by rewrite Hn.
Qed.

Lemma ws_prefix_char l n : ws_prefix l = S n -> ws_char (take (S n) l) /\ (S n <= length l)%nat.
Proof.
  unfold ws_char, ws_prefix. intros H.
  repeat (case_match; simplify_eq/=); (split; [split; [done|]|simpl; lia]);
    repeat (case_match; simplify_eq/=); congruence.
Qed.

Lemma blank_nil : blank [].
Proof. by exists []. Qed.

Lemma blank_char c : ws_char c -> blank c.
Proof. intros. exists [c]. rewrite Forall_singleton. split; [done|]. simpl. by rewrite app_nil_r. Qed.

Lemma blank_app a b : blank a -> blank b -> blank (a ++ b).
Proof.
  intros (x & Hx & ->) (y & Hy & ->). exists (x ++ y). split; [by apply Forall_app|]. by rewrite concat_app.
Qed.

Lemma trim_start_blank fuel l : exists pre, l = pre ++ trim_start fuel l /\ blank pre.
Proof.
  revert l. induction fuel as [|fuel IH]; intros l; simpl; [exists []; auto using blank_nil|].
  destruct (ws_prefix l) as [|n] eqn:E; [exists []; auto using blank_nil|].
  apply ws_prefix_char in E as [Hc _]. destruct (IH (drop (S n) l)) as (pre & Hl & Hb).
  exists (take (S n) l ++ pre). split; [|auto using blank_app, blank_char].
  rewrite <- app_assoc, <- Hl. by rewrite take_drop.
Qed.

Lemma ws_suffix_char l n : ws_suffix l = S n -> ws_char (drop (length l - S n) l).
Proof.
  unfold ws_suffix. intros H.
  assert (ws_prefix (drop (length l - S n) l) = S n) as Hn
    by (repeat case_match; simplify_eq; by apply Nat.eqb_eq).
  pose proof (ws_prefix_char _ _ Hn) as [Hc Hlen]. rewrite length_drop in Hlen.
  by rewrite take_ge in Hc by (rewrite length_drop; lia).
Qed.

Lemma trim_end_blank fuel l : exists post, l = trim_end fuel l ++ post /\ blank post.
Proof.
  revert l. induction fuel as [|fuel IH]; intros l; simpl;
    [exists []; rewrite app_nil_r; auto using blank_nil|].
  destruct (ws_suffix l) as [|n] eqn:E; [exists []; rewrite app_nil_r; auto using blank_nil|].
  apply ws_suffix_char in E. destruct (IH (take (length l - S n) l)) as (post & Hl & Hb).
  exists (post ++ drop (length l - S n) l). split; [|auto using blank_app, blank_char].
  rewrite app_assoc, <- Hl. by rewrite take_drop.
Qed.

Lemma affirmative_says_yes line : affirmative line = true -> says_yes line.
Proof.
  unfold affirmative. rewrite bool_decide_eq_true. unfold trim, trim_bytes.
  intros (word & Hword & Hin)%list_elem_of_fmap.
  destruct (trim_start_blank (length (as_bytes line)) (as_bytes line)) as (pre & Hl & Hpre).
  set (l := trim_start _ _) in *.
  destruct (trim_end_blank (length l) l) as (post & Hl' & Hpost).
  exists pre, word, post. split_and!; [|done..]. rewrite Hword in Hl'. by rewrite <- Hl'.
Qed.

Lemma check_session_answers sid pid u session (w : World) c :
  session_id session = Some sid -> leader_pid session = Some pid -> uid session = Some u ->
  (exists w', check_session sid pid u w = (Ok c, w')) <-> polkit_answers session (w_tick w) c.
Proof.
  intros Hs Hp Hu. unfold check_session, mbind, M_bind, next, lift. simpl. split.
  - intros [w' H]. destruct (proc_stat (w_tick w) pid) as [stat|?|] eqn:Hstat; simpl in H; [|done..].
    destruct (process_start_time_ticks stat) as [start|?|] eqn:Hst; simpl in H; [|done..].
    injection H as Hc _. apply process_start_time_field in Hst.
    exists sid, pid, u, stat, start. done.
  - intros (sid' & pid' & u' & stat & start & ? & ? & ? & Hstat & Hst%process_start_time_field & Hc).
    simplify_eq. rewrite Hstat. simpl. rewrite Hst. simpl. rewrite Hc. eauto.
Qed.

Lemma terminal_says_yes {E} (w w' : World) :
  approve_on_terminal (E := E) w = (Ok true, w') ->
  exists t line, stdout_ok t = true /\ stdin_line (S t) = Some line /\ says_yes line.
Proof.
  unfold approve_on_terminal, mbind, M_bind, next, mret, M_ret. simpl.
  destruct (stdout_ok (w_tick w)) eqn:Ho; simpl; [|done].
  destruct (stdin_line _) as [line|] eqn:El; simpl; [|done]. intros [= Ha _].
  exists (w_tick w), line. auto using affirmative_says_yes.
Qed.

(** C35. Approval is never given by default. When polkit, asked about the
    leader process of the recorded session (its pid, its start time from
    [/proc/pid/stat] and the session's user), gives an answer, approval is that
    answer and a denial is final. Otherwise (no session, no leader or no user
    recorded, or polkit could not be asked) it is given only if the prompt could
    be written and the line read from the terminal is y, Y, yes, YES or Yes
    between whitespace. *)
Theorem approve_requires_consent {E} prompt session (w w' : World) b :
  approve (E := E) prompt session w = (Ok b, w') ->
  (forall c, polkit_answers session (w_tick w) c -> b = c) /\
  (b = true ->
   polkit_answers session (w_tick w) true \/
   ((forall c, ~ polkit_answers session (w_tick w) c) /\
    exists t line, stdout_ok t = true /\ stdin_line (S t) = Some line /\ says_yes line)).
Proof.
  intros H. unfold approve in H.
  destruct (session_id session) as [sid|] eqn:Hs, (leader_pid session) as [pid|] eqn:Hp,
    (uid session) as [u|] eqn:Hu;
    try (assert (forall c, ~ polkit_answers session (w_tick w) c) as Hno
           by (intros c (?&?&?&?&?&?&?&?&_); congruence);
         split; [by intros c ?%Hno|intros ->; right; eauto using terminal_says_yes]).
  pose proof (check_session_answers sid pid u session w) as Hc.
  unfold mbind, M_bind, attempt in H.
  destruct (check_session sid pid u w) as [[c|e|] w1] eqn:Ec; simpl in H; [| |done].
  - injection H as -> ->. split.
    + intros c Hans. apply Hc in Hans as [w2 [= <- _]]; done.
    + intros ->. left. apply Hc; eauto.
  - assert (forall c, ~ polkit_answers session (w_tick w) c) as Hno
      by (intros c Hans; apply Hc in Hans as [? ?]; done).
    split; [by intros c ?%Hno|intros ->; right; eauto using terminal_says_yes].
Qed.
End properties.

End Session.
