(* ===== verification/Demo.v ===== *)
(** Concrete platforms and a toy cryptography for the witnesses: they show that
    the laws the theorems assume can hold together, and make the model run. None
    of the theorems depends on them. *)
From Stdlib Require Import ZArith Lia String.
From stdpp Require Import base list option strings gmap.
From S2P Require Import Prelude Schema Platform Session.

#[local] Open Scope Z_scope.

Module Demo.

(** One graphical session of user 1000 on seat0, after a tty session. *)
Definition tty : LogindSession :=
  {| ls_id := "1"; ls_uid := 0; ls_user := "root"; ls_seat := "seat0"; ls_path := "/s/1" |}.
Definition gui : LogindSession :=
  {| ls_id := "c2"; ls_uid := 1000; ls_user := "alice"; ls_seat := "seat0"; ls_path := "/s/c2" |}.

Definition property (path name : string) : option Variant :=
  if bool_decide (name = "Active"%string) then Some (VaBool true)
  else if bool_decide (name = "Type"%string) then
    Some (VaStr (if bool_decide (path = "/s/c2"%string) then "wayland" else "tty"))
  else if bool_decide (name = "Leader"%string) then Some (VaU32 1234)
  else Some (VaStr "").

(** Polkit answers as told; time advances by one second per external call. *)
Definition platform (polkit : res string bool) (line : option string) : Platform := {|
  env_var := fun _ => None;
  geteuid := 0;
  list_sessions := fun _ => Some [tty; gui];
  session_property := fun _ => property;
  proc_stat := fun _ _ => Ok "1234 (a) b) S 1 2 3 4 5 6 7 8 9 10 11 12 13 14 15 16 17 18 777 20"%string;
  check_authorization := fun _ _ _ _ => polkit;
  stdout_ok := fun _ => true;
  stdin_line := fun _ => line;
  now := fun t => Z.of_nat t * 10 ^ 9;
  getrandom := fun t n => Some (be_bytes n (Z.of_nat t * 257 + 1));
  generate_secret := fun t => be_bytes 32 (Z.of_nat t + 5);
  file_metadata := fun _ _ => Ok tt;
  db_fault := fun _ => None;
  key_file_fault := fun _ => None |}.

Lemma platform_laws p l : @PlatformLaws (platform p l).
Proof. constructor. simpl. intros t n b [= <-]. apply length_be_bytes. Qed.

Definition approving : Platform := platform (Ok true) None.

#[export] Instance crypto : Crypto := {|
  sha256 := fun m => be_bytes 32 (be_val (1 :: m));
  hmac_sha256 := fun k m => be_bytes 32 (be_val (k ++ m) * 3 + 1);
  pbkdf2_hmac_sha256 := fun p s _ n => be_bytes n (be_val (s ++ p));
  hkdf_sha256 := fun _ ikm info n => Some (be_bytes n (be_val (ikm ++ info)));
  aes256_cbc_encrypt := fun _ _ d => d;
  aes256_cbc_decrypt := fun _ _ d => d;
  p256_valid := fun b => (length b =? 65)%nat && (hd 0 b =? 4);
  p256_public_key := fun s => 4 :: be_bytes 32 (be_val s) ++ be_bytes 32 (be_val s + 1);
  p256_ecdh := fun s p => be_bytes 32 (be_val s + be_val (slice 1 33 p));
  argon2id_hash := fun _ salt p n => Ok (be_bytes n (be_val (salt ++ p))) |}.

#[export] Instance crypto_laws : CryptoLaws.
Proof.
  constructor; intros; cbn [sha256 hmac_sha256 pbkdf2_hmac_sha256 aes256_cbc_encrypt aes256_cbc_decrypt crypto];
    rewrite ?length_be_bytes; auto with fido.
Qed.

Definition w0 : World := {| w_tick := 0; w_db := empty_db; w_handles := [] |}.

End Demo.

(** ** Witnesses of the theorems of [Session] *)

Lemma detect_session_selects_witness :
  exists before s after g, [Demo.tty; Demo.gui] = before ++ s :: after /\
    Session.seated_active (pf := Demo.approving) 0 s /\
    Session.session_context (pf := Demo.approving) 0 s =
      Some (Session.detect_at (pf := Demo.approving) 0, g) /\
    if g : bool
    then Forall (fun s' => Session.seated_active (pf := Demo.approving) 0 s' ->
                           ~ Session.graphical (pf := Demo.approving) 0 s') before
    else Forall (fun s' => Session.seated_active (pf := Demo.approving) 0 s' ->
                           ~ Session.graphical (pf := Demo.approving) 0 s') [Demo.tty; Demo.gui] /\
         Forall (fun s' => ~ Session.seated_active (pf := Demo.approving) 0 s') before.
Proof.
  apply (Session.detect_session_selects (pf := Demo.approving) 0 [Demo.tty; Demo.gui]);
    vm_compute; reflexivity.
Defined.

(** Polkit denies, although the terminal would say yes; and with polkit
    unavailable the line [" yes "] approves. *)
Lemma approve_requires_consent_witness :
  (let p := Demo.platform (Ok false) (Some "y"%string) in
   forall c, Session.polkit_answers (pf := p) (Session.detect_at (pf := p) 0) 0 c -> false = c) /\
  (let p := Demo.platform (Err "no polkit"%string) (Some " yes "%string) in
   true = true ->
   Session.polkit_answers (pf := p) (Session.detect_at (pf := p) 0) 0 true \/
   ((forall c, ~ Session.polkit_answers (pf := p) (Session.detect_at (pf := p) 0) 0 c) /\
    exists t line, stdout_ok (Platform := p) t = true /\
      stdin_line (Platform := p) (S t) = Some line /\ Session.says_yes line)).
Proof.
  split.
  - pose (p := Demo.platform (Ok false) (Some "y"%string)).
    pose (s := Session.detect_at (pf := p) 0).
    apply (Session.approve_requires_consent (pf := p) (E := Empty_set) "login" s Demo.w0
      (Session.approve (pf := p) (E := Empty_set) "login" s Demo.w0).2 false).
    vm_compute. reflexivity.
  - pose (p := Demo.platform (Err "no polkit"%string) (Some " yes "%string)).
    pose (s := Session.detect_at (pf := p) 0).
    apply (Session.approve_requires_consent (pf := p) (E := Empty_set) "login" s Demo.w0
      (Session.approve (pf := p) (E := Empty_set) "login" s Demo.w0).2 true).
    vm_compute. reflexivity.
Defined.
