(* ===== verification/Der.v ===== *)
(** DER encoding of ECDSA signatures: [ecdsa_der] and [der_integer] of
    [src/src/tpm.rs], against a DER reader that is the specification. *)
From Stdlib Require Import ZArith Lia.
From stdpp Require Import base list option.
From S2P Require Import Prelude.

#[local] Open Scope Z_scope.

Module Der.

Definition der_integer (value : bytes) : bytes :=
  let first_nonzero := default (length value) (position (fun byte => negb (byte =? 0)) value) in
  let integer := if (first_nonzero =? length value)%nat then [0] else drop first_nonzero value in
  let integer := if negb (Z.land (hd 0 integer) 0x80 =? 0) then 0 :: integer else integer in
  [0x02] ++ [u8 (Z.of_nat (length integer))] ++ integer.

Definition ecdsa_der (r s : bytes) : bytes :=
  let r := der_integer r in
  let s := der_integer s in
  [0x30] ++ [u8 (Z.of_nat (length r + length s))] ++ r ++ s.

(** *** The specification: strict DER *)

(** The value of a two's complement big-endian byte string. *)
Definition signed_val (l : bytes) : Z :=
  match l with
  | [] => 0
  | b :: _ => if b <? 128 then be_val l else be_val l - 256 ^ Z.of_nat (length l)
  end.

(** No redundant leading byte. *)
Definition minimal (l : bytes) : bool :=
  match l with
  | [] => false
  | [_] => true
  | a :: b :: _ => negb ((a =? 0) && (b <? 128)) && negb ((a =? 255) && (128 <=? b))
  end.

(** Read a tag and a short-form length, and return the contents and the rest. *)
Definition read_tlv (tag : Z) (l : bytes) : option (bytes * bytes) :=
  match l with
  | t :: n :: l =>
      if (t =? tag) && (n <? 128) && (Z.to_nat n <=? length l)%nat
      then Some (take (Z.to_nat n) l, drop (Z.to_nat n) l) else None
  | _ => None
  end.

Definition read_integer (l : bytes) : option (Z * bytes) :=
  '(body, rest) ← read_tlv 0x02 l;
  if minimal body then Some (signed_val body, rest) else None.

(** A SEQUENCE of two INTEGERs with nothing after them. *)
Definition read_signature (l : bytes) : option (Z * Z) :=
  '(body, rest) ← read_tlv 0x30 l;
  '(r, body) ← read_integer body;
  '(s, body) ← read_integer body;
  match rest, body with [], [] => Some (r, s) | _, _ => None end.

(** *** Lemmas *)

Lemma land_128 b : byte_ok b -> (Z.land b 0x80 =? 0) = (b <? 128).
Proof.
  unfold byte_ok. intros Hb. destruct (Z.ltb_spec b 128); change 0x80 with (2 ^ 7).
  - apply Z.eqb_eq, Z.bits_inj'. intros n Hn. rewrite Z.land_spec, Z.bits_0, Z.pow2_bits_eqb by lia.
    destruct (Z.eqb_spec 7 n) as [<-|]; [|apply andb_false_r].
    by rewrite Z.testbit_eqb, Z.div_small by lia.
  - apply Z.eqb_neq. intros Hz. apply (f_equal (fun z => Z.testbit z 7)) in Hz.
    rewrite Z.land_spec, Z.bits_0, Z.pow2_bits_true, andb_true_r in Hz by lia.
    rewrite Z.testbit_eqb in Hz by lia. apply Z.eqb_neq in Hz. apply Hz.
    replace (b / 2 ^ 7) with 1; [done|].
    apply Z.div_unique with (b - 128); lia.
Qed.

(** The magnitude that [der_integer] writes: no leading zero, except for 0. *)
Definition magnitude (value : bytes) : bytes :=
  let n := default (length value) (position (fun byte => negb (byte =? 0)) value) in
  if (n =? length value)%nat then [0] else drop n value.

Lemma be_val_zeros n l : be_val (replicate n 0 ++ l) = be_val l.
Proof. induction n as [|n IH]; [done|]. simpl. rewrite be_val_cons. lia. Qed.

Lemma magnitude_spec value :
  bytes_ok value ->
  bytes_ok (magnitude value) /\ be_val (magnitude value) = be_val value /\
  (1 <= length (magnitude value) <= Nat.max 1 (length value))%nat /\
  (magnitude value = [0] \/ hd 0 (magnitude value) <> 0).
Proof.
  intros Hok. unfold magnitude.
  destruct (position _ value) as [n|] eqn:E; simpl.
  - apply position_Some in E as (b & Hb & Hnz & Hmin). bools.
    pose proof (lookup_lt_Some _ _ _ Hb). rewrite (proj2 (Nat.eqb_neq _ _)) by lia.
    assert (take n value = replicate n 0) as Ht.
    { apply list_eq. intros j. destruct (Nat.lt_ge_cases j n).
      - rewrite lookup_take_lt, lookup_replicate_2 by done.
        destruct (lookup_lt_is_Some_2 value j) as [y Hy]; [lia|]. rewrite Hy.
        specialize (Hmin j y ltac:(lia) Hy). bools. by subst.
      - rewrite lookup_take_ge by done. symmetry. apply lookup_ge_None. rewrite length_replicate. lia. }
    assert (drop n value = b :: drop (S n) value) as Hd by by apply drop_S.
    split; [|split; [|split]].
    + by apply Forall_drop.
    + rewrite <- (take_drop n value) at 2. by rewrite Ht, be_val_zeros.
    + rewrite length_drop. lia.
    + right. by rewrite Hd.
  - apply position_None in E. rewrite Nat.eqb_refl. split; [|split; [|split; [simpl; lia|by left]]].
    + constructor; auto with fido.
    + assert (value = replicate (length value) 0) as ->.
      { clear Hok. induction E as [|x l Hx _ IH]; [done|]. bools. subst. simpl. by rewrite <- IH. }
      rewrite <- (app_nil_r (replicate _ _)), be_val_zeros. done.
Qed.

Lemma der_integer_eq value :
  der_integer value =
    let m := magnitude value in
    let i := if negb (Z.land (hd 0 m) 0x80 =? 0) then 0 :: m else m in
    [0x02] ++ [u8 (Z.of_nat (length i))] ++ i.
Proof. done. Qed.

Lemma read_tlv_app tag n (body rest : bytes) :
  length body = n -> (n < 128)%nat ->
  read_tlv tag ([tag] ++ [u8 (Z.of_nat n)] ++ body ++ rest) = Some (body, rest).
Proof.
  intros <- Hn. unfold read_tlv. simpl.
  assert (u8 (Z.of_nat (length body)) = Z.of_nat (length body)) as ->
    by (unfold u8; rewrite Z.mod_small; lia).
  rewrite Z.eqb_refl, Nat2Z.id, (proj2 (Z.ltb_lt _ _)), (proj2 (Nat.leb_le _ _)) by (rewrite ?length_app; lia).
  simpl. by rewrite take_app_length, drop_app_length.
Qed.

(** The body that [der_integer] writes: minimal, non-negative, of the value read. *)
Lemma integer_body_spec value :
  bytes_ok value ->
  let m := magnitude value in
  let i := if negb (Z.land (hd 0 m) 0x80 =? 0) then 0 :: m else m in
  minimal i = true /\ signed_val i = be_val value /\
  (1 <= length i <= S (Nat.max 1 (length value)))%nat.
Proof.
  intros Hok. destruct (magnitude_spec value Hok) as (Hm & Hv & Hl & Hz). cbv zeta.
  destruct (magnitude value) as [|b l] eqn:E; [simpl in Hl; lia|]. simpl hd.
  inversion_clear Hm as [|? ? Hb _]. rewrite land_128 by done. rewrite <- Hv.
  simpl length in Hl. unfold byte_ok in Hb.
  destruct (Z.ltb_spec b 128); simpl negb; cbv iota; (split; [|split; [|simpl; lia]]).
  - destruct Hz as [[= -> ->]|Hz]; [done|]. simpl in *. destruct l; [done|].
    by rewrite (proj2 (Z.eqb_neq b 0)), (proj2 (Z.eqb_neq b 255)) by lia.
  - unfold signed_val. by rewrite (proj2 (Z.ltb_lt _ _)) by lia.
  - simpl. by rewrite (proj2 (Z.ltb_ge b 128)) by lia.
  - unfold signed_val. rewrite (proj2 (Z.ltb_lt _ _)) by lia. rewrite be_val_cons. lia.
Qed.

Lemma length_der_integer value :
  bytes_ok value -> (length (der_integer value) <= 3 + Nat.max 1 (length value))%nat.
Proof.
  intros Hok. rewrite der_integer_eq. destruct (integer_body_spec value Hok) as (_ & _ & Hl).
  cbv zeta in *. rewrite !length_app. cbn [length]. lia.
Qed.

Lemma read_integer_der value rest :
  bytes_ok value -> (length value <= 66)%nat ->
  read_integer (der_integer value ++ rest) = Some (be_val value, rest).
Proof.
  intros Hok Hlen. destruct (integer_body_spec value Hok) as (Hm & Hs & Hl).
  rewrite der_integer_eq. cbv zeta in *. unfold read_integer. rewrite <- !app_assoc.
  rewrite read_tlv_app by lia. simpl. by rewrite Hm, Hs.
Qed.

(** C40. The signature the authenticator returns is strict DER, and it is the
    signature the TPM made: for coordinates of at most 60 bytes (P-256 has 32) a
    strict DER reader, which rejects negative or non-minimal integers, long-form
    lengths and trailing bytes, reads back exactly the integers [r] and [s]. *)
Theorem ecdsa_der_reads_back r s :
  bytes_ok r -> bytes_ok s -> (length r <= 60)%nat -> (length s <= 60)%nat ->
  read_signature (ecdsa_der r s) = Some (be_val r, be_val s).
Proof.
  intros Hr Hs Hlr Hls. pose proof (length_der_integer r Hr). pose proof (length_der_integer s Hs).
  unfold ecdsa_der, read_signature. cbv zeta.
  rewrite <- (app_nil_r (der_integer r ++ der_integer s)).
  rewrite read_tlv_app by (rewrite ?length_app; lia). cbn -[read_integer der_integer].
  rewrite read_integer_der by (done || lia). cbn -[read_integer der_integer].
  rewrite <- (app_nil_r (der_integer s)), read_integer_der by (done || lia). done.
Qed.

(** A coordinate with its top bit set, and one with leading zeros. *)
Lemma ecdsa_der_reads_back_witness :
  read_signature (ecdsa_der (replicate 32 0xff) ([0; 0] ++ replicate 30 0x11)) =
    Some (be_val (replicate 32 0xff), be_val ([0; 0] ++ replicate 30 0x11)).
Proof.
  apply (ecdsa_der_reads_back (replicate 32 0xff) ([0; 0] ++ replicate 30 0x11));
    [bytes_ok_eval|bytes_ok_eval|simpl; lia|simpl; lia].
Defined.

End Der.
