(* ===== verification/Tpm.v ===== *)
(** The TPM layer: [src/src/tpm.rs]. The ESAPI crate is a parameter, the class
    [Esapi]; each command is answered by a function of the tick. The transient
    objects and policy sessions that commands open are recorded in the world, so
    that what a function leaves open can be stated. *)
From Stdlib Require Import ZArith Lia String.
From stdpp Require Import base list option strings pretty.
From S2P Require Import Prelude Schema Platform Der.

#[local] Open Scope Z_scope.

(** [tss_esapi::structures::Signature] *)
Inductive Signature := EcDsa (r s : bytes) | OtherSignature (blob : bytes).

(** What [signing_key_public] asks of the template builder: the policy digest and
    the attribute userWithAuth. The other attributes are fixed: fixedTPM,
    fixedParent, sensitiveDataOrigin and sign are set, decrypt and restricted are
    clear; ECC P-256, ECDSA with SHA-256. *)
Record SigningTemplate := { st_auth_policy : option bytes; st_user_with_auth : bool }.

(** How a command is authorized: null or password session, or a policy session. *)
Inductive SessionArg := NullAuth | PasswordAuth | PolicyAuth (session : nat).

Inductive SessionType := Trial | Policy.

Class Esapi := {
  (** conversions, which check sizes and formats *)
  private_try_from : bytes -> res string bytes;
  digest_try_from : bytes -> res string bytes;
  auth_try_from : bytes -> res string bytes;
  nonce_try_from : bytes -> res string bytes;
  name_try_from : bytes -> res string bytes;
  public_unmarshall : bytes -> res string bytes;
  public_marshall : bytes -> res string bytes;
  signature_unmarshall : bytes -> res string Signature;
  signature_marshall : Signature -> res string bytes;
  ecc_point : bytes -> res string (option (bytes * bytes));
  pcr_slot_try_from : Z -> option Z;
  build_pcr_selection : list Z -> res string (list Z);
  build_signing_template : SigningTemplate -> res string SigningTemplate;
  build_parent_template : res string unit;
  (** commands *)
  esys_open : nat -> string -> res string unit;
  esys_get_random : nat -> nat -> res string bytes;
  (** [create_primary] with the storage-parent template, and with a signing one *)
  esys_create_primary : nat -> res string unit;
  esys_create_primary_signing : nat -> SigningTemplate -> res string unit;
  esys_create : nat -> nat -> SigningTemplate -> option bytes -> res string (bytes * bytes);
  esys_load : nat -> nat -> bytes -> bytes -> res string unit;
  esys_flush : nat -> nat -> res string unit;
  esys_tr_set_auth : nat -> nat -> bytes -> res string unit;
  esys_sign : nat -> SessionArg -> nat -> bytes -> res string Signature;
  esys_verify_signature : nat -> nat -> bytes -> Signature -> res string bytes;
  esys_read_public : nat -> nat -> res string bytes;
  esys_object_change_auth : nat -> nat -> nat -> bytes -> res string bytes;
  esys_start_auth_session : nat -> SessionType -> res string bool;
  esys_policy_pcr : nat -> nat -> bytes -> list Z -> res string unit;
  esys_policy_authorize : nat -> nat -> bytes -> bytes -> bytes -> bytes -> res string unit;
  esys_policy_command_code_sign : nat -> nat -> res string unit;
  esys_policy_get_digest : nat -> nat -> res string bytes;
  esys_pcr_read : nat -> list Z -> res string (list bytes) }.

(** Flushing an open object or session succeeds. *)
Class EsapiFlushes {es : Esapi} := flush_ok t h : esys_flush t h = Ok tt.

Module Tpm.

(** [eyre::WrapErr]: the outermost message is the one displayed. *)
Definition wrap_err {A} (msg : string) (m : M World string A) : M World string A := fun w =>
  match m w with (Err _, w') => (Err msg, w') | other => other end.

Section tpm.
Context {pf : Platform} {cr : Crypto} {es : Esapi}.

(** Shifting a [u32] by 32 or more panics when overflow checks are compiled in,
    and is reduced modulo 32 otherwise. *)
Context (overflow_checks : bool).

(** *** Commands on the world *)

Definition command {A} (f : nat -> res string A) : M World string A :=
  t ← next; lift (f t).

(** A command that opens an object or session: its handle is the tick. *)
Definition opening (f : nat -> res string unit) : M World string nat := fun w =>
  let t := w_tick w in
  let w' := set_tick (S t) w in
  match f t with
  | Ok _ => (Ok t, set_handles (t :: w_handles w) w')
  | Err e => (Err e, w')
  | Panic => (Panic, w')
  end.

Definition flush_context (h : nat) : M World string unit := fun w =>
  let t := w_tick w in
  let w' := set_tick (S t) w in
  match esys_flush t h with
  | Ok _ => (Ok tt, set_handles (filter (fun x => x <> h) (w_handles w)) w')
  | Err e => (Err e, w')
  | Panic => (Panic, w')
  end.

(** [ObjectHandleGuard] and [PolicySessionGuard]: the handle is flushed when the
    guard goes out of scope, however the rest of the scope ends; the result of
    the flush is ignored. *)
Definition guarded {A} (h : nat) (m : M World string A) : M World string A := fun w =>
  let '(r, w1) := m w in let '(_, w2) := flush_context h w1 in (r, w2).

Record Tpm := { pcr_selection_list : list Z; pcr_selection_name : string }.

(** *** Pure helpers *)

Definition public_name (public_blob : bytes) : res string bytes :=
  public ← map_err (fun _ => "unmarshalling TPM public area"%string) (public_unmarshall public_blob);
  encoded ← map_err (fun _ => "marshalling TPM public area"%string) (public_marshall public);
  mret (be_bytes 2 0x000b ++ sha256 encoded).

Definition credential_policy_ref (credential_id : bytes) (owner_uid : option Z) : bytes :=
  sha256 (as_bytes "linux-tpm-fido2/pcr-policy/v1" ++ credential_id
          ++ be_bytes 4 (default 0 owner_uid)).

Definition policy_with_ref_hash (policy_digest policy_ref : bytes) : bytes :=
  sha256 (policy_digest ++ policy_ref).

Definition signing_key_public (policy : option PcrPolicyBinding) (user_with_auth : bool)
    : res string SigningTemplate :=
  d ← match policy with
      | Some p => d ← digest_try_from (b_digest p); mret (Some d)
      | None => mret None
      end;
  build_signing_template {| st_auth_policy := d; st_user_with_auth := user_with_auth |}.

(** [1u32 << i] *)
Definition shl_one (i : Z) : res string Z :=
  if 32 <=? i then if overflow_checks then Panic else Ok (2 ^ (i mod 32)) else Ok (2 ^ i).

Fixpoint pcr_slots (pcr_indices : list Z) : res string (list Z) :=
  match pcr_indices with
  | [] => Ok []
  | i :: rest =>
      mask ← shl_one i;
      slot ← ok_or (pcr_slot_try_from mask) ("invalid PCR index " +:+ pretty i)%string;
      slots ← pcr_slots rest;
      Ok (slot :: slots)
  end.

Definition pcr_selection_for_indices (pcr_indices : list Z) : res string (list Z) :=
  slots ← pcr_slots pcr_indices;
  map_err (fun _ => "building PCR selection list"%string) (build_pcr_selection slots).

Definition default_pcr_selection (pcr_indices : option (list Z)) : res string (list Z * string) :=
  let indices := default [7] pcr_indices in
  let name := ("sha256:" +:+ String.concat "," (pretty <$> indices))%string in
  selection ← pcr_selection_for_indices indices;
  Ok (selection, name).

Definition recovery_passphrase_hash (kdf : RecoveryKdf) (passphrase_salt : bytes) (passphrase : string)
    : res string bytes :=
  argon2id_hash kdf passphrase_salt (as_bytes passphrase) 32.

Definition recovery_passphrase_matches (kdf : RecoveryKdf) (passphrase_salt : bytes)
    (passphrase : string) (expected_hash : bytes) : res string bool :=
  h ← recovery_passphrase_hash kdf passphrase_salt passphrase;
  mret (bool_decide (h = expected_hash)).

(** *** Methods *)

Definition open (path : string) (pcr_indices : option (list Z)) : M World string Tpm :=
  _ ← command (fun t => esys_open t path);
  '(l, n) ← lift (default_pcr_selection pcr_indices);
  mret {| pcr_selection_list := l; pcr_selection_name := n |}.

Definition create_storage_parent : M World string nat :=
  _ ← lift (map_err (fun _ => "building TPM storage-parent template"%string) build_parent_template);
  wrap_err "creating transient TPM storage parent" (opening esys_create_primary).

Definition load (parent : nat) (private public : bytes) : M World string nat :=
  opening (fun t => esys_load t parent private public).

Definition start_session (ty : SessionType) (none : string) : M World string nat :=
  t0 ← gets w_tick;
  r ← command (fun t => esys_start_auth_session t ty);
  if r : bool then _ ← modify (fun w => set_handles (t0 :: w_handles w) w); mret t0
  else throw none.

Definition create_credential_key_with_policy_and_auth (policy : option PcrPolicyBinding)
    (auth_value : option bytes) : M World string TpmCredential :=
  parent ← create_storage_parent;
  public ← lift (signing_key_public policy (bool_decide (is_Some auth_value)));
  auth ← lift (match auth_value with
               | Some v => a ← map_err (fun _ => "building TPM authority auth value"%string)
                                 (auth_try_from v); mret (Some a)
               | None => mret None
               end);
  key ← attempt (command (fun t => esys_create t parent public auth));
  _ ← wrap_err "flushing transient TPM storage parent" (flush_context parent);
  '(out_private, out_public) ← lift (map_err (fun _ => "creating TPM credential signing key"%string) key);
  point ← lift (map_err (fun _ => "extracting TPM credential public key"%string) (ecc_point out_public));
  match point with
  | None => throw "TPM credential key is not ECC"%string
  | Some (x, y) =>
      public ← lift (map_err (fun _ => "marshalling TPM credential public blob"%string)
                       (public_marshall out_public));
      mret {| private := out_private; public := public; public_key_x := x; public_key_y := y;
              auth_value := auth_value |}
  end.

Definition create_credential_key_with_policy (policy : option PcrPolicyBinding)
    : M World string TpmCredential :=
  create_credential_key_with_policy_and_auth policy None.

Definition create_credential_key_with_auth (auth_value : option bytes) : M World string TpmCredential :=
  create_credential_key_with_policy_and_auth None auth_value.

Definition create_recovery_material_with_hash (label : option string)
    (passphrase_salt passphrase_hash : bytes) (kdf : RecoveryKdf) : M World string RecoveryMaterial :=
  key ← create_credential_key_with_auth (Some passphrase_hash);
  authority_name ← lift (public_name (public key));
  mret {| rm_label := label; rm_passphrase_salt := passphrase_salt;
          rm_passphrase_hash := passphrase_hash; rm_kdf := kdf; rm_key := key;
          rm_authority_name := authority_name |}.

Definition create_recovery_material (label : option string) (passphrase : string)
    : M World string RecoveryMaterial :=
  t ← next;
  salt ← lift (ok_or (getrandom t 32) "generating recovery passphrase salt"%string);
  h ← lift (recovery_passphrase_hash argon2id_default salt passphrase);
  create_recovery_material_with_hash label salt h argon2id_default.

Definition current_pcr_digest (selection : list Z) : M World string bytes :=
  digests ← command (fun t => esys_pcr_read t selection);
  mret (sha256 (concat digests)).

Definition create_secure_boot_policy (tpm : Tpm) : M World string PcrPolicyBinding :=
  let selection_list := pcr_selection_list tpm in
  current_digest ← current_pcr_digest selection_list;
  trial ← start_session Trial "TPM returned no trial policy session";
  d ← lift (digest_try_from current_digest);
  _ ← command (fun t => esys_policy_pcr t trial d selection_list);
  policy_digest ← command (fun t => esys_policy_get_digest t trial);
  _ ← flush_context trial;
  mret {| b_selection := pcr_selection_name tpm; b_digest := policy_digest; b_policy_ref := None;
          b_authority_name := None; b_authority_signature := None |}.

(** [if let Some(auth_value) = &key.auth_value { tr_set_auth(..)? }] *)
Definition set_auth_of (key : TpmCredential) (h : nat) : M World string unit :=
  match auth_value key with
  | Some v => a ← lift (auth_try_from v); command (fun t => esys_tr_set_auth t h a)
  | None => mret tt
  end.

Definition sign_recovery_policy (authority : TpmCredential) (approved_policy policy_ref : bytes)
    : M World string bytes :=
  if negb (length approved_policy =? 32)%nat then
    throw "approved PCR policy must be a SHA-256 digest"%string
  else
    let to_sign := policy_with_ref_hash approved_policy policy_ref in
    parent ← create_storage_parent;
    priv ← lift (private_try_from (private authority));
    pub ← lift (public_unmarshall (public authority));
    key_handle ← load parent priv pub;
    _ ← set_auth_of authority key_handle;
    d ← lift (digest_try_from to_sign);
    signature ← wrap_err "signing approved PCR policy"
                  (command (fun t => esys_sign t PasswordAuth key_handle d));
    _ ← flush_context key_handle;
    _ ← flush_context parent;
    lift (map_err (fun _ => "marshalling approved PCR policy signature"%string)
            (signature_marshall signature)).

Definition create_authorized_policy (tpm : Tpm) (approved : PcrPolicyBinding)
    (authority : TpmCredential) (policy_ref : bytes) : M World string PcrPolicyBinding :=
  let policy_digest := b_digest approved in
  let to_sign := policy_with_ref_hash policy_digest policy_ref in
  signature_bytes ← sign_recovery_policy authority policy_digest policy_ref;
  signature ← lift (signature_unmarshall signature_bytes);
  parent ← create_storage_parent;
  priv ← lift (private_try_from (private authority));
  pub ← lift (public_unmarshall (public authority));
  key_handle ← load parent priv pub;
  authority_name ← command (fun t => esys_read_public t key_handle);
  _ ← set_auth_of authority key_handle;
  d ← lift (digest_try_from to_sign);
  ticket ← command (fun t => esys_verify_signature t key_handle d signature);
  _ ← flush_context parent;
  let selection := pcr_selection_list tpm in
  current_digest ← current_pcr_digest selection;
  session ← start_session Trial "TPM returned no trial policy session";
  cd ← lift (digest_try_from current_digest);
  _ ← command (fun t => esys_policy_pcr t session cd selection);
  pd ← lift (digest_try_from policy_digest);
  nonce ← lift (nonce_try_from policy_ref);
  name ← lift (name_try_from authority_name);
  _ ← command (fun t => esys_policy_authorize t session pd nonce name ticket);
  _ ← flush_context key_handle;
  _ ← command (fun t => esys_policy_command_code_sign t session);
  final_digest ← command (fun t => esys_policy_get_digest t session);
  _ ← flush_context session;
  mret {| b_selection := b_selection approved; b_digest := final_digest;
          b_policy_ref := Some policy_ref; b_authority_name := Some authority_name;
          b_authority_signature := Some signature_bytes |}.

Definition update_authorized_policy (tpm : Tpm) (authority : TpmCredential)
    (authority_name policy_ref : bytes) : M World string PcrPolicyBinding :=
  let selection := pcr_selection_list tpm in
  current_digest ← current_pcr_digest selection;
  trial ← start_session Trial "TPM returned no trial policy session";
  cd ← lift (digest_try_from current_digest);
  _ ← command (fun t => esys_policy_pcr t trial cd selection);
  pcr_policy_digest ← command (fun t => esys_policy_get_digest t trial);
  _ ← flush_context trial;
  let to_sign := policy_with_ref_hash pcr_policy_digest policy_ref in
  parent ← create_storage_parent;
  key_handle ← wrap_err "loading authority key for PCR update"
    (priv ← lift (private_try_from (private authority));
     pub ← lift (public_unmarshall (public authority));
     load parent priv pub);
  _ ← set_auth_of authority key_handle;
  signature ← wrap_err "signing updated PCR policy with authority key"
    (d ← lift (digest_try_from to_sign); command (fun t => esys_sign t PasswordAuth key_handle d));
  ticket ← wrap_err "verifying updated PCR policy signature"
    (d ← lift (digest_try_from to_sign);
     command (fun t => esys_verify_signature t key_handle d signature));
  _ ← flush_context key_handle;
  new_session ← start_session Trial "TPM returned no trial policy session";
  cd ← lift (digest_try_from current_digest);
  _ ← command (fun t => esys_policy_pcr t new_session cd selection);
  nonce ← lift (nonce_try_from policy_ref);
  name ← lift (name_try_from authority_name);
  _ ← command (fun t => esys_policy_authorize t new_session pcr_policy_digest nonce name ticket);
  _ ← command (fun t => esys_policy_command_code_sign t new_session);
  final_digest ← command (fun t => esys_policy_get_digest t new_session);
  _ ← flush_context new_session;
  _ ← flush_context parent;
  signature_bytes ← lift (map_err (fun _ => "marshalling updated PCR policy signature"%string)
                            (signature_marshall signature));
  mret {| b_selection := pcr_selection_name tpm; b_digest := final_digest;
          b_policy_ref := Some policy_ref; b_authority_name := Some authority_name;
          b_authority_signature := Some signature_bytes |}.

(** The signature over [digest] under a policy session authorized by the
    recovery authority. *)
Definition sign_authorized (tpm : Tpm) (parent key_handle : nat) (digest : bytes)
    (authority : TpmCredential) (policy_ref authority_name authority_signature : bytes)
    : M World string (res string Signature) :=
  let selection_list := pcr_selection_list tpm in
  current_digest ← current_pcr_digest selection_list;
  session ← start_session Policy "TPM returned no policy session";
  guarded session (
    cd ← lift (digest_try_from current_digest);
    _ ← command (fun t => esys_policy_pcr t session cd selection_list);
    approved_policy ← command (fun t => esys_policy_get_digest t session);
    priv ← lift (private_try_from (private authority));
    pub ← lift (public_unmarshall (public authority));
    authority_handle ← load parent priv pub;
    guarded authority_handle (
      actual_name ← command (fun t => esys_read_public t authority_handle);
      if negb (bool_decide (actual_name = authority_name)) then
        throw "recovery authority name does not match the credential"%string
      else
        _ ← set_auth_of authority authority_handle;
        let to_sign := policy_with_ref_hash approved_policy policy_ref in
        ticket ← wrap_err "verifying PCR policy authority signature"
          (d ← lift (digest_try_from to_sign);
           sig ← lift (signature_unmarshall authority_signature);
           command (fun t => esys_verify_signature t authority_handle d sig));
        nonce ← lift (nonce_try_from policy_ref);
        _ ← command (fun t => esys_policy_authorize t session approved_policy nonce actual_name ticket);
        _ ← command (fun t => esys_policy_command_code_sign t session);
        attempt (command (fun t => esys_sign t (PolicyAuth session) key_handle digest)))).

(** The signature under a policy session that satisfies the PCR policy alone. *)
Definition sign_pcr_bound (tpm : Tpm) (key_handle : nat) (digest : bytes)
    : M World string (res string Signature) :=
  let selection_list := pcr_selection_list tpm in
  current_digest ← current_pcr_digest selection_list;
  session ← start_session Policy "TPM returned no policy session";
  guarded session (
    cd ← lift (digest_try_from current_digest);
    _ ← command (fun t => esys_policy_pcr t session cd selection_list);
    attempt (command (fun t => esys_sign t (PolicyAuth session) key_handle digest))).

Definition sign_digest_with_policy (tpm : Tpm) (credential : TpmCredential)
    (policy : option PcrPolicyBinding) (authority : option TpmCredential) (digest : bytes)
    : M World string bytes :=
  if negb (length digest =? 32)%nat then
    throw "TPM ECDSA signing digest must be 32 bytes"%string
  else
    parent ← create_storage_parent;
    guarded parent (
      priv ← lift (map_err (fun _ => "building TPM credential private blob"%string)
                     (private_try_from (private credential)));
      pub ← lift (map_err (fun _ => "unmarshalling TPM credential public blob"%string)
                    (public_unmarshall (public credential)));
      key_handle ← wrap_err "loading TPM credential signing key" (load parent priv pub);
      guarded key_handle (
        digest ← lift (map_err (fun _ => "building TPM signing digest"%string) (digest_try_from digest));
        signature ←
          match policy, authority, policy ≫= b_policy_ref, policy ≫= b_authority_name,
                policy ≫= b_authority_signature with
          | Some _, Some authority, Some policy_ref, Some authority_name, Some authority_signature =>
              sign_authorized tpm parent key_handle digest authority policy_ref authority_name
                authority_signature
          | Some _, _, _, _, _ => sign_pcr_bound tpm key_handle digest
          | None, _, _, _, _ => attempt (command (fun t => esys_sign t NullAuth key_handle digest))
          end;
        signature ← lift (map_err (fun _ => "signing digest with TPM credential key"%string) signature);
        match signature with
        | EcDsa r s => mret (Der.ecdsa_der r s)
        | OtherSignature _ => throw "TPM returned non-ECDSA signature"%string
        end)).

Definition change_key_auth (credential : TpmCredential) (new_auth_value : bytes)
    : M World string TpmCredential :=
  parent ← create_storage_parent;
  priv ← lift (map_err (fun _ => "building TPM private blob"%string) (private_try_from (private credential)));
  pub ← lift (map_err (fun _ => "unmarshalling TPM public blob"%string) (public_unmarshall (public credential)));
  key_handle ← wrap_err "loading TPM credential for auth change" (load parent priv pub);
  _ ← set_auth_of credential key_handle;
  tpm_new_auth ← lift (auth_try_from new_auth_value);
  new_private ← wrap_err "changing TPM credential authorization"
    (command (fun t => esys_object_change_auth t key_handle parent tpm_new_auth));
  _ ← flush_context key_handle;
  _ ← flush_context parent;
  mret {| private := new_private; public := public credential;
          public_key_x := public_key_x credential; public_key_y := public_key_y credential;
          auth_value := Some new_auth_value |}.

Definition create_credential_key : M World string TpmCredential :=
  create_credential_key_with_auth None.

Definition sign_digest (tpm : Tpm) (credential : TpmCredential) (digest : bytes) : M World string bytes :=
  sign_digest_with_policy tpm credential None None digest.

(** *** Probing the device *)

(** [check_device]: the result of [std::fs::metadata] *)
Definition check_device (path : string) : M World string unit :=
  t ← next; lift (file_metadata t path).

Definition probe_ecc_signing : M World string unit :=
  public ← lift (signing_key_public None true);
  key_handle ← wrap_err "creating transient TPM ECC signing key"
                 (opening (fun t => esys_create_primary_signing t public));
  digest ← lift (map_err (fun _ => "building TPM signing digest"%string)
                   (digest_try_from (replicate 32 0)));
  signature ← attempt (command (fun t => esys_sign t NullAuth key_handle digest));
  _ ← wrap_err "flushing transient TPM ECC signing key" (flush_context key_handle);
  signature ← lift (map_err (fun _ => "signing digest with transient TPM ECC key"%string) signature);
  match signature with
  | EcDsa _ _ => mret tt
  | OtherSignature _ => throw "TPM returned non-ECDSA signature"%string
  end.

Definition probe : M World string unit :=
  _ ← wrap_err "reading random bytes from TPM" (command (fun t => esys_get_random t 8));
  wrap_err "probing TPM ECC signing" probe_ecc_signing.
End tpm.

(** [TpmConfig] and its default *)
Record TpmConfig := { device : string }.
Definition default_config : TpmConfig := {| device := "/dev/tpmrm0" |}.

(** ** What commands leave open *)

(** A computation leaves the open handles as they were, provided every open
    handle was given out before. *)
Definition balanced_rel (w w' : World) : Prop :=
  Forall (fun h => h < w_tick w)%nat (w_handles w) ->
  (w_tick w <= w_tick w')%nat /\ w_handles w' = w_handles w.

Abbreviation balanced := (keeps balanced_rel).

#[export] Instance balanced_preorder : PreOrder balanced_rel.
Proof.
  split; [done|]. intros a b c Hab Hbc Ha. destruct (Hab Ha) as [Ht Hh]. rewrite <- Hh in Ha.
  destruct Hbc as [? ?]; [|split; [lia|congruence]].
  eapply Forall_impl; [exact Ha|]. intros h ?. simpl in *. lia.
Qed.

Section balance.
Context {es : Esapi} {fl : EsapiFlushes}.

Lemma balanced_next {E} : balanced (next : M World E nat).
Proof. intros w _. simpl. split; [lia|done]. Qed.

Lemma balanced_command {A} (f : nat -> res string A) : balanced (command f).
Proof. apply keeps_bind; [apply _|apply balanced_next|intro; apply keeps_lift, _]. Qed.

Lemma balanced_wrap_err {A} msg (m : M World string A) : balanced m -> balanced (wrap_err msg m).
Proof. intros Hm w. specialize (Hm w). unfold wrap_err. by destruct (m w) as [[]]. Qed.

(** What follows the opening of a handle, run to its end and the handle flushed. *)
Lemma balanced_body {A} h (m : M World string A) w :
  balanced m -> Forall (fun h => h < w_tick w)%nat (h :: w_handles w) -> h ∉ w_handles w ->
  let w' := (guarded h m (set_handles (h :: w_handles w) w)).2 in
  (w_tick w <= w_tick w')%nat /\ w_handles w' = w_handles w.
Proof.
  intros Hm Hw Hh. unfold guarded, flush_context.
  specialize (Hm (set_handles (h :: w_handles w) w) Hw).
  destruct (m (set_handles (h :: w_handles w) w)) as [r w1]. simpl in *.
  rewrite flush_ok. simpl. destruct Hm as [Ht ->]. split; [lia|].
  rewrite filter_cons_False by (intros []; done). apply filter_all, Forall_forall. by intros x Hx ->.
Qed.

Lemma fresh_tick (w : World) :
  Forall (fun h => h < w_tick w)%nat (w_handles w) ->
  Forall (fun h => h < S (w_tick w))%nat (w_tick w :: w_handles w) /\ w_tick w ∉ w_handles w.
Proof.
  intros Hw. split; [constructor; [lia|]; eapply Forall_impl; [exact Hw|intros ? ?; simpl in *; lia]|].
  rewrite Forall_forall in Hw. intros Hin%Hw. lia.
Qed.

Lemma balanced_guarded_opening {A} f msg (k : nat -> M World string A) :
  (forall h, balanced (k h)) -> balanced (h ← wrap_err msg (opening f); guarded h (k h)).
Proof.
  intros Hk w Hw. unfold mbind, M_bind, wrap_err, opening.
  destruct (f (w_tick w)); simpl; [|split; [lia|done]..].
  destruct (fresh_tick w Hw) as [Hw' Hn].
  edestruct (balanced_body (w_tick w) (k (w_tick w)) (set_tick (S (w_tick w)) w)) as [? ?];
    [done..|]. simpl in *. split; [lia|done].
Qed.

Lemma balanced_guarded_load {A} f (k : nat -> M World string A) :
  (forall h, balanced (k h)) -> balanced (h ← opening f; guarded h (k h)).
Proof.
  intros Hk w Hw. pose proof (balanced_guarded_opening f ""%string k Hk w Hw) as H.
  revert H. unfold mbind, M_bind, wrap_err. by destruct (opening f w) as [[]].
Qed.

Lemma balanced_guarded_session {A} ty none (k : nat -> M World string A) :
  (forall h, balanced (k h)) -> balanced (h ← start_session ty none; guarded h (k h)).
Proof.
  intros Hk w Hw. unfold start_session, command, mbind, M_bind, gets, next, lift, modify. simpl.
  destruct (esys_start_auth_session (w_tick w) ty) as [[]| |]; simpl; [|split; [lia|done]..].
  destruct (fresh_tick w Hw) as [Hw' Hn].
  edestruct (balanced_body (w_tick w) (k (w_tick w)) (set_tick (S (w_tick w)) w)) as [? ?];
    [done..|]. simpl in *. split; [lia|done].
Qed.

Lemma balanced_set_auth_of key h : balanced (set_auth_of key h).
Proof. unfold set_auth_of. keeps_walk ltac:(apply balanced_command). Qed.
End balance.

#[export] Hint Resolve balanced_command balanced_set_auth_of : keeps.

(** Walk a signing computation: opened handles are guarded. *)
Ltac balance :=
  repeat first
    [ solve [eauto with keeps]
    | apply balanced_guarded_opening; intro
    | apply balanced_guarded_load; intro
    | apply balanced_guarded_session; intro
    | apply balanced_wrap_err
    | apply keeps_bind; [exact balanced_preorder| | intro]
    | apply keeps_attempt
    | match goal with |- keeps _ (match ?x with _ => _ end) => destruct x eqn:? end ].

Lemma balanced_current_pcr_digest `{!Crypto, !Esapi} selection :
  balanced (current_pcr_digest selection).
Proof. unfold current_pcr_digest. balance. Qed.
#[export] Hint Resolve balanced_current_pcr_digest : keeps.

Lemma balanced_sign_authorized `{!Crypto, !Esapi, !EsapiFlushes} tpm parent key d a r n sg :
  balanced (sign_authorized tpm parent key d a r n sg).
Proof. unfold sign_authorized, load. balance. Qed.

Lemma balanced_sign_pcr_bound `{!Crypto, !Esapi, !EsapiFlushes} tpm key d :
  balanced (sign_pcr_bound tpm key d).
Proof. unfold sign_pcr_bound. balance. Qed.
#[export] Hint Resolve balanced_sign_authorized balanced_sign_pcr_bound : keeps.

(** ** Successful runs *)

Lemma command_Ok {A} (f : nat -> res string A) w a w' :
  command f w = (Ok a, w') -> exists t, f t = Ok a.
Proof. unfold command. intros H. run_inv. eauto. Qed.

Lemma wrap_err_Ok {A} msg (m : M World string A) w a w' :
  wrap_err msg m w = (Ok a, w') -> m w = (Ok a, w').
Proof. unfold wrap_err. by destruct (m w) as [[]]. Qed.

Lemma guarded_Ok `{!Esapi} {A} h (m : M World string A) w a w' :
  guarded h m w = (Ok a, w') -> exists w1, m w = (Ok a, w1).
Proof.
  unfold guarded. destruct (m w) as [r w1], (flush_context h w1) as [r2 w2]. naive_solver.
Qed.

Ltac tpm_inv := run_inv_with ltac:(idtac; match goal with
  | H : command _ _ = (Ok _, _) |- _ => apply command_Ok in H as [? ?]
  | H : wrap_err _ _ _ = (Ok _, _) |- _ => apply wrap_err_Ok in H
  | H : guarded _ _ _ = (Ok _, _) |- _ => apply guarded_Ok in H as [? ?]
  end).

(** The policy session was extended with the digest of the PCRs as the TPM
    reads them for the configured selection. *)
Definition pcr_satisfied `{!Crypto, !Esapi} (tpm : Tpm) (session : nat) : Prop :=
  exists t t' digests d, esys_pcr_read t (pcr_selection_list tpm) = Ok digests /\
    digest_try_from (sha256 (concat digests)) = Ok d /\
    esys_policy_pcr t' session d (pcr_selection_list tpm) = Ok tt.

(** The session was authorized by the key named [name], which the TPM read from
    the loaded authority, over a ticket for the stored signature of the policy
    and its reference. *)
Definition authority_satisfied `{!Crypto, !Esapi} (session : nat)
    (policy_ref name signature : bytes) : Prop :=
  exists handle t1 t2 t3 t4 approved d sig ticket nonce,
    esys_read_public t1 handle = Ok name /\
    esys_policy_get_digest t2 session = Ok approved /\
    digest_try_from (policy_with_ref_hash approved policy_ref) = Ok d /\
    signature_unmarshall signature = Ok sig /\
    esys_verify_signature t3 handle d sig = Ok ticket /\
    nonce_try_from policy_ref = Ok nonce /\
    esys_policy_authorize t4 session approved nonce name ticket = Ok tt.

Lemma sign_pcr_bound_Ok `{!Crypto, !Esapi} tpm key d w sg w' :
  sign_pcr_bound tpm key d w = (Ok (Ok sg), w') ->
  exists session t, pcr_satisfied tpm session /\ esys_sign t (PolicyAuth session) key d = Ok sg.
Proof.
  unfold sign_pcr_bound, current_pcr_digest. intros Hrun. tpm_inv.
  match goal with H : esys_policy_pcr _ ?s _ _ = Ok ?u |- _ => exists s; destruct u end.
  eexists. split; [|eassumption]. repeat eexists; eassumption.
Qed.

Lemma sign_authorized_Ok `{!Crypto, !Esapi} tpm parent key d a r n sig w sg w' :
  sign_authorized tpm parent key d a r n sig w = (Ok (Ok sg), w') ->
  exists session t, pcr_satisfied tpm session /\ authority_satisfied session r n sig /\
    esys_sign t (PolicyAuth session) key d = Ok sg.
Proof.
  unfold sign_authorized, current_pcr_digest. intros Hrun. tpm_inv.
  match goal with H : esys_policy_pcr _ ?s _ _ = Ok ?u |- _ => exists s; destruct u end.
  bools; subst.
  match goal with H : esys_policy_authorize _ _ _ _ _ _ = Ok ?u |- _ => destruct u end.
  eexists. split_and!; [repeat eexists; eassumption|repeat eexists; eassumption|eassumption].
Qed.

(** ** Theorems *)

(** C32. Signing leaves no transient TPM object or policy session behind when the
    TPM flushes what it is told to flush ([EsapiFlushes]): on every outcome, success, TPM error, mismatching authority or panic, the open
    handles are the ones that were open before. *)
Theorem sign_leaves_no_handles {cr : Crypto} {es : Esapi} {fl : EsapiFlushes}
    tpm credential policy authority digest w :
  Forall (fun h => h < w_tick w)%nat (w_handles w) ->
  w_handles (sign_digest_with_policy tpm credential policy authority digest w).2 = w_handles w.
Proof.
  intros Hw. enough (balanced (sign_digest_with_policy tpm credential policy authority digest)) as H
    by apply (H w Hw).
  unfold sign_digest_with_policy, create_storage_parent, load. clear Hw.
  destruct (negb _); [balance|]. intros w'.
  unfold mbind at 1, M_bind at 1, lift. destruct build_parent_template; simpl.
  - revert w'. apply (balanced_guarded_opening esys_create_primary); intros parent. balance.
  - done.
  - done.
Qed.

(** C9. A signature with a credential that has a PCR policy is made under a
    policy session that the TPM extended with its own reading of the selected
    PCRs, never under a null or password session; where the policy carries a
    reference, an authority name and an authority signature and the authority
    key is at hand, that session was also authorized by the key of that name.
    The result is the DER encoding of the TPM's signature of the digest. *)
Theorem signature_is_policy_gated {cr : Crypto} {es : Esapi}
    tpm credential p authority digest w sig w' :
  sign_digest_with_policy tpm credential (Some p) authority digest w = (Ok sig, w') ->
  length digest = 32%nat /\
  exists session key d t r s,
    digest_try_from digest = Ok d /\ pcr_satisfied tpm session /\
    esys_sign t (PolicyAuth session) key d = Ok (EcDsa r s) /\ sig = Der.ecdsa_der r s /\
    forall ref name signature, is_Some authority -> b_policy_ref p = Some ref ->
      b_authority_name p = Some name -> b_authority_signature p = Some signature ->
      authority_satisfied session ref name signature.
Proof.
  unfold sign_digest_with_policy, create_storage_parent, load. intros Hrun. simpl in Hrun.
  tpm_inv; bools; (split; [done|]).
  1: edestruct sign_authorized_Ok as (session & tk & Hpcr & Hauth & Hsign); [eassumption|];
     exists session; do 5 eexists; split_and!; [eassumption..|done|]; intros; congruence.
  all: edestruct sign_pcr_bound_Ok as (session & tk & Hpcr & Hsign); [eassumption|];
    exists session; do 5 eexists; split_and!; [eassumption..|done|]; intros ??? [] **; congruence.
Qed.

(** Probing the TPM leaves nothing open either, as long as it takes a digest of
    32 bytes, whether the probe succeeds or not. *)
Lemma probe_leaves_no_handles {es : Esapi} {fl : EsapiFlushes} d w :
  digest_try_from (replicate 32 0) = Ok d -> (forall t a k d', esys_sign t a k d' <> Panic) ->
  Forall (fun h => h < w_tick w)%nat (w_handles w) ->
  w_handles (probe w).2 = w_handles w.
Proof.
  intros Hd Hp Hw. assert (balanced probe_ecc_signing) as Hb.
  { apply keeps_bind; [apply _|apply keeps_lift, _|]. intros public w1 Hw1.
    rewrite Hd. unfold mbind, M_bind, wrap_err, opening, lift, command, attempt, flush_context, next.
    destruct (esys_create_primary_signing (w_tick w1) public); simpl; [|split; [lia|done]..].
    destruct (fresh_tick w1 Hw1) as [_ Hn].
    assert (filter (fun x => x <> w_tick w1) (w_tick w1 :: w_handles w1) = w_handles w1) as Hf.
    { rewrite filter_cons_False by (intros []; done). apply filter_all, Forall_forall. by intros x Hx ->. }
    destruct (esys_sign _ _ _ _) as [[]| |] eqn:Hs; [..|by apply Hp in Hs]; simpl; rewrite ?flush_ok; simpl; rewrite ?Hf;
      (split; [lia|done]). }
  enough (balanced probe) as H by apply (H w Hw).
  unfold probe. balance.
Qed.

Lemma shl_one_small b i : 0 <= i < 32 -> shl_one b i = Ok (2 ^ i).
Proof. intros. unfold shl_one. destruct (32 <=? i) eqn:?; bools; [lia|done]. Qed.

(** PCR indices below 32 are selected as bits of a [u32] in every build
    profile. An index of 32 or more panics where overflow checks are compiled in,
    and silently selects the PCR of its residue modulo 32 where they are not. *)
Theorem pcr_index_range {es : Esapi} i rest slot :
  0 <= i -> pcr_slot_try_from (2 ^ (i mod 32)) = Some slot ->
  (i < 32 -> forall checks, pcr_slots checks (i :: rest) =
     (slots ← pcr_slots checks rest; Ok (slot :: slots))) /\
  (32 <= i -> pcr_slots true (i :: rest) = Panic /\
              pcr_slots false (i :: rest) = pcr_slots false (i mod 32 :: rest)).
Proof.
  intros Hi Hslot. pose proof (Z.mod_pos_bound i 32 ltac:(lia)). split.
  - intros Hlt checks. rewrite Z.mod_small in Hslot by lia. cbn [pcr_slots].
    rewrite shl_one_small by lia. simpl. by rewrite Hslot.
  - intros Hge. cbn [pcr_slots]. rewrite (shl_one_small false (i mod 32)) by lia.
    unfold shl_one. destruct (32 <=? i) eqn:?; bools; [|lia]. split; [done|].
    simpl. by rewrite Hslot.
Qed.

End Tpm.
