(* ===== verification/DemoTpm.v ===== *)
(** A toy TPM for the witnesses, and the witnesses of the theorems of [Tpm]. It
    accepts everything; [change_auth_ok] lets one command fail. *)
From Stdlib Require Import ZArith Lia String.
From stdpp Require Import base list option strings.
From S2P Require Import Prelude Schema Platform Demo Der Tpm.

#[local] Open Scope Z_scope.

Module DemoTpm.
Import Demo.

(** The signature of a digest: [r] is the digest, [s] the kind of session. *)
Definition session_byte (s : SessionArg) : Z :=
  match s with NullAuth => 1 | PasswordAuth => 2 | PolicyAuth _ => 3 end.

Definition esapi (change_auth_ok : bool) : Esapi := {|
  private_try_from := Ok; digest_try_from := Ok; auth_try_from := Ok; nonce_try_from := Ok;
  name_try_from := Ok; public_unmarshall := Ok; public_marshall := Ok;
  signature_unmarshall := fun b => Ok (EcDsa (take 32 b) (drop 32 b));
  signature_marshall := fun s =>
    match s with EcDsa r s => Ok (r ++ s) | OtherSignature b => Ok b end;
  ecc_point := fun b => Ok (Some (take 32 b, drop 32 b));
  pcr_slot_try_from := Some;
  build_pcr_selection := Ok;
  build_signing_template := Ok;
  build_parent_template := Ok tt;
  esys_open := fun _ _ => Ok tt;
  esys_get_random := fun _ n => Ok (replicate n 4);
  esys_create_primary := fun _ => Ok tt;
  esys_create_primary_signing := fun _ _ => Ok tt;
  esys_create := fun t _ _ _ =>
    Ok (be_bytes 4 (Z.of_nat t), be_bytes 32 (Z.of_nat t) ++ be_bytes 32 (Z.of_nat t + 1));
  esys_load := fun _ _ _ _ => Ok tt;
  esys_flush := fun _ _ => Ok tt;
  esys_tr_set_auth := fun _ _ _ => Ok tt;
  esys_sign := fun _ s _ d => Ok (EcDsa d [session_byte s]);
  esys_verify_signature := fun _ _ d _ => Ok d;
  esys_read_public := fun _ _ => Ok [7];
  esys_object_change_auth := fun _ _ _ _ => if change_auth_ok then Ok [9] else Err "denied"%string;
  esys_start_auth_session := fun _ _ => Ok true;
  esys_policy_pcr := fun _ _ _ _ => Ok tt;
  esys_policy_authorize := fun _ _ _ _ _ _ => Ok tt;
  esys_policy_command_code_sign := fun _ _ => Ok tt;
  esys_policy_get_digest := fun _ _ => Ok (be_bytes 32 99);
  esys_pcr_read := fun _ _ => Ok [be_bytes 32 5] |}.

#[export] Instance tpm2 : Esapi := esapi true.
#[export] Instance flushes b : @EsapiFlushes (esapi b).
Proof. done. Qed.

Definition tpm : Tpm.Tpm := {| Tpm.pcr_selection_list := [128]; Tpm.pcr_selection_name := "sha256:7" |}.
Definition key : TpmCredential :=
  {| private := [1]; public := [2]; public_key_x := []; public_key_y := []; auth_value := None |}.
Definition binding : PcrPolicyBinding :=
  {| b_selection := "sha256:7"; b_digest := be_bytes 32 99; b_policy_ref := Some [1; 2];
     b_authority_name := Some [7]; b_authority_signature := Some (be_bytes 33 3) |}.

End DemoTpm.

Import Demo DemoTpm.

(** ** Witnesses *)

(** One object of another owner stays open. *)
Lemma sign_leaves_no_handles_witness :
  w_handles (Tpm.sign_digest_with_policy (es := esapi true) tpm key (Some binding) (Some key) (be_bytes 32 8)
    {| w_tick := 5; w_db := empty_db; w_handles := [3%nat] |}).2 = [3%nat].
Proof. apply (Tpm.sign_leaves_no_handles (es := esapi true) (fl := flushes true)). simpl. constructor; [lia|constructor]. Defined.

Lemma signature_is_policy_gated_witness :
  length (be_bytes 32 8) = 32%nat /\
  exists session key d t r s,
    digest_try_from (be_bytes 32 8) = Ok d /\ Tpm.pcr_satisfied tpm session /\
    esys_sign t (PolicyAuth session) key d = Ok (EcDsa r s) /\
    Der.ecdsa_der (be_bytes 32 8) [3] = Der.ecdsa_der r s /\
    forall ref name signature, is_Some (Some DemoTpm.key) -> b_policy_ref binding = Some ref ->
      b_authority_name binding = Some name -> b_authority_signature binding = Some signature ->
      Tpm.authority_satisfied session ref name signature.
Proof.
  eapply (Tpm.signature_is_policy_gated tpm DemoTpm.key binding (Some DemoTpm.key) (be_bytes 32 8) Demo.w0).
  vm_compute. reflexivity.
Defined.

Lemma pcr_index_range_witness :
  Tpm.pcr_slots true [40; 7] = Panic /\ Tpm.pcr_slots false [40; 7] = Tpm.pcr_slots false [8; 7].
Proof. apply (Tpm.pcr_index_range 40 [7] 256); [lia|reflexivity|lia]. Defined.

(** When changing the authorization fails, the loaded key and its parent stay open. *)
Example change_key_auth_leaks :
  let '(r, w) := Tpm.change_key_auth (es := esapi false) key [1] Demo.w0 in
  r = Err "changing TPM credential authorization"%string /\ length (w_handles w) = 2%nat.
Proof. vm_compute. done. Qed.
