(* ===== verification/Store.v ===== *)
(** The credential store: [src/src/store.rs]. The tables are lists of rows, a
    query is a function on them; SQLite itself, the CBOR serialization of the
    private records, PEM and PHC strings are parameters. A store function runs to
    its end on the calling thread ([block_on_store]), so it is one computation. *)
From Stdlib Require Import ZArith Lia String.
From stdpp Require Import base list option strings gmap.
From S2P Require Import Prelude Schema Platform.

#[local] Open Scope Z_scope.

(** [argon2::password_hash::PasswordHash]: the salt is base64 text. *)
Record PasswordHash := {
  ph_algorithm : string; ph_version : option Z; ph_params : list (string * Z);
  ph_salt : option string; ph_hash : option bytes }.

Class StoreCodec := {
  (** the derived CBOR codec of [TpmKeyBlob] *)
  blob_encode : TpmKeyBlob -> bytes;
  blob_decode : bytes -> option TpmKeyBlob;
  (** the CBOR codecs of [Vec<u32>] and of the tuple
      (hash, salt, memory_kib, iterations, parallelism) *)
  indices_encode : list Z -> bytes;
  indices_decode : bytes -> option (list Z);
  passphrase_encode : bytes * bytes * Z * Z * Z -> bytes;
  passphrase_decode : bytes -> option (bytes * bytes * Z * Z * Z);
  (** [PublicKey::to_string] of a SEC1 point, and [str::parse] with the two
      coordinates of the uncompressed point *)
  pem_encode : bytes -> string;
  pem_decode : string -> option (bytes * bytes);
  (** base64 without padding; [Salt::from_b64] and [Output::new] check lengths *)
  b64_encode : bytes -> string;
  b64_decode : string -> option bytes;
  salt_ok : string -> bool;
  output_ok : bytes -> bool;
  (** [PasswordHash::to_string] and [PasswordHash::new] *)
  phc_print : PasswordHash -> string;
  phc_parse : string -> option PasswordHash }.

Class StoreCodecLaws {cr : Crypto} {sc : StoreCodec} := {
  blob_roundtrip b : blob_decode (blob_encode b) = Some b;
  indices_roundtrip l : Forall (fun i => 0 <= i < 2 ^ 32) l -> indices_decode (indices_encode l) = Some l;
  passphrase_roundtrip p : passphrase_decode (passphrase_encode p) = Some p;
  pem_roundtrip x y : p256_valid (4 :: x ++ y) = true -> length x = 32%nat -> length y = 32%nat ->
    pem_decode (pem_encode (4 :: x ++ y)) = Some (x, y);
  b64_roundtrip b : b64_decode (b64_encode b) = Some b;
  phc_roundtrip p : phc_parse (phc_print p) = Some p }.

Module Store.

Section store.
Context {pf : Platform} {cr : Crypto} {sc : StoreCodec}.

(** ** Records and their encodings *)

Definition sec1_encode_point (x y : bytes) : res string string :=
  let encoded := 0x04 :: x ++ y in
  if p256_valid encoded then Ok (pem_encode encoded) else Panic.

Definition sec1_decode_point (data : string) : res string (bytes * bytes) :=
  ok_or (pem_decode data) "invalid PEM public key"%string.

Definition tpm_key_to_blob (key : StoredTpmKey) : bytes :=
  blob_encode {| kb_private := private key; kb_public := public key; kb_auth_value := auth_value key |}.

Definition tpm_key_from_blob (data : bytes) (public_key : string) : res string StoredTpmKey :=
  blob ← ok_or (blob_decode data) "deserializing TPM key blob"%string;
  '(x, y) ← map_err (fun _ => "decoding SEC.1 public key point"%string) (sec1_decode_point public_key);
  mret {| private := kb_private blob; public := kb_public blob; public_key_x := x; public_key_y := y;
          auth_value := kb_auth_value blob |}.

Definition kdf_params_to_string (kdf : RecoveryKdf) (salt hash : bytes) : res string string :=
  let salt_b64 := b64_encode salt in
  let '(Argon2id memory_kib iterations parallelism) := kdf in
  let params := [("m"%string, memory_kib); ("t"%string, iterations); ("p"%string, parallelism)] in
  if salt_ok salt_b64 && output_ok hash then
    Ok (phc_print {| ph_algorithm := "argon2id"; ph_version := Some 19; ph_params := params;
                     ph_salt := Some salt_b64; ph_hash := Some hash |})
  else Panic.

Definition get_decimal (name : string) (params : list (string * Z)) : option Z :=
  snd <$> find_by (fun p => bool_decide (p.1 = name)) params.

Definition kdf_params_from_string (s : string) : res string (bytes * bytes * RecoveryKdf) :=
  ph ← ok_or (phc_parse s) "invalid KDF params PHC string"%string;
  _ ← guard (bool_decide (ph_algorithm ph = "argon2id"%string)) "unsupported KDF algorithm"%string;
  salt ← ok_or (ph_salt ph) "PHC string missing salt"%string;
  hash ← ok_or (ph_hash ph) "PHC string missing hash"%string;
  salt_vec ← ok_or (b64_decode salt) "decoding PHC salt from B64"%string;
  memory_kib ← ok_or (get_decimal "m" (ph_params ph)) "missing argon2id m parameter"%string;
  iterations ← ok_or (get_decimal "t" (ph_params ph)) "missing argon2id t parameter"%string;
  parallelism ← ok_or (get_decimal "p" (ph_params ph)) "missing argon2id p parameter"%string;
  mret (salt_vec, hash, Argon2id memory_kib iterations parallelism).

(** ** Integrity *)

(** [mac.update(&(b.len() as u64).to_be_bytes()); mac.update(b)] *)
Definition framed (b : bytes) : bytes := be_bytes 8 (Z.of_nat (length b)) ++ b.

Definition bool_byte (b : bool) : Z := if b then 1 else 0.

Definition credential_mac_message (c : StoredCtap2Credential) : bytes :=
  framed (s_id c) ++ framed (as_bytes (s_rp_id c)) ++ [bool_byte (s_discoverable c)]
  ++ framed (s_user_handle c) ++ be_bytes 4 (default 0 (s_user_id c))
  ++ framed (as_bytes (default ""%string (s_user_name c)))
  ++ framed (as_bytes (default ""%string (s_user_display_name c))).

Definition compute_credential_mac (key : bytes) (c : StoredCtap2Credential) : bytes :=
  hmac_sha256 key (credential_mac_message c).

Definition compute_credential_mac_legacy (key : bytes) (c : StoredCtap2Credential) : bytes :=
  hmac_sha256 key
    (framed (s_id c) ++ framed (as_bytes (s_rp_id c)) ++ framed (s_user_handle c)
     ++ be_bytes 4 (default 0 (s_user_id c))
     ++ framed (as_bytes (default ""%string (s_user_name c)))
     ++ framed (as_bytes (default ""%string (s_user_display_name c)))).

Definition client_pin_mac_message (s : StoredClientPinState) : bytes :=
  framed (sp_pin_salt s) ++ framed (sp_pin_verifier s) ++ be_bytes 4 (sp_retries s).

Definition compute_client_pin_mac (key : bytes) (s : StoredClientPinState) : bytes :=
  hmac_sha256 key (client_pin_mac_message s).

(** ** The database *)

(** One access to SQLite or to the store directory, which may fail. *)
Definition io (msg : string) : M World string unit :=
  t ← next; match db_fault t with Some _ => throw msg | None => mret tt end.

Definition db_update (f : Db -> Db) : M World string unit := modify (fun w => set_db (f (w_db w)) w).
Definition db_get {A} (f : Db -> A) : M World string A := gets (fun w => f (w_db w)).

(** The file is created and the migrations run, if that has not happened yet. *)
Definition open_database : M World string unit :=
  _ ← io "opening SQLite credential store"; db_update set_exists.

(** A transaction that does not commit leaves the tables as they were; the file
    of the integrity key is not part of it. *)
Definition rollback (before after : World) : World :=
  set_db (set_hmac_key_file (hmac_key_file (w_db after)) (w_db before)) after.

Definition committing {A} (commit_msg : string) (m : M World string A) : M World string A := fun w =>
  match (a ← m; _ ← io commit_msg; mret a) w with
  | (Ok a, w') => (Ok a, w')
  | (r, w') => (r, rollback w w')
  end.

Definition transaction {A} (begin_msg commit_msg : string) (m : M World string A) : M World string A :=
  _ ← io begin_msg; committing commit_msg m.

Definition load_or_generate_hmac_key : M World string bytes :=
  t ← next;
  file ← db_get hmac_key_file;
  match file with
  | Some raw =>
      match key_file_fault t with
      | Some _ => throw "reading HMAC key"%string
      | None => if (length raw =? 32)%nat then mret raw
                else throw "HMAC key file has wrong length"%string
      end
  | None =>
      key ← lift (ok_or (getrandom t 32) "generating HMAC key from system random"%string);
      match key_file_fault t with
      | Some _ => throw "writing HMAC key"%string
      | None => _ ← db_update (set_hmac_key_file (Some key)); mret key
      end
  end.

(** ** Configuration *)

Definition load_default_pcr_policy : M World string (option (list Z)) :=
  _ ← open_database;
  _ ← io "loading default PCR policy from database";
  row ← db_get (fun d => daemon_config d !! "default_pcr_policy"%string);
  match row with
  | Some blob =>
      indices ← lift (ok_or (indices_decode blob)
                        "deserializing default PCR policy from database"%string);
      mret (Some indices)
  | None => mret None
  end.

Definition save_default_pcr_policy (indices : list Z) : M World string unit :=
  _ ← open_database;
  _ ← io "saving default PCR policy to database";
  db_update (fun d => set_config (<["default_pcr_policy"%string := indices_encode indices]> (daemon_config d)) d).

Definition load_daemon_passphrase : M World string (option (bytes * bytes * RecoveryKdf)) :=
  _ ← open_database;
  _ ← io "loading daemon passphrase from database";
  row ← db_get (fun d => daemon_config d !! "daemon_passphrase"%string);
  match row with
  | Some blob =>
      p ← lift (ok_or (passphrase_decode blob)
                  "deserializing daemon passphrase from database"%string);
      let '(hash, salt, memory_kib, iterations, parallelism) := p in
      mret (Some (salt, hash, Argon2id memory_kib iterations parallelism))
  | None => mret None
  end.

Definition save_daemon_passphrase (salt hash : bytes) (kdf : RecoveryKdf) : M World string unit :=
  _ ← open_database;
  let '(Argon2id memory_kib iterations parallelism) := kdf in
  let blob := passphrase_encode (hash, salt, memory_kib, iterations, parallelism) in
  _ ← io "saving daemon passphrase to database";
  db_update (fun d => set_config (<["daemon_passphrase"%string := blob]> (daemon_config d)) d).

(** ** Loading credentials *)

Definition is_slot (id : bytes) (kind : SlotKind) (k : KeyslotRow) : bool :=
  bool_decide (k_credential_id k = id) && bool_decide (k_slot_kind k = kind).

(** The right side of a left join: the matching rows, or one row of nulls. *)
Definition left_rows {A} (l : list A) : list (option A) :=
  match l with [] => [None] | _ => Some <$> l end.

(** A row of the result of the query. *)
Record Joined := {
  j_m : MetadataRow; j_p : KeyslotRow; j_r : option KeyslotRow; j_t : option TokenRow }.

Definition joined_of (d : Db) (m : MetadataRow) : list Joined :=
  p ← List.filter (is_slot (m_credential_id m) Primary) (keyslots d);
  r ← left_rows (List.filter (is_slot (m_credential_id m) Recovery) (keyslots d));
  t ← match r with
      | Some r => left_rows (List.filter (fun t => t_keyslot_id t =? k_keyslot_id r) (tokens d))
      | None => [None]
      end;
  mret {| j_m := m; j_p := p; j_r := r; j_t := t |}.

(** [?1 IS NULL OR m.user_id = ?1 OR m.user_id IS NULL] *)
Definition visible (user_id : option Z) (m : MetadataRow) : bool :=
  match user_id, m_user_id m with
  | None, _ => true
  | _, None => true
  | Some u, Some v => v =? u
  end.

(** [ORDER BY m.rp_id, m.credential_id] *)
Definition row_leb (rp1 : string) (id1 : bytes) (rp2 : string) (id2 : bytes) : bool :=
  if bool_decide (rp1 = rp2) then bytes_leb id1 id2 else bytes_leb (as_bytes rp1) (as_bytes rp2).

Definition joined_leb (a b : Joined) : bool :=
  row_leb (m_rp_id (j_m a)) (m_credential_id (j_m a)) (m_rp_id (j_m b)) (m_credential_id (j_m b)).

Definition select_rows (user_id : option Z) (d : Db) : list Joined :=
  sort_by joined_leb (List.filter (visible user_id) (metadata d) ≫= joined_of d).

Definition recovery_of_row (row : Joined) : res string (option StoredRecoverySlot) :=
  match j_r row, j_t row with
  | Some r, Some t =>
      '(passphrase_salt, passphrase_hash, kdf) ← kdf_params_from_string (t_kdf_params t);
      key ← tpm_key_from_blob (k_tpm_key r) (k_public_key r);
      mret (Some {| label := k_slot_label r; passphrase_salt := passphrase_salt;
                    passphrase_hash := passphrase_hash; kdf := kdf; slot_key := key |})
  | _, _ => mret None
  end.

Definition owner_of_row (user_id stored_user_id : option Z) : res string (option Z) :=
  match stored_user_id, user_id with
  | Some value, _ => u ← ok_or (try_u32 value) "invalid user_id"%string; mret (Some u)
  | None, Some uid => mret (Some uid)
  | None, None => mret None
  end.

Definition policy_of_row (p : KeyslotRow) (version : Z) : option StoredPcrPolicy :=
  match k_policy_selection p, k_policy_digest p with
  | Some selection, Some digest =>
      Some {| selection := selection; digest := digest; policy_ref := k_policy_ref p;
              authority_name := k_authority_name p; authority_signature := k_authority_signature p;
              policy_version := version |}
  | _, _ => None
  end.

(** The record a row stands for, before its MAC is checked. *)
Definition decode_row (user_id : option Z) (row : Joined) : res string StoredCtap2Credential :=
  let m := j_m row in
  let p := j_p row in
  version ← ok_or (try_u32 (k_policy_version p)) "invalid policy_version"%string;
  primary_key ← tpm_key_from_blob (k_tpm_key p) (k_public_key p);
  recovery ← recovery_of_row row;
  owner ← owner_of_row user_id (m_user_id m);
  sign_count ← ok_or (try_u32 (m_sign_count m)) "invalid sign_count"%string;
  mret {| s_id := m_credential_id m; s_rp_id := m_rp_id m;
          s_discoverable := negb (m_discoverable m =? 0); s_user_id := owner;
          s_user_handle := m_user_handle m; s_user_name := m_user_name m;
          s_user_display_name := m_user_display_name m; s_key := primary_key;
          s_policy := policy_of_row p version; s_recovery := recovery;
          s_sign_count := sign_count; s_integrity_mac := m_integrity_mac m |}.

(** The MAC stored with a record is the current or the legacy one. *)
Definition mac_accepted (key : bytes) (c : StoredCtap2Credential) (expected_mac : bytes) : bool :=
  bool_decide (compute_credential_mac key c = expected_mac)
  || bool_decide (compute_credential_mac_legacy key c = expected_mac).

Definition check_integrity (stored : StoredCtap2Credential) : M World string StoredCtap2Credential :=
  match s_integrity_mac stored with
  | Some expected_mac =>
      key ← attempt load_or_generate_hmac_key;
      match key with
      | Ok key => if mac_accepted key stored expected_mac then mret stored
                  else throw "credential integrity check failed"%string
      | _ => mret stored
      end
  | None => mret stored
  end.

Definition load_row (user_id : option Z) (row : Joined) : M World string StoredCtap2Credential :=
  stored ← lift (decode_row user_id row); check_integrity stored.

Definition load_ctap2_credentials (user_id : option Z) : M World string (list StoredCtap2Credential) :=
  exists_ ← db_get db_exists;
  if negb exists_ then mret []
  else
    _ ← open_database;
    _ ← io "loading credentials";
    rows ← db_get (select_rows user_id);
    mapM (load_row user_id) rows.

(** ** Saving credentials *)

(** [DELETE FROM credential_metadata WHERE p], with the cascades of the foreign keys. *)
Definition delete_metadata (p : MetadataRow -> bool) (d : Db) : Db :=
  let ids := m_credential_id <$> List.filter p (metadata d) in
  let gone := fun k => bool_decide (k_credential_id k ∈ ids) in
  let slots := k_keyslot_id <$> List.filter gone (keyslots d) in
  set_tokens (List.filter (fun t => negb (bool_decide (t_keyslot_id t ∈ slots))) (tokens d))
    (set_keyslots (List.filter (fun k => negb (gone k)) (keyslots d)) (next_keyslot_id d)
      (set_metadata (List.filter (fun m => negb (p m)) (metadata d)) d)).

Definition insert_metadata (row : MetadataRow) : M World string unit :=
  rows ← db_get metadata;
  if bool_decide (m_credential_id row ∈ m_credential_id <$> rows) then
    throw "saving credential metadata"%string
  else db_update (fun d => set_metadata (metadata d ++ [row]) d).

(** Insert a keyslot; the result is its row id. The unique constraint and the
    foreign key are checked. *)
Definition insert_keyslot (msg : string) (row : Z -> KeyslotRow) : M World string Z :=
  id ← db_get next_keyslot_id;
  rows ← db_get keyslots;
  ids ← db_get (fun d => m_credential_id <$> metadata d);
  let r := row id in
  if existsb (is_slot (k_credential_id r) (k_slot_kind r)) rows
     || negb (bool_decide (k_credential_id r ∈ ids)) then throw msg
  else _ ← db_update (fun d => set_keyslots (keyslots d ++ [r]) (id + 1) d); mret id.

Definition insert_token (row : TokenRow) : M World string unit :=
  rows ← db_get tokens;
  slots ← db_get (fun d => k_keyslot_id <$> keyslots d);
  if bool_decide (t_keyslot_id row ∈ t_keyslot_id <$> rows)
     || negb (bool_decide (t_keyslot_id row ∈ slots)) then
    throw "saving recovery token"%string
  else db_update (fun d => set_tokens (tokens d ++ [row]) d).

Definition metadata_row (c : StoredCtap2Credential) (mac : option bytes) : MetadataRow :=
  {| m_credential_id := s_id c; m_rp_id := s_rp_id c; m_user_handle := s_user_handle c;
     m_user_name := s_user_name c; m_user_display_name := s_user_display_name c;
     m_sign_count := s_sign_count c; m_user_id := s_user_id c; m_integrity_mac := mac;
     m_discoverable := bool_byte (s_discoverable c) |}.

Definition primary_row (c : StoredCtap2Credential) (public_key : string) (id : Z) : KeyslotRow :=
  {| k_keyslot_id := id; k_credential_id := s_id c; k_slot_kind := Primary; k_slot_label := None;
     k_policy_selection := selection <$> s_policy c; k_policy_digest := digest <$> s_policy c;
     k_policy_ref := s_policy c ≫= policy_ref; k_authority_name := s_policy c ≫= authority_name;
     k_authority_signature := s_policy c ≫= authority_signature; k_policy_version := 1;
     k_tpm_key := tpm_key_to_blob (s_key c); k_public_key := public_key |}.

Definition recovery_row (c : StoredCtap2Credential) (r : StoredRecoverySlot) (public_key : string)
    (id : Z) : KeyslotRow :=
  {| k_keyslot_id := id; k_credential_id := s_id c; k_slot_kind := Recovery;
     k_slot_label := label r; k_policy_selection := None; k_policy_digest := None;
     k_policy_ref := None; k_authority_name := None; k_authority_signature := None;
     k_policy_version := 1; k_tpm_key := tpm_key_to_blob (slot_key r); k_public_key := public_key |}.

Definition save_recovery (c : StoredCtap2Credential) (r : StoredRecoverySlot) : M World string unit :=
  public_key ← lift (sec1_encode_point (public_key_x (slot_key r)) (public_key_y (slot_key r)));
  _ ← io "saving recovery keyslot";
  keyslot_id ← insert_keyslot "saving recovery keyslot" (recovery_row c r public_key);
  kdf_params ← lift (kdf_params_to_string (kdf r) (passphrase_salt r) (passphrase_hash r));
  _ ← io "saving recovery token";
  insert_token {| t_keyslot_id := keyslot_id; t_label := label r; t_kdf_params := kdf_params |}.

Definition save_credential (c : StoredCtap2Credential) : M World string unit :=
  key ← attempt load_or_generate_hmac_key;
  let mac := match key with Ok key => Some (compute_credential_mac key c) | _ => None end in
  _ ← io "saving credential metadata";
  _ ← insert_metadata (metadata_row c mac);
  public_key ← lift (sec1_encode_point (public_key_x (s_key c)) (public_key_y (s_key c)));
  _ ← io "saving primary keyslot";
  _ ← insert_keyslot "saving primary keyslot" (primary_row c public_key);
  match s_recovery c with
  | Some r => save_recovery c r
  | None => mret tt
  end.

Fixpoint save_all (credentials : list StoredCtap2Credential) : M World string unit :=
  match credentials with
  | [] => mret tt
  | c :: rest => _ ← save_credential c; save_all rest
  end.

Definition save_ctap2_credentials (credentials : list StoredCtap2Credential) : M World string unit :=
  _ ← open_database;
  transaction "beginning store transaction" "committing credential store transaction" (
    _ ← io "clearing credential rows";
    _ ← db_update (delete_metadata (fun _ => true));
    save_all credentials).

(** ** Updates *)

(** Apply [f] to the rows that satisfy [p]; the result is [rows_affected]. *)
Definition update_rows {A} (p : A -> bool) (f : A -> A) (l : list A) : list A :=
  map (fun x => if p x then f x else x) l.

Definition rows_affected {A} (p : A -> bool) (l : list A) : nat := length (List.filter p l).

Definition set_sign_count (n : Z) (m : MetadataRow) : MetadataRow :=
  {| m_credential_id := m_credential_id m; m_rp_id := m_rp_id m; m_user_handle := m_user_handle m;
     m_user_name := m_user_name m; m_user_display_name := m_user_display_name m;
     m_sign_count := n; m_user_id := m_user_id m; m_integrity_mac := m_integrity_mac m;
     m_discoverable := m_discoverable m |}.

Definition has_id (id : bytes) (m : MetadataRow) : bool := bool_decide (m_credential_id m = id).

Definition update_ctap2_sign_count (credential_id : bytes) (sign_count : Z) : M World string unit :=
  _ ← open_database;
  _ ← io "updating CTAP2 credential sign_count";
  affected ← db_get (fun d => rows_affected (has_id credential_id) (metadata d));
  _ ← db_update (fun d =>
        set_metadata (update_rows (has_id credential_id) (set_sign_count sign_count) (metadata d)) d);
  lift (guard (affected =? 1)%nat "updated rows while updating sign_count; expected 1"%string).

Definition set_policy (p : StoredPcrPolicy) (k : KeyslotRow) : KeyslotRow :=
  {| k_keyslot_id := k_keyslot_id k; k_credential_id := k_credential_id k;
     k_slot_kind := k_slot_kind k; k_slot_label := k_slot_label k;
     k_policy_selection := Some (selection p); k_policy_digest := Some (digest p);
     k_policy_ref := policy_ref p; k_authority_name := authority_name p;
     k_authority_signature := authority_signature p; k_policy_version := k_policy_version k;
     k_tpm_key := k_tpm_key k; k_public_key := k_public_key k |}.

Definition update_ctap2_policy (credential_id : bytes) (policy : StoredPcrPolicy) : M World string unit :=
  _ ← open_database;
  _ ← io "updating CTAP2 credential PCR policy";
  affected ← db_get (fun d => rows_affected (is_slot credential_id Primary) (keyslots d));
  _ ← db_update (fun d =>
        set_keyslots (update_rows (is_slot credential_id Primary) (set_policy policy) (keyslots d))
          (next_keyslot_id d) d);
  lift (guard (affected =? 1)%nat "updated rows while updating PCR policy; expected 1"%string).

Definition set_tpm_key (blob : bytes) (k : KeyslotRow) : KeyslotRow :=
  {| k_keyslot_id := k_keyslot_id k; k_credential_id := k_credential_id k;
     k_slot_kind := k_slot_kind k; k_slot_label := k_slot_label k;
     k_policy_selection := k_policy_selection k; k_policy_digest := k_policy_digest k;
     k_policy_ref := k_policy_ref k; k_authority_name := k_authority_name k;
     k_authority_signature := k_authority_signature k; k_policy_version := k_policy_version k;
     k_tpm_key := blob; k_public_key := k_public_key k |}.

Definition set_kdf_params (s : string) (t : TokenRow) : TokenRow :=
  {| t_keyslot_id := t_keyslot_id t; t_label := t_label t; t_kdf_params := s |}.

Definition update_recovery_slot (credential_id new_private new_salt new_hash : bytes) (kdf : RecoveryKdf)
    : M World string unit :=
  _ ← open_database;
  transaction "beginning transaction for recovery slot update"
      "committing recovery slot update transaction" (
    _ ← io "reading recovery keyslot for update";
    row ← db_get (fun d => find_by (is_slot credential_id Recovery) (keyslots d));
    row ← lift (ok_or row "recovery keyslot not found"%string);
    old_key ← lift (tpm_key_from_blob (k_tpm_key row) (k_public_key row));
    let new_key := {| private := new_private; public := public old_key;
                      public_key_x := public_key_x old_key; public_key_y := public_key_y old_key;
                      auth_value := Some new_hash |} in
    _ ← io "updating recovery keyslot TPM key";
    affected ← db_get (fun d => rows_affected (is_slot credential_id Recovery) (keyslots d));
    _ ← db_update (fun d =>
          set_keyslots (update_rows (is_slot credential_id Recovery)
                          (set_tpm_key (tpm_key_to_blob new_key)) (keyslots d)) (next_keyslot_id d) d);
    _ ← lift (guard (affected =? 1)%nat "updated rows for recovery slot; expected 1"%string);
    kdf_params ← lift (kdf_params_to_string kdf new_salt new_hash);
    _ ← io "updating recovery passphrase tokens";
    keyslot_id ← db_get (fun d => k_keyslot_id <$> find_by (is_slot credential_id Recovery) (keyslots d));
    db_update (fun d =>
      set_tokens (update_rows (fun t => bool_decide (Some (t_keyslot_id t) = keyslot_id))
                    (set_kdf_params kdf_params) (tokens d)) d)).

Definition delete_ctap2_credential (credential_id : bytes) : M World string unit :=
  _ ← open_database;
  _ ← io "deleting CTAP2 credential";
  affected ← db_get (fun d => rows_affected (has_id credential_id) (metadata d));
  _ ← db_update (delete_metadata (has_id credential_id));
  lift (guard (affected =? 1)%nat "deleted rows for credential ID; expected 1"%string).

(** ** Client PIN *)

Definition load_client_pin_state : M World string (option StoredClientPinState) :=
  exists_ ← db_get db_exists;
  if negb exists_ then mret None
  else
    _ ← open_database;
    _ ← io "loading clientPIN state";
    row ← db_get pin_row;
    match row with
    | None => mret None
    | Some row =>
        retries ← lift (ok_or (try_u32 (pr_retries row)) "invalid clientPIN retry count"%string);
        let state := {| sp_pin_salt := pr_pin_salt row; sp_pin_verifier := pr_pin_verifier row;
                        sp_retries := retries; sp_integrity_mac := pr_integrity_mac row |} in
        match sp_integrity_mac state with
        | Some expected_mac =>
            key ← load_or_generate_hmac_key;
            if constant_time_equal (compute_client_pin_mac key state) expected_mac
            then mret (Some state)
            else throw "clientPIN state integrity check failed"%string
        | None => mret (Some state)
        end
    end.

Definition save_client_pin_state (state : StoredClientPinState) : M World string unit :=
  if negb (length (sp_pin_salt state) =? 32)%nat || negb (length (sp_pin_verifier state) =? 32)%nat
     || (8 <? sp_retries state) then throw "invalid clientPIN state"%string
  else
    _ ← open_database;
    key ← load_or_generate_hmac_key;
    let integrity_mac := compute_client_pin_mac key state in
    _ ← io "saving clientPIN state";
    db_update (set_pin_row (Some {| pr_pin_salt := sp_pin_salt state;
                                    pr_pin_verifier := sp_pin_verifier state;
                                    pr_retries := sp_retries state;
                                    pr_integrity_mac := Some integrity_mac |})).

Definition delete_client_pin_state : M World string unit :=
  _ ← open_database;
  _ ← io "deleting clientPIN state";
  db_update (set_pin_row None).
End store.

End Store.
