(* ===== verification/StoreProps.v ===== *)
(** Properties of the credential store ([Store]): integrity of the tables under
    every operation, and atomicity of transactions. *)
From Stdlib Require Import ZArith Lia String.
From stdpp Require Import base list option strings gmap.
From S2P Require Import Prelude Schema Platform Store.

#[local] Open Scope Z_scope.

(** SQLite and the store directory answer, and the kernel gives random bytes. *)
Class Healthy {pf : Platform} := {
  no_db_fault t : db_fault t = None;
  no_key_file_fault t : key_file_fault t = None;
  random_bytes t n : exists b, getrandom t n = Some b /\ length b = n }.

Module StoreProps.
Import Store.

(** ** Runs as functions of the tables *)

(** From the tables [d], [m] ends with [r] and the tables [d'], whatever the tick. *)
Definition runs {A} (m : M World string A) (d : Db) (r : res string A) (d' : Db) : Prop :=
  forall w, w_db w = d -> exists t,
    m w = (r, {| w_tick := t; w_db := d'; w_handles := w_handles w |}).

Lemma runs_bind {A B} (m : M World string A) (k : A -> M World string B) d a d1 r d2 :
  runs m d (Ok a) d1 -> runs (k a) d1 r d2 -> runs (m ≫= k) d r d2.
Proof.
  intros Hm Hk w Hw. destruct (Hm w Hw) as [t Ht]. rewrite (bind_run_Ok _ _ _ _ _ Ht).
  destruct (Hk {| w_tick := t; w_db := d1; w_handles := w_handles w |}) as [t' ->]; [done|].
  by exists t'.
Qed.

Lemma runs_bind_Err {A B} (m : M World string A) (k : A -> M World string B) d e d1 :
  runs m d (Err e) d1 -> runs (m ≫= k) d (Err e) d1.
Proof.
  intros Hm w Hw. destruct (Hm w Hw) as [t Ht]. rewrite (bind_run_Err _ _ _ _ _ Ht). by exists t.
Qed.

Lemma runs_bind_Panic {A B} (m : M World string A) (k : A -> M World string B) d d1 :
  runs m d Panic d1 -> runs (m ≫= k) d Panic d1.
Proof.
  intros Hm w Hw. destruct (Hm w Hw) as [t Ht]. exists t. unfold mbind, M_bind. by rewrite Ht.
Qed.

Lemma runs_ret {A} (a : A) d : runs (mret a) d (Ok a) d.
Proof. intros w <-. exists (w_tick w). by destruct w. Qed.

Lemma runs_lift {A} (r : res string A) d : runs (lift r) d r d.
Proof. intros w <-. exists (w_tick w). by destruct w. Qed.

Lemma runs_throw {A} e d : runs (throw e : M World string A) d (Err e) d.
Proof. intros w <-. exists (w_tick w). by destruct w. Qed.

Lemma runs_db_get {A} (f : Db -> A) d : runs (db_get f) d (Ok (f d)) d.
Proof. intros w <-. exists (w_tick w). by destruct w. Qed.

Lemma runs_db_update f d : runs (db_update f) d (Ok tt) (f d).
Proof. intros w <-. by exists (w_tick w). Qed.

Lemma runs_attempt {A} (m : M World string A) d r d' :
  r <> Panic -> runs m d r d' -> runs (attempt m) d (Ok r) d'.
Proof.
  intros Hr Hm w Hw. destruct (Hm w Hw) as [t Ht]. exists t. unfold attempt. rewrite Ht.
  by destruct r.
Qed.

Lemma runs_det {A} (m : M World string A) d r d' w :
  runs m d r d' -> w_db w = d -> (m w).1 = r /\ w_db (m w).2 = d'.
Proof. intros Hm Hw. by destruct (Hm w Hw) as [t ->]. Qed.

Section healthy.
Context {pf : Platform} {hp : Healthy} {cr : Crypto} {sc : StoreCodec}.

Lemma runs_io msg d : runs (io msg) d (Ok tt) d.
Proof.
  intros w <-. exists (S (w_tick w)). unfold io, mbind, M_bind, next. rewrite no_db_fault. done.
Qed.

Lemma runs_open_database d : runs open_database d (Ok tt) (set_exists d).
Proof. eapply runs_bind; [apply runs_io|apply runs_db_update]. Qed.

Lemma runs_hmac_key d key :
  hmac_key_file d = Some key -> length key = 32%nat -> runs load_or_generate_hmac_key d (Ok key) d.
Proof.
  intros Hk Hl w <-. exists (S (w_tick w)).
  unfold load_or_generate_hmac_key, mbind, M_bind, next, db_get, gets. simpl.
  rewrite Hk, no_key_file_fault, Hl. done.
Qed.

Lemma runs_committing {A} msg (m : M World string A) d a d' :
  runs m d (Ok a) d' -> runs (committing msg m) d (Ok a) d'.
Proof.
  intros Hm w Hw. unfold committing.
  destruct (runs_bind m (fun a => _ ← io msg; mret a) d a d' (Ok a) d') with (w := w) as [t ->]; eauto.
  eapply runs_bind; [apply runs_io|apply runs_ret].
Qed.

Lemma runs_mapM {A B} (f : A -> M World string B) (g : A -> res string B) l d :
  (forall x, x ∈ l -> runs (f x) d (g x) d) -> runs (mapM f l) d (mapM g l) d.
Proof.
  induction l as [|x l IH]; intros Hf; simpl; [apply runs_ret|].
  pose proof (Hf x ltac:(left)) as Hx. destruct (g x) as [y|e|] eqn:Hg; simpl.
  - eapply runs_bind; [exact Hx|]. destruct (mapM g l) as [ys|e|] eqn:Hm; simpl in *.
    + eapply runs_bind; [apply IH; intros; apply Hf; by right|apply runs_ret].
    + apply runs_bind_Err, IH. intros. apply Hf. by right.
    + apply runs_bind_Panic, IH. intros. apply Hf. by right.
  - by apply runs_bind_Err.
  - by apply runs_bind_Panic.
Qed.
End healthy.

(** ** Integrity of the tables *)

(** The primary keys, unique constraints and foreign keys of the schema. *)
Record db_wf (d : Db) : Prop := {
  wf_ids : NoDup (m_credential_id <$> metadata d);
  wf_slots : NoDup ((fun k => (k_credential_id k, k_slot_kind k)) <$> keyslots d);
  wf_slot_ids : NoDup (k_keyslot_id <$> keyslots d);
  wf_slot_next : Forall (fun k => k_keyslot_id k < next_keyslot_id d) (keyslots d);
  wf_slot_fk : Forall (fun k => k_credential_id k ∈ m_credential_id <$> metadata d) (keyslots d);
  wf_tokens : NoDup (t_keyslot_id <$> tokens d);
  wf_token_fk : Forall (fun t => t_keyslot_id t ∈ k_keyslot_id <$> keyslots d) (tokens d) }.

Lemma db_wf_empty : db_wf empty_db.
Proof. split; simpl; constructor. Qed.

Lemma filter_true {A} (l : list A) : List.filter (fun _ => true) l = l.
Proof. induction l; simpl; congruence. Qed.

Lemma filter_all_true {A} (p : A -> bool) l : Forall (fun x => p x = true) l -> List.filter p l = l.
Proof. induction 1 as [|x l Hx _ IH]; simpl; [done|]. by rewrite Hx, IH. Qed.

Lemma filter_all_false {A} (p : A -> bool) l : Forall (fun x => p x = false) l -> List.filter p l = [].
Proof. induction 1 as [|x l Hx _ IH]; simpl; [done|]. by rewrite Hx, IH. Qed.

Lemma elem_of_filterb {A} (p : A -> bool) l x : x ∈ List.filter p l <-> x ∈ l /\ p x = true.
Proof. rewrite !list_elem_of_In. apply filter_In. Qed.

Lemma Forall_filterb {A} (P : A -> Prop) p l : Forall P l -> Forall P (List.filter p l).
Proof. rewrite !Forall_forall. intros H x [? ?]%elem_of_filterb. auto. Qed.

Lemma NoDup_fmap_filterb {A B} (f : A -> B) p l : NoDup (f <$> l) -> NoDup (f <$> List.filter p l).
Proof.
  induction l as [|x l IH]; simpl; [done|]. intros [Hn Hd]%NoDup_cons.
  destruct (p x); simpl; [|auto]. apply NoDup_cons. split; [|auto].
  intros (y & Hy & Hin)%list_elem_of_fmap. apply Hn, list_elem_of_fmap. exists y.
  split; [done|]. by apply elem_of_filterb in Hin as [? ?].
Qed.

Lemma db_wf_delete p d : db_wf d -> db_wf (delete_metadata p d).
Proof.
  intros []. unfold delete_metadata. split; simpl;
    try by (apply NoDup_fmap_filterb || apply Forall_filterb).
  - apply Forall_forall. intros k [Hk Hg]%elem_of_filterb. bools.
    rewrite Forall_forall in wf_slot_fk0. destruct (proj1 (list_elem_of_fmap _ _ _) (wf_slot_fk0 k Hk))
      as (m & Hm & Hin). rewrite Hm. apply list_elem_of_fmap_2, elem_of_filterb. split; [done|].
    destruct (p m) eqn:Hp; [|done]. destruct Hg. rewrite Hm.
    apply list_elem_of_fmap_2, elem_of_filterb. done.
  - apply Forall_forall. intros t [Ht Hg]%elem_of_filterb. bools.
    rewrite Forall_forall in wf_token_fk0. destruct (proj1 (list_elem_of_fmap _ _ _) (wf_token_fk0 t Ht))
      as (k & Hk & Hin). rewrite Hk. apply list_elem_of_fmap_2, elem_of_filterb. split; [done|].
    destruct (bool_decide _) eqn:Hp; [|done]. destruct Hg. rewrite Hk.
    apply list_elem_of_fmap_2, elem_of_filterb. done.
Qed.

(** Clearing the metadata clears every table of credentials. *)
Lemma delete_all d : db_wf d -> delete_metadata (fun _ => true) d =
  set_tokens [] (set_keyslots [] (next_keyslot_id d) (set_metadata [] d)).
Proof.
  intros []. unfold delete_metadata. rewrite filter_true. f_equal; [|f_equal; [|f_equal]].
  - apply filter_all_false. eapply Forall_impl; [exact wf_token_fk0|]. intros t Ht. simpl.
    apply negb_false_iff, bool_decide_eq_true. rewrite (filter_all_true _ (keyslots d)); [done|].
    eapply Forall_impl; [exact wf_slot_fk0|]. intros k Hk. by apply bool_decide_eq_true.
  - apply filter_all_false. eapply Forall_impl; [exact wf_slot_fk0|]. intros k Hk. simpl.
    by apply negb_false_iff, bool_decide_eq_true.
  - apply filter_all_false. apply Forall_forall. done.
Qed.

Lemma fmap_update_rows {A B} (g : A -> B) p f l :
  (forall x, g (f x) = g x) -> g <$> update_rows p f l = g <$> l.
Proof.
  intros Hg. unfold update_rows. induction l as [|x l IH]; simpl; [done|]. f_equal; [|apply IH].
  destruct (p x); [apply Hg|done].
Qed.

Lemma Forall_update_rows {A} (P : A -> Prop) p f l :
  (forall x, P x -> P (f x)) -> Forall P l -> Forall P (update_rows p f l).
Proof. intros Hf. unfold update_rows. induction 1; simpl; constructor; [destruct (p x)|]; auto. Qed.

Lemma db_wf_metadata p f d : (forall m, m_credential_id (f m) = m_credential_id m) ->
  db_wf d -> db_wf (set_metadata (update_rows p f (metadata d)) d).
Proof. intros Hf []. split; simpl; rewrite ?fmap_update_rows by done; done. Qed.

Lemma db_wf_keyslots p f d :
  (forall k, k_credential_id (f k) = k_credential_id k /\ k_slot_kind (f k) = k_slot_kind k /\
             k_keyslot_id (f k) = k_keyslot_id k) ->
  db_wf d -> db_wf (set_keyslots (update_rows p f (keyslots d)) (next_keyslot_id d) d).
Proof.
  intros Hf []. split; simpl; try done.
  - rewrite fmap_update_rows; [done|]. intros k. by destruct (Hf k) as (-> & -> & _).
  - rewrite fmap_update_rows; [done|]. intros k. apply Hf.
  - apply Forall_update_rows; [|done]. intros k. by destruct (Hf k) as (_ & _ & ->).
  - apply Forall_update_rows; [|done]. intros k. by destruct (Hf k) as (-> & _ & _).
  - rewrite fmap_update_rows; [done|]. intros k. apply Hf.
Qed.

Lemma db_wf_tokens p f d : (forall t, t_keyslot_id (f t) = t_keyslot_id t) ->
  db_wf d -> db_wf (set_tokens (update_rows p f (tokens d)) d).
Proof.
  intros Hf []. split; simpl; rewrite ?fmap_update_rows by done; try done.
  apply Forall_update_rows; [|done]. intros t. by rewrite Hf.
Qed.

(** The tables of two databases are the same. *)
Definition same_tables (d d' : Db) : Prop :=
  metadata d = metadata d' /\ keyslots d = keyslots d' /\ next_keyslot_id d = next_keyslot_id d' /\
  tokens d = tokens d' /\ pin_row d = pin_row d' /\ daemon_config d = daemon_config d'.

Definition wf_rel : relation World := inv_rel (fun w => db_wf (w_db w)).

#[export] Instance wf_rel_preorder : PreOrder wf_rel.
Proof. apply inv_rel_preorder. Qed.

Lemma db_wf_same d d' :
  metadata d = metadata d' -> keyslots d = keyslots d' -> next_keyslot_id d = next_keyslot_id d' ->
  tokens d = tokens d' -> db_wf d -> db_wf d'.
Proof. intros E1 E2 E3 E4 []. split; rewrite <- ?E1, <- ?E2, <- ?E3, <- ?E4; done. Qed.

Lemma wf_update f : (forall d, db_wf d -> db_wf (f d)) -> keeps wf_rel (db_update f).
Proof. intros Hf w Hw. by apply Hf. Qed.

Lemma wf_next {E} : keeps wf_rel (next : M World E nat).
Proof. by intros w Hw. Qed.

Lemma wf_db_get {A} (f : Db -> A) : keeps wf_rel (db_get f).
Proof. by intros w Hw. Qed.
#[export] Hint Resolve wf_next wf_db_get : keeps.

Ltac keeps_same :=
  apply wf_update; intros ?; apply db_wf_same; reflexivity.

Section integrity.
Context {pf : Platform} {cr : Crypto} {sc : StoreCodec}.

Lemma wf_io msg : keeps wf_rel (io msg).
Proof. unfold io. keeps_walk fail. Qed.

Lemma wf_open_database : keeps wf_rel open_database.
Proof. unfold open_database. keeps_walk ltac:(first [apply wf_io|keeps_same]). Qed.

Lemma wf_hmac_key : keeps wf_rel load_or_generate_hmac_key.
Proof. unfold load_or_generate_hmac_key. keeps_walk ltac:(keeps_same). Qed.

Lemma wf_committing {A} msg (m : M World string A) : keeps wf_rel m -> keeps wf_rel (committing msg m).
Proof.
  intros Hm w Hw. unfold committing.
  assert (keeps wf_rel (a ← m; _ ← io msg; mret a)) as H by (keeps_walk ltac:(first [exact Hm|apply wf_io])).
  specialize (H w Hw). destruct ((a ← m; _ ← io msg; mret a) w) as [[] w']; [done|..];
    (eapply db_wf_same; [..|exact Hw]; done).
Qed.

Lemma wf_insert_metadata row : keeps wf_rel (insert_metadata row).
Proof.
  intros w Hw. unfold insert_metadata, db_get, gets, mbind, M_bind. simpl.
  destruct (bool_decide _) eqn:Hb; [done|]. bools. destruct Hw. split; simpl; try done.
  - rewrite fmap_app. apply NoDup_app. split_and!; [done| |apply NoDup_singleton].
    intros x Hx ->%list_elem_of_singleton. done.
  - eapply Forall_impl; [exact wf_slot_fk0|]. intros k Hk. simpl. rewrite fmap_app. set_solver.
Qed.

Lemma not_is_slot id kind l k :
  existsb (is_slot id kind) l = false -> k ∈ l -> (k_credential_id k, k_slot_kind k) <> (id, kind).
Proof.
  intros He Hk [= <- <-]. apply not_true_iff_false in He. apply He, existsb_exists.
  exists k. split; [by apply list_elem_of_In|]. unfold is_slot. by rewrite !bool_decide_eq_true_2.
Qed.

Lemma wf_insert_keyslot msg row :
  (forall id, k_keyslot_id (row id) = id) -> keeps wf_rel (insert_keyslot msg row).
Proof.
  intros Hid w Hw. unfold insert_keyslot, db_get, gets, mbind, M_bind. simpl.
  destruct (_ || _) eqn:Hb; [done|]. bools. destruct Hw. split; simpl; try done.
  - rewrite fmap_app. apply NoDup_app. split_and!; [done| |apply NoDup_singleton].
    intros x (k & -> & Hk)%list_elem_of_fmap E%list_elem_of_singleton. revert E. by eapply not_is_slot.
  - rewrite fmap_app. apply NoDup_app. split_and!; [done| |apply NoDup_singleton].
    rewrite Forall_forall in wf_slot_next0.
    intros x (k & -> & Hk%wf_slot_next0)%list_elem_of_fmap E%list_elem_of_singleton.
    rewrite Hid in E. lia.
  - apply Forall_app. split; [|repeat constructor; rewrite Hid; lia].
    eapply Forall_impl; [exact wf_slot_next0|]. simpl. lia.
  - apply Forall_app. split; [done|]. by constructor.
  - eapply Forall_impl; [exact wf_token_fk0|]. intros t Ht. simpl. rewrite fmap_app. set_solver.
Qed.

Lemma wf_insert_token row : keeps wf_rel (insert_token row).
Proof.
  intros w Hw. unfold insert_token, db_get, gets, mbind, M_bind. simpl.
  destruct (_ || _) eqn:Hb; [done|]. bools. destruct Hw. split; simpl; try done.
  - rewrite fmap_app. apply NoDup_app. split_and!; [done| |apply NoDup_singleton].
    intros x Hx ->%list_elem_of_singleton. done.
  - apply Forall_app. split; [done|]. by constructor.
Qed.
End integrity.

#[export] Hint Resolve wf_io wf_open_database wf_hmac_key wf_insert_metadata wf_insert_token : keeps.

Ltac wf_walk :=
  keeps_walk ltac:(first
    [ keeps_same
    | apply wf_committing
    | apply wf_insert_keyslot; done
    | apply wf_update; intros ? ?; first
        [ by apply db_wf_delete | by apply db_wf_metadata
        | by apply db_wf_keyslots | by apply db_wf_tokens ] ]).

(** ** The operations of the store *)

Inductive StoreOp :=
| LoadCredentials (user_id : option Z)
| SaveCredentials (credentials : list StoredCtap2Credential)
| UpdateSignCount (credential_id : bytes) (sign_count : Z)
| UpdatePolicy (credential_id : bytes) (policy : StoredPcrPolicy)
| UpdateRecovery (credential_id new_private new_salt new_hash : bytes) (kdf : RecoveryKdf)
| DeleteCredential (credential_id : bytes)
| LoadClientPin
| SaveClientPin (state : StoredClientPinState)
| DeleteClientPin
| LoadDefaultPcrPolicy
| SaveDefaultPcrPolicy (indices : list Z)
| LoadDaemonPassphrase
| SaveDaemonPassphrase (salt hash : bytes) (kdf : RecoveryKdf).

Section ops.
Context {pf : Platform} {cr : Crypto} {sc : StoreCodec}.

Definition run_op (op : StoreOp) : M World string unit :=
  match op with
  | LoadCredentials u => _ ← load_ctap2_credentials u; mret tt
  | SaveCredentials cs => save_ctap2_credentials cs
  | UpdateSignCount id n => update_ctap2_sign_count id n
  | UpdatePolicy id p => update_ctap2_policy id p
  | UpdateRecovery id p s h k => update_recovery_slot id p s h k
  | DeleteCredential id => delete_ctap2_credential id
  | LoadClientPin => _ ← load_client_pin_state; mret tt
  | SaveClientPin st => save_client_pin_state st
  | DeleteClientPin => delete_client_pin_state
  | LoadDefaultPcrPolicy => _ ← load_default_pcr_policy; mret tt
  | SaveDefaultPcrPolicy l => save_default_pcr_policy l
  | LoadDaemonPassphrase => _ ← load_daemon_passphrase; mret tt
  | SaveDaemonPassphrase s h k => save_daemon_passphrase s h k
  end.

Definition run_ops (ops : list StoreOp) (w : World) : World := foldl (fun w op => (run_op op w).2) w ops.

Lemma wf_load_credentials u : keeps wf_rel (load_ctap2_credentials u).
Proof.
  unfold load_ctap2_credentials, load_row, check_integrity. wf_walk.
Qed.

Lemma wf_save_credential c : keeps wf_rel (save_credential c).
Proof. unfold save_credential, save_recovery. wf_walk. Qed.

Lemma wf_save_all cs : keeps wf_rel (save_all cs).
Proof. pose proof wf_save_credential. induction cs as [|c cs IH]; simpl; wf_walk. Qed.

Lemma wf_save_credentials cs : keeps wf_rel (save_ctap2_credentials cs).
Proof. unfold save_ctap2_credentials, transaction. pose proof wf_save_all. wf_walk. Qed.

Lemma wf_run_op op : keeps wf_rel (run_op op).
Proof.
  destruct op; simpl; [|apply wf_save_credentials|..].
  - pose proof wf_load_credentials. wf_walk.
  - unfold update_ctap2_sign_count. wf_walk.
  - unfold update_ctap2_policy. wf_walk.
  - unfold update_recovery_slot, transaction. wf_walk.
  - unfold delete_ctap2_credential. wf_walk.
  - unfold load_client_pin_state. wf_walk.
  - unfold save_client_pin_state. wf_walk.
  - unfold delete_client_pin_state. wf_walk.
  - unfold load_default_pcr_policy. wf_walk.
  - unfold save_default_pcr_policy. wf_walk.
  - unfold load_daemon_passphrase. wf_walk.
  - unfold save_daemon_passphrase. destruct kdf. wf_walk.
Qed.
End ops.

(** ** Keyslot ids *)

(** The same keyslot: a row keeps its id, its credential and its kind. *)
Definition same_slot (k k' : KeyslotRow) : Prop :=
  k_keyslot_id k = k_keyslot_id k' /\ k_credential_id k = k_credential_id k' /\ k_slot_kind k = k_slot_kind k'.

#[export] Instance same_slot_equiv : Equivalence same_slot.
Proof. unfold same_slot. split; [done|intros ??; naive_solver|intros ???; intuition congruence]. Qed.

(** Every id that was given out from [d] to [d'] is new, and the next one has only
    increased: a row of [d'] with an older id is a row of [d]. *)
Definition slots_grow (d d' : Db) : Prop :=
  next_keyslot_id d <= next_keyslot_id d' /\
  forall k', k' ∈ keyslots d' -> k_keyslot_id k' < next_keyslot_id d -> exists k, k ∈ keyslots d /\ same_slot k k'.

Definition fresh_rel : relation World := fun w w' => slots_grow (w_db w) (w_db w').

#[export] Instance fresh_rel_preorder : PreOrder fresh_rel.
Proof.
  split.
  - intros w. split; [done|]. intros k Hk _. by exists k.
  - intros w w1 w2 [H1 G1] [H2 G2]. split; [lia|]. intros k2 Hk Hlt.
    destruct (G2 k2 Hk) as (k1 & Hk1 & Hs1); [lia|]. destruct (G1 k1 Hk1) as (k & Hk0 & Hs).
    + destruct Hs1 as [-> _]. done.
    + exists k. split; [done|]. by transitivity k1.
Qed.

Lemma grow_same d d' : keyslots d = keyslots d' -> next_keyslot_id d = next_keyslot_id d' -> slots_grow d d'.
Proof. intros Hk Hn. split; [lia|]. rewrite <- Hk. intros k Hin _. by exists k. Qed.

Lemma grow_delete p d : slots_grow d (delete_metadata p d).
Proof. split; [done|]. intros k [Hk _]%elem_of_filterb _. by exists k. Qed.

Lemma grow_update_rows p f d : (forall k, same_slot k (f k)) ->
  slots_grow d (set_keyslots (update_rows p f (keyslots d)) (next_keyslot_id d) d).
Proof.
  intros Hf. split; [done|]. simpl. unfold update_rows. intros k (k0 & -> & Hk)%list_elem_of_fmap _.
  exists k0. split; [done|]. by destruct (p k0).
Qed.

Lemma fresh_update f : (forall d, slots_grow d (f d)) -> keeps fresh_rel (db_update f).
Proof. intros Hf w. apply Hf. Qed.

Lemma fresh_next {E} : keeps fresh_rel (next : M World E nat).
Proof. intros w. by apply grow_same. Qed.

Lemma fresh_db_get {A} (f : Db -> A) : keeps fresh_rel (db_get f).
Proof. intros w. by apply grow_same. Qed.
#[export] Hint Resolve fresh_next fresh_db_get : keeps.

Ltac fresh_same := apply fresh_update; intros ?; apply grow_same; reflexivity.

Section fresh.
Context {pf : Platform} {cr : Crypto} {sc : StoreCodec}.

Lemma fresh_io msg : keeps fresh_rel (io msg).
Proof. unfold io. keeps_walk fail. Qed.

Lemma fresh_open_database : keeps fresh_rel open_database.
Proof. unfold open_database. keeps_walk ltac:(first [apply fresh_io|fresh_same]). Qed.

Lemma fresh_hmac_key : keeps fresh_rel load_or_generate_hmac_key.
Proof. unfold load_or_generate_hmac_key. keeps_walk ltac:(fresh_same). Qed.

Lemma fresh_committing {A} msg (m : M World string A) : keeps fresh_rel m -> keeps fresh_rel (committing msg m).
Proof.
  intros Hm w. unfold committing.
  assert (keeps fresh_rel (a ← m; _ ← io msg; mret a)) as H by (keeps_walk ltac:(first [exact Hm|apply fresh_io])).
  specialize (H w). destruct ((a ← m; _ ← io msg; mret a) w) as [[] w']; [exact H|by apply grow_same..].
Qed.

Lemma fresh_insert_metadata row : keeps fresh_rel (insert_metadata row).
Proof. unfold insert_metadata. keeps_walk ltac:(fresh_same). Qed.

Lemma fresh_insert_token row : keeps fresh_rel (insert_token row).
Proof. unfold insert_token. keeps_walk ltac:(fresh_same). Qed.

(** A new row has the next id. *)
Lemma fresh_insert_keyslot msg row :
  (forall id, k_keyslot_id (row id) = id) -> keeps fresh_rel (insert_keyslot msg row).
Proof.
  intros Hid w. unfold insert_keyslot, db_get, gets, mbind, M_bind. simpl.
  destruct (_ || _); [by apply grow_same|]. split; simpl; [lia|].
  intros k [Hk| ->%list_elem_of_singleton]%elem_of_app Hlt; [by exists k|]. rewrite Hid in Hlt. simpl in Hlt. lia.
Qed.
End fresh.

#[export] Hint Resolve fresh_io fresh_open_database fresh_hmac_key fresh_insert_metadata fresh_insert_token : keeps.

Ltac fresh_walk :=
  keeps_walk ltac:(first
    [ fresh_same
    | apply fresh_committing
    | apply fresh_insert_keyslot; done
    | apply fresh_update; intros ?; first [by apply grow_delete | by apply grow_update_rows] ]).

Section fresh_ops.
Context {pf : Platform} {cr : Crypto} {sc : StoreCodec}.

Lemma fresh_save_all cs : keeps fresh_rel (save_all cs).
Proof.
  induction cs as [|c cs IH]; simpl; [fresh_walk|]. unfold save_credential, save_recovery. fresh_walk.
Qed.

Lemma fresh_run_op op : keeps fresh_rel (run_op op).
Proof.
  pose proof fresh_save_all. destruct op; simpl.
  - unfold load_ctap2_credentials, load_row, check_integrity. fresh_walk.
  - unfold save_ctap2_credentials, transaction. fresh_walk.
  - unfold update_ctap2_sign_count. fresh_walk.
  - unfold update_ctap2_policy. fresh_walk.
  - unfold update_recovery_slot, transaction. fresh_walk.
  - unfold delete_ctap2_credential. fresh_walk.
  - unfold load_client_pin_state. fresh_walk.
  - unfold save_client_pin_state. fresh_walk.
  - unfold delete_client_pin_state. fresh_walk.
  - unfold load_default_pcr_policy. fresh_walk.
  - unfold save_default_pcr_policy. fresh_walk.
  - unfold load_daemon_passphrase. fresh_walk.
  - unfold save_daemon_passphrase. destruct kdf. fresh_walk.
Qed.

Lemma wf_run_ops ops w : db_wf (w_db w) -> db_wf (w_db (run_ops ops w)).
Proof.
  revert w. induction ops as [|op ops IH]; intros w Hw; [done|]. apply IH, wf_run_op, Hw.
Qed.

Lemma fresh_run_ops ops w : fresh_rel w (run_ops ops w).
Proof.
  revert w. induction ops as [|op ops IH]; intros w; [reflexivity|].
  transitivity (run_op op w).2; [apply fresh_run_op|apply IH].
Qed.

(** Rows with the same id are one. *)
Lemma nodup_fmap_unique {A B} (f : A -> B) l x y : NoDup (f <$> l) -> x ∈ l -> y ∈ l -> f x = f y -> x = y.
Proof.
  intros Hd [i Hi]%list_elem_of_lookup [j Hj]%list_elem_of_lookup Hf.
  assert (i = j) as <-; [|congruence].
  eapply NoDup_lookup; [exact Hd|by rewrite list_lookup_fmap, Hi|rewrite list_lookup_fmap, Hj; simpl; by rewrite Hf].
Qed.

Lemma run_ops_app ops ops' w : run_ops (ops ++ ops') w = run_ops ops' (run_ops ops w).
Proof. apply foldl_app. Qed.

(** A save gives every row a new id. *)
Lemma save_fresh cs w w' : db_wf (w_db w) -> save_ctap2_credentials cs w = (Ok tt, w') ->
  forall k, k ∈ keyslots (w_db w') -> next_keyslot_id (w_db w) <= k_keyslot_id k.
Proof.
  intros Hwf H. unfold save_ctap2_credentials, transaction in H.
  apply bind_Ok in H as (? & w1 & H1 & H). apply bind_Ok in H as (? & w2 & H2 & H). unfold committing in H.
  match type of H with match ?m with _ => _ end = _ => destruct m as [[u|e|] w6] eqn:H3 end; [|done..].
  injection H as -> ->. apply bind_Ok in H3 as (? & w5 & H3 & H4).
  apply bind_Ok in H3 as (? & w3 & H3 & H5). apply bind_Ok in H5 as (? & w4 & H5 & H6).
  pose proof (keeps_run _ _ _ _ _ wf_open_database H1 Hwf) as Hwf1.
  pose proof (keeps_run _ _ _ _ _ (wf_io _) H2 Hwf1) as Hwf2.
  pose proof (keeps_run _ _ _ _ _ (wf_io _) H3 Hwf2) as Hwf3.
  pose proof (keeps_run _ _ _ _ _ fresh_open_database H1) as [G1 _].
  pose proof (keeps_run _ _ _ _ _ (fresh_io _) H2) as [G2 _].
  pose proof (keeps_run _ _ _ _ _ (fresh_io _) H3) as [G3 _].
  apply modify_Ok in H5 as ->. pose proof (keeps_run _ _ _ _ _ (fresh_save_all cs) H6) as [G4 Hold].
  assert (keeps fresh_rel (_ ← io "committing credential store transaction"; mret x1)) as Hc by fresh_walk.
  pose proof (keeps_run _ _ _ _ _ Hc H4) as [G5 Hsame].
  intros k Hk. destruct (Z.le_gt_cases (next_keyslot_id (w_db w)) (k_keyslot_id k)) as [?|Hlt]; [done|exfalso].
  rewrite (delete_all _ Hwf3) in Hold, G4. simpl in *.
  destruct (Hsame k Hk) as (k1 & Hk1 & Hid & _); [lia|].
  destruct (Hold k1 Hk1) as (k0 & Hk0 & _); [lia|]. by apply elem_of_nil in Hk0.
Qed.
End fresh_ops.

(** C25. From an empty store, any sequence of store operations, failing or not,
    keeps the constraints of the schema: credential ids are unique, a credential
    has at most one keyslot of a kind, every keyslot belongs to a credential and
    every token to a keyslot. And keyslot ids are never given out twice: when a
    row after some operations has the id of a row after more of them, it is the
    same slot of the same credential and was there all the time between, and no
    row that a successful save writes has an id that any row before it had. *)
Theorem store_keeps_constraints {pf : Platform} {cr : Crypto} {sc : StoreCodec} w :
  w_db w = empty_db ->
  let slots ops := keyslots (w_db (run_ops ops w)) in
  (forall ops, db_wf (w_db (run_ops ops w))) /\
  (forall before between after k k', k ∈ slots before -> k' ∈ slots (before ++ between ++ after) ->
     k_keyslot_id k = k_keyslot_id k' ->
     same_slot k k' /\ exists k1, k1 ∈ slots (before ++ between) /\ same_slot k k1) /\
  (forall before between cs w' k k',
     save_ctap2_credentials cs (run_ops (before ++ between) w) = (Ok tt, w') ->
     k ∈ slots before -> k' ∈ keyslots (w_db w') -> k_keyslot_id k <> k_keyslot_id k').
Proof.
  intros Hw slots. assert (forall ops, db_wf (w_db (run_ops ops w))) as Hwf
    by (intros ops; apply wf_run_ops; rewrite Hw; apply db_wf_empty).
  assert (forall ops k, k ∈ slots ops -> k_keyslot_id k < next_keyslot_id (w_db (run_ops ops w))) as Hold.
  { intros ops k Hk. pose proof (wf_slot_next _ (Hwf ops)) as Hn. rewrite Forall_forall in Hn. by apply Hn. }
  split_and!; [done|..].
  - intros before between after k k' Hk Hk' Hid.
    pose proof (fresh_run_ops between (run_ops before w)) as [H1 G1].
    pose proof (fresh_run_ops after (run_ops (before ++ between) w)) as [H2 G2].
    unfold slots in Hk'. rewrite app_assoc, run_ops_app in Hk'.
    rewrite <- run_ops_app in H1, G1. pose proof (Hold before k Hk) as Hlt.
    destruct (G2 k' Hk') as (k1 & Hk1 & Hs1); [lia|].
    destruct (G1 k1 Hk1) as (k0 & Hk0 & Hs0); [destruct Hs1; lia|].
    assert (k0 = k) as ->.
    { apply (nodup_fmap_unique k_keyslot_id _ k0 k (wf_slot_ids _ (Hwf before))); [done..|]. destruct Hs0, Hs1. congruence. }
    split; [by transitivity k1|]. by exists k1.
  - intros before between cs w' k k' H Hk Hk'.
    pose proof (save_fresh cs _ w' (Hwf (before ++ between)) H k' Hk') as Hnew.
    pose proof (fresh_run_ops between (run_ops before w)) as [H1 _]. rewrite <- run_ops_app in H1.
    pose proof (Hold before k Hk). lia.
Qed.

Lemma committing_atomic {pf : Platform} {A} msg (m : M World string A) w :
  let '(r, w') := committing msg m w in
  match r with Ok _ => True | _ => same_tables (w_db w) (w_db w') end.
Proof.
  unfold committing. destruct ((a ← m; _ ← io msg; mret a) w) as [[] w']; done.
Qed.

Lemma opened_tables {pf : Platform} w w' r :
  open_database w = (r, w') -> same_tables (w_db w) (w_db w').
Proof.
  unfold open_database, io, mbind, M_bind, next. destruct (db_fault _); simpl; by intros [= <- <-].
Qed.

Lemma io_db {pf : Platform} msg w w' r : io msg w = (r, w') -> w_db w' = w_db w.
Proof. unfold io, mbind, M_bind, next. destruct (db_fault _); by intros [= <- <-]. Qed.

Lemma transaction_atomic {pf : Platform} {A} b c (m : M World string A) w :
  let '(r, w') := (_ ← open_database; transaction b c m) w in
  match r with Ok _ => True | _ => same_tables (w_db w) (w_db w') end.
Proof.
  unfold mbind, M_bind, transaction. destruct (open_database w) as [r1 w1] eqn:E1.
  apply opened_tables in E1 as Ht. destruct r1; [|done..]. simpl. unfold mbind, M_bind.
  destruct (io b w1) as [r2 w2] eqn:E2. apply io_db in E2. destruct r2; [|by rewrite E2..].
  pose proof (committing_atomic c m w2) as Hc. destruct (committing c m w2) as [[] w3]; [done|..];
    unfold same_tables in *; rewrite E2 in Hc; naive_solver congruence.
Qed.

(** C26. Replacing the stored credentials and changing a recovery slot are atomic:
    when they end in an error or a panic, at any point, every table is as it was. *)
Theorem store_transactions_atomic {pf : Platform} {cr : Crypto} {sc : StoreCodec} w :
  (forall credentials,
     let '(r, w') := save_ctap2_credentials credentials w in
     match r with Ok _ => True | _ => same_tables (w_db w) (w_db w') end) /\
  (forall id new_private new_salt new_hash kdf,
     let '(r, w') := update_recovery_slot id new_private new_salt new_hash kdf w in
     match r with Ok _ => True | _ => same_tables (w_db w) (w_db w') end).
Proof.
  split; intros.
  - unfold save_ctap2_credentials. apply transaction_atomic.
  - unfold update_recovery_slot. apply transaction_atomic.
Qed.

End StoreProps.
