(* ===== verification/StoreRoundtrip.v ===== *)
(** What a load returns after a save: every credential comes back, in the order
    of the query, with its integrity code. *)
From Stdlib Require Import ZArith Lia String.
From stdpp Require Import base list option strings gmap.
From S2P Require Import Prelude Schema Platform Store StoreProps.

#[local] Open Scope Z_scope.

Module StoreRoundtrip.
Import Store StoreProps.

Section roundtrip.
Context {pf : Platform} {hp : Healthy} {cr : Crypto} {sc : StoreCodec} {sl : StoreCodecLaws}.

(** ** Credentials that can be stored *)

Definition key_ok (k : StoredTpmKey) : Prop :=
  p256_valid (4 :: public_key_x k ++ public_key_y k) = true /\
  length (public_key_x k) = 32%nat /\ length (public_key_y k) = 32%nat.

Definition recovery_ok (r : StoredRecoverySlot) : Prop :=
  key_ok (slot_key r) /\ salt_ok (b64_encode (passphrase_salt r)) = true /\
  output_ok (passphrase_hash r) = true.

(** The keys are points of the curve, the numbers are [u32]s, the policy is of
    the current version. *)
Record storable (c : StoredCtap2Credential) : Prop := {
  st_key : key_ok (s_key c);
  st_recovery : forall r, s_recovery c = Some r -> recovery_ok r;
  st_policy : forall p, s_policy c = Some p -> policy_version p = current_version;
  st_count : 0 <= s_sign_count c < 2 ^ 32;
  st_owner : forall u, s_user_id c = Some u -> 0 <= u < 2 ^ 32 }.

Definition pem (k : StoredTpmKey) : string := pem_encode (4 :: public_key_x k ++ public_key_y k).

Definition phc (r : StoredRecoverySlot) : string :=
  let '(Argon2id m t p) := kdf r in
  phc_print {| ph_algorithm := "argon2id"; ph_version := Some 19;
               ph_params := [("m"%string, m); ("t"%string, t); ("p"%string, p)];
               ph_salt := Some (b64_encode (passphrase_salt r)); ph_hash := Some (passphrase_hash r) |}.

(** ** The rows of a credential *)

Definition metadata_of (key : bytes) (c : StoredCtap2Credential) : MetadataRow :=
  metadata_row c (Some (compute_credential_mac key c)).
Definition primary_of (c : StoredCtap2Credential) (n : Z) : KeyslotRow := primary_row c (pem (s_key c)) n.
Definition recovery_of (c : StoredCtap2Credential) (r : StoredRecoverySlot) (n : Z) : KeyslotRow :=
  recovery_row c r (pem (slot_key r)) n.
Definition token_of (r : StoredRecoverySlot) (n : Z) : TokenRow :=
  {| t_keyslot_id := n; t_label := label r; t_kdf_params := phc r |}.

Definition add_credential (key : bytes) (c : StoredCtap2Credential) (d : Db) : Db :=
  let n := next_keyslot_id d in
  let d1 := set_metadata (metadata d ++ [metadata_of key c]) d in
  let d2 := set_keyslots (keyslots d ++ [primary_of c n]) (n + 1) d1 in
  match s_recovery c with
  | None => d2
  | Some r =>
      set_tokens (tokens d ++ [token_of r (n + 1)])
        (set_keyslots ((keyslots d ++ [primary_of c n]) ++ [recovery_of c r (n + 1)]) (n + 1 + 1) d2)
  end.

(** ** Saving *)

Lemma runs_insert_metadata d row :
  m_credential_id row ∉ m_credential_id <$> metadata d ->
  runs (insert_metadata row) d (Ok tt) (set_metadata (metadata d ++ [row]) d).
Proof.
  intros Hn. eapply runs_bind; [apply runs_db_get|]. rewrite bool_decide_eq_false_2 by done.
  apply (runs_db_update (fun d => set_metadata (metadata d ++ [row]) d)).
Qed.

Lemma runs_insert_keyslot d msg row :
  let r := row (next_keyslot_id d) in
  (forall k, k ∈ keyslots d -> (k_credential_id k, k_slot_kind k) <> (k_credential_id r, k_slot_kind r)) ->
  k_credential_id r ∈ m_credential_id <$> metadata d ->
  runs (insert_keyslot msg row) d (Ok (next_keyslot_id d))
    (set_keyslots (keyslots d ++ [r]) (next_keyslot_id d + 1) d).
Proof.
  intros r Hu Hfk. do 3 (eapply runs_bind; [apply runs_db_get|]). fold r. cbv zeta.
  assert (existsb (is_slot (k_credential_id r) (k_slot_kind r)) (keyslots d) = false) as ->.
  { apply not_true_iff_false. intros (k & Hk & Hs)%existsb_exists. apply list_elem_of_In in Hk.
    unfold is_slot in Hs. bools. by apply (Hu k); [|congruence]. }
  rewrite bool_decide_eq_true_2 by done. cbn [orb negb].
  eapply runs_bind; [|apply runs_ret].
  apply (runs_db_update (fun d' => set_keyslots (keyslots d' ++ [r]) (next_keyslot_id d + 1) d')).
Qed.

Lemma runs_insert_token d row :
  t_keyslot_id row ∉ t_keyslot_id <$> tokens d -> t_keyslot_id row ∈ k_keyslot_id <$> keyslots d ->
  runs (insert_token row) d (Ok tt) (set_tokens (tokens d ++ [row]) d).
Proof.
  intros Hn Hfk. do 2 (eapply runs_bind; [apply runs_db_get|]).
  rewrite bool_decide_eq_false_2, bool_decide_eq_true_2 by done.
  apply (runs_db_update (fun d => set_tokens (tokens d ++ [row]) d)).
Qed.

Lemma sec1_encode_ok k : key_ok k -> sec1_encode_point (public_key_x k) (public_key_y k) = Ok (pem k).
Proof. intros (Hv & _). unfold sec1_encode_point. by rewrite Hv. Qed.

Lemma kdf_params_ok r : recovery_ok r ->
  kdf_params_to_string (kdf r) (passphrase_salt r) (passphrase_hash r) = Ok (phc r).
Proof.
  intros (_ & Hs & Ho). unfold kdf_params_to_string, phc. destruct (kdf r). by rewrite Hs, Ho.
Qed.

(** A token id below the next keyslot id is fresh. *)
Lemma token_ids_below d : db_wf d -> Forall (fun t => t_keyslot_id t < next_keyslot_id d) (tokens d).
Proof.
  intros []. eapply Forall_impl; [exact wf_token_fk0|]. intros t (k & -> & Hk)%list_elem_of_fmap.
  rewrite Forall_forall in wf_slot_next0. by apply wf_slot_next0.
Qed.

Lemma fresh_cid d id k : db_wf d -> id ∉ m_credential_id <$> metadata d -> k ∈ keyslots d ->
  k_credential_id k <> id.
Proof. intros [] Hn Hk <-. rewrite Forall_forall in wf_slot_fk0. by apply Hn, wf_slot_fk0. Qed.

Lemma runs_save_credential d key c :
  db_wf d -> hmac_key_file d = Some key -> length key = 32%nat -> storable c ->
  s_id c ∉ m_credential_id <$> metadata d ->
  runs (save_credential c) d (Ok tt) (add_credential key c d).
Proof.
  intros Hwf Hk Hl Hst Hn. unfold save_credential, add_credential.
  eapply runs_bind; [apply runs_attempt; [|by apply runs_hmac_key]; done|]. cbv zeta iota.
  eapply runs_bind; [apply runs_io|]. eapply runs_bind; [by apply runs_insert_metadata|].
  rewrite sec1_encode_ok by apply Hst. eapply runs_bind; [apply runs_lift|].
  eapply runs_bind; [apply runs_io|]. eapply runs_bind; [apply runs_insert_keyslot|].
  { simpl. intros k Hin [= ? ?]. by eapply (fresh_cid d). }
  { simpl. rewrite fmap_app. set_solver. }
  destruct (s_recovery c) as [r|] eqn:Hr; [|apply runs_ret]. pose proof (st_recovery c Hst r Hr) as Hro.
  unfold save_recovery. rewrite sec1_encode_ok by apply Hro. eapply runs_bind; [apply runs_lift|].
  eapply runs_bind; [apply runs_io|]. eapply runs_bind; [apply runs_insert_keyslot|].
  { simpl. intros k [Hin| ->%list_elem_of_singleton]%elem_of_app [= ? ?]. by eapply (fresh_cid d). }
  { simpl. rewrite fmap_app. set_solver. }
  rewrite kdf_params_ok by done. eapply runs_bind; [apply runs_lift|].
  eapply runs_bind; [apply runs_io|]. refine (runs_insert_token _ (token_of r (next_keyslot_id d + 1)) _ _); simpl.
  - intros (t & Ht & Hin)%list_elem_of_fmap. pose proof (token_ids_below d Hwf) as Hb.
    rewrite Forall_forall in Hb. specialize (Hb t Hin). lia.
  - rewrite !fmap_app. set_solver.
Qed.

(** ** The tables after a save *)

Lemma wf_add_credential key c d :
  db_wf d -> hmac_key_file d = Some key -> length key = 32%nat -> storable c ->
  s_id c ∉ m_credential_id <$> metadata d -> db_wf (add_credential key c d).
Proof.
  intros Hwf Hk Hl Hst Hn. pose (w := {| w_tick := 0; w_db := d; w_handles := [] |}).
  destruct (runs_det _ _ _ _ w (runs_save_credential d key c Hwf Hk Hl Hst Hn) eq_refl) as [_ <-].
  by apply wf_save_credential.
Qed.

(** The row of the query for a credential whose primary keyslot has the id [n]. *)
Definition row_of (key : bytes) (c : StoredCtap2Credential) (n : Z) : Joined :=
  {| j_m := metadata_of key c; j_p := primary_of c n;
     j_r := (fun r => recovery_of c r (n + 1)) <$> s_recovery c;
     j_t := (fun r => token_of r (n + 1)) <$> s_recovery c |}.

Lemma is_slot_iff id kind k :
  is_slot id kind k = true <-> k_credential_id k = id /\ k_slot_kind k = kind.
Proof. unfold is_slot. by rewrite andb_true_iff, !bool_decide_eq_true. Qed.

Lemma is_slot_refl id kind k :
  k_credential_id k = id -> k_slot_kind k = kind -> is_slot id kind k = true.
Proof. intros. by apply is_slot_iff. Qed.

Lemma is_slot_other id kind k :
  k_credential_id k <> id \/ k_slot_kind k <> kind -> is_slot id kind k = false.
Proof. intros. apply not_true_iff_false. rewrite is_slot_iff. tauto. Qed.

(** Rows with the id of another credential are not selected. *)
Lemma slots_add_old key c d id kind :
  id <> s_id c ->
  List.filter (is_slot id kind) (keyslots (add_credential key c d)) =
  List.filter (is_slot id kind) (keyslots d).
Proof.
  intros Hne. unfold add_credential. destruct (s_recovery c); simpl; rewrite !List.filter_app; simpl;
    rewrite !is_slot_other by (left; simpl; congruence); by rewrite ?app_nil_r.
Qed.

Lemma slots_none d id kind :
  db_wf d -> id ∉ m_credential_id <$> metadata d -> List.filter (is_slot id kind) (keyslots d) = [].
Proof.
  intros Hwf Hn. apply filter_all_false, Forall_forall. intros k Hk. apply is_slot_other. left.
  by eapply fresh_cid.
Qed.

Lemma tokens_add_old key c d i :
  i < next_keyslot_id d ->
  List.filter (fun t => t_keyslot_id t =? i) (tokens (add_credential key c d)) =
  List.filter (fun t => t_keyslot_id t =? i) (tokens d).
Proof.
  intros Hi. unfold add_credential. destruct (s_recovery c); simpl; [|done].
  rewrite List.filter_app. simpl. destruct (_ =? i) eqn:E; bools; [lia|]. by rewrite app_nil_r.
Qed.

Lemma left_rows_Some {A} (P : A -> Prop) l :
  Forall P l -> Forall (fun o => forall x, o = Some x -> P x) (left_rows l).
Proof.
  intros Hl. unfold left_rows. destruct Hl as [|x l Hx Hl]; [by repeat constructor|].
  apply Forall_fmap. constructor; simpl; [naive_solver|]. eapply Forall_impl; [exact Hl|]. naive_solver.
Qed.

(** The query on a credential that was there before. *)
Lemma joined_add_old key c d m :
  db_wf d -> s_id c ∉ m_credential_id <$> metadata d -> m ∈ metadata d ->
  joined_of (add_credential key c d) m = joined_of d m.
Proof.
  intros Hwf Hn Hm. assert (m_credential_id m <> s_id c) as Hne.
  { intros E. apply Hn. rewrite <- E. by apply list_elem_of_fmap_2. }
  unfold joined_of. rewrite !slots_add_old by done.
  apply list_bind_ext; [|done]. intros p. apply Forall_bind_ext.
  eapply Forall_impl; [apply (left_rows_Some (fun r => k_keyslot_id r < next_keyslot_id d)),
    Forall_filterb, Hwf|].
  intros [r|] Hr; simpl; [|done]. by rewrite tokens_add_old by eauto.
Qed.

Lemma tokens_none d i : db_wf d -> next_keyslot_id d <= i ->
  List.filter (fun t => t_keyslot_id t =? i) (tokens d) = [].
Proof.
  intros Hwf Hi. apply filter_all_false. eapply Forall_impl; [by apply token_ids_below|].
  simpl. intros t ?. apply Z.eqb_neq. lia.
Qed.

(** The query on the credential just added. *)
Lemma joined_add_new key c d :
  db_wf d -> s_id c ∉ m_credential_id <$> metadata d ->
  joined_of (add_credential key c d) (metadata_of key c) = [row_of key c (next_keyslot_id d)].
Proof.
  intros Hwf Hn. unfold joined_of, add_credential, row_of.
  destruct (s_recovery c) as [r|]; simpl; rewrite !List.filter_app, !slots_none by done; simpl;
    rewrite (is_slot_refl _ Primary) by done; rewrite (is_slot_other _ Recovery) by (right; done).
  - rewrite (is_slot_other _ Primary), is_slot_refl by (done || by right). simpl.
    rewrite List.filter_app, tokens_none by (done || simpl; lia). simpl. rewrite Z.eqb_refl. done.
  - done.
Qed.

(** ** What a row decodes to *)

Lemma key_from_blob k : key_ok k -> tpm_key_from_blob (tpm_key_to_blob k) (pem k) = Ok k.
Proof.
  intros (Hv & Hx & Hy). unfold tpm_key_from_blob, tpm_key_to_blob, sec1_decode_point, pem.
  rewrite blob_roundtrip. simpl. rewrite pem_roundtrip by done. by destruct k.
Qed.

Lemma kdf_params_roundtrip r :
  kdf_params_from_string (phc r) = Ok (passphrase_salt r, passphrase_hash r, kdf r).
Proof.
  unfold kdf_params_from_string, phc. destruct (kdf r) as [m t p]. rewrite phc_roundtrip. simpl.
  by rewrite b64_roundtrip.
Qed.

Lemma try_u32_ok z : 0 <= z < 2 ^ 32 -> try_u32 z = Some z.
Proof. intros. unfold try_u32. destruct (_ && _) eqn:E; [done|]. bools. lia. Qed.

(** The owner of a credential is known to the load: it is stored, or the load is
    not on behalf of a user. *)
Definition owner_known (user_id : option Z) (c : StoredCtap2Credential) : Prop :=
  user_id = None \/ is_Some (s_user_id c).

Lemma decode_row_of user_id key c n :
  storable c -> owner_known user_id c ->
  decode_row user_id (row_of key c n) =
  Ok (set_integrity_mac (Some (compute_credential_mac key c)) c).
Proof.
  intros Hst Ho. pose proof Hst as [Hk Hr Hp Hn Hu]. unfold decode_row. simpl.
  rewrite key_from_blob by done. simpl.
  assert (recovery_of_row (row_of key c n) = Ok (s_recovery c)) as ->.
  { unfold recovery_of_row, row_of. simpl. destruct (s_recovery c) as [r|]; [|done]. simpl.
    rewrite kdf_params_roundtrip. simpl. rewrite key_from_blob by (by apply Hr). by destruct r. }
  simpl. assert (owner_of_row user_id (s_user_id c) = Ok (s_user_id c)) as ->.
  { unfold owner_of_row. destruct (s_user_id c) as [u|] eqn:E; [by rewrite try_u32_ok by eauto|].
    destruct Ho as [->|[? ?]]; [done|congruence]. }
  simpl. rewrite try_u32_ok by done. unfold set_integrity_mac. destruct c; simpl in *. f_equal. f_equal.
  - by destruct s_discoverable.
  - unfold policy_of_row. simpl. destruct s_policy as [p|]; [|done]. simpl. f_equal.
    specialize (Hp p eq_refl). destruct p; simpl in *. by rewrite Hp.
Qed.

(** ** The whole store *)

(** The tables hold exactly the credentials [cs], in this order. *)
Definition represents (key : bytes) (d : Db) (cs : list StoredCtap2Credential) : Prop :=
  Forall2 (fun m c => m = metadata_of key c /\ exists n, joined_of d m = [row_of key c n]) (metadata d) cs.

Lemma represents_ids key d cs :
  represents key d cs -> m_credential_id <$> metadata d = s_id <$> cs.
Proof. unfold represents. induction 1 as [|m c ms cs [-> _] _ IH]; simpl; [done|]. by f_equal. Qed.

Lemma represents_add key d cs c :
  db_wf d -> represents key d cs -> s_id c ∉ s_id <$> cs ->
  represents key (add_credential key c d) (cs ++ [c]).
Proof.
  intros Hwf Hr Hn. rewrite <- (represents_ids key d cs Hr) in Hn. unfold represents.
  assert (metadata (add_credential key c d) = metadata d ++ [metadata_of key c]) as ->.
  { unfold add_credential. by destruct (s_recovery c). }
  apply Forall2_app.
  - apply Forall2_same_length_lookup in Hr as [Hl Hr]. apply Forall2_same_length_lookup_2; [done|].
    intros i m c' Hm Hc. destruct (Hr i m c' Hm Hc) as [-> [n Hj]]. split; [done|]. exists n.
    rewrite joined_add_old; [done..|]. by eapply list_elem_of_lookup_2.
  - constructor; [|constructor]. split; [done|]. eexists. by apply joined_add_new.
Qed.

(** What a save leaves alone. *)
Definition same_rest (d d' : Db) : Prop :=
  db_exists d' = db_exists d /\ hmac_key_file d' = hmac_key_file d /\ pin_row d' = pin_row d /\
  daemon_config d' = daemon_config d.

Lemma same_rest_add key c d : same_rest d (add_credential key c d).
Proof. unfold add_credential. by destruct (s_recovery c). Qed.

Lemma runs_save_all key cs0 cs d :
  db_wf d -> hmac_key_file d = Some key -> length key = 32%nat -> Forall storable cs ->
  NoDup (s_id <$> cs0 ++ cs) -> represents key d cs0 ->
  exists d', runs (save_all cs) d (Ok tt) d' /\ same_rest d d' /\ represents key d' (cs0 ++ cs).
Proof.
  intros Hwf Hk Hl Hst. revert cs0 d Hwf Hk. induction Hst as [|c cs Hc Hst IH]; intros cs0 d Hwf Hk Hd Hr.
  { exists d. rewrite app_nil_r. split; [apply runs_ret|done]. }
  assert (s_id c ∉ s_id <$> cs0) as Hn.
  { rewrite fmap_app in Hd. apply NoDup_app in Hd as (_ & Hd & _). intros Hin. apply (Hd _ Hin). left. }
  assert (s_id c ∉ m_credential_id <$> metadata d) as Hn' by (by rewrite (represents_ids key d cs0)).
  destruct (IH (cs0 ++ [c]) (add_credential key c d)) as (d' & Hrun & Hrest & Hrep).
  - by apply wf_add_credential.
  - destruct (same_rest_add key c d) as (_ & -> & _). done.
  - by rewrite <- app_assoc.
  - by apply represents_add.
  - exists d'. split_and!.
    + simpl. eapply runs_bind; [by apply runs_save_credential|done].
    + destruct (same_rest_add key c d) as (? & ? & ? & ?), Hrest as (? & ? & ? & ?).
      repeat split; congruence.
    + by rewrite <- app_assoc in Hrep.
Qed.

Lemma set_exists_id d : db_exists d = true -> set_exists d = d.
Proof. destruct d; simpl. by intros ->. Qed.

Lemma runs_save key cs d :
  db_wf d -> hmac_key_file d = Some key -> length key = 32%nat -> Forall storable cs ->
  NoDup (s_id <$> cs) ->
  exists d', runs (save_ctap2_credentials cs) d (Ok tt) d' /\ same_rest (set_exists d) d' /\
    represents key d' cs.
Proof.
  intros Hwf Hk Hl Hst Hd. set (d1 := delete_metadata (fun _ => true) (set_exists d)).
  assert (db_wf (set_exists d)) as Hwf' by (eapply db_wf_same; [..|exact Hwf]; done).
  assert (represents key d1 []) as Hr1 by (unfold d1; rewrite delete_all by done; constructor).
  destruct (runs_save_all key [] cs d1) as (d' & Hrun & Hrest & Hrep); try done.
  { by apply db_wf_delete. }
  exists d'. split_and!; [|done|done]. unfold save_ctap2_credentials, transaction.
  eapply runs_bind; [apply runs_open_database|]. eapply runs_bind; [apply runs_io|].
  apply runs_committing. eapply runs_bind; [apply runs_io|].
  eapply runs_bind; [apply runs_db_update|]. exact Hrun.
Qed.

(** ** Loading *)

(** The record of a row, with its integrity code checked under [key]. *)
Definition row_spec (key : bytes) (user_id : option Z) (row : Joined) : res string StoredCtap2Credential :=
  stored ← decode_row user_id row;
  match s_integrity_mac stored with
  | Some mac => if mac_accepted key stored mac then Ok stored
                else Err "credential integrity check failed"%string
  | None => Ok stored
  end.

Lemma runs_load_row key user_id row d :
  hmac_key_file d = Some key -> length key = 32%nat ->
  runs (load_row user_id row) d (row_spec key user_id row) d.
Proof.
  intros Hk Hl. unfold load_row, row_spec. destruct (decode_row user_id row) as [c|e|].
  - eapply runs_bind; [apply runs_lift|]. unfold check_integrity. simpl.
    destruct (s_integrity_mac c) as [mac|]; [|apply runs_ret].
    eapply runs_bind; [apply runs_attempt; [|by apply runs_hmac_key]; done|]. simpl.
    destruct (mac_accepted key c mac); [apply runs_ret|apply runs_throw].
  - apply runs_bind_Err, runs_lift.
  - apply runs_bind_Panic, runs_lift.
Qed.

Lemma runs_load key user_id d :
  db_exists d = true -> hmac_key_file d = Some key -> length key = 32%nat ->
  runs (load_ctap2_credentials user_id) d (mapM (row_spec key user_id) (select_rows user_id d)) d.
Proof.
  intros He Hk Hl. unfold load_ctap2_credentials. eapply runs_bind; [apply runs_db_get|].
  rewrite He. simpl. eapply runs_bind; [apply runs_open_database|]. rewrite set_exists_id by done.
  eapply runs_bind; [apply runs_io|]. eapply runs_bind; [apply runs_db_get|].
  apply runs_mapM. intros row _. by apply runs_load_row.
Qed.

Definition visible_to (user_id : option Z) (c : StoredCtap2Credential) : bool :=
  match user_id, s_user_id c with
  | None, _ | _, None => true
  | Some u, Some v => v =? u
  end.

Definition credential_leb (a b : StoredCtap2Credential) : bool :=
  row_leb (s_rp_id a) (s_id a) (s_rp_id b) (s_id b).

(** What a load on behalf of [user_id] returns of the saved credentials [cs]. *)
Definition loaded (key : bytes) (user_id : option Z) (cs : list StoredCtap2Credential)
    : list StoredCtap2Credential :=
  (fun c => set_integrity_mac (Some (compute_credential_mac key c)) c)
    <$> sort_by credential_leb (List.filter (visible_to user_id) cs).

Lemma select_represents key user_id d cs :
  represents key d cs ->
  Forall2 (fun j c => exists n, j = row_of key c n) (select_rows user_id d)
    (sort_by credential_leb (List.filter (visible_to user_id) cs)).
Proof.
  intros Hr. unfold select_rows. apply sort_by_Forall2.
  { by intros j c j' c' [n ->] [n' ->]. }
  unfold represents in Hr. induction Hr as [|m c ms cs' [-> [n Hj]] _ IH]; simpl; [constructor|].
  change (visible user_id (metadata_of key c)) with (visible_to user_id c).
  destruct (visible_to user_id c); simpl; [|done]. rewrite Hj. constructor; eauto.
Qed.

Lemma row_spec_of key user_id c n :
  storable c -> owner_known user_id c ->
  row_spec key user_id (row_of key c n) =
  Ok (set_integrity_mac (Some (compute_credential_mac key c)) c).
Proof.
  intros Hst Ho. unfold row_spec. rewrite decode_row_of by done. simpl.
  unfold mac_accepted. rewrite bool_decide_eq_true_2; [done|]. by destruct c.
Qed.

Lemma runs_load_represented key user_id d cs :
  db_exists d = true -> hmac_key_file d = Some key -> length key = 32%nat ->
  represents key d cs -> Forall storable cs -> Forall (owner_known user_id) cs ->
  runs (load_ctap2_credentials user_id) d (Ok (loaded key user_id cs)) d.
Proof.
  intros He Hk Hl Hr Hst Ho. unfold loaded.
  rewrite <- (mapM_Forall2 _ (row_spec key user_id) _ _ _) with (2 := select_represents key user_id d cs Hr).
  - by apply runs_load.
  - intros j c [Hc _]%elem_of_sort_by%elem_of_filterb [n ->]. rewrite Forall_forall in Hst, Ho.
    apply row_spec_of; auto.
Qed.
End roundtrip.

(** Saving credentials and loading them again, on behalf of a user or not,
    gives back every credential the user may see, in the order of relying party
    and credential id, unchanged but for the integrity code, which is the one of
    the store's key. *)
Theorem save_load_roundtrip {pf : Platform} {hp : Healthy} {cr : Crypto} {sc : StoreCodec}
    {sl : StoreCodecLaws} key cs user_id w :
  db_wf (w_db w) -> hmac_key_file (w_db w) = Some key -> length key = 32%nat ->
  Forall storable cs -> NoDup (s_id <$> cs) -> Forall (owner_known user_id) cs ->
  exists w', save_ctap2_credentials cs w = (Ok tt, w') /\
    (load_ctap2_credentials user_id w').1 = Ok (loaded key user_id cs).
Proof.
  intros Hwf Hk Hl Hst Hd Ho.
  destruct (runs_save key cs (w_db w)) as (d' & Hs & (He & Hk' & _) & Hr); [done..|].
  destruct (Hs w eq_refl) as [t Hw]. eexists. split; [exact Hw|].
  eapply runs_det; [|done]. apply (runs_load_represented key user_id d' cs); try done.
  rewrite Hk'. exact Hk.
Qed.

End StoreRoundtrip.
