(* ===== verification/StoreUpdates.v ===== *)
(** What the updates of the store change: the signature counter, deletion, the
    client PIN, the daemon passphrase; and what the integrity codes bind. *)
From Stdlib Require Import ZArith Lia String.
From stdpp Require Import base list option strings gmap.
From S2P Require Import Prelude Schema Platform Store StoreProps StoreRoundtrip.

#[local] Open Scope Z_scope.

Module StoreUpdates.
Import Store StoreProps StoreRoundtrip.

(** ** Integrity codes *)

Lemma framed_inj a b r s :
  Z.of_nat (length a) < 2 ^ 64 -> Z.of_nat (length b) < 2 ^ 64 ->
  framed a ++ r = framed b ++ s -> a = b /\ r = s.
Proof.
  unfold framed. intros Ha Hb H. rewrite <- !app_assoc in H.
  apply app_inj_1 in H as [Hl H]; [|by rewrite !length_be_bytes].
  apply be_bytes_inj in Hl; [|change (256 ^ Z.of_nat 8) with (2 ^ 64); lia..].
  apply app_inj_1 in H; [done|lia].
Qed.

Definition short (b : bytes) : Prop := Z.of_nat (length b) < 2 ^ 64.

(** The lengths and the owner of a record fit their fields. *)
Record mac_fields_ok (c : StoredCtap2Credential) : Prop := {
  mf_id : short (s_id c); mf_rp : short (as_bytes (s_rp_id c));
  mf_handle : short (s_user_handle c); mf_owner : 0 <= default 0 (s_user_id c) < 2 ^ 32;
  mf_name : short (as_bytes (default ""%string (s_user_name c)));
  mf_display : short (as_bytes (default ""%string (s_user_display_name c))) }.

(** The message an integrity code is computed over determines the fields it
    covers: two credentials with the same message agree on id, relying party,
    discoverability, user handle, owner and names, a missing owner counting as
    uid 0 and a missing name as the empty one. *)
Theorem credential_mac_binds_fields c c' :
  mac_fields_ok c -> mac_fields_ok c' -> credential_mac_message c = credential_mac_message c' ->
  s_id c = s_id c' /\ s_rp_id c = s_rp_id c' /\ s_discoverable c = s_discoverable c' /\
  s_user_handle c = s_user_handle c' /\ default 0 (s_user_id c) = default 0 (s_user_id c') /\
  default ""%string (s_user_name c) = default ""%string (s_user_name c') /\
  default ""%string (s_user_display_name c) = default ""%string (s_user_display_name c').
Proof.
  intros [] [] H. unfold credential_mac_message, short in *.
  apply framed_inj in H as [Hid H]; [|done..].
  apply framed_inj in H as [Hrp H]; [|done..].
  apply app_inj_1 in H as [Hd H]; [|done]. apply framed_inj in H as [Hh H]; [|done..].
  apply app_inj_1 in H as [Ho H]; [|by rewrite !length_be_bytes].
  apply framed_inj in H as [Hn H]; [|done..].
  rewrite <- (app_nil_r (framed _)), <- (app_nil_r (framed (as_bytes (default ""%string (s_user_display_name c'))))) in H.
  apply framed_inj in H as [Hdn _]; [|done..].
  apply be_bytes_inj in Ho; [|done..].
  split_and!; auto using as_bytes_inj. by destruct (s_discoverable c), (s_discoverable c').
Qed.

(** ** The signature counter *)

Definition with_sign_count (n : Z) (c : StoredCtap2Credential) : StoredCtap2Credential :=
  {| s_id := s_id c; s_rp_id := s_rp_id c; s_discoverable := s_discoverable c;
     s_user_id := s_user_id c; s_user_handle := s_user_handle c; s_user_name := s_user_name c;
     s_user_display_name := s_user_display_name c; s_key := s_key c; s_policy := s_policy c;
     s_recovery := s_recovery c; s_sign_count := n; s_integrity_mac := s_integrity_mac c |}.

Definition count_update (id : bytes) (n : Z) (c : StoredCtap2Credential) : StoredCtap2Credential :=
  if bool_decide (s_id c = id) then with_sign_count n c else c.

Definition row_update (id : bytes) (n : Z) (j : Joined) : Joined :=
  {| j_m := if has_id id (j_m j) then set_sign_count n (j_m j) else j_m j;
     j_p := j_p j; j_r := j_r j; j_t := j_t j |}.

Section counter.
Context {pf : Platform} {hp : Healthy} {cr : Crypto} {sc : StoreCodec}.
Context (id : bytes) (n : Z) (Hn : 0 <= n < 2 ^ 32).

Let upd (m : MetadataRow) : MetadataRow := if has_id id m then set_sign_count n m else m.
Let db_upd (d : Db) : Db := set_metadata (update_rows (has_id id) (set_sign_count n) (metadata d)) d.

Lemma upd_same m :
  m_credential_id (upd m) = m_credential_id m /\ m_rp_id (upd m) = m_rp_id m /\
  m_user_id (upd m) = m_user_id m.
Proof. unfold upd. by destruct (has_id id m). Qed.

Lemma joined_upd d m : joined_of (db_upd d) (upd m) = row_update id n <$> joined_of d m.
Proof.
  unfold joined_of. destruct (upd_same m) as (-> & _ & _). rewrite fmap_bind.
  apply list_bind_ext; [|done]. intros p. rewrite fmap_bind.
  apply list_bind_ext; [|done]. intros r. rewrite fmap_bind.
  apply list_bind_ext; [|done]. done.
Qed.

Lemma select_upd user_id d : select_rows user_id (db_upd d) = row_update id n <$> select_rows user_id d.
Proof.
  unfold select_rows. rewrite <- (sort_by_fmap joined_leb joined_leb).
  2:{ intros a b. unfold joined_leb, row_update. simpl.
      destruct (upd_same (j_m a)) as (Ea & Er & _), (upd_same (j_m b)) as (Eb & Er' & _).
      unfold upd in *. by rewrite Ea, Er, Eb, Er'. }
  f_equal. rewrite fmap_bind.
  enough (forall ms, List.filter (visible user_id) (map upd ms) ≫= joined_of (db_upd d) =
    List.filter (visible user_id) ms ≫= (fun m => row_update id n <$> joined_of d m)) as H by apply H.
  induction ms as [|m ms IH]; [done|]. cbn [map List.filter].
  assert (visible user_id (upd m) = visible user_id m) as ->.
  { unfold visible. destruct (upd_same m) as (_ & _ & ->). done. }
  destruct (visible user_id m); [|apply IH]. by rewrite !bind_cons, joined_upd, <- IH.
Qed.

Lemma decode_upd user_id j c :
  decode_row user_id j = Ok c -> decode_row user_id (row_update id n j) = Ok (count_update id n c).
Proof.
  unfold decode_row. intros H. run_inv. simpl in *.
  assert (recovery_of_row (row_update id n j) = recovery_of_row j) as -> by done.
  destruct (upd_same (j_m j)) as (Ei & Er & Eu). unfold upd in *.
  unfold count_update, has_id in *. simpl.
  destruct (bool_decide (m_credential_id (j_m j) = id)) eqn:Hid; simpl; rewrite ?Hid; simpl;
  repeat match goal with
  | H : ?x = Some _ |- context [?x] => rewrite H; simpl
  | H : ?x = Ok _ |- context [?x] => rewrite H; simpl
  end; rewrite ?try_u32_ok by done; done.
Qed.

Lemma row_spec_upd key user_id j c :
  row_spec key user_id j = Ok c ->
  row_spec key user_id (row_update id n j) = Ok (count_update id n c).
Proof.
  unfold row_spec. intros (s & Hs & H)%res_bind_Ok. rewrite (decode_upd _ _ _ Hs). simpl.
  assert (s_integrity_mac (count_update id n s) = s_integrity_mac s) as ->
    by (unfold count_update; by destruct (bool_decide (s_id s = id))).
  assert (forall mac, mac_accepted key (count_update id n s) mac = mac_accepted key s mac) as Hm
    by (intros; unfold count_update; by destruct (bool_decide (s_id s = id))).
  destruct (s_integrity_mac s) as [b|]; [rewrite Hm; destruct (mac_accepted key s b)|]; congruence.
Qed.

Lemma mapM_upd key user_id (rows : list Joined) (cs : list StoredCtap2Credential) :
  mapM (row_spec key user_id) rows = Ok cs ->
  mapM (row_spec key user_id) (row_update id n <$> rows) = Ok (count_update id n <$> cs).
Proof.
  revert cs. induction rows as [|j rows IH]; intros cs; [by intros [= <-]|].
  intros (c & Hc & (cs' & Hcs & [= <-])%res_bind_Ok)%res_bind_Ok.
  specialize (IH _ Hcs). change (row_update id n <$> j :: rows) with (row_update id n j :: (row_update id n <$> rows)).
  simpl. rewrite (row_spec_upd _ _ _ _ Hc). simpl in *. by rewrite IH.
Qed.

Lemma runs_update_sign_count d :
  db_exists d = true ->
  runs (update_ctap2_sign_count id n) d
    (guard (rows_affected (has_id id) (metadata d) =? 1)%nat
       "updated rows while updating sign_count; expected 1"%string) (db_upd d).
Proof.
  intros He. unfold update_ctap2_sign_count. eapply runs_bind; [apply runs_open_database|].
  rewrite set_exists_id by done. eapply runs_bind; [apply runs_io|].
  eapply runs_bind; [apply runs_db_get|]. eapply runs_bind; [apply runs_db_update|]. apply runs_lift.
Qed.
End counter.

Lemma affected_unique id d : db_wf d ->
  rows_affected (has_id id) (metadata d) =
  if bool_decide (id ∈ m_credential_id <$> metadata d) then 1%nat else 0%nat.
Proof.
  intros [Hd _ _ _ _ _ _]. unfold rows_affected. induction (metadata d) as [|m ms IH]; [done|].
  simpl in *. apply NoDup_cons in Hd as [Hm Hd]. specialize (IH Hd). unfold has_id at 1.
  destruct (decide (m_credential_id m = id)) as [<-|Hne].
  - rewrite bool_decide_eq_true_2 by done. simpl. rewrite IH.
    rewrite bool_decide_eq_false_2, bool_decide_eq_true_2; [done|left|done].
  - rewrite bool_decide_eq_false_2 by done. rewrite IH.
    erewrite bool_decide_ext; [done|]. rewrite elem_of_cons. naive_solver.
Qed.

(** Updating the signature counter of a stored credential succeeds and is
    what the next load sees: the counter of that credential is the new one, every
    other field and every other credential is as before, and the integrity check
    still passes. For an unknown credential the update is an error. *)
Theorem sign_count_update_persists {pf : Platform} {hp : Healthy} {cr : Crypto} {sc : StoreCodec}
    key user_id id n (cs : list StoredCtap2Credential) w :
  db_wf (w_db w) -> db_exists (w_db w) = true ->
  hmac_key_file (w_db w) = Some key -> length key = 32%nat -> 0 <= n < 2 ^ 32 ->
  (load_ctap2_credentials user_id w).1 = Ok cs ->
  let '(r, w') := update_ctap2_sign_count id n w in
  (r = Ok tt <-> id ∈ m_credential_id <$> metadata (w_db w)) /\
  (load_ctap2_credentials user_id w').1 = Ok (count_update id n <$> cs).
Proof.
  intros Hwf He Hk Hl Hn Hload.
  destruct (runs_update_sign_count id n (w_db w) He w eq_refl) as [t ->]. split.
  - rewrite affected_unique by done. destruct (bool_decide _) eqn:E; bools; naive_solver.
  - pose proof (runs_load key user_id (w_db w) He Hk Hl) as Hr.
    destruct (runs_det _ _ _ _ w Hr eq_refl) as [Hr1 _]. rewrite Hr1 in Hload.
    eapply runs_det; [|done]. rewrite <- (mapM_upd id n Hn key user_id _ _ Hload), <- select_upd.
    by apply runs_load.
Qed.

(** ** Deletion *)

Lemma row_leb_total rp1 id1 rp2 id2 :
  row_leb rp1 id1 rp2 id2 = true \/ row_leb rp2 id2 rp1 id1 = true.
Proof.
  unfold row_leb. destruct (decide (rp1 = rp2)) as [->|Hne].
  - rewrite bool_decide_eq_true_2 by done. apply bytes_leb_total.
  - rewrite !bool_decide_eq_false_2 by congruence. apply bytes_leb_total.
Qed.

Lemma row_leb_trans rp1 id1 rp2 id2 rp3 id3 :
  row_leb rp1 id1 rp2 id2 = true -> row_leb rp2 id2 rp3 id3 = true -> row_leb rp1 id1 rp3 id3 = true.
Proof.
  unfold row_leb. do 3 case_bool_decide; subst; try done; eauto using bytes_leb_trans.
  intros H1 H2. assert (as_bytes rp2 = as_bytes rp3) as E%as_bytes_inj by (by apply bytes_leb_antisym).
  done.
Qed.

(** Two rows with the same key are the same row. *)
Lemma NoDup_key {A B} (f : A -> B) l x y : NoDup (f <$> l) -> x ∈ l -> y ∈ l -> f x = f y -> x = y.
Proof.
  intros Hd [i Hi]%list_elem_of_lookup [j Hj]%list_elem_of_lookup E. assert (i = j) as <-; [|congruence].
  eapply NoDup_lookup; [exact Hd|by rewrite list_lookup_fmap, Hi|by rewrite list_lookup_fmap, Hj, E].
Qed.

Section delete.
Context (p : MetadataRow -> bool) (d : Db) (Hwf : db_wf d).
Context (m : MetadataRow) (Hm : m ∈ metadata d) (Hp : p m = false).

Let gone (k : KeyslotRow) : bool :=
  bool_decide (k_credential_id k ∈ m_credential_id <$> List.filter p (metadata d)).

Lemma slot_kept k : k_credential_id k = m_credential_id m -> gone k = false.
Proof.
  intros E. apply bool_decide_eq_false. rewrite E. intros (m' & Em & [Hm' Hp']%elem_of_filterb)%list_elem_of_fmap.
  assert (m = m') as <-; [|congruence]. eapply NoDup_key; [apply Hwf|done..].
Qed.

Lemma slots_delete kind :
  List.filter (is_slot (m_credential_id m) kind) (keyslots (delete_metadata p d)) =
  List.filter (is_slot (m_credential_id m) kind) (keyslots d).
Proof.
  simpl. induction (keyslots d) as [|k ks IH]; simpl; [done|].
  destruct (is_slot (m_credential_id m) kind k) eqn:E; simpl.
  - apply is_slot_iff in E as [E Hk]. fold (gone k). rewrite slot_kept by done. simpl.
    rewrite is_slot_refl by done. by rewrite IH.
  - destruct (negb _); simpl; [by rewrite E|done].
Qed.

Lemma tokens_delete r :
  r ∈ keyslots d -> k_credential_id r = m_credential_id m ->
  List.filter (fun t => t_keyslot_id t =? k_keyslot_id r) (tokens (delete_metadata p d)) =
  List.filter (fun t => t_keyslot_id t =? k_keyslot_id r) (tokens d).
Proof.
  intros Hr E. simpl. induction (tokens d) as [|t ts IH]; simpl; [done|].
  destruct (t_keyslot_id t =? k_keyslot_id r) eqn:Et; simpl.
  - bools. rewrite bool_decide_eq_false_2; simpl; [by rewrite Et, Z.eqb_refl, IH|].
    rewrite Et. intros (r' & Er & [Hr' Hg]%elem_of_filterb)%list_elem_of_fmap. fold (gone r') in Hg.
    assert (r = r') as <-; [|rewrite slot_kept in Hg; done]. eapply (NoDup_key k_keyslot_id); [apply Hwf|done..].
  - destruct (negb _); simpl; [by rewrite Et|done].
Qed.

Lemma joined_delete : joined_of (delete_metadata p d) m = joined_of d m.
Proof.
  unfold joined_of. rewrite !slots_delete. apply list_bind_ext; [|done]. intros k. apply Forall_bind_ext.
  eapply Forall_impl; [apply (left_rows_Some (fun r => r ∈ keyslots d /\ k_credential_id r = m_credential_id m)),
    Forall_forall|].
  - intros r [Hr [? _]%is_slot_iff]%elem_of_filterb. done.
  - intros [r|] Hr; [|done]. destruct (Hr r eq_refl) as [? ?]. by rewrite tokens_delete.
Qed.
End delete.

(** At most one row has a given key. *)
Lemma filter_key {A B} (f : A -> B) (b : B) (q : A -> bool) l :
  NoDup (f <$> l) -> (forall x, q x = true -> f x = b) -> List.filter q l = [] \/ exists x, List.filter q l = [x].
Proof.
  intros Hd Hq. assert (NoDup (f <$> List.filter q l)) as Hf by by apply NoDup_fmap_filterb.
  assert (forall x, x ∈ List.filter q l -> f x = b) as Hb by (intros x [_ ?]%elem_of_filterb; auto).
  destruct (List.filter q l) as [|x [|y k]]; [by left|right; by eexists|]. exfalso.
  apply NoDup_cons in Hf as [Hn _]. apply Hn. simpl.
  rewrite (Hb x) by left. rewrite (Hb y) by (right; left). left.
Qed.

Lemma joined_short d m : db_wf d -> joined_of d m = [] \/ exists j, joined_of d m = [j].
Proof.
  intros []. unfold joined_of.
  assert (forall kind, List.filter (is_slot (m_credential_id m) kind) (keyslots d) = [] \/
    exists k, List.filter (is_slot (m_credential_id m) kind) (keyslots d) = [k]) as Hs.
  { intros kind. eapply (filter_key _ (m_credential_id m, kind)); [exact wf_slots0|].
    intros k. unfold is_slot. intros H. bools. congruence. }
  assert (forall r, List.filter (fun t => t_keyslot_id t =? r) (tokens d) = [] \/
    exists t, List.filter (fun t => t_keyslot_id t =? r) (tokens d) = [t]) as Ht.
  { intros r. eapply filter_key; [exact wf_tokens0|]. intros t Ht. bools. exact Ht. }
  destruct (Hs Primary) as [->|[p ->]]; [by left|]. simpl. right.
  destruct (Hs Recovery) as [->|[r ->]]; simpl; [by eexists|].
  destruct (Ht (k_keyslot_id r)) as [->|[t ->]]; simpl; by eexists.
Qed.

(** The rows of the query for a credential carry its metadata. *)
Lemma joined_of_m d m : Forall (fun j => j_m j = m) (joined_of d m).
Proof.
  unfold joined_of. apply Forall_bind, Forall_true. intros k. simpl. apply Forall_bind, Forall_true.
  intros r. simpl. apply Forall_bind, Forall_true. intros t. simpl. by repeat constructor.
Qed.

Lemma select_delete p user_id d : db_wf d ->
  select_rows user_id (delete_metadata p d) =
  List.filter (fun j => negb (p (j_m j))) (select_rows user_id d).
Proof.
  intros Hwf. unfold select_rows. rewrite <- sort_by_filter.
  2:{ intros. apply row_leb_total. } 2:{ intros. by eapply row_leb_trans. }
  f_equal. simpl.
  enough (forall ms, (forall m, m ∈ ms -> m ∈ metadata d) ->
    List.filter (visible user_id) (List.filter (fun m => negb (p m)) ms) ≫= joined_of (delete_metadata p d) =
    List.filter (fun j => negb (p (j_m j))) (List.filter (visible user_id) ms ≫= joined_of d)) as H by auto.
  assert (forall m, List.filter (fun j => negb (p (j_m j))) (joined_of d m) =
    if p m then [] else joined_of d m) as Hj.
  { intros m. pose proof (joined_of_m d m) as Hall.
    destruct (p m) eqn:Hp; [apply filter_all_false|apply filter_all_true];
      (eapply Forall_impl; [exact Hall|]); simpl; intros j ->; by rewrite Hp. }
  induction ms as [|m ms IH]; intros Hin; [done|]. cbn [List.filter].
  specialize (IH (fun m' Hm => Hin m' ltac:(by right))).
  destruct (p m) eqn:Hp; simpl.
  - destruct (visible user_id m); [|done]. rewrite bind_cons, List.filter_app, Hj, Hp. done.
  - destruct (visible user_id m); [|done].
    by rewrite !bind_cons, List.filter_app, Hj, Hp, (joined_delete p d Hwf m (Hin m ltac:(left)) Hp), IH.
Qed.

Lemma mapM_filter {E A B} (f : A -> res E B) (q : A -> bool) (q' : B -> bool) l k :
  (forall x y, f x = Ok y -> q x = q' y) -> mapM f l = Ok k ->
  mapM f (List.filter q l) = Ok (List.filter q' k).
Proof.
  intros Hq. revert k. induction l as [|x l IH]; intros k; [by intros [= <-]|].
  intros (y & Hy & (ys & Hys & [= <-])%res_bind_Ok)%res_bind_Ok. specialize (IH _ Hys). simpl.
  rewrite (Hq x y Hy). destruct (q' y); [|done]. simpl. rewrite Hy. simpl. by rewrite IH.
Qed.

Lemma row_spec_id {cr : Crypto} {sc : StoreCodec} key user_id j c :
  row_spec key user_id j = Ok c -> s_id c = m_credential_id (j_m j).
Proof. unfold row_spec, decode_row. intros H. run_inv; done. Qed.

(** Deleting a stored credential succeeds and removes exactly that one, with
    its keyslots and its recovery token, from what the next load sees; deleting an
    unknown one is an error and changes nothing. *)
Theorem delete_removes_exactly_one {pf : Platform} {hp : Healthy} {cr : Crypto} {sc : StoreCodec}
    key user_id id (cs : list StoredCtap2Credential) w :
  db_wf (w_db w) -> db_exists (w_db w) = true ->
  hmac_key_file (w_db w) = Some key -> length key = 32%nat ->
  (load_ctap2_credentials user_id w).1 = Ok cs ->
  let '(r, w') := delete_ctap2_credential id w in
  (r = Ok tt <-> id ∈ m_credential_id <$> metadata (w_db w)) /\
  (load_ctap2_credentials user_id w').1 = Ok (List.filter (fun c => negb (bool_decide (s_id c = id))) cs).
Proof.
  intros Hwf He Hk Hl Hload.
  assert (runs (delete_ctap2_credential id) (w_db w)
    (guard (rows_affected (has_id id) (metadata (w_db w)) =? 1)%nat
       "deleted rows for credential ID; expected 1"%string)
    (delete_metadata (has_id id) (w_db w))) as Hrun.
  { unfold delete_ctap2_credential. eapply runs_bind; [apply runs_open_database|].
    rewrite set_exists_id by done. eapply runs_bind; [apply runs_io|].
    eapply runs_bind; [apply runs_db_get|]. eapply runs_bind; [apply runs_db_update|]. apply runs_lift. }
  destruct (Hrun w eq_refl) as [t ->]. split.
  - rewrite affected_unique by done. destruct (bool_decide _) eqn:E; bools; naive_solver.
  - destruct (runs_det _ _ _ _ w (runs_load key user_id (w_db w) He Hk Hl) eq_refl) as [Hr1 _].
    rewrite Hr1 in Hload. eapply runs_det; [|done].
    rewrite <- (mapM_filter _ (fun j => negb (has_id id (j_m j))) _ _ _) with (2 := Hload).
    + rewrite <- select_delete by done. by apply runs_load.
    + intros j c Hc. unfold has_id. by rewrite (row_spec_id _ _ _ _ Hc).
Qed.

(** ** Client PIN and configuration *)

Definition pin_with_mac {cr : Crypto} (key : bytes) (s : StoredClientPinState) : StoredClientPinState :=
  {| sp_pin_salt := sp_pin_salt s; sp_pin_verifier := sp_pin_verifier s; sp_retries := sp_retries s;
     sp_integrity_mac := Some (compute_client_pin_mac key s) |}.

Definition pin_state_ok (s : StoredClientPinState) : Prop :=
  length (sp_pin_salt s) = 32%nat /\ length (sp_pin_verifier s) = 32%nat /\ 0 <= sp_retries s <= 8.

Definition pin_row_of {cr : Crypto} (key : bytes) (s : StoredClientPinState) : PinRow :=
  {| pr_pin_salt := sp_pin_salt s; pr_pin_verifier := sp_pin_verifier s;
     pr_retries := sp_retries s; pr_integrity_mac := Some (compute_client_pin_mac key s) |}.

Lemma runs_save_client_pin {pf : Platform} {hp : Healthy} {cr : Crypto} key s d :
  hmac_key_file d = Some key -> length key = 32%nat -> pin_state_ok s ->
  runs (save_client_pin_state s) d (Ok tt) (set_pin_row (Some (pin_row_of key s)) (set_exists d)).
Proof.
  intros Hk Hl (H1 & H2 & H3). unfold save_client_pin_state. rewrite H1, H2. simpl.
  destruct (8 <? sp_retries s) eqn:E; bools; [lia|].
  eapply runs_bind; [apply runs_open_database|]. eapply runs_bind; [by apply runs_hmac_key|].
  eapply runs_bind; [apply runs_io|]. apply runs_db_update.
Qed.

Lemma runs_delete_client_pin {pf : Platform} {hp : Healthy} d :
  runs delete_client_pin_state d (Ok tt) (set_pin_row None (set_exists d)).
Proof.
  unfold delete_client_pin_state. eapply runs_bind; [apply runs_open_database|].
  eapply runs_bind; [apply runs_io|]. apply runs_db_update.
Qed.

Lemma runs_load_client_pin {pf : Platform} {hp : Healthy} {cr : Crypto} key s d :
  hmac_key_file d = Some key -> length key = 32%nat -> pin_state_ok s -> db_exists d = true ->
  pin_row d = Some (pin_row_of key s) ->
  runs load_client_pin_state d (Ok (Some (pin_with_mac key s))) d.
Proof.
  intros Hk Hl (H1 & H2 & H3) He Hp. unfold load_client_pin_state.
  eapply runs_bind; [apply runs_db_get|]. rewrite He. simpl.
  eapply runs_bind; [apply runs_open_database|]. rewrite set_exists_id by done.
  eapply runs_bind; [apply runs_io|]. eapply runs_bind; [apply runs_db_get|]. rewrite Hp. simpl.
  rewrite try_u32_ok by lia. eapply runs_bind; [apply runs_lift|]. simpl.
  eapply runs_bind; [by apply runs_hmac_key|].
  assert (compute_client_pin_mac key (pin_with_mac key s) = compute_client_pin_mac key s) as E by done.
  unfold pin_with_mac in E at 1. rewrite E, constant_time_equal_refl. apply runs_ret.
Qed.

(** A client PIN state that is saved is the state the next start of the
    daemon loads: salt, verifier and the number of retries left. A state with
    another length or more than eight retries is refused, and nothing is written. *)
Theorem client_pin_roundtrip {pf : Platform} {hp : Healthy} {cr : Crypto} key s w :
  hmac_key_file (w_db w) = Some key -> length key = 32%nat -> 0 <= sp_retries s ->
  let '(r, w') := save_client_pin_state s w in
  if decide (length (sp_pin_salt s) = 32%nat /\ length (sp_pin_verifier s) = 32%nat /\ sp_retries s <= 8)
  then r = Ok tt /\ (load_client_pin_state w').1 = Ok (Some (pin_with_mac key s))
  else r = Err "invalid clientPIN state"%string /\ w' = w.
Proof.
  intros Hk Hl Hr. case_decide as Hs.
  - destruct Hs as (H1 & H2 & H3). assert (pin_state_ok s) as Hok by (repeat split; auto; lia).
    destruct (runs_save_client_pin key s (w_db w) Hk Hl Hok w eq_refl) as [t ->]. split; [done|].
    eapply runs_det; [|done]. by apply runs_load_client_pin.
  - unfold save_client_pin_state. destruct (_ || _) eqn:E; [done|].
    bools. destruct Hs. repeat split; [done..|lia].
Qed.

End StoreUpdates.
