(* ===== verification/Integrity.v ===== *)
(** What the integrity codes of the credential table detect: a load accepts a row
    with a code of this key only with the fields the code was made for, up to what
    the acceptance of the former format of the codes lets through. *)
From Stdlib Require Import ZArith Lia String.
From stdpp Require Import base list option strings gmap.
From S2P Require Import Prelude Schema Platform Store StoreProps StoreRoundtrip StoreUpdates.

#[local] Open Scope Z_scope.

Module Integrity.
Import Store StoreProps StoreRoundtrip StoreUpdates.

(** ** The former format *)

(** The message of [compute_credential_mac_legacy]: it lacks discoverability. *)
Definition legacy_mac_message (c : StoredCtap2Credential) : bytes :=
  framed (s_id c) ++ framed (as_bytes (s_rp_id c)) ++ framed (s_user_handle c)
  ++ be_bytes 4 (default 0 (s_user_id c))
  ++ framed (as_bytes (default ""%string (s_user_name c)))
  ++ framed (as_bytes (default ""%string (s_user_display_name c))).

(** The fields of [c] and [c'] that a code covers are the same. *)
Definition agree (c c' : StoredCtap2Credential) : Prop :=
  s_id c = s_id c' /\ s_rp_id c = s_rp_id c' /\ s_discoverable c = s_discoverable c' /\
  s_user_handle c = s_user_handle c' /\ default 0 (s_user_id c) = default 0 (s_user_id c') /\
  default ""%string (s_user_name c) = default ""%string (s_user_name c') /\
  default ""%string (s_user_display_name c) = default ""%string (s_user_display_name c').

Lemma be_bytes_small n : 0 <= n < 256 -> be_bytes 8 n = replicate 7 0 ++ [n].
Proof.
  intros Hn. cbn -[Z.mul]. rewrite !Z.shiftr_div_pow2 by lia.
  change (8 * Z.of_nat 0) with 0. rewrite Z.div_1_r, (Z.mod_small n 256) by lia.
  repeat rewrite (Z.div_small n) by (split; [lia|]; eapply Z.lt_le_trans; [apply Hn|]; vm_compute; congruence). done.
Qed.

(** A message of the new format, for a short user handle, is one of the former only
    of a record without a user handle. *)
Lemma formats_confused c0 c :
  mac_fields_ok c0 -> mac_fields_ok c -> (length (s_user_handle c0) < 256)%nat ->
  Z.of_nat (length (s_user_handle c)) < 2 ^ 56 -> credential_mac_message c0 = legacy_mac_message c ->
  s_id c0 = s_id c /\ s_rp_id c0 = s_rp_id c /\ s_discoverable c0 = false /\ s_user_handle c = [].
Proof.
  intros [] [] Hn0 Hn H. unfold credential_mac_message, legacy_mac_message, short in *.
  apply framed_inj in H as [Hid H]; [|done..]. apply framed_inj in H as [Hrp%as_bytes_inj H]; [|done..].
  unfold framed at 1 4 in H. rewrite be_bytes_small in H by lia.
  rewrite <- !app_assoc in H.
  assert (be_bytes 8 (Z.of_nat (length (s_user_handle c))) = bool_byte (s_discoverable c0) :: replicate 7 0) as Hl.
  { apply (f_equal (take 8)) in H. rewrite (take_app_length' (be_bytes 8 _)) in H by (by rewrite length_be_bytes).
    rewrite <- H. done. }
  apply (f_equal be_val) in Hl. rewrite be_val_be_bytes in Hl. change (256 ^ Z.of_nat 8) with (2 ^ 64) in Hl.
  rewrite Z.mod_small in Hl by lia.
  destruct (s_discoverable c0); cbn in Hl; [lia|]. split_and!; [done..|]. apply nil_length_inv. lia.
Qed.

(** ** Loading *)

Lemma mapM_res_elem {E A B} (f : A -> res E B) l ys y :
  mapM f l = Ok ys -> y ∈ ys -> exists x, x ∈ l /\ f x = Ok y.
Proof.
  revert ys. induction l as [|x l IH]; intros ys H Hy; [injection H as <-; by apply elem_of_nil in Hy|]; simpl in H.
  destruct (f x) as [b|e|] eqn:Hf; simpl in H; [|done..].
  destruct (mapM f l) as [bs|e|] eqn:Hm; [|done..]. injection H as <-. apply elem_of_cons in Hy as [->|Hy].
  - exists x. split; [left|done].
  - destruct (IH bs eq_refl Hy) as (x' & Hx & Hfx). exists x'. split; [by right|done].
Qed.

(** What was loaded has passed the check. *)
Lemma loaded_accepted {pf : Platform} {hp : Healthy} {cr : Crypto} {sc : StoreCodec} key user_id w cs c mac :
  hmac_key_file (w_db w) = Some key -> length key = 32%nat ->
  (load_ctap2_credentials user_id w).1 = Ok cs -> c ∈ cs -> s_integrity_mac c = Some mac ->
  mac_accepted key c mac = true.
Proof.
  intros Hk Hl Hload Hc Hm. destruct (db_exists (w_db w)) eqn:He.
  - destruct (runs_det _ _ _ _ w (runs_load key user_id (w_db w) He Hk Hl) eq_refl) as [Hr _].
    rewrite Hload in Hr. symmetry in Hr. destruct (mapM_res_elem _ _ _ _ Hr Hc) as (row & _ & Hrow).
    unfold row_spec in Hrow. destruct (decode_row user_id row) as [c'|e|]; simpl in Hrow; [|done..].
    destruct (s_integrity_mac c') as [mac'|] eqn:Hm'; [|congruence].
    destruct (mac_accepted key c' mac') eqn:Ha; [|done]. congruence.
  - unfold load_ctap2_credentials, db_get, gets, mbind, M_bind in Hload. simpl in Hload. rewrite He in Hload.
    simplify_eq/=. by apply elem_of_nil in Hc.
Qed.

(** Two given messages with the same code: not just that collisions exist, as they
    do for every function to 32 bytes, but that these two messages are one. *)
Definition collide {cr : Crypto} (key m m' : bytes) : Prop :=
  m <> m' /\ hmac_sha256 key m = hmac_sha256 key m'.

End Integrity.
