(* ===== verification/StoreRefine.v ===== *)
(** The store as a vault: an abstract state of the credentials, the client PIN and
    the two settings, on which every operation of [store.rs] is a one-line
    function, and the proof that the tables refine it. *)
From Stdlib Require Import ZArith Lia String.
From stdpp Require Import base list option strings gmap.
From S2P Require Import Prelude Schema Platform Store StoreProps StoreRoundtrip StoreUpdates.

#[local] Open Scope Z_scope.

Module StoreRefine.
Import Store StoreProps StoreRoundtrip StoreUpdates.

(** ** The abstract store *)

Record Vault := {
  v_credentials : list StoredCtap2Credential;
  v_pin : option StoredClientPinState;
  v_policy : option (list Z);
  v_passphrase : option (bytes * bytes * RecoveryKdf) }.

Definition set_v_credentials (cs : list StoredCtap2Credential) (v : Vault) : Vault :=
  {| v_credentials := cs; v_pin := v_pin v; v_policy := v_policy v; v_passphrase := v_passphrase v |}.
Definition set_v_pin (p : option StoredClientPinState) (v : Vault) : Vault :=
  {| v_credentials := v_credentials v; v_pin := p; v_policy := v_policy v; v_passphrase := v_passphrase v |}.
Definition set_v_policy (l : list Z) (v : Vault) : Vault :=
  {| v_credentials := v_credentials v; v_pin := v_pin v; v_policy := Some l; v_passphrase := v_passphrase v |}.
Definition set_v_passphrase (p : bytes * bytes * RecoveryKdf) (v : Vault) : Vault :=
  {| v_credentials := v_credentials v; v_pin := v_pin v; v_policy := v_policy v; v_passphrase := Some p |}.

Definition empty_vault : Vault :=
  {| v_credentials := []; v_pin := None; v_policy := None; v_passphrase := None |}.

(** The policy of a credential is replaced; its version is the current one. *)
Definition with_policy (p : StoredPcrPolicy) (c : StoredCtap2Credential) : StoredCtap2Credential :=
  {| s_id := s_id c; s_rp_id := s_rp_id c; s_discoverable := s_discoverable c;
     s_user_id := s_user_id c; s_user_handle := s_user_handle c; s_user_name := s_user_name c;
     s_user_display_name := s_user_display_name c; s_key := s_key c;
     s_policy := Some {| selection := selection p; digest := digest p; policy_ref := policy_ref p;
                         authority_name := authority_name p; authority_signature := authority_signature p;
                         policy_version := current_version |};
     s_recovery := s_recovery c; s_sign_count := s_sign_count c; s_integrity_mac := s_integrity_mac c |}.

(** The recovery slot gets a new private part and a new passphrase, whose hash is
    the authorization of the key. *)
Definition new_slot (priv salt hash : bytes) (k : RecoveryKdf) (r : StoredRecoverySlot) : StoredRecoverySlot :=
  {| label := label r; passphrase_salt := salt; passphrase_hash := hash; kdf := k;
     slot_key := {| private := priv; public := public (slot_key r);
                    public_key_x := public_key_x (slot_key r); public_key_y := public_key_y (slot_key r);
                    auth_value := Some hash |} |}.

Definition with_recovery (priv salt hash : bytes) (k : RecoveryKdf) (c : StoredCtap2Credential)
    : StoredCtap2Credential :=
  {| s_id := s_id c; s_rp_id := s_rp_id c; s_discoverable := s_discoverable c;
     s_user_id := s_user_id c; s_user_handle := s_user_handle c; s_user_name := s_user_name c;
     s_user_display_name := s_user_display_name c; s_key := s_key c; s_policy := s_policy c;
     s_recovery := new_slot priv salt hash k <$> s_recovery c;
     s_sign_count := s_sign_count c; s_integrity_mac := s_integrity_mac c |}.

(** Change the credential with the id. *)
Definition amend (id : bytes) (f : StoredCtap2Credential -> StoredCtap2Credential)
    (c : StoredCtap2Credential) : StoredCtap2Credential :=
  if bool_decide (s_id c = id) then f c else c.

Definition known (id : bytes) (cs : list StoredCtap2Credential) : bool := bool_decide (id ∈ s_id <$> cs).
Definition recoverable (id : bytes) (cs : list StoredCtap2Credential) : bool :=
  existsb (fun c => bool_decide (s_id c = id) && bool_decide (is_Some (s_recovery c))) cs.

Definition pin_ok (st : StoredClientPinState) : bool :=
  (length (sp_pin_salt st) =? 32)%nat && (length (sp_pin_verifier st) =? 32)%nat && (sp_retries st <=? 8).

(** What an operation does to the vault, and whether it succeeds. *)
Definition apply_op (op : StoreOp) (v : Vault) : bool * Vault :=
  match op with
  | SaveCredentials cs => (true, set_v_credentials cs v)
  | UpdateSignCount id n =>
      (known id (v_credentials v), set_v_credentials (amend id (with_sign_count n) <$> v_credentials v) v)
  | UpdatePolicy id p => (known id (v_credentials v), set_v_credentials (amend id (with_policy p) <$> v_credentials v) v)
  | UpdateRecovery id priv salt hash k =>
      (recoverable id (v_credentials v), set_v_credentials (amend id (with_recovery priv salt hash k) <$> v_credentials v) v)
  | DeleteCredential id =>
      (known id (v_credentials v),
       set_v_credentials (List.filter (fun c => negb (bool_decide (s_id c = id))) (v_credentials v)) v)
  | SaveClientPin st => (pin_ok st, if pin_ok st then set_v_pin (Some st) v else v)
  | DeleteClientPin => (true, set_v_pin None v)
  | SaveDefaultPcrPolicy l => (true, set_v_policy l v)
  | SaveDaemonPassphrase salt hash k => (true, set_v_passphrase (salt, hash, k) v)
  | LoadCredentials _ | LoadClientPin | LoadDefaultPcrPolicy | LoadDaemonPassphrase => (true, v)
  end.

Fixpoint apply_ops (ops : list StoreOp) (v : Vault) : list bool * Vault :=
  match ops with
  | [] => ([], v)
  | op :: ops => let '(b, v1) := apply_op op v in let '(bs, v2) := apply_ops ops v1 in (b :: bs, v2)
  end.

(** The operations on the tables, with what they return. *)
Fixpoint perform {pf : Platform} {cr : Crypto} {sc : StoreCodec} (ops : list StoreOp) (w : World)
    : list (res string unit) * World :=
  match ops with
  | [] => ([], w)
  | op :: ops => let '(r, w1) := run_op op w in let '(rs, w2) := perform ops w1 in (r :: rs, w2)
  end.

(** The operations that change the store, on values the source's types allow. *)
Definition admissible {cr : Crypto} {sc : StoreCodec} (op : StoreOp) : Prop :=
  match op with
  | SaveCredentials cs => Forall storable cs /\ NoDup (s_id <$> cs)
  | UpdateSignCount _ n => 0 <= n < 2 ^ 32
  | UpdateRecovery _ _ salt hash _ => salt_ok (b64_encode salt) = true /\ output_ok hash = true
  | SaveClientPin st => 0 <= sp_retries st
  | SaveDefaultPcrPolicy l => Forall (fun i => 0 <= i < 2 ^ 32) l
  | LoadCredentials _ | LoadClientPin | LoadDefaultPcrPolicy | LoadDaemonPassphrase => False
  | _ => True
  end.

(** ** The tables hold a vault *)

Section refine.
Context {pf : Platform} {hp : Healthy} {cr : Crypto} {sc : StoreCodec} {sl : StoreCodecLaws}.
Context (key : bytes) (Hlen : length key = 32%nat).

Definition passphrase_blob (p : bytes * bytes * RecoveryKdf) : bytes :=
  let '(salt, hash, Argon2id m t l) := p in passphrase_encode (hash, salt, m, t, l).

Record holds (d : Db) (v : Vault) : Prop := {
  h_wf : db_wf d;
  h_exists : db_exists d = true;
  h_key : hmac_key_file d = Some key;
  h_credentials : represents key d (v_credentials v);
  h_storable : Forall storable (v_credentials v);
  h_pin : pin_row d = pin_row_of key <$> v_pin v;
  h_pin_ok st : v_pin v = Some st -> pin_state_ok st;
  h_policy : daemon_config d !! "default_pcr_policy"%string = indices_encode <$> v_policy v;
  h_policy_ok l : v_policy v = Some l -> Forall (fun i => 0 <= i < 2 ^ 32) l;
  h_passphrase : daemon_config d !! "daemon_passphrase"%string = passphrase_blob <$> v_passphrase v }.

(** The part of it that is about credentials. *)
Record shelved (d : Db) (cs : list StoredCtap2Credential) : Prop := {
  sh_wf : db_wf d;
  sh_exists : db_exists d = true;
  sh_key : hmac_key_file d = Some key;
  sh_credentials : represents key d cs;
  sh_storable : Forall storable cs }.

Lemma holds_shelved d v : holds d v -> shelved d (v_credentials v).
Proof. by intros []. Qed.

Lemma shelved_ids d cs : shelved d cs -> m_credential_id <$> metadata d = s_id <$> cs.
Proof. intros H. eapply represents_ids, H. Qed.

(** ** What the loads return *)

Lemma load_policy_holds d v : holds d v -> runs load_default_pcr_policy d (Ok (v_policy v)) d.
Proof.
  intros []. unfold load_default_pcr_policy. eapply runs_bind; [apply runs_open_database|].
  rewrite set_exists_id by done. eapply runs_bind; [apply runs_io|].
  eapply runs_bind; [apply runs_db_get|]. simpl. rewrite h_policy0.
  destruct (v_policy v) as [l|]; simpl; [|apply runs_ret]. rewrite indices_roundtrip by auto.
  eapply runs_bind; [apply runs_lift|apply runs_ret].
Qed.

Lemma load_passphrase_holds d v : holds d v -> runs load_daemon_passphrase d (Ok (v_passphrase v)) d.
Proof.
  intros []. unfold load_daemon_passphrase. eapply runs_bind; [apply runs_open_database|].
  rewrite set_exists_id by done. eapply runs_bind; [apply runs_io|].
  eapply runs_bind; [apply runs_db_get|]. simpl. rewrite h_passphrase0.
  destruct (v_passphrase v) as [[[salt hash] [m t l]]|]; simpl; [|apply runs_ret].
  rewrite passphrase_roundtrip. eapply runs_bind; [apply runs_lift|apply runs_ret].
Qed.

Lemma load_pin_holds d v : holds d v -> runs load_client_pin_state d (Ok (pin_with_mac key <$> v_pin v)) d.
Proof.
  intros []. destruct (v_pin v) as [st|] eqn:Hp; simpl in *; [by apply runs_load_client_pin; auto|].
  unfold load_client_pin_state. eapply runs_bind; [apply runs_db_get|]. rewrite h_exists0. cbn [negb].
  eapply runs_bind; [apply runs_open_database|]. rewrite set_exists_id by done.
  eapply runs_bind; [apply runs_io|]. eapply runs_bind; [apply runs_db_get|]. rewrite h_pin0. apply runs_ret.
Qed.

(** ** Updates of rows *)

Lemma update_rows_fmap {A} (p : A -> bool) f (l : list A) :
  update_rows p f l = (fun x => if p x then f x else x) <$> l.
Proof. done. Qed.

Lemma filter_update_rows {A} (q p : A -> bool) f (l : list A) :
  (forall x, q (f x) = q x) -> List.filter q (update_rows p f l) = update_rows p f (List.filter q l).
Proof.
  intros Hq. unfold update_rows. induction l as [|x l IH]; simpl; [done|].
  assert (q (if p x then f x else x) = q x) as -> by (destruct (p x); auto). destruct (q x); simpl; congruence.
Qed.

Lemma left_rows_fmap {A B} (f : A -> B) (l : list A) :
  left_rows (fmap (M := list) f l) = fmap (M := list) (fmap (M := option) f) (left_rows l).
Proof. destruct l; [done|]. simpl. f_equal. by rewrite <- !list_fmap_compose. Qed.

Lemma find_by_filter {A} (p : A -> bool) (l : list A) : find_by p l = head (List.filter p l).
Proof. induction l as [|x l IH]; simpl; [done|]. by destruct (p x). Qed.

(** A change of keyslots that keeps their identity, seen through the query. *)
Lemma joined_keyslots (p : KeyslotRow -> bool) (f : KeyslotRow -> KeyslotRow) d m :
  (forall k, k_credential_id (f k) = k_credential_id k /\ k_slot_kind (f k) = k_slot_kind k /\
             k_keyslot_id (f k) = k_keyslot_id k) ->
  let u (k : KeyslotRow) := if p k then f k else k in
  joined_of (set_keyslots (update_rows p f (keyslots d)) (next_keyslot_id d) d) m =
  (fun j => {| j_m := j_m j; j_p := u (j_p j); j_r := option_map u (j_r j); j_t := j_t j |}) <$> joined_of d m.
Proof.
  intros Hf u.
  assert (forall id kind k, is_slot id kind (f k) = is_slot id kind k) as Hs
    by (intros id kind k; unfold is_slot; by destruct (Hf k) as (-> & -> & _)).
  assert (forall k, k_keyslot_id (u k) = k_keyslot_id k) as Hk
    by (intros k; unfold u; destruct (p k); [apply Hf|done]).
  unfold joined_of. simpl. rewrite !filter_update_rows, !update_rows_fmap by auto. fold u.
  rewrite list_fmap_bind, fmap_bind. apply list_bind_ext; [|done]. intros k. simpl.
  rewrite left_rows_fmap, list_fmap_bind, fmap_bind. apply list_bind_ext; [|done]. intros [r|]; simpl; [|done].
  rewrite Hk, fmap_bind. apply list_bind_ext; done.
Qed.

(** The same for tokens. *)
Lemma joined_tokens (p : TokenRow -> bool) (f : TokenRow -> TokenRow) d m :
  (forall t, t_keyslot_id (f t) = t_keyslot_id t) ->
  let u (t : TokenRow) := if p t then f t else t in
  joined_of (set_tokens (update_rows p f (tokens d)) d) m =
  (fun j => {| j_m := j_m j; j_p := j_p j; j_r := j_r j; j_t := option_map u (j_t j) |}) <$> joined_of d m.
Proof.
  intros Hf u. unfold joined_of. simpl. rewrite fmap_bind. apply list_bind_ext; [|done]. intros k. simpl.
  rewrite fmap_bind. apply list_bind_ext; [|done]. intros [r|]; simpl; [|done].
  rewrite filter_update_rows, update_rows_fmap by (intros t; by rewrite Hf). fold u.
  rewrite left_rows_fmap, list_fmap_bind, fmap_bind. apply list_bind_ext; done.
Qed.

(** A change of the credentials, as a change of the tables. *)
Lemma represents_fmap d d' (g : MetadataRow -> MetadataRow) f (cs : list StoredCtap2Credential) :
  represents key d cs -> metadata d' = g <$> metadata d ->
  (forall c n, c ∈ cs -> joined_of d (metadata_of key c) = [row_of key c n] ->
     g (metadata_of key c) = metadata_of key (f c) /\
     joined_of d' (metadata_of key (f c)) = [row_of key (f c) n]) ->
  represents key d' (f <$> cs).
Proof.
  intros Hr Hm Hf. unfold represents in *. rewrite Hm. clear Hm.
  induction Hr as [|m c ms cs [-> [n Hj]] _ IH]; simpl; constructor.
  - destruct (Hf c n) as [-> ?]; [left|done|]. eauto.
  - apply IH. intros c' n' Hc. apply Hf. by right.
Qed.

(** ** The slots of a credential *)

(** The keyslots behind the one row of a credential. *)
Lemma joined_inv d m j : db_wf d -> joined_of d m = [j] ->
  List.filter (is_slot (m_credential_id m) Primary) (keyslots d) = [j_p j] /\
  List.filter (is_slot (m_credential_id m) Recovery) (keyslots d) = option_list (j_r j).
Proof.
  intros [] Hj.
  assert (forall kind, List.filter (is_slot (m_credential_id m) kind) (keyslots d) = [] \/
    exists k, List.filter (is_slot (m_credential_id m) kind) (keyslots d) = [k]) as Hs.
  { intros kind. eapply (filter_key _ (m_credential_id m, kind)); [exact wf_slots0|].
    intros k [-> ->]%is_slot_iff. done. }
  unfold joined_of in Hj. destruct (Hs Primary) as [Hp|[p Hp]]; rewrite Hp in *; [done|].
  simpl in Hj. rewrite app_nil_r in Hj. destruct (Hs Recovery) as [Hr|[r Hr]]; rewrite Hr in *; simpl in Hj.
  - by injection Hj as <-.
  - rewrite app_nil_r in Hj. destruct (List.filter _ (tokens d)) as [|t [|t' ts]]; simpl in Hj;
      [by injection Hj as <-..|done].
Qed.

Lemma represented d cs c : represents key d cs -> c ∈ cs ->
  exists n, joined_of d (metadata_of key c) = [row_of key c n].
Proof.
  intros Hr Hc. unfold represents in Hr. apply list_elem_of_lookup in Hc as [i Hi].
  apply Forall2_lookup_r with (1 := Hr) in Hi as (m & _ & -> & Hj). exact Hj.
Qed.

Lemma primary_slot d c n : db_wf d -> joined_of d (metadata_of key c) = [row_of key c n] ->
  List.filter (is_slot (s_id c) Primary) (keyslots d) = [primary_of c n].
Proof. intros Hwf Hj. by apply joined_inv in Hj as [? _]. Qed.

Lemma recovery_slot d c n : db_wf d -> joined_of d (metadata_of key c) = [row_of key c n] ->
  List.filter (is_slot (s_id c) Recovery) (keyslots d) =
  option_list ((fun r => recovery_of c r (n + 1)) <$> s_recovery c).
Proof. intros Hwf Hj. by apply joined_inv in Hj as [_ ?]. Qed.

(** ** What an operation that finds its credential changes *)

Lemma known_elem id cs : known id cs = true <-> exists c, c ∈ cs /\ s_id c = id.
Proof. unfold known. rewrite bool_decide_eq_true, list_elem_of_fmap. naive_solver. Qed.

Lemma affected_metadata d cs id : shelved d cs ->
  (rows_affected (has_id id) (metadata d) =? 1)%nat = known id cs.
Proof.
  intros H. rewrite affected_unique by apply H. rewrite (shelved_ids d cs H). unfold known. by case_bool_decide.
Qed.

Lemma affected_primary d cs id : shelved d cs ->
  (rows_affected (is_slot id Primary) (keyslots d) =? 1)%nat = known id cs.
Proof.
  intros H. unfold rows_affected. destruct (known id cs) eqn:Hk.
  - apply known_elem in Hk as (c & Hc & <-). destruct (represented _ _ _ (sh_credentials d cs H) Hc) as [n Hj].
    by rewrite (primary_slot d c n) by (done || apply H).
  - rewrite slots_none; [done|apply H|]. rewrite (shelved_ids d cs H). by apply bool_decide_eq_false in Hk.
Qed.

Lemma Forall_amend (P : StoredCtap2Credential -> Prop) id f cs :
  (forall c, P c -> P (f c)) -> Forall P cs -> Forall P (amend id f <$> cs).
Proof.
  intros Hf. induction 1; simpl; constructor; [|done]. unfold amend. case_bool_decide; auto.
Qed.

Lemma amend_unrecoverable id cs priv salt hash k : recoverable id cs = false ->
  amend id (with_recovery priv salt hash k) <$> cs = cs.
Proof.
  unfold recoverable. induction cs as [|c cs IH]; simpl; [done|].
  intros [Hc Hcs]%orb_false_iff. f_equal; [|by apply IH]. unfold amend.
  case_bool_decide; [|done]. bools. unfold with_recovery. destruct c as [????????? [r|]]; simpl in *; [|done].
  by destruct Hc.
Qed.

Lemma represents_sign_count d id n cs :
  represents key d cs ->
  represents key (set_metadata (update_rows (has_id id) (set_sign_count n) (metadata d)) d)
    (amend id (with_sign_count n) <$> cs).
Proof.
  intros Hr. eapply represents_fmap; [exact Hr|apply update_rows_fmap|]. intros c k _ Hj.
  assert ((if has_id id (metadata_of key c) then set_sign_count n (metadata_of key c)
           else metadata_of key c) = metadata_of key (amend id (with_sign_count n) c)) as Hm
    by (unfold amend, has_id; simpl; by case_bool_decide).
  split; [exact Hm|]. rewrite <- Hm, joined_upd, Hj. simpl. f_equal.
  unfold row_update, row_of, amend, has_id. simpl. by case_bool_decide.
Qed.

Lemma represents_policy d id p cs :
  represents key d cs ->
  represents key (set_keyslots (update_rows (is_slot id Primary) (set_policy p) (keyslots d))
                    (next_keyslot_id d) d) (amend id (with_policy p) <$> cs).
Proof.
  intros Hr. eapply (represents_fmap _ _ (fun m => m)); [exact Hr|symmetry; apply list_fmap_id|]. intros c k _ Hj.
  assert (metadata_of key c = metadata_of key (amend id (with_policy p) c)) as Hm
    by (unfold amend; by case_bool_decide).
  split; [exact Hm|]. rewrite <- Hm, joined_keyslots, Hj by done. simpl. f_equal. unfold row_of. f_equal.
  - exact Hm.
  - unfold amend, is_slot. simpl. case_bool_decide; by rewrite ?andb_true_r.
  - unfold amend. destruct (s_recovery c) as [r|] eqn:E; case_bool_decide; simpl; rewrite E; simpl; try done;
    f_equal; by rewrite is_slot_other by (right; done).
  - unfold amend. by case_bool_decide.
Qed.

(** ** The recovery slot *)

(** The rows of the query for two credentials have different keyslot ids. *)
Lemma row_ids_inj d c c' n : db_wf d ->
  joined_of d (metadata_of key c) = [row_of key c n] ->
  joined_of d (metadata_of key c') = [row_of key c' n] -> s_id c = s_id c'.
Proof.
  intros Hwf Hj Hj'. assert (primary_of c n = primary_of c' n) as E; [|by injection E].
  eapply (NoDup_key k_keyslot_id); [apply Hwf|..|done].
  - apply (elem_of_filterb (is_slot (s_id c) Primary)). rewrite (primary_slot d c n) by done. left.
  - apply (elem_of_filterb (is_slot (s_id c') Primary)). rewrite (primary_slot d c' n) by done. left.
Qed.

Lemma represents_recovery d cs c r n priv salt hash k :
  db_wf d -> represents key d cs -> c ∈ cs -> s_recovery c = Some r ->
  joined_of d (metadata_of key c) = [row_of key c n] ->
  let r' := new_slot priv salt hash k r in
  let d1 := set_keyslots (update_rows (is_slot (s_id c) Recovery)
                            (set_tpm_key (tpm_key_to_blob (slot_key r'))) (keyslots d)) (next_keyslot_id d) d in
  represents key
    (set_tokens (update_rows (fun t => bool_decide (Some (t_keyslot_id t) = Some (n + 1)))
                   (set_kdf_params (phc r')) (tokens d1)) d1)
    (amend (s_id c) (with_recovery priv salt hash k) <$> cs).
Proof.
  intros Hwf Hr Hc Er Hj r' d1.
  eapply (represents_fmap d _ (fun m => m)); [exact Hr|symmetry; apply list_fmap_id|]. intros c' n' Hc' Hj'.
  assert (metadata_of key c' = metadata_of key (amend (s_id c) (with_recovery priv salt hash k) c')) as Hm
    by (unfold amend; by case_bool_decide).
  split; [exact Hm|]. rewrite <- Hm, joined_tokens by done. unfold d1.
  rewrite joined_keyslots, Hj' by done. simpl. f_equal.
  unfold amend in *. case_bool_decide as E.
  - assert (c' = c) as ->.
    { eapply (NoDup_key s_id); [|done..]. rewrite <- (represents_ids key d cs Hr). apply Hwf. }
    rewrite Hj in Hj'. injection Hj' as <- _ _. unfold row_of. simpl. rewrite Er. simpl. f_equal.
    + by rewrite is_slot_other by (right; done).
    + f_equal. by rewrite is_slot_refl by done.
    + f_equal. by rewrite bool_decide_eq_true_2 by done.
  - assert (n <> n') as Hn by (intros <-; by eapply E, row_ids_inj).
    unfold row_of. f_equal.
    + by rewrite is_slot_other by (left; done).
    + destruct (s_recovery c') as [r0|]; [|done]. simpl. by rewrite is_slot_other by (left; done).
    + destruct (s_recovery c') as [r0|]; [|done]. simpl.
      rewrite bool_decide_eq_false_2; [done|]. intros [= ?]. lia.
Qed.

Lemma storable_recovery priv salt hash k c :
  salt_ok (b64_encode salt) = true -> output_ok hash = true -> storable c ->
  storable (with_recovery priv salt hash k c).
Proof.
  intros Hs Ho []. split; simpl; try done. intros r (r1 & Hr1 & ->)%fmap_Some.
  by destruct (st_recovery0 r1 Hr1).
Qed.

Lemma recoverable_elem id cs :
  recoverable id cs = true <-> exists c r, c ∈ cs /\ s_id c = id /\ s_recovery c = Some r.
Proof.
  unfold recoverable. rewrite existsb_exists. split.
  - intros (c & Hc%list_elem_of_In & [E [r Hr]%bool_decide_eq_true]%andb_true_iff). bools. eauto.
  - intros (c & r & Hc & <- & Hr). exists c. split; [by apply list_elem_of_In|].
    rewrite !bool_decide_eq_true_2; [done|by eexists|done].
Qed.

(** A credential that cannot be recovered has no recovery slot. *)
Lemma no_recovery_slot d cs id : shelved d cs -> recoverable id cs = false ->
  List.filter (is_slot id Recovery) (keyslots d) = [].
Proof.
  intros H Hn. destruct (known id cs) eqn:Hk.
  - apply known_elem in Hk as (c & Hc & <-). destruct (represented _ _ _ (sh_credentials d cs H) Hc) as [n Hj].
    rewrite (recovery_slot d c n) by (done || apply H). destruct (s_recovery c) as [r|] eqn:Er; [|done].
    apply not_true_iff_false in Hn. destruct Hn. apply recoverable_elem. eauto.
  - apply slots_none; [apply H|]. rewrite (shelved_ids d cs H). by apply bool_decide_eq_false in Hk.
Qed.

(** ** Deletion *)

Lemma represents_delete d id cs : db_wf d -> represents key d cs ->
  represents key (delete_metadata (has_id id) d) (List.filter (fun c => negb (bool_decide (s_id c = id))) cs).
Proof.
  intros Hwf Hr. unfold represents in *. simpl.
  enough (forall ms, (forall m, m ∈ ms -> m ∈ metadata d) ->
    Forall2 (fun m c => m = metadata_of key c /\ exists n, joined_of d m = [row_of key c n]) ms cs ->
    Forall2 (fun m c => m = metadata_of key c /\ exists n, joined_of (delete_metadata (has_id id) d) m =
      [row_of key c n]) (List.filter (fun m => negb (has_id id m)) ms)
      (List.filter (fun c => negb (bool_decide (s_id c = id))) cs)) as H by auto.
  clear Hr. intros ms Hin Hf. induction Hf as [|m c ms cs' [-> [n Hj]] Hf IH]; simpl; [constructor|].
  specialize (IH (fun m Hm => Hin m ltac:(by right))).
  change (has_id id (metadata_of key c)) with (bool_decide (s_id c = id)). case_bool_decide as E; simpl; [done|].
  constructor; [|exact IH]. split; [done|]. exists n.
  rewrite joined_delete; [done|done|apply Hin; left|]. by apply bool_decide_eq_false.
Qed.

(** ** One operation *)

Definition outcome (r : res string unit) (b : bool) : Prop :=
  if b then r = Ok tt else exists e, r = Err e.

Lemma outcome_guard b e : outcome (guard b e) b.
Proof. destruct b; simpl; eauto. Qed.

Lemma op_runs_wf op d r d' : runs (run_op op) d r d' -> db_wf d -> db_wf d'.
Proof.
  intros Hr Hwf. pose (w := {| w_tick := 0; w_db := d; w_handles := [] |}).
  destruct (runs_det _ _ _ _ w Hr eq_refl) as [_ <-]. by apply wf_run_op.
Qed.

Lemma runs_committing_Err {A} msg (m : M World string A) d e d1 :
  runs m d (Err e) d1 -> hmac_key_file d1 = hmac_key_file d -> runs (committing msg m) d (Err e) d.
Proof.
  intros Hm Hk w Hw. unfold committing. destruct (runs_bind_Err m (fun a => _ ← io msg; mret a) _ _ _ Hm w Hw) as [t ->].
  exists t. unfold rollback, set_db. simpl. rewrite Hk, Hw. by destruct d.
Qed.

(** From tables that hold some credentials, the computation succeeds or fails as
    [b] says, leaves the rest of the store, and they hold [cs'] then. *)
Definition rearranges (m : M World string unit) (d : Db) (b : bool) (cs' : list StoredCtap2Credential) : Prop :=
  exists r d', runs m d r d' /\ outcome r b /\ same_rest d d' /\ (db_wf d' -> shelved d' cs').

Section shelf.
Context (d : Db) (cs : list StoredCtap2Credential) (H : shelved d cs).

(** Only the credentials change. *)
Lemma shelved_credentials d' cs' :
  same_rest d d' -> represents key d' cs' -> Forall storable cs' -> db_wf d' -> shelved d' cs'.
Proof. intros (E1 & E2 & E3 & E4) Hr Hs Hwf. destruct H. split; try done; congruence. Qed.

Lemma opened {A} (k : M World string A) r d' :
  db_exists d = true -> runs k d r d' -> runs (_ ← open_database; k) d r d'.
Proof.
  intros He Hk. eapply runs_bind; [apply runs_open_database|]. by rewrite set_exists_id.
Qed.

Lemma shelf_sign_count id n : 0 <= n < 2 ^ 32 ->
  rearranges (update_ctap2_sign_count id n) d (known id cs) (amend id (with_sign_count n) <$> cs).
Proof.
  intros Hn. eexists _, _. split; [apply runs_update_sign_count, H|]. rewrite affected_metadata with (1 := H).
  split; [apply outcome_guard|]. split; [done|].
  apply shelved_credentials; [done|apply represents_sign_count, H|].
  apply Forall_amend; [|apply H]. intros c []. by split.
Qed.

Lemma shelf_policy id p :
  rearranges (update_ctap2_policy id p) d (known id cs) (amend id (with_policy p) <$> cs).
Proof.
  eexists _, _. split.
  { apply opened; [apply H|]. eapply runs_bind; [apply runs_io|]. eapply runs_bind; [apply runs_db_get|].
    eapply runs_bind; [apply runs_db_update|apply runs_lift]. }
  rewrite affected_primary with (1 := H). split; [apply outcome_guard|]. split; [done|].
  apply shelved_credentials; [done|apply represents_policy, H|].
  apply Forall_amend; [|apply H]. intros c []. split; simpl; try done. by intros ? [= <-].
Qed.

Lemma shelf_delete id :
  rearranges (delete_ctap2_credential id) d (known id cs)
    (List.filter (fun c => negb (bool_decide (s_id c = id))) cs).
Proof.
  eexists _, _. split.
  { apply opened; [apply H|]. eapply runs_bind; [apply runs_io|]. eapply runs_bind; [apply runs_db_get|].
    eapply runs_bind; [apply runs_db_update|apply runs_lift]. }
  rewrite affected_metadata with (1 := H). split; [apply outcome_guard|]. split; [done|].
  apply shelved_credentials; [done|apply represents_delete; apply H|]. apply Forall_filterb, H.
Qed.

Lemma shelf_save cs' : Forall storable cs' -> NoDup (s_id <$> cs') ->
  rearranges (save_ctap2_credentials cs') d true cs'.
Proof.
  intros Hs Hd. destruct (runs_save key cs' d) as (d' & Hr & Hrest & Hrep); try done; try apply H.
  rewrite set_exists_id in Hrest by apply H. eexists _, _. split; [exact Hr|]. split; [done|].
  split; [done|]. by apply shelved_credentials.
Qed.

Lemma runs_recovery c r priv salt hash k n :
  c ∈ cs -> s_recovery c = Some r -> joined_of d (metadata_of key c) = [row_of key c n] ->
  salt_ok (b64_encode salt) = true -> output_ok hash = true ->
  let r' := new_slot priv salt hash k r in
  let d1 := set_keyslots (update_rows (is_slot (s_id c) Recovery)
                            (set_tpm_key (tpm_key_to_blob (slot_key r'))) (keyslots d)) (next_keyslot_id d) d in
  runs (update_recovery_slot (s_id c) priv salt hash k) d (Ok tt)
    (set_tokens (update_rows (fun t => bool_decide (Some (t_keyslot_id t) = Some (n + 1)))
                   (set_kdf_params (phc r')) (tokens d1)) d1).
Proof.
  intros Hc Er Hj Hs Ho r' d1.
  assert (List.filter (is_slot (s_id c) Recovery) (keyslots d) = [recovery_of c r (n + 1)]) as Hf
    by (rewrite (recovery_slot d c n) by (done || apply H); by rewrite Er).
  assert (recovery_ok r) as Hro
    by (pose proof (sh_storable d cs H) as Hst; rewrite Forall_forall in Hst; by eapply (st_recovery c (Hst c Hc))).
  assert (recovery_ok r') as Hro' by (by destruct Hro).
  unfold update_recovery_slot. apply opened; [apply H|]. eapply runs_bind; [apply runs_io|]. apply runs_committing.
  eapply runs_bind; [apply runs_io|]. eapply runs_bind; [apply runs_db_get|]. rewrite find_by_filter, Hf. simpl.
  eapply runs_bind; [apply runs_lift|]. simpl. rewrite key_from_blob by apply Hro.
  eapply runs_bind; [apply runs_lift|]. eapply runs_bind; [apply runs_io|].
  eapply runs_bind; [apply runs_db_get|]. unfold rows_affected. rewrite Hf.
  eapply runs_bind; [apply runs_db_update|]. eapply runs_bind; [apply runs_lift|].
  rewrite (kdf_params_ok r') by done. eapply runs_bind; [apply runs_lift|].
  eapply runs_bind; [apply runs_io|]. eapply runs_bind; [apply runs_db_get|].
  rewrite find_by_filter. simpl. rewrite filter_update_rows, Hf by done. simpl. rewrite is_slot_refl by done.
  exact (runs_db_update _ d1).
Qed.

Lemma shelf_recovery id priv salt hash k : salt_ok (b64_encode salt) = true -> output_ok hash = true ->
  rearranges (update_recovery_slot id priv salt hash k) d (recoverable id cs)
    (amend id (with_recovery priv salt hash k) <$> cs).
Proof.
  intros Hs Ho. destruct (recoverable id cs) eqn:Hrec.
  - apply recoverable_elem in Hrec as (c & r & Hc & <- & Er).
    destruct (represented _ _ _ (sh_credentials d cs H) Hc) as [n Hj].
    eexists _, _. split; [by eapply runs_recovery|]. split; [done|]. split; [done|].
    apply shelved_credentials; [done|apply represents_recovery; try done; apply H|].
    apply Forall_amend; [|apply H]. intros. by apply storable_recovery.
  - pose proof (no_recovery_slot d cs id H Hrec) as Hf. eexists _, d. split; [|split; [by eexists|split; [done|]]].
    + unfold update_recovery_slot. apply opened; [apply H|]. eapply runs_bind; [apply runs_io|].
      eapply runs_committing_Err; [|done]. eapply runs_bind; [apply runs_io|].
      eapply runs_bind; [apply runs_db_get|]. rewrite find_by_filter, Hf. apply runs_bind_Err, runs_lift.
    + by rewrite amend_unrecoverable.
Qed.
End shelf.

(** From tables that hold [v], the computation does to them what [b] and [v'] say. *)
Definition simulates (m : M World string unit) (d : Db) (b : bool) (v' : Vault) : Prop :=
  exists r d', runs m d r d' /\ outcome r b /\ (db_wf d' -> holds d' v').

Section ops.
Context (d : Db) (v : Vault) (H : holds d v).

(** Only the credentials change. *)
Lemma sim_shelf m b cs : rearranges m d b cs -> simulates m d b (set_v_credentials cs v).
Proof.
  intros (r & d' & Hr & Ho & Hrest & Hs). exists r, d'. split; [done|]. split; [done|]. intros Hwf.
  destruct (Hs Hwf), Hrest as (E1 & E2 & E3 & E4), H. split; simpl; try done; congruence.
Qed.

Lemma sim_save_pin st : 0 <= sp_retries st ->
  simulates (save_client_pin_state st) d (pin_ok st) (if pin_ok st then set_v_pin (Some st) v else v).
Proof.
  intros H0. destruct (pin_ok st) eqn:Hp; unfold pin_ok in Hp.
  - bools. assert (pin_state_ok st) as Hok by (repeat split; done).
    eexists _, _. split; [apply (runs_save_client_pin key); [apply H|done..]|]. split; [done|].
    intros Hwf. pose proof H as []. split; simpl; try done. by intros ? [= <-].
  - eexists _, d. split; [|split; [by eexists|done]]. unfold save_client_pin_state.
    assert (negb (length (sp_pin_salt st) =? 32)%nat || negb (length (sp_pin_verifier st) =? 32)%nat
      || (8 <? sp_retries st) = true) as ->; [|apply runs_throw].
    rewrite Z.ltb_antisym, <- !negb_andb. by rewrite Hp.
Qed.

Lemma sim_delete_pin : simulates delete_client_pin_state d true (set_v_pin None v).
Proof.
  eexists _, _. split; [apply runs_delete_client_pin|]. split; [done|]. intros Hwf. pose proof H as [].
  by split.
Qed.

Lemma sim_policy_default l : Forall (fun i => 0 <= i < 2 ^ 32) l ->
  simulates (save_default_pcr_policy l) d true (set_v_policy l v).
Proof.
  intros Hl. eexists _, _. split.
  { apply opened; [apply H|]. eapply runs_bind; [apply runs_io|apply runs_db_update]. }
  split; [done|]. intros Hwf. pose proof H as []. split; simpl; try done.
  - by rewrite lookup_insert_eq.
  - by intros ? [= <-].
  - by rewrite lookup_insert_ne.
Qed.

Lemma sim_passphrase salt hash k :
  simulates (save_daemon_passphrase salt hash k) d true (set_v_passphrase (salt, hash, k) v).
Proof.
  destruct k. eexists _, _. split.
  { apply opened; [apply H|]. eapply runs_bind; [apply runs_io|apply runs_db_update]. }
  split; [done|]. intros Hwf. pose proof H as []. split; simpl; try done.
  - by rewrite lookup_insert_ne.
  - by rewrite lookup_insert_eq.
Qed.
End ops.

Lemma sim_op op d v : holds d v -> admissible op ->
  exists r d', runs (run_op op) d r d' /\ outcome r (apply_op op v).1 /\ holds d' (apply_op op v).2.
Proof.
  intros H Ha.
  assert (simulates (run_op op) d (apply_op op v).1 (apply_op op v).2) as (r & d' & Hr & Ho & Hh).
  { destruct op; simpl in *; try done.
    - destruct Ha. by eapply sim_shelf, shelf_save; [|apply holds_shelved|..].
    - by apply sim_shelf, shelf_sign_count; [|apply holds_shelved|].
    - by apply sim_shelf, shelf_policy; [|apply holds_shelved].
    - destruct Ha. by apply sim_shelf, shelf_recovery; [|apply holds_shelved|..].
    - by apply sim_shelf, shelf_delete; [|apply holds_shelved].
    - by apply sim_save_pin.
    - by apply sim_delete_pin.
    - by apply sim_policy_default.
    - by apply sim_passphrase. }
  exists r, d'. split_and!; [done|done|]. apply Hh. eapply op_runs_wf; [exact Hr|apply H].
Qed.

Lemma sim_ops ops : forall v w, holds (w_db w) v -> Forall admissible ops ->
  Forall2 outcome (perform ops w).1 (apply_ops ops v).1 /\
  holds (w_db (perform ops w).2) (apply_ops ops v).2.
Proof.
  induction ops as [|op ops IH]; intros v w H Ha; [by split; [constructor|]|].
  apply Forall_cons in Ha as [Ha Has]. destruct (sim_op op (w_db w) v H Ha) as (r & d' & Hr & Ho & H').
  simpl. destruct (runs_det _ _ _ _ w Hr eq_refl) as [E1 E2].
  destruct (run_op op w) as [r1 w1]; simpl in *; subst.
  destruct (apply_op op v) as [b v1]. destruct (IH v1 w1 H' Has) as [IH1 IH2].
  destruct (perform ops w1) as [rs w2], (apply_ops ops v1) as [bs v2]. simpl in *. by split; [constructor|].
Qed.

(** A key file and empty tables hold the empty vault. *)
Lemma holds_empty : holds (set_exists (set_hmac_key_file (Some key) empty_db)) empty_vault.
Proof. split; simpl; try done; try constructor; simpl; try constructor. Qed.
End refine.

(** C10. The tables refine a store of plain values. While the database and the key
    file work ([Healthy]), tables that hold a list of credentials of distinct ids, a client PIN state, a default PCR policy and a daemon passphrase
    go, through any sequence of the operations that change the store, with values that
    can be written ([admissible]), to tables
    that hold what the operations on those plain values give: a save replaces the
    credentials, the updates change one field of the named credential, a deletion
    removes it. An operation succeeds exactly when the credential (or its recovery
    slot) is there and the PIN state is well formed, and never panics; and the
    four loads return what is held. *)
Theorem store_refines_vault {pf : Platform} {hp : Healthy} {cr : Crypto} {sc : StoreCodec}
    {sl : StoreCodecLaws} key ops v w user_id :
  length key = 32%nat -> holds key (w_db w) v -> Forall admissible ops ->
  let '(rs, w') := perform ops w in
  let '(bs, v') := apply_ops ops v in
  Forall2 outcome rs bs /\ holds key (w_db w') v' /\
  (Forall (owner_known user_id) (v_credentials v') ->
     (load_ctap2_credentials user_id w').1 = Ok (loaded key user_id (v_credentials v'))) /\
  (load_client_pin_state w').1 = Ok (pin_with_mac key <$> v_pin v') /\
  (load_default_pcr_policy w').1 = Ok (v_policy v') /\
  (load_daemon_passphrase w').1 = Ok (v_passphrase v').
Proof.
  intros Hl H Ha. destruct (sim_ops key Hl ops v w H Ha) as [Ho H'].
  destruct (perform ops w) as [rs w'], (apply_ops ops v) as [bs v']. simpl in *.
  split_and!; [done|done|..].
  - intros Hu. eapply runs_det; [|done]. apply runs_load_represented; try done; apply H'.
  - eapply runs_det; [by apply load_pin_holds|done].
  - eapply runs_det; [by eapply load_policy_holds|done].
  - eapply runs_det; [by eapply load_passphrase_holds|done].
Qed.

End StoreRefine.
