(* ===== verification/DemoStore.v ===== *)
(** Toy codecs for the witnesses of the store, and the witnesses. Every record is
    encoded as the bits of its number in stdpp's enumeration of the type. *)
From Stdlib Require Import ZArith Lia String Ascii.
From stdpp Require Import base list option strings gmap countable.
From S2P Require Import Prelude Schema Platform Demo Store StoreProps StoreRoundtrip StoreUpdates Integrity StoreRefine.

#[local] Open Scope Z_scope.

Module DemoStore.
Import Demo.

Fixpoint bits (p : positive) : string :=
  match p with
  | xH => ""%string
  | xO p => String "0"%char (bits p)
  | xI p => String "1"%char (bits p)
  end.

Fixpoint unbits (s : string) : positive :=
  match s with
  | EmptyString => xH
  | String c s => if bool_decide (c = "0"%char) then xO (unbits s) else xI (unbits s)
  end.

Lemma unbits_bits p : unbits (bits p) = p.
Proof. induction p as [p IH|p IH|]; simpl; [by rewrite IH..|done]. Qed.

Definition pack {A} `{Countable A} (a : A) : string := bits (encode a).
Definition unpack {A} `{Countable A} (s : string) : option A := decode (unbits s).

Lemma unpack_pack {A} `{Countable A} (a : A) : unpack (pack a) = Some a.
Proof. unfold unpack, pack. by rewrite unbits_bits, decode_encode. Qed.

Definition packz {A} `{Countable A} (a : A) : bytes := [Zpos (encode a)].
Definition unpackz {A} `{Countable A} (b : bytes) : option A :=
  match b with [Zpos p] => decode p | _ => None end.

Lemma unpackz_packz {A} `{Countable A} (a : A) : unpackz (packz a) = Some a.
Proof. apply decode_encode. Qed.

Definition blob_tuple (b : TpmKeyBlob) : bytes * bytes * option bytes :=
  (kb_private b, kb_public b, kb_auth_value b).
Definition tuple_blob (t : bytes * bytes * option bytes) : TpmKeyBlob :=
  let '(a, b, c) := t in {| kb_private := a; kb_public := b; kb_auth_value := c |}.

Definition hash_tuple (p : PasswordHash) : string * option Z * list (string * Z) * option string * option bytes :=
  (ph_algorithm p, ph_version p, ph_params p, ph_salt p, ph_hash p).
Definition tuple_hash (t : string * option Z * list (string * Z) * option string * option bytes) : PasswordHash :=
  let '(a, b, c, d, e) := t in
  {| ph_algorithm := a; ph_version := b; ph_params := c; ph_salt := d; ph_hash := e |}.

#[export] Instance store_codec : StoreCodec := {|
  blob_encode := fun b => packz (blob_tuple b);
  blob_decode := fun b => tuple_blob <$> unpackz b;
  indices_encode := packz; indices_decode := unpackz;
  passphrase_encode := packz; passphrase_decode := unpackz;
  pem_encode := pack;
  pem_decode := fun s => unpack s ≫= fun b : bytes =>
    if p256_valid b then Some (slice 1 33 b, slice 33 65 b) else None;
  b64_encode := pack; b64_decode := unpack;
  salt_ok := fun _ => true; output_ok := fun _ => true;
  phc_print := fun p => pack (hash_tuple p);
  phc_parse := fun s => tuple_hash <$> unpack s |}.

#[export] Instance store_codec_laws : StoreCodecLaws.
Proof.
  split; cbn [blob_encode blob_decode indices_encode indices_decode passphrase_encode passphrase_decode
    pem_encode pem_decode b64_encode b64_decode phc_print phc_parse store_codec]; intros.
  - rewrite unpackz_packz. by destruct b.
  - apply unpackz_packz.
  - apply unpackz_packz.
  - rewrite unpack_pack. cbn [mbind option_bind]. rewrite H. f_equal. f_equal; unfold slice; cbn [drop].
    + rewrite drop_0. apply take_app_length'. lia.
    + change 65%nat with (S 64). change 33%nat with (S 32). cbn [drop].
      rewrite drop_app_length' by done. apply take_ge. lia.
  - apply unpack_pack.
  - rewrite unpack_pack. by destruct p.
Qed.

#[export] Instance healthy p l : @Healthy (platform p l).
Proof. split; [done|done|]. intros t n. eexists. split; [done|]. apply length_be_bytes. Qed.

Definition point (n : Z) : TpmCredential :=
  {| private := [n]; public := [n + 1]; public_key_x := be_bytes 32 n; public_key_y := be_bytes 32 (n + 1);
     auth_value := None |}.

Definition recovery : StoredRecoverySlot :=
  {| label := None; passphrase_salt := be_bytes 32 6; passphrase_hash := be_bytes 32 7;
     kdf := argon2id_default; slot_key := point 40 |}.

Definition policy : StoredPcrPolicy :=
  {| selection := "sha256:7"; digest := be_bytes 32 99; policy_ref := Some [1; 2];
     authority_name := Some [7]; authority_signature := Some (be_bytes 33 3); policy_version := 1 |}.

Definition cred (id : Z) (rp : string) (u : Z) : StoredCtap2Credential :=
  {| s_id := [id]; s_rp_id := rp; s_discoverable := true; s_user_id := Some u; s_user_handle := [9];
     s_user_name := Some "alice"%string; s_user_display_name := None; s_key := point id;
     s_policy := Some policy; s_recovery := Some recovery; s_sign_count := 4; s_integrity_mac := None |}.

Definition hmac_key : bytes := be_bytes 32 12345.
Definition keyed_db : Db := set_hmac_key_file (Some hmac_key) empty_db.
Definition w_keyed : World := {| w_tick := 0; w_db := keyed_db; w_handles := [] |}.

Definition creds : list StoredCtap2Credential := [cred 2 "b.example" 1000; cred 1 "a.example" 1000; cred 3 "a.example" 5].

Lemma storable_cred id rp u : 0 <= u < 2 ^ 32 -> StoreRoundtrip.storable (cred id rp u).
Proof.
  intros Hu. split; simpl; [done| |by intros ? [= <-]|lia|by intros ? [= <-]].
  intros r [= <-]. done.
Qed.

Lemma storable_creds : Forall StoreRoundtrip.storable creds.
Proof. repeat (apply Forall_cons_2; [apply storable_cred; lia|]). constructor. Qed.

(** The world after the credentials were saved. *)
Definition w_saved : World := (Store.save_ctap2_credentials (pf := approving) creds w_keyed).2.

Lemma keyed_wf : StoreProps.db_wf keyed_db.
Proof. split; simpl; constructor. Qed.

Lemma saved_wf : StoreProps.db_wf (w_db w_saved).
Proof. apply StoreProps.wf_save_credentials. exact keyed_wf. Qed.

(** What user 1000 sees of them. *)
Definition seen : list StoredCtap2Credential := StoreRoundtrip.loaded hmac_key (Some 1000) creds.

End DemoStore.

Import Demo DemoStore.

(** ** Witnesses *)

Lemma save_load_roundtrip_witness :
  exists w', Store.save_ctap2_credentials (pf := approving) creds w_keyed = (Ok tt, w') /\
    (Store.load_ctap2_credentials (pf := approving) (Some 1000) w').1 =
      Ok (StoreRoundtrip.loaded hmac_key (Some 1000) creds).
Proof.
  apply (StoreRoundtrip.save_load_roundtrip (pf := approving)).
  - exact keyed_wf.
  - reflexivity.
  - reflexivity.
  - apply storable_creds.
  - apply (bool_decide_unpack _). vm_compute. exact I.
  - do 3 (apply Forall_cons_2; [right; eexists; reflexivity|]). constructor.
Defined.

(** The credentials are saved, one is deleted, and those that are left are saved
    again: the rows are the old ones no more. *)
Lemma store_keeps_constraints_witness :
  let slots ops := keyslots (w_db (StoreProps.run_ops (pf := approving) ops w0)) in
  let first := [StoreProps.SaveCredentials creds] in
  let second := [StoreProps.DeleteCredential [1]; StoreProps.LoadCredentials None] in
  k_keyslot_id <$> slots (first ++ second) = [1; 2; 5; 6] /\
  forall k k', k ∈ slots first ->
    k' ∈ keyslots (w_db (Store.save_ctap2_credentials (pf := approving) creds
                          (StoreProps.run_ops (pf := approving) (first ++ second) w0)).2) ->
    k_keyslot_id k <> k_keyslot_id k'.
Proof.
  intros slots first second. split; [vm_compute; reflexivity|]. intros k k' Hk Hk'.
  destruct (StoreProps.store_keeps_constraints (pf := approving) w0) as (_ & _ & H); [reflexivity|].
  eapply (H first second creds); [|exact Hk|exact Hk'].
  vm_compute. reflexivity.
Defined.

Lemma sign_count_update_persists_witness :
  let '(r, w') := Store.update_ctap2_sign_count (pf := approving) [1] 5 w_saved in
  (r = Ok tt <-> [1] ∈ m_credential_id <$> metadata (w_db w_saved)) /\
  (Store.load_ctap2_credentials (pf := approving) (Some 1000) w').1 =
    Ok (StoreUpdates.count_update [1] 5 <$> seen).
Proof.
  apply (StoreUpdates.sign_count_update_persists (pf := approving) hmac_key (Some 1000) [1] 5 seen w_saved).
  - exact saved_wf.
  - vm_compute. reflexivity.
  - vm_compute. reflexivity.
  - reflexivity.
  - lia.
  - vm_compute. reflexivity.
Defined.

Lemma delete_removes_exactly_one_witness :
  let '(r, w') := Store.delete_ctap2_credential (pf := approving) [2] w_saved in
  (r = Ok tt <-> [2] ∈ m_credential_id <$> metadata (w_db w_saved)) /\
  (Store.load_ctap2_credentials (pf := approving) (Some 1000) w').1 =
    Ok (List.filter (fun c => negb (bool_decide (s_id c = [2]))) seen).
Proof.
  apply (StoreUpdates.delete_removes_exactly_one (pf := approving) hmac_key (Some 1000) [2] seen w_saved).
  - exact saved_wf.
  - vm_compute. reflexivity.
  - vm_compute. reflexivity.
  - reflexivity.
  - vm_compute. reflexivity.
Defined.

Lemma credential_mac_binds_fields_witness :
  s_id (cred 1 "a" 0) = s_id (cred 1 "a" 0) /\ "a"%string = "a"%string.
Proof.
  destruct (StoreUpdates.credential_mac_binds_fields (cred 1 "a" 0)
    (StoreUpdates.with_sign_count 77 (cred 1 "a" 0))) as (H1 & H2 & _).
  - split; vm_compute; split || reflexivity; congruence.
  - split; vm_compute; split || reflexivity; congruence.
  - reflexivity.
  - split; [exact H1|exact H2].
Defined.

Definition saved_cred : StoredCtap2Credential := hd (cred 1 "a.example" 1000) seen.


(** A record with a user handle chosen for it, and one of another user, with another
    name and no handle, whose code in the former format is the code of the first. *)
Definition chosen (discoverable : bool) (u : Z) (handle : bytes) (name : string) : StoredCtap2Credential :=
  {| s_id := [1]; s_rp_id := "a.example"; s_discoverable := discoverable; s_user_id := Some u; s_user_handle := handle;
     s_user_name := Some name; s_user_display_name := None; s_key := point 1;
     s_policy := None; s_recovery := None; s_sign_count := 4; s_integrity_mac := None |}.
Definition c_made : StoredCtap2Credential := chosen false 100 ([0; 3; 232] ++ be_bytes 8 15) "bob".
Definition c_moved : StoredCtap2Credential :=
  chosen true 184550376 []
    (string_of_list_ascii (Ascii.ascii_of_N <$> [0; 0; 0; 100; 0; 0; 0; 0; 0; 0; 0; 3]%N) +:+ "bob").

Example formats_are_confused :
  Store.credential_mac_message c_made = Integrity.legacy_mac_message c_moved /\
  Store.mac_accepted hmac_key c_moved (Store.compute_credential_mac hmac_key c_made) = true.
Proof. split; vm_compute; reflexivity. Qed.

Definition demo_pin : StoredClientPinState :=
  {| sp_pin_salt := be_bytes 32 1; sp_pin_verifier := be_bytes 32 2; sp_retries := 8; sp_integrity_mac := None |}.

Lemma client_pin_roundtrip_witness :
  let '(r, w') := Store.save_client_pin_state (pf := approving) demo_pin w_keyed in
  r = Ok tt /\ (Store.load_client_pin_state (pf := approving) w').1 =
    Ok (Some (StoreUpdates.pin_with_mac hmac_key demo_pin)).
Proof.
  pose proof (StoreUpdates.client_pin_roundtrip (pf := approving) hmac_key demo_pin w_keyed
    eq_refl eq_refl ltac:(simpl; lia)) as H.
  destruct (Store.save_client_pin_state (pf := approving) demo_pin w_keyed) as [r w'].
  rewrite decide_True in H; [exact H|]. split; [reflexivity|]. split; [reflexivity|simpl; lia].
Defined.

Definition w_open : World := {| w_tick := 0; w_db := set_exists keyed_db; w_handles := [] |}.

Definition demo_ops : list StoreProps.StoreOp :=
  [StoreProps.SaveCredentials creds; StoreProps.UpdateSignCount [1] 5; StoreProps.UpdatePolicy [9] policy;
   StoreProps.UpdatePolicy [2] policy; StoreProps.UpdateRecovery [1] [8] [9] [10] (Argon2id 1 2 3);
   StoreProps.DeleteCredential [3]; StoreProps.UpdateRecovery [3] [8] [9] [10] argon2id_default;
   StoreProps.SaveClientPin demo_pin; StoreProps.SaveDefaultPcrPolicy [7; 11];
   StoreProps.SaveDaemonPassphrase [1] [2] argon2id_default].

(** The vault after the operations. *)
Definition demo_vault : StoreRefine.Vault :=
  {| StoreRefine.v_credentials :=
       [StoreRefine.with_policy policy (cred 2 "b.example" 1000);
        StoreRefine.with_recovery [8] [9] [10] (Argon2id 1 2 3)
          (StoreUpdates.with_sign_count 5 (cred 1 "a.example" 1000))];
     StoreRefine.v_pin := Some demo_pin; StoreRefine.v_policy := Some [7; 11];
     StoreRefine.v_passphrase := Some ([1], [2], argon2id_default) |}.

Lemma store_refines_vault_witness :
  let '(rs, w') := StoreRefine.perform (pf := approving) demo_ops w_open in
  Forall2 StoreRefine.outcome rs [true; true; false; true; true; true; false; true; true; true] /\
  (Store.load_ctap2_credentials (pf := approving) None w').1 =
    Ok (StoreRoundtrip.loaded hmac_key None (StoreRefine.v_credentials demo_vault)) /\
  (Store.load_default_pcr_policy (pf := approving) w').1 = Ok (Some [7; 11]).
Proof.
  pose proof (StoreRefine.store_refines_vault (pf := approving) hmac_key demo_ops StoreRefine.empty_vault w_open None
    eq_refl (StoreRefine.holds_empty hmac_key)) as H.
  assert (StoreRefine.apply_ops demo_ops StoreRefine.empty_vault =
    ([true; true; false; true; true; true; false; true; true; true], demo_vault)) as E by (vm_compute; reflexivity).
  rewrite E in H. clear E. destruct (StoreRefine.perform demo_ops w_open) as [rs w'].
  destruct H as (Ho & _ & Hc & _ & Hp & _).
  - unfold demo_ops. repeat (apply Forall_cons_2; [|]); simpl; try (split; reflexivity || lia); try exact I; try lia.
    + split; [apply storable_creds|apply (bool_decide_unpack _); vm_compute; exact I].
    + repeat (apply Forall_cons_2; [lia|]). constructor.
    + constructor.
  - split; [exact Ho|]. split; [|exact Hp]. apply Hc. repeat (apply Forall_cons_2; [left; reflexivity|]). constructor.
Defined.
