(* ===== verification/Ctap2Types.v ===== *)
(** The data of the authenticator and the functions of [src/src/ctap2.rs] that
    neither change state nor call the outside. *)
From Stdlib Require Import ZArith Lia String.
From stdpp Require Import base list option strings.
From S2P Require Import Prelude Schema Platform Cbor Session Tpm.

#[local] Open Scope Z_scope.

Module Ctap2Types.

(** ** Constants *)

Definition PIN_UV_AUTH_PROTOCOL : Z := 2.
Definition PIN_RETRIES : Z := 8.
Definition PIN_KDF_ROUNDS : Z := 100000.
Definition MAX_RESIDENT_CREDENTIALS : Z := 128.
Definition COSE_ALG_ES256 : Z := -7.
Definition AAGUID : bytes :=
  [0x6c; 0x74; 0x70; 0x6d; 0xf1; 0xd0; 0x42; 0x00; 0x80; 0x01; 0x54; 0x50; 0x4d; 0x46; 0x49; 0x44].

(** Durations, in nanoseconds. *)
Definition from_secs (n : Z) : Z := n * 10 ^ 9.

(** ** Permissions *)

(** [Ctap2PermissionFlags]: the bits of a [u8]. *)
Definition MAKE_CREDENTIAL : Z := 1.
Definition GET_ASSERTION : Z := 2.
Definition CREDENTIAL_MANAGEMENT : Z := 4.

Definition all_permissions : Z := Z.lor (Z.lor MAKE_CREDENTIAL GET_ASSERTION) CREDENTIAL_MANAGEMENT.

(** [from_bits], [contains] and [is_empty] of the bitflags *)
Definition from_bits (v : Z) : option Z :=
  if Z.land v (Z.lnot all_permissions) =? 0 then Some v else None.
Definition contains (flags p : Z) : bool := Z.land flags p =? p.
Definition is_empty (flags : Z) : bool := flags =? 0.

(** ** Commands and statuses *)

Inductive Ctap2Command :=
| MakeCredential | GetAssertion | GetInfo | ClientPin | GetNextAssertion | Reset
| CredentialManagement | Selection | BioEnrollment | LargeBlobs | Config
| BioEnrollmentPreview | CredentialManagementPreview.

#[export] Instance Ctap2Command_eq_dec : EqDecision Ctap2Command.
Proof. solve_decision. Defined.

Definition command_of_u8 (value : Z) : option Ctap2Command :=
  match value with
  | 0x01 => Some MakeCredential
  | 0x02 => Some GetAssertion
  | 0x04 => Some GetInfo
  | 0x06 => Some ClientPin
  | 0x07 => Some Reset
  | 0x08 => Some GetNextAssertion
  | 0x09 => Some BioEnrollment
  | 0x0a => Some CredentialManagement
  | 0x0b => Some Selection
  | 0x0c => Some LargeBlobs
  | 0x0d => Some Config
  | 0x40 => Some BioEnrollmentPreview
  | 0x41 => Some CredentialManagementPreview
  | _ => None
  end.

Definition u8_of_command (c : Ctap2Command) : Z :=
  match c with
  | MakeCredential => 0x01 | GetAssertion => 0x02 | GetInfo => 0x04 | ClientPin => 0x06
  | GetNextAssertion => 0x08 | Reset => 0x07 | CredentialManagement => 0x0a | Selection => 0x0b
  | BioEnrollment => 0x09 | LargeBlobs => 0x0c | Config => 0x0d | BioEnrollmentPreview => 0x40
  | CredentialManagementPreview => 0x41
  end.

Definition command_name (c : Ctap2Command) : string :=
  match c with
  | MakeCredential => "authenticatorMakeCredential"
  | GetAssertion => "authenticatorGetAssertion"
  | GetNextAssertion => "authenticatorGetNextAssertion"
  | GetInfo => "authenticatorGetInfo"
  | ClientPin => "authenticatorClientPIN"
  | CredentialManagement | CredentialManagementPreview => "authenticatorCredentialManagement"
  | Reset => "authenticatorReset"
  | Selection => "authenticatorSelection"
  | BioEnrollment | BioEnrollmentPreview => "authenticatorBioEnrollment"
  | LargeBlobs => "authenticatorLargeBlobs"
  | Config => "authenticatorConfig"
  end.

Inductive ErrorStatus :=
| InvalidCommand | InvalidParameter | InvalidCbor | MissingParameter | CredentialExcluded
| UnsupportedAlgorithm | OperationDenied | UnsupportedOption | NoCredentials | PinInvalid
| PinBlocked | PinAuthInvalid | PinNotSet | PinPolicyViolation.

#[export] Instance ErrorStatus_eq_dec : EqDecision ErrorStatus.
Proof. solve_decision. Defined.

Definition u8_of_status (s : ErrorStatus) : Z :=
  match s with
  | InvalidCommand => 0x01 | InvalidParameter => 0x02 | InvalidCbor => 0x12
  | MissingParameter => 0x14 | CredentialExcluded => 0x19 | UnsupportedAlgorithm => 0x26
  | OperationDenied => 0x27 | UnsupportedOption => 0x2b | NoCredentials => 0x2e
  | PinInvalid => 0x31 | PinBlocked => 0x32 | PinAuthInvalid => 0x33 | PinNotSet => 0x35
  | PinPolicyViolation => 0x37
  end.

Definition error_response (status : ErrorStatus) : bytes := [u8_of_status status].

(** ** State *)

Record ClientPinState := { pin_salt : bytes; pin_verifier_ : bytes; retries : Z }.

Record PinUvAuthToken := {
  token_value : bytes; permissions : Z; token_rp_id : option string; issued_at : Z }.

Record ManagementState := {
  rp_indexes : list nat; rp_position : nat; credential_indexes : list nat;
  credential_position : nat; mgmt_session_uid : option Z; mgmt_created_at : Z }.

Record PendingAssertion := {
  pa_rp_id : string; pa_client_data_hash : bytes; pa_credential_indexes : list nat;
  total_credentials : nat; pa_created_at : Z; pa_session_uid : option Z; pa_user_verified : bool }.

Record Credential := {
  c_id : bytes; c_rp_id : string; c_discoverable : bool; c_user_id : option Z;
  c_user_handle : bytes; c_user_name : option string; c_user_display_name : option string;
  c_key : TpmCredential; c_policy : option StoredPcrPolicy; c_recovery : option StoredRecoverySlot;
  c_sign_count : Z }.

(** [Authenticator]; the store directory is the one of the world. *)
Record Authenticator := {
  tpm_path : option string;
  tpm : option Tpm.Tpm;
  session : Session.SessionContext;
  credentials : list Credential;
  pending_assertion : option PendingAssertion;
  client_pin : option ClientPinState;
  key_agreement : option bytes;
  pin_uv_auth_token : option PinUvAuthToken;
  management : option ManagementState }.

Definition set_tpm (x : option Tpm.Tpm) (a : Authenticator) : Authenticator :=
  {| tpm_path := tpm_path a; tpm := x; session := session a; credentials := credentials a;
     pending_assertion := pending_assertion a; client_pin := client_pin a;
     key_agreement := key_agreement a; pin_uv_auth_token := pin_uv_auth_token a;
     management := management a |}.
Definition set_credentials (x : list Credential) (a : Authenticator) : Authenticator :=
  {| tpm_path := tpm_path a; tpm := tpm a; session := session a; credentials := x;
     pending_assertion := pending_assertion a; client_pin := client_pin a;
     key_agreement := key_agreement a; pin_uv_auth_token := pin_uv_auth_token a;
     management := management a |}.
Definition set_pending_assertion (x : option PendingAssertion) (a : Authenticator) : Authenticator :=
  {| tpm_path := tpm_path a; tpm := tpm a; session := session a; credentials := credentials a;
     pending_assertion := x; client_pin := client_pin a;
     key_agreement := key_agreement a; pin_uv_auth_token := pin_uv_auth_token a;
     management := management a |}.
Definition set_client_pin (x : option ClientPinState) (a : Authenticator) : Authenticator :=
  {| tpm_path := tpm_path a; tpm := tpm a; session := session a; credentials := credentials a;
     pending_assertion := pending_assertion a; client_pin := x;
     key_agreement := key_agreement a; pin_uv_auth_token := pin_uv_auth_token a;
     management := management a |}.
Definition set_key_agreement (x : option bytes) (a : Authenticator) : Authenticator :=
  {| tpm_path := tpm_path a; tpm := tpm a; session := session a; credentials := credentials a;
     pending_assertion := pending_assertion a; client_pin := client_pin a;
     key_agreement := x; pin_uv_auth_token := pin_uv_auth_token a; management := management a |}.
Definition set_token (x : option PinUvAuthToken) (a : Authenticator) : Authenticator :=
  {| tpm_path := tpm_path a; tpm := tpm a; session := session a; credentials := credentials a;
     pending_assertion := pending_assertion a; client_pin := client_pin a;
     key_agreement := key_agreement a; pin_uv_auth_token := x; management := management a |}.
Definition set_management (x : option ManagementState) (a : Authenticator) : Authenticator :=
  {| tpm_path := tpm_path a; tpm := tpm a; session := session a; credentials := credentials a;
     pending_assertion := pending_assertion a; client_pin := client_pin a;
     key_agreement := key_agreement a; pin_uv_auth_token := pin_uv_auth_token a;
     management := x |}.

Definition with_sign_count (n : Z) (c : Credential) : Credential :=
  {| c_id := c_id c; c_rp_id := c_rp_id c; c_discoverable := c_discoverable c;
     c_user_id := c_user_id c; c_user_handle := c_user_handle c; c_user_name := c_user_name c;
     c_user_display_name := c_user_display_name c; c_key := c_key c; c_policy := c_policy c;
     c_recovery := c_recovery c; c_sign_count := n |}.

Definition with_user (handle : bytes) (name display_name : option string) (c : Credential) : Credential :=
  {| c_id := c_id c; c_rp_id := c_rp_id c; c_discoverable := c_discoverable c;
     c_user_id := c_user_id c; c_user_handle := handle; c_user_name := name;
     c_user_display_name := display_name; c_key := c_key c; c_policy := c_policy c;
     c_recovery := c_recovery c; c_sign_count := c_sign_count c |}.

(** The conversions between the stored and the live record. *)
Definition credential_of_stored (s : StoredCtap2Credential) : Credential :=
  {| c_id := s_id s; c_rp_id := s_rp_id s; c_discoverable := s_discoverable s;
     c_user_id := s_user_id s; c_user_handle := s_user_handle s; c_user_name := s_user_name s;
     c_user_display_name := s_user_display_name s; c_key := s_key s; c_policy := s_policy s;
     c_recovery := s_recovery s; c_sign_count := s_sign_count s |}.

Definition stored_of_credential (c : Credential) : StoredCtap2Credential :=
  {| s_id := c_id c; s_rp_id := c_rp_id c; s_discoverable := c_discoverable c;
     s_user_id := c_user_id c; s_user_handle := c_user_handle c; s_user_name := c_user_name c;
     s_user_display_name := c_user_display_name c; s_key := c_key c; s_policy := c_policy c;
     s_recovery := c_recovery c; s_sign_count := c_sign_count c; s_integrity_mac := None |}.

(** ** Request validation *)

Abbreviation cbor_map := (list (Value * Value)).

Definition decode_map {codec : CborCodec} (body : bytes) : res ErrorStatus cbor_map :=
  match cbor_decode body with
  | Some (VMap map) => Ok map
  | _ => Err InvalidCbor
  end.

Definition validate_pin_uv_protocol (protocol : option Z) : res ErrorStatus unit :=
  match protocol ≫= try_u64 with
  | Some v => if v =? PIN_UV_AUTH_PROTOCOL then Ok tt else Err InvalidParameter
  | None => Err MissingParameter
  end.

(** [Value::as_integer] converted to an [i64] *)
Definition try_i64 (z : Z) : option Z := if (- 2 ^ 63 <=? z) && (z <? 2 ^ 63) then Some z else None.

Definition supports_es256 (v : Value) : bool :=
  match v with
  | VMap map =>
      bool_decide (map_text map "type"%string = Some "public-key"%string)
      && bool_decide ((map_integer map "alg"%string ≫= try_i64) = Some COSE_ALG_ES256)
  | _ => false
  end.

Definition validate_common_options (options : option cbor_map) (reject_user_presence_false : bool)
    : res ErrorStatus unit :=
  match options with
  | None => Ok tt
  | Some options =>
      if bool_decide (map_bool options "up"%string = Some false)
         && (reject_user_presence_false && negb (bool_decide (map_bool options "uv"%string = Some true)))
      then Err UnsupportedOption
      else Ok tt
  end.

Definition validate_resident_key_options (options : option cbor_map) : res ErrorStatus unit :=
  match options with
  | None => Ok tt
  | Some options =>
      match map_text options "residentKey"%string with
      | Some resident_key =>
          if bool_decide (resident_key ∈ ["discouraged"; "preferred"; "required"]%string) then Ok tt
          else Err InvalidCbor
      | None => Ok tt
      end
  end.

Definition validate_make_credential_options (options : option cbor_map) : res ErrorStatus unit :=
  _ ← validate_common_options options false;
  _ ← validate_resident_key_options options;
  Ok tt.

Definition validate_get_assertion_options (options : option cbor_map) : res ErrorStatus unit :=
  validate_common_options options false.

Definition validate_attestation_conveyance (attestation : option string) : res ErrorStatus unit :=
  match attestation with
  | None => Ok tt
  | Some a =>
      if bool_decide (a ∈ ["none"; "indirect"; "direct"; "enterprise"]%string) then Ok tt
      else Err InvalidCbor
  end.

Definition validate_client_data_hash (client_data_hash : bytes) : res ErrorStatus unit :=
  if negb (length client_data_hash =? 32)%nat then Err InvalidCbor else Ok tt.

Definition valid_descriptor (entry : Value) : bool :=
  match entry with
  | VMap map =>
      bool_decide (map_text map "type"%string = Some "public-key"%string)
      && bool_decide (is_Some (map_bytes map "id"%string))
  | _ => false
  end.

Definition validate_credential_descriptor_list (list : option (list Value)) : res ErrorStatus unit :=
  match list with
  | None => Ok tt
  | Some list => if forallb valid_descriptor list then Ok tt else Err InvalidCbor
  end.

(** ** Choosing credentials *)

Definition credential_descriptor_list_contains (list : list Value) (credential_id : bytes) : bool :=
  existsb (fun entry =>
    match entry with
    | VMap map =>
        bool_decide (map_text map "type"%string = Some "public-key"%string)
        && bool_decide (map_bytes map "id"%string = Some credential_id)
    | _ => false
    end) list.

Definition excluded_credential_exists (credentials : list Credential) (rp_id : string)
    (exclude_list : option (list Value)) : bool :=
  match exclude_list with
  | None => false
  | Some exclude_list =>
      existsb (fun c => bool_decide (c_rp_id c = rp_id)
                        && credential_descriptor_list_contains exclude_list (c_id c)) credentials
  end.

Definition allow_list_allows (allow_list : option (list Value)) (credential_id : bytes) : bool :=
  match allow_list with
  | None | Some [] => true
  | Some allow_list => credential_descriptor_list_contains allow_list credential_id
  end.

(** The filter of [matching_credential_indexes]. *)
Definition credential_matches (rp_id : string) (allow_list : option (list Value)) (c : Credential) : bool :=
  if negb (bool_decide (c_rp_id c = rp_id)) then false
  else match allow_list with
  | Some ((_ :: _) as list) => allow_list_allows (Some list) (c_id c)
  | _ => c_discoverable c
  end.

Definition matching_credential_indexes (credentials : list Credential) (rp_id : string)
    (allow_list : option (list Value)) : list nat :=
  fst <$> List.filter (fun '(_, c) => credential_matches rp_id allow_list c) (enumerate credentials).

(** The loop of [enumerate_rps_begin]: the first discoverable credential of every
    relying party. *)
Fixpoint rp_indexes_from (credentials : list Credential) (rest : list (nat * Credential))
    (acc : list nat) : list nat :=
  match rest with
  | [] => acc
  | (index, credential) :: rest =>
      if c_discoverable credential
         && negb (existsb (fun existing =>
              bool_decide ((c_rp_id <$> credentials !! existing) = Some (c_rp_id credential))) acc)
      then rp_indexes_from credentials rest (acc ++ [index])
      else rp_indexes_from credentials rest acc
  end.

Definition discoverable_rp_indexes (credentials : list Credential) : list nat :=
  rp_indexes_from credentials (enumerate credentials) [].

(** The loop of [enumerate_credentials_begin]. *)
Definition rp_hash_indexes {cr : Crypto} (credentials : list Credential) (rp_hash : bytes) : list nat :=
  fst <$> List.filter (fun '(_, c) =>
    c_discoverable c && bool_decide (sha256 (as_bytes (c_rp_id c)) = rp_hash)) (enumerate credentials).

(** ** PIN protocol 2 *)

Section crypto.
Context {cr : Crypto}.

Definition parse_key_agreement (map : cbor_map) : res ErrorStatus bytes :=
  kty ← ok_or (map_integer map 1) InvalidParameter;
  alg ← ok_or (map_integer map 3) InvalidParameter;
  crv ← ok_or (map_integer map (-1)) InvalidParameter;
  x ← ok_or (map_bytes map (-2)) InvalidParameter;
  y ← ok_or (map_bytes map (-3)) InvalidParameter;
  if negb (kty =? 2) || negb (alg =? -25) || negb (crv =? 1)
     || negb (length x =? 32)%nat || negb (length y =? 32)%nat then Err InvalidParameter
  else
    let encoded := 0x04 :: x ++ y in
    if p256_valid encoded then Ok encoded else Err InvalidParameter.

Definition derive_protocol2_keys (shared_secret : bytes) : option (bytes * bytes) :=
  aes_key ← hkdf_sha256 (repeat 0 32) shared_secret (as_bytes "CTAP2 AES key") 32;
  hmac_key ← hkdf_sha256 (repeat 0 32) shared_secret (as_bytes "CTAP2 HMAC key") 32;
  Some (aes_key, hmac_key).

Definition verify_pin_uv_auth_param (hmac_key auth_param message : bytes) : res ErrorStatus unit :=
  if negb (length auth_param =? 16)%nat && negb (length auth_param =? 32)%nat then Err PinAuthInvalid
  else
    let expected := hmac_sha256 hmac_key message in
    if constant_time_equal (take (length auth_param) expected) auth_param then Ok tt
    else Err PinAuthInvalid.

Definition compute_pin_uv_auth_param (mac_key message : bytes) : bytes :=
  take 16 (hmac_sha256 mac_key message).

Definition decrypt_aes (key ciphertext : bytes) : res ErrorStatus bytes :=
  if (length ciphertext <? 16)%nat || negb (length ciphertext mod 16 =? 0)%nat then Err InvalidParameter
  else Ok (aes256_cbc_decrypt key (take 16 ciphertext) (drop 16 ciphertext)).

Definition decrypt_pin (key encrypted : bytes) : res ErrorStatus bytes :=
  decrypted ← decrypt_aes key encrypted;
  match position (fun byte => byte =? 0) decrypted with
  | None => Ok decrypted
  | Some first_zero =>
      if existsb (fun byte => negb (byte =? 0)) (drop first_zero decrypted) then Err PinPolicyViolation
      else Ok (take first_zero decrypted)
  end.

Definition decrypt_pin_hash (key encrypted : bytes) : res ErrorStatus bytes :=
  decrypted ← decrypt_aes key encrypted;
  if negb (length decrypted =? 16)%nat then Err InvalidParameter else Ok decrypted.

Definition validate_new_pin (pin : bytes) : res ErrorStatus unit :=
  if negb ((4 <=? length pin) && (length pin <=? 63))%nat || bool_decide (0 ∈ pin)
  then Err PinPolicyViolation else Ok tt.

Definition pin_verifier (salt pin_hash : bytes) : bytes :=
  pbkdf2_hmac_sha256 pin_hash salt PIN_KDF_ROUNDS 32.

(** ** Responses *)

Definition cose_public_key_coordinates (x y : bytes) : Value :=
  VMap [(VInteger 1, VInteger 2); (VInteger 3, VInteger COSE_ALG_ES256); (VInteger (-1), VInteger 1);
        (VInteger (-2), VBytes x); (VInteger (-3), VBytes y)].

Definition cose_key_agreement_coordinates (x y : bytes) : Value :=
  VMap [(VInteger 1, VInteger 2); (VInteger 3, VInteger (-25)); (VInteger (-1), VInteger 1);
        (VInteger (-2), VBytes x); (VInteger (-3), VBytes y)].

Definition cose_credential_public_key (key : TpmCredential) : Value :=
  cose_public_key_coordinates (public_key_x key) (public_key_y key).

Definition cred_props_extension (discoverable : bool) : Value :=
  VMap [(VText "credProps", VMap [(VText "rk", VBool discoverable)])].

Definition display_rp_label (rp_name : option string) (rp_id : string) : string :=
  match rp_name with
  | Some name => if negb (bool_decide (name = rp_id)) then (name +:+ " (" +:+ rp_id +:+ ")")%string else rp_id
  | None => rp_id
  end.

Context {codec : CborCodec}.

Definition make_auth_data (rp_id : string) (flags sign_count : Z)
    (attested_credential_data : option (bytes * Value)) (extensions : option Value) : bytes :=
  sha256 (as_bytes rp_id)
  ++ [Z.lor flags (match extensions with Some _ => 0x80 | None => 0x00 end)]
  ++ be_bytes 4 sign_count
  ++ match attested_credential_data with
     | Some (credential_id, public_key) =>
         AAGUID ++ be_bytes 2 (u16 (Z.of_nat (length credential_id))) ++ credential_id
         ++ cbor_encode public_key
     | None => []
     end
  ++ match extensions with Some e => cbor_encode e | None => [] end.

Definition key_agreement_response (secret : bytes) : res ErrorStatus bytes :=
  let public_key := p256_public_key secret in
  if (length public_key <? 65)%nat then Panic
  else Ok (encode_response
    (VMap [(VInteger 1, cose_key_agreement_coordinates (slice 1 33 public_key) (slice 33 65 public_key))])).

Definition get_info_response (client_pin : bool) : bytes :=
  encode_response (VMap
    [(VInteger 1, VArray [VText "FIDO_2_1"; VText "FIDO_2_0"]);
     (VInteger 2, VArray [VText "credProps"]);
     (VInteger 3, VBytes AAGUID);
     (VInteger 4, VMap
       [(VText "plat", VBool false); (VText "rk", VBool true); (VText "up", VBool true);
        (VText "uv", VBool false); (VText "clientPin", VBool client_pin);
        (VText "pinUvAuthToken", VBool true); (VText "credMgmt", VBool true)]);
     (VInteger 6, VArray [VInteger PIN_UV_AUTH_PROTOCOL]);
     (VInteger 5, VInteger 1200);
     (VInteger 9, VArray [VText "usb"]);
     (VInteger 10, VArray [VMap [(VText "type", VText "public-key");
                                 (VText "alg", VInteger COSE_ALG_ES256)]])]).

(** [if let Some(x) = field { entries.push((key, x)) }] *)
Definition opt_entry (key : string) (field : option string) : cbor_map :=
  match field with Some x => [(VText key, VText x)] | None => [] end.
Definition opt_total (key : Z) (total : option nat) : cbor_map :=
  match total with Some n => [(VInteger key, VInteger (Z.of_nat n))] | None => [] end.

Definition encode_rp_response (credential : Credential) (total : option nat) : bytes :=
  let rp := [(VText "id", VText (c_rp_id credential)); (VText "name", VText (c_rp_id credential))] in
  encode_response (VMap
    ([(VInteger 1, VMap rp); (VInteger 2, VBytes (sha256 (as_bytes (c_rp_id credential))))]
     ++ opt_total 3 total)).

Definition encode_credential_management_response (credential : Credential) (total : option nat) : bytes :=
  let user := [(VText "id", VBytes (c_user_handle credential))]
              ++ opt_entry "name" (c_user_name credential)
              ++ opt_entry "displayName" (c_user_display_name credential) in
  encode_response (VMap
    ([(VInteger 1, VMap user);
      (VInteger 2, VMap [(VText "type", VText "public-key"); (VText "id", VBytes (c_id credential))]);
      (VInteger 3, cose_credential_public_key (c_key credential))]
     ++ opt_total 4 total)).

Definition encode_assertion_response (credential_id auth_data signature : bytes) (user : cbor_map)
    (total_credentials : nat) : bytes :=
  encode_response (VMap
    ([(VInteger 1, VMap [(VText "type", VText "public-key"); (VText "id", VBytes credential_id)]);
      (VInteger 2, VBytes auth_data); (VInteger 3, VBytes signature); (VInteger 4, VMap user)]
     ++ opt_total 5 (if (1 <? total_credentials)%nat then Some total_credentials else None))).

(** The user entry of an assertion: names only after user verification. *)
Definition assertion_user (user_verified : bool) (c : Credential) : cbor_map :=
  [(VText "id", VBytes (c_user_handle c))]
  ++ (if user_verified then opt_entry "name" (c_user_name c)
                            ++ opt_entry "displayName" (c_user_display_name c) else []).
End crypto.

End Ctap2Types.
