(* ===== verification/Ctap2.v ===== *)
(** The CTAP2 authenticator: the methods of [Authenticator] in
    [src/src/ctap2.rs], as computations on the authenticator and the world. An
    error is the status the client gets; a mutation made before it stays. *)
From Stdlib Require Import ZArith Lia String.
From stdpp Require Import base list option strings pretty.
From S2P Require Import Prelude Schema Platform Cbor Session Tpm Store Ctap2Types.

#[local] Open Scope Z_scope.

Module Ctap2.
Export Ctap2Types.

(** ** The state and how the handlers reach it *)

Record St := { auth : Authenticator; world : World }.

Definition set_auth (a : Authenticator) (s : St) : St := {| auth := a; world := world s |}.
Definition set_world (w : World) (s : St) : St := {| auth := auth s; world := w |}.

Definition on_world {E A} (m : M World E A) : M St E A := fun s =>
  let '(r, w) := m (world s) in (r, set_world w s).

Definition field {E A} (f : Authenticator -> A) : M St E A := gets (fun s => f (auth s)).
Definition update {E} (f : Authenticator -> Authenticator) : M St E unit :=
  modify (fun s => set_auth (f (auth s)) s).

(** A call whose failure the handler inspects. *)
Definition call {E A} (m : M World string A) : M St E (res string A) := on_world (attempt m).

(** [m.map_err(|_| e)?] *)
Definition or_fail {A} (e : ErrorStatus) (m : M World string A) : M St ErrorStatus A :=
  r ← call m; match r with Ok a => mret a | _ => throw e end.

(** [if cond { return Err(e) }] *)
Definition deny_if (b : bool) (e : ErrorStatus) : M St ErrorStatus unit :=
  if b then throw e else mret tt.

Section ctap2.
Context {pf : Platform} {cr : Crypto} {codec : CborCodec} {es : Esapi} {sc : StoreCodec}.
Context (overflow_checks : bool).

(** [Instant::now()] and [elapsed()], which is never negative *)
Definition instant_now {E} : M St E Z := t ← on_world next; mret (now t).
Definition elapsed {E} (since : Z) : M St E Z := n ← instant_now; mret (Z.max 0 (n - since)).

Definition fill_random {E} (len : nat) : M St E bytes :=
  t ← on_world next; match getrandom t len with Some b => mret b | None => panic end.

Definition encrypt_aes (key plaintext : bytes) : M St ErrorStatus bytes :=
  if (length plaintext =? 0)%nat || negb (length plaintext mod 16 =? 0)%nat then throw InvalidParameter
  else iv ← fill_random 16; mret (iv ++ aes256_cbc_encrypt key iv plaintext).

(** [&self.credentials[index]] *)
Definition credential_at {E} (index : nat) : M St E Credential :=
  cs ← field credentials; match cs !! index with Some c => mret c | None => panic end.

(** [self.session.verify_matches_current()] *)
Definition session_matches {E} : M St E bool :=
  s ← field session; on_world (Session.verify_matches_current s).

Definition session_approves {E} (prompt : string) : M St E bool :=
  s ← field session; on_world (Session.approve prompt s).

Definition session_uid {E} : M St E (option Z) := field (fun a => Session.uid (session a)).

Definition assertion_approved {E} (rp_id : string) : M St E bool :=
  b ← session_matches;
  if negb b then mret false
  else
    b ← session_approves ("Authenticate with passkey for " +:+ rp_id)%string;
    if negb b then mret false
    else session_matches.

(** ** Construction and persistence *)

Definition load_credentials_from_disk {E} (uid : option Z) : M World E (list Credential) :=
  r ← attempt (Store.load_ctap2_credentials uid);
  mret (match r with Ok l => map credential_of_stored l | _ => [] end).

Definition new {E} (path : option string) : M World E Authenticator :=
  session ← Session.detect;
  credentials ← load_credentials_from_disk (Session.uid session);
  r ← attempt Store.load_client_pin_state;
  let client_pin := match r with
    | Ok (Some state) => Some {| pin_salt := sp_pin_salt state; pin_verifier_ := sp_pin_verifier state;
                                 retries := sp_retries state |}
    | _ => None
    end in
  mret {| tpm_path := path; tpm := None; session := session; credentials := credentials;
          pending_assertion := None; client_pin := client_pin; key_agreement := None;
          pin_uv_auth_token := None; management := None |}.

Definition save_credentials {E} : M St E unit :=
  cs ← field credentials;
  _ ← call (Store.save_ctap2_credentials (map stored_of_credential cs));
  mret tt.

Definition persist_client_pin (state : ClientPinState) : M St ErrorStatus unit :=
  or_fail OperationDenied (Store.save_client_pin_state
    {| sp_pin_salt := pin_salt state; sp_pin_verifier := pin_verifier_ state;
       sp_retries := retries state; sp_integrity_mac := None |}).

(** The loop of [ensure_tpm]: at most [attempts] tries. *)
Fixpoint open_tpm {E} (attempts : nat) (path : string) (pcr_indices : option (list Z))
    : M St E (option Tpm.Tpm) :=
  match attempts with
  | O => field tpm
  | S attempts =>
      r ← call (Tpm.open overflow_checks path pcr_indices);
      match r with
      | Ok t => _ ← update (set_tpm (Some t)); field tpm
      | _ => match attempts with O => mret None | _ => open_tpm attempts path pcr_indices end
      end
  end.

Definition ensure_tpm {E} : M St E (option Tpm.Tpm) :=
  t ← field tpm;
  match t with
  | Some t => mret (Some t)
  | None =>
      path ← field tpm_path;
      match path with
      | None => mret None
      | Some path =>
          r ← call Store.load_default_pcr_policy;
          let pcr_indices := match r with Ok i => i | _ => None end in
          open_tpm 100 path pcr_indices
      end
  end.

Definition binding_of_policy (p : StoredPcrPolicy) : PcrPolicyBinding :=
  {| b_selection := selection p; b_digest := digest p; b_policy_ref := policy_ref p;
     b_authority_name := authority_name p; b_authority_signature := authority_signature p |}.

Definition policy_of_binding (b : PcrPolicyBinding) : StoredPcrPolicy :=
  {| selection := b_selection b; digest := b_digest b; policy_ref := b_policy_ref b;
     authority_name := b_authority_name b; authority_signature := b_authority_signature b;
     policy_version := current_version |}.

Definition sign_credential (key : TpmCredential) (policy : option StoredPcrPolicy)
    (authority : option StoredRecoverySlot) (signed_data : bytes) : M St string bytes :=
  if match policy with Some p => negb (is_version_supported (policy_version p)) | None => false end
  then throw ("unsupported policy version " +:+ pretty (default 0 (policy_version <$> policy)))%string
  else
    t ← ensure_tpm;
    match t with
    | None => throw "TPM credential requires TPM context"%string
    | Some t =>
        on_world (Tpm.sign_digest_with_policy t key (binding_of_policy <$> policy)
                    (slot_key <$> authority) (sha256 signed_data))
    end.

(** ** User verification *)

Definition validate_pin_uv_auth (protocol : option Z) (auth_param : option bytes) (message : bytes)
    (permission : Z) (rp_id : option string) : M St ErrorStatus bool :=
  b ← session_matches;
  if negb b then throw OperationDenied
  else if bool_decide (protocol = None) && bool_decide (auth_param = None) then mret false
  else
    _ ← lift (validate_pin_uv_protocol protocol);
    auth_param ← lift (ok_or auth_param MissingParameter);
    token ← field pin_uv_auth_token;
    token ← match token with
            | Some t => e ← elapsed (issued_at t); mret (if e <=? from_secs 600 then Some t else None)
            | None => mret None
            end;
    let invalid := _ ← update (set_token None); throw PinAuthInvalid in
    match token with
    | None => invalid
    | Some token =>
        if negb (contains (permissions token) permission)
           || match token_rp_id token with
              | Some token_rp_id => negb (bool_decide (Some token_rp_id = rp_id))
              | None => false
              end then invalid
        else if negb (length auth_param =? 16)%nat && negb (length auth_param =? 32)%nat then invalid
        else
          let expected := hmac_sha256 (token_value token) message in
          if constant_time_equal (take (length auth_param) expected) auth_param then mret true
          else invalid
    end.

Definition pin_uv_keys (key_agreement_param : option cbor_map) : M St ErrorStatus (bytes * bytes) :=
  client_key ← lift (ok_or key_agreement_param MissingParameter);
  client_key ← lift (parse_key_agreement client_key);
  secret ← field key_agreement;
  secret ← lift (ok_or secret InvalidCommand);
  lift (ok_or (derive_protocol2_keys (p256_ecdh secret client_key)) OperationDenied).

Definition with_retries (n : Z) (p : ClientPinState) : ClientPinState :=
  {| pin_salt := pin_salt p; pin_verifier_ := pin_verifier_ p; retries := n |}.

Definition authenticate_pin (pin_hash : bytes) : M St ErrorStatus unit :=
  if negb (length pin_hash =? 16)%nat then throw InvalidParameter
  else
    pin ← field client_pin;
    match pin with
    | None => throw PinNotSet
    | Some pin =>
        if retries pin =? 0 then throw PinBlocked
        else
          let candidate := pin_verifier (pin_salt pin) pin_hash in
          if negb (constant_time_equal candidate (pin_verifier_ pin)) then
            let state := with_retries (saturating_sub (retries pin) 1) pin in
            _ ← update (set_client_pin (Some state));
            _ ← persist_client_pin state;
            throw (if retries state =? 0 then PinBlocked else PinInvalid)
          else if negb (retries pin =? PIN_RETRIES) then
            let state := with_retries PIN_RETRIES pin in
            _ ← update (set_client_pin (Some state));
            persist_client_pin state
          else mret tt
    end.

(** The state of a PIN that was just chosen. *)
Definition new_pin_state (new_pin : bytes) : M St ErrorStatus ClientPinState :=
  salt ← fill_random 32;
  mret {| pin_salt := salt; pin_verifier_ := pin_verifier salt (take 16 (sha256 new_pin));
          retries := PIN_RETRIES |}.

Definition empty_response : bytes := encode_response (VMap []).

Definition set_pin (key_agreement_param : option cbor_map) (new_pin_enc pin_uv_auth_param : bytes)
    : M St ErrorStatus bytes :=
  pin ← field client_pin;
  _ ← deny_if (bool_decide (is_Some pin)) InvalidCommand;
  _ ← deny_if ((length new_pin_enc <? 16)%nat || negb ((length new_pin_enc - 16) mod 16 =? 0)%nat)
        InvalidParameter;
  '(aes_key, hmac_key) ← pin_uv_keys key_agreement_param;
  _ ← lift (verify_pin_uv_auth_param hmac_key pin_uv_auth_param new_pin_enc);
  new_pin ← lift (decrypt_pin aes_key new_pin_enc);
  _ ← lift (validate_new_pin new_pin);
  state ← new_pin_state new_pin;
  _ ← persist_client_pin state;
  _ ← update (set_client_pin (Some state));
  mret empty_response.

Definition change_pin (key_agreement_param : option cbor_map)
    (new_pin_enc pin_hash_enc pin_uv_auth_param : bytes) : M St ErrorStatus bytes :=
  pin ← field client_pin;
  _ ← deny_if (negb (bool_decide (is_Some pin))) PinNotSet;
  _ ← deny_if ((length new_pin_enc <? 16)%nat || negb ((length new_pin_enc - 16) mod 16 =? 0)%nat
               || (length pin_hash_enc <? 16)%nat || negb ((length pin_hash_enc - 16) mod 16 =? 0)%nat)
        InvalidParameter;
  '(aes_key, hmac_key) ← pin_uv_keys key_agreement_param;
  _ ← lift (verify_pin_uv_auth_param hmac_key pin_uv_auth_param (new_pin_enc ++ pin_hash_enc));
  new_pin ← lift (decrypt_pin aes_key new_pin_enc);
  _ ← lift (validate_new_pin new_pin);
  pin_hash ← lift (decrypt_pin_hash aes_key pin_hash_enc);
  _ ← authenticate_pin pin_hash;
  state ← new_pin_state new_pin;
  _ ← persist_client_pin state;
  _ ← update (set_client_pin (Some state));
  mret empty_response.

(** The permissions a token may be issued for. *)
Definition check_permissions (permissions : Z) (rp_id : option string) : M St ErrorStatus unit :=
  _ ← deny_if (is_empty permissions) InvalidParameter;
  deny_if (contains permissions GET_ASSERTION && bool_decide (rp_id = None)) InvalidParameter.

(** Issue a token and send it encrypted. *)
Definition issue_token (aes_key mac_key : bytes) (permissions : Z) (rp_id : option string)
    : M St ErrorStatus bytes :=
  token ← fill_random 32;
  issued ← instant_now;
  _ ← update (set_token (Some {| token_value := token; permissions := permissions;
                                 token_rp_id := rp_id; issued_at := issued |}));
  encrypted_token ← encrypt_aes aes_key token;
  let pin_uv_auth_param := compute_pin_uv_auth_param mac_key encrypted_token in
  mret (encode_response (VMap [(VInteger 2, VBytes encrypted_token);
                               (VInteger 3, VBytes pin_uv_auth_param)])).

Definition get_pin_uv_auth_token (key_agreement_param : option cbor_map) (pin_hash_enc : bytes)
    (permissions : Z) (rp_id : option string) : M St ErrorStatus bytes :=
  _ ← check_permissions permissions rp_id;
  '(aes_key, mac_key) ← pin_uv_keys key_agreement_param;
  pin_hash ← lift (decrypt_pin_hash aes_key pin_hash_enc);
  _ ← authenticate_pin pin_hash;
  issue_token aes_key mac_key permissions rp_id.

(** [!verify_matches_current() || !approve(..) || !verify_matches_current()] *)
Definition user_consents {E} (prompt : string) : M St E bool :=
  b ← session_matches;
  if negb b then mret false
  else
    b ← session_approves prompt;
    if negb b then mret false else session_matches.

Definition get_pin_uv_auth_token_using_uv (key_agreement_param : option cbor_map)
    (permissions : Z) (rp_id : option string) : M St ErrorStatus bytes :=
  _ ← check_permissions permissions rp_id;
  b ← user_consents "Verify identity for a FIDO2 operation";
  _ ← deny_if (negb b) OperationDenied;
  '(aes_key, mac_key) ← pin_uv_keys key_agreement_param;
  issue_token aes_key mac_key permissions rp_id.

(** [map_integer(..).and_then(u8::try_from).and_then(from_bits)] *)
Definition permissions_param (params : cbor_map) (key : Z) : option Z :=
  map_integer params key ≫= fun v => try_u8 v ≫= from_bits.

Definition client_pin_ (body : bytes) : M St ErrorStatus bytes :=
  request ← lift (decode_map body);
  _ ← lift (validate_pin_uv_protocol (map_integer request 1));
  sub_command ← lift (ok_or (map_integer request 2) MissingParameter);
  let key_agreement_param := map_map request 3 in
  let no_parameters :=
    deny_if (bool_decide (is_Some (map_value request 3)) || bool_decide (is_Some (map_value request 4)))
      InvalidParameter in
  match sub_command with
  | 1 =>
      _ ← no_parameters;
      pin ← field client_pin;
      let n := match pin with Some pin => retries pin | None => PIN_RETRIES end in
      mret (encode_response (VMap [(VInteger 3, VInteger n)]))
  | 2 =>
      _ ← no_parameters;
      t ← on_world next;
      let secret := generate_secret t in
      _ ← update (set_key_agreement (Some secret));
      lift (key_agreement_response secret)
  | 3 =>
      let '(new_pin_enc, pin_uv_auth_param) :=
        match map_map request 4 with
        | Some params => (map_bytes params 1, map_bytes params 2)
        | None => (map_bytes request 5, map_bytes request 4)
        end in
      new_pin_enc ← lift (ok_or new_pin_enc MissingParameter);
      pin_uv_auth_param ← lift (ok_or pin_uv_auth_param MissingParameter);
      set_pin key_agreement_param new_pin_enc pin_uv_auth_param
  | 4 =>
      let '(new_pin_enc, pin_hash_enc, pin_uv_auth_param) :=
        match map_map request 4 with
        | Some params => (map_bytes params 1, map_bytes params 2, map_bytes params 3)
        | None => (map_bytes request 5, map_bytes request 6, map_bytes request 4)
        end in
      new_pin_enc ← lift (ok_or new_pin_enc MissingParameter);
      pin_hash_enc ← lift (ok_or pin_hash_enc MissingParameter);
      pin_uv_auth_param ← lift (ok_or pin_uv_auth_param MissingParameter);
      change_pin key_agreement_param new_pin_enc pin_hash_enc pin_uv_auth_param
  | 6 | 9 =>
      let '(pin_hash_enc, permissions, rp_id) :=
        match map_map request 4 with
        | Some params => (map_bytes params 1, permissions_param params 2, map_text params 3)
        | None => (map_bytes request 6, permissions_param request 9, map_text request 10)
        end in
      pin_hash_enc ← lift (ok_or pin_hash_enc MissingParameter);
      permissions ← lift (ok_or permissions MissingParameter);
      get_pin_uv_auth_token key_agreement_param pin_hash_enc permissions rp_id
  | 10 =>
      let '(permissions, rp_id) :=
        match map_map request 4 with
        | Some params => (permissions_param params 2, map_text params 3)
        | None => (permissions_param request 9, map_text request 10)
        end in
      permissions ← lift (ok_or permissions MissingParameter);
      get_pin_uv_auth_token_using_uv key_agreement_param permissions rp_id
  | _ => throw InvalidCommand
  end.

(** ** Registration *)

(** What [make_credential] reads from the request before it acts. *)
Record MakeRequest := {
  mr_client_data_hash : bytes; mr_rp_id : string; mr_rp_name : option string;
  mr_user_handle : bytes; mr_user_name : option string; mr_user_display_name : option string;
  mr_cred_props : bool }.

Definition parse_make_request (request : cbor_map) : res ErrorStatus MakeRequest :=
  client_data_hash ← ok_or (map_bytes request 1) MissingParameter;
  _ ← validate_client_data_hash client_data_hash;
  rp ← ok_or (map_map request 2) MissingParameter;
  user ← ok_or (map_map request 3) MissingParameter;
  params ← ok_or (map_array request 4) MissingParameter;
  let cred_props := match map_map request 6 with
    | Some extensions => bool_decide (map_bool extensions "credProps"%string = Some true)
    | None => false
    end in
  _ ← validate_attestation_conveyance (map_text request 8);
  _ ← guard (existsb supports_es256 params) UnsupportedAlgorithm;
  rp_id ← ok_or (map_text rp "id"%string) MissingParameter;
  user_handle ← ok_or (map_bytes user "id"%string) MissingParameter;
  mret {| mr_client_data_hash := client_data_hash; mr_rp_id := rp_id;
          mr_rp_name := map_text rp "name"%string; mr_user_handle := user_handle;
          mr_user_name := map_text user "name"%string;
          mr_user_display_name := map_text user "displayName"%string; mr_cred_props := cred_props |}.

Definition option_true (options : option cbor_map) (key : string) : bool :=
  bool_decide ((options ≫= fun options => map_bool options key) = Some true).

Definition discoverable_requested (options : option cbor_map) : bool :=
  option_true options "rk" || option_true options "requireResidentKey"
  || match options ≫= fun options => map_text options "residentKey"%string with
     | Some value => negb (bool_decide (value = "discouraged"%string))
     | None => false
     end.

Definition register_prompt (m : MakeRequest) : string :=
  ("Register a new passkey for " +:+ display_rp_label (mr_rp_name m) (mr_rp_id m) +:+ " as "
   +:+ default "unknown user" (match mr_user_display_name m with
                               | Some n => Some n
                               | None => mr_user_name m
                               end))%string.

(** The TPM objects of a new credential: key, policy and recovery slot. *)
Definition create_key_material (t : Tpm.Tpm) (owner_uid : option Z) (credential_id : bytes)
    (daemon_passphrase : option (bytes * bytes * RecoveryKdf))
    : M St ErrorStatus (TpmCredential * PcrPolicyBinding * option RecoveryMaterial) :=
  recovery_material ←
    match daemon_passphrase with
    | Some (salt, hash, kdf) =>
        m ← or_fail OperationDenied (Tpm.create_recovery_material_with_hash None salt hash kdf);
        mret (Some m)
    | None => mret None
    end;
  policy ← or_fail OperationDenied (Tpm.create_secure_boot_policy t);
  policy ←
    match recovery_material with
    | Some material =>
        let policy_ref := Tpm.credential_policy_ref credential_id owner_uid in
        or_fail OperationDenied (Tpm.create_authorized_policy t policy (rm_key material) policy_ref)
    | None => mret policy
    end;
  key ← or_fail OperationDenied (Tpm.create_credential_key_with_policy (Some policy));
  mret (key, policy, recovery_material).

Definition slot_of_material (m : RecoveryMaterial) : StoredRecoverySlot :=
  {| label := rm_label m; passphrase_salt := rm_passphrase_salt m;
     passphrase_hash := rm_passphrase_hash m; kdf := rm_kdf m; slot_key := rm_key m |}.

Definition uv_flag (user_verified : bool) : Z := if user_verified then 0x04 else 0.

Definition make_credential (body : bytes) : M St ErrorStatus bytes :=
  request ← lift (decode_map body);
  m ← lift (parse_make_request request);
  let rp_id := mr_rp_id m in
  user_verified ← validate_pin_uv_auth (map_integer request 9) (map_bytes request 8)
    (mr_client_data_hash m ++ as_bytes rp_id) MAKE_CREDENTIAL (Some rp_id);
  let options := map_map request 7 in
  _ ← lift (validate_make_credential_options options);
  let uv_requested := option_true options "uv" in
  let discoverable := discoverable_requested options in
  _ ← lift (validate_credential_descriptor_list (map_array request 5));
  cs ← field credentials;
  _ ← deny_if (excluded_credential_exists cs rp_id (map_array request 5)) CredentialExcluded;
  b ← session_matches;
  _ ← deny_if (negb b) OperationDenied;
  b ← session_approves (register_prompt m);
  _ ← deny_if (negb b) OperationDenied;
  let user_verified := user_verified || uv_requested in
  b ← session_matches;
  _ ← deny_if (negb b) OperationDenied;
  owner_uid ← session_uid;
  r ← call Store.load_daemon_passphrase;
  let daemon_passphrase := match r with Ok p => p | _ => None end in
  t ← ensure_tpm;
  match t with
  | None => throw OperationDenied
  | Some t =>
      credential_id ← fill_random 32;
      '(key, policy, recovery_material) ← create_key_material t owner_uid credential_id daemon_passphrase;
      let extensions := if mr_cred_props m then Some (cred_props_extension discoverable) else None in
      let auth_data := make_auth_data rp_id (Z.lor 0x41 (uv_flag user_verified)) 0
        (Some (credential_id, cose_credential_public_key key)) extensions in
      user_id ← session_uid;
      _ ← update (fun a => set_credentials (credentials a ++
            [{| c_id := credential_id; c_rp_id := rp_id; c_discoverable := discoverable;
                c_user_id := user_id; c_user_handle := mr_user_handle m;
                c_user_name := mr_user_name m; c_user_display_name := mr_user_display_name m;
                c_key := key; c_policy := Some (policy_of_binding policy);
                c_recovery := slot_of_material <$> recovery_material; c_sign_count := 0 |}]) a);
      _ ← save_credentials;
      mret (encode_response (VMap [(VInteger 1, VText "none"); (VInteger 2, VBytes auth_data);
                                   (VInteger 3, VMap [])]))
  end.

(** ** Assertion *)

(** Sign with the credential at [index], persist its counter and answer. *)
Definition assert_with (index : nat) (client_data_hash : bytes) (user_verified : bool)
    (total : nat) : M St ErrorStatus bytes :=
  c ← credential_at index;
  let sign_count := saturating_add (c_sign_count c) 1 in
  let auth_data := make_auth_data (c_rp_id c) (Z.lor 0x01 (uv_flag user_verified)) sign_count None None in
  let user := assertion_user user_verified c in
  signature ← attempt (sign_credential (c_key c) (c_policy c) (c_recovery c) (auth_data ++ client_data_hash));
  match signature with
  | Ok signature =>
      _ ← or_fail OperationDenied (Store.update_ctap2_sign_count (c_id c) sign_count);
      _ ← update (fun a => set_credentials (alter (with_sign_count sign_count) index (credentials a)) a);
      mret (encode_assertion_response (c_id c) auth_data signature user total)
  | _ => throw OperationDenied
  end.

Definition get_assertion (body : bytes) : M St ErrorStatus bytes :=
  request ← lift (decode_map body);
  rp_id ← lift (ok_or (map_text request 1) MissingParameter);
  client_data_hash ← lift (ok_or (map_bytes request 2) MissingParameter);
  _ ← lift (validate_client_data_hash client_data_hash);
  user_verified ← validate_pin_uv_auth (map_integer request 7) (map_bytes request 6)
    client_data_hash GET_ASSERTION (Some rp_id);
  let allow_list := map_array request 3 in
  let options := map_map request 5 in
  _ ← lift (validate_get_assertion_options options);
  let uv_requested := option_true options "uv" in
  _ ← lift (validate_credential_descriptor_list allow_list);
  path ← field tpm_path;
  _ ← match path with
      | Some _ => uid ← session_uid; cs ← on_world (load_credentials_from_disk uid);
                  update (set_credentials cs)
      | None => mret tt
      end;
  cs ← field credentials;
  let indexes := matching_credential_indexes cs rp_id allow_list in
  match indexes with
  | [] => throw NoCredentials
  | credential_index :: remaining_indexes =>
      b ← assertion_approved rp_id;
      _ ← deny_if (negb b) OperationDenied;
      let user_verified := user_verified || uv_requested in
      _ ← match remaining_indexes with
          | [] => update (set_pending_assertion None)
          | _ =>
              created_at ← instant_now;
              uid ← session_uid;
              update (set_pending_assertion (Some
                {| pa_rp_id := rp_id; pa_client_data_hash := client_data_hash;
                   pa_credential_indexes := remaining_indexes; total_credentials := length indexes;
                   pa_created_at := created_at; pa_session_uid := uid;
                   pa_user_verified := user_verified |}))
          end;
      assert_with credential_index client_data_hash user_verified (length indexes)
  end.

Definition get_next_assertion (body : bytes) : M St ErrorStatus bytes :=
  _ ← deny_if (negb (length body =? 0)%nat) InvalidCbor;
  pending ← field pending_assertion;
  _ ← update (set_pending_assertion None);
  pending ← lift (ok_or pending NoCredentials);
  age ← elapsed (pa_created_at pending);
  _ ← deny_if (from_secs 30 <? age) OperationDenied;
  uid ← session_uid;
  _ ← deny_if (negb (bool_decide (pa_session_uid pending = uid))) OperationDenied;
  b ← session_matches;
  _ ← deny_if (negb b) OperationDenied;
  match pa_credential_indexes pending with
  | [] => throw NoCredentials
  | credential_index :: remaining_indexes =>
      _ ← update (set_pending_assertion
            match remaining_indexes with
            | [] => None
            | _ => Some {| pa_rp_id := pa_rp_id pending;
                           pa_client_data_hash := pa_client_data_hash pending;
                           pa_credential_indexes := remaining_indexes;
                           total_credentials := total_credentials pending;
                           pa_created_at := pa_created_at pending;
                           pa_session_uid := pa_session_uid pending;
                           pa_user_verified := pa_user_verified pending |}
            end);
      assert_with credential_index (pa_client_data_hash pending) (pa_user_verified pending) 0
  end.

(** ** Credential management *)

Definition start_management (rps credentials : list nat) (rp_pos credential_pos : nat)
    : M St ErrorStatus unit :=
  uid ← session_uid;
  created_at ← instant_now;
  update (set_management (Some
    {| rp_indexes := rps; rp_position := rp_pos; credential_indexes := credentials;
       credential_position := credential_pos; mgmt_session_uid := uid; mgmt_created_at := created_at |})).

Definition enumerate_rps_begin : M St ErrorStatus bytes :=
  cs ← field credentials;
  match discoverable_rp_indexes cs with
  | [] => throw NoCredentials
  | (first :: _) as indexes =>
      _ ← start_management indexes [] 1 0;
      c ← credential_at first;
      mret (encode_rp_response c (Some (length indexes)))
  end.

Definition enumerate_rps_next : M St ErrorStatus bytes :=
  state ← field management;
  state ← lift (ok_or state NoCredentials);
  index ← lift (ok_or (rp_indexes state !! rp_position state) NoCredentials);
  _ ← update (set_management (Some
        {| rp_indexes := rp_indexes state; rp_position := rp_position state + 1;
           credential_indexes := credential_indexes state;
           credential_position := credential_position state;
           mgmt_session_uid := mgmt_session_uid state; mgmt_created_at := mgmt_created_at state |}));
  c ← credential_at index;
  mret (encode_rp_response c None).

Definition enumerate_credentials_begin (params : option cbor_map) : M St ErrorStatus bytes :=
  params ← lift (ok_or params MissingParameter);
  rp_hash ← lift (ok_or (map_bytes params 1) MissingParameter);
  _ ← deny_if (negb (length rp_hash =? 32)%nat) InvalidParameter;
  cs ← field credentials;
  match rp_hash_indexes cs rp_hash with
  | [] => throw NoCredentials
  | (first :: _) as indexes =>
      _ ← start_management [] indexes 0 1;
      c ← credential_at first;
      mret (encode_credential_management_response c (Some (length indexes)))
  end.

Definition enumerate_credentials_next : M St ErrorStatus bytes :=
  state ← field management;
  state ← lift (ok_or state NoCredentials);
  index ← lift (ok_or (credential_indexes state !! credential_position state) NoCredentials);
  _ ← update (set_management (Some
        {| rp_indexes := rp_indexes state; rp_position := rp_position state;
           credential_indexes := credential_indexes state;
           credential_position := credential_position state + 1;
           mgmt_session_uid := mgmt_session_uid state; mgmt_created_at := mgmt_created_at state |}));
  c ← credential_at index;
  mret (encode_credential_management_response c None).

(** The credential the parameters of a management request name. *)
Definition descriptor_id (params : cbor_map) : res ErrorStatus bytes :=
  descriptor ← ok_or (map_map params 2) MissingParameter;
  ok_or (map_bytes descriptor "id"%string) MissingParameter.

Definition is_discoverable_id (id : bytes) (c : Credential) : bool :=
  c_discoverable c && bool_decide (c_id c = id).

Definition delete_credential (params : option cbor_map) : M St ErrorStatus bytes :=
  params ← lift (ok_or params MissingParameter);
  id ← lift (descriptor_id params);
  cs ← field credentials;
  index ← lift (ok_or (position (is_discoverable_id id) cs) NoCredentials);
  _ ← or_fail OperationDenied (Store.delete_ctap2_credential id);
  _ ← update (fun a => set_credentials (delete index (credentials a)) a);
  _ ← update (set_management None);
  mret empty_response.

Definition update_user_information (params : option cbor_map) : M St ErrorStatus bytes :=
  params ← lift (ok_or params MissingParameter);
  id ← lift (descriptor_id params);
  user ← lift (ok_or (map_map params 3) MissingParameter);
  cs ← field credentials;
  index ← lift (ok_or (position (is_discoverable_id id) cs) NoCredentials);
  _ ← update (fun a => set_credentials (alter (fun c =>
        with_user (default (c_user_handle c) (map_bytes user "id"%string))
          (map_text user "name"%string) (map_text user "displayName"%string) c) index (credentials a)) a);
  _ ← save_credentials;
  _ ← update (set_management None);
  mret empty_response.

(** An enumeration of another user or older than 30 seconds is dropped. *)
Definition expire_management : M St ErrorStatus unit :=
  state ← field management;
  match state with
  | None => mret tt
  | Some state =>
      age ← elapsed (mgmt_created_at state);
      uid ← session_uid;
      if (from_secs 30 <? age) || negb (bool_decide (mgmt_session_uid state = uid))
      then update (set_management None) else mret tt
  end.

Definition credential_management (body : bytes) : M St ErrorStatus bytes :=
  b ← session_matches;
  _ ← deny_if (negb b) OperationDenied;
  request ← lift (decode_map body);
  sub_command ← lift (ok_or (map_integer request 1) MissingParameter);
  let params := map_map request 2 in
  let message := management_auth_message sub_command params in
  pin ← field client_pin;
  _ ← deny_if (bool_decide (pin = None)) PinNotSet;
  _ ← validate_pin_uv_auth (map_integer request 3) (map_bytes request 4) message
        CREDENTIAL_MANAGEMENT None;
  _ ← expire_management;
  match sub_command with
  | 1 =>
      cs ← field credentials;
      let count := Z.of_nat (length (List.filter c_discoverable cs)) in
      mret (encode_response (VMap [(VInteger 1, VInteger count);
              (VInteger 2, VInteger (saturating_sub MAX_RESIDENT_CREDENTIALS count))]))
  | 2 => enumerate_rps_begin
  | 3 => enumerate_rps_next
  | 4 => enumerate_credentials_begin params
  | 5 => enumerate_credentials_next
  | 6 => delete_credential params
  | 7 => update_user_information params
  | _ => throw InvalidCommand
  end.

(** ** The other commands *)

(** [for credential in &self.credentials { let _ = delete(..); }] *)
Fixpoint delete_all_credentials {E} (cs : list Credential) : M St E unit :=
  match cs with
  | [] => mret tt
  | c :: cs => _ ← call (Store.delete_ctap2_credential (c_id c)); delete_all_credentials cs
  end.

Definition reset : M St ErrorStatus bytes :=
  b ← assertion_approved "reset";
  _ ← deny_if (negb b) OperationDenied;
  pin ← field client_pin;
  _ ← match pin with
      | Some _ =>
          _ ← call Store.delete_client_pin_state;
          _ ← update (set_client_pin None);
          _ ← update (set_key_agreement None);
          update (set_token None)
      | None => mret tt
      end;
  cs ← field credentials;
  _ ← delete_all_credentials cs;
  _ ← update (set_credentials []);
  _ ← update (set_pending_assertion None);
  _ ← update (set_management None);
  mret empty_response.

Definition selection_ : M St ErrorStatus bytes :=
  b ← assertion_approved "selection";
  _ ← deny_if (negb b) OperationDenied;
  mret empty_response.

(** [todo!()] *)
Definition bio_enrollment (body : bytes) : M St ErrorStatus bytes := panic.
Definition large_blobs (body : bytes) : M St ErrorStatus bytes := panic.
Definition config (body : bytes) : M St ErrorStatus bytes := panic.

Definition cancel_pending (a : Authenticator) : Authenticator :=
  set_key_agreement None (set_token None (set_management None (set_pending_assertion None a))).

(** The commands that need the daemon passphrase to be set. *)
Definition needs_passphrase (c : Ctap2Command) : bool :=
  bool_decide (c ∈ [MakeCredential; GetAssertion; GetNextAssertion; CredentialManagement]).

Definition passphrase_gate (command : Ctap2Command) : M St ErrorStatus unit :=
  if needs_passphrase command then
    r ← call Store.load_daemon_passphrase;
    match r with
    | Ok (Some _) => mret tt
    | _ => throw OperationDenied
    end
  else mret tt.

(** What is forgotten before a command is run. *)
Definition clear_stale (command : Ctap2Command) : M St ErrorStatus unit :=
  _ ← (if bool_decide (command ∈ [GetNextAssertion; CredentialManagement]) then mret tt
       else update (set_pending_assertion None));
  if bool_decide (command = CredentialManagement) then mret tt
  else update (set_management None).

Definition dispatch (command : Ctap2Command) (body : bytes) : M St ErrorStatus bytes :=
  match command with
  | GetInfo => pin ← field client_pin; mret (get_info_response (bool_decide (is_Some pin)))
  | ClientPin => client_pin_ body
  | MakeCredential => make_credential body
  | GetAssertion => get_assertion body
  | GetNextAssertion => get_next_assertion body
  | CredentialManagement | CredentialManagementPreview => credential_management body
  | Reset => reset
  | Selection => selection_
  | BioEnrollment | BioEnrollmentPreview => bio_enrollment body
  | LargeBlobs => large_blobs body
  | Config => config body
  end.

(** A status instead of a response: [error_response]. *)
Definition respond {E} (m : M St ErrorStatus bytes) : M St E bytes :=
  r ← attempt m;
  match r with
  | Ok response => mret response
  | Err status => mret (error_response status)
  | Panic => panic
  end.

Definition handle_cbor {E} (payload : bytes) : M St E bytes :=
  match split_first payload with
  | None => mret (error_response InvalidCommand)
  | Some (command, body) =>
      match command_of_u8 command with
      | None => mret (error_response InvalidCommand)
      | Some command =>
          respond (_ ← clear_stale command; _ ← passphrase_gate command; dispatch command body)
      end
  end.

(** ** TPM commands of the management thread *)

Inductive TpmCommand :=
| PcrPolicyUpdate (credential_id : bytes) (authority : TpmCredential) (name policy_ref : bytes)
| PassphraseChange (credential_id : bytes) (recovery_key : TpmCredential)
    (new_passphrase_hash new_salt : bytes) (new_kdf : RecoveryKdf)
| PcrDigestCheck (pcr_indices : list Z).

Definition require_tpm : M St string Tpm.Tpm :=
  t ← ensure_tpm; lift (ok_or t "TPM not available"%string).

Definition wrap {A} (msg : string) (m : M World string A) : M St string A := on_world (Tpm.wrap_err msg m).

(** The digest is what [PcrDigestCheck] sends back on its own channel. *)
Definition handle_tpm_command (command : TpmCommand) : M St string (option bytes) :=
  match command with
  | PcrPolicyUpdate credential_id authority name policy_ref =>
      t ← require_tpm;
      new_policy ← wrap "updating PCR policy via management TPM command"
        (Tpm.update_authorized_policy t authority name policy_ref);
      _ ← wrap "saving PCR policy after TPM command"
        (Store.update_ctap2_policy credential_id (policy_of_binding new_policy));
      mret None
  | PassphraseChange credential_id recovery_key new_passphrase_hash new_salt new_kdf =>
      _ ← require_tpm;
      updated_key ← wrap "changing TPM recovery key authorization"
        (Tpm.change_key_auth recovery_key new_passphrase_hash);
      _ ← wrap "saving updated recovery slot after TPM command"
        (Store.update_recovery_slot credential_id (private updated_key) new_salt new_passphrase_hash new_kdf);
      mret None
  | PcrDigestCheck pcr_indices =>
      selection ← lift (map_err (fun _ => "building PCR selection from indices"%string)
                          (Tpm.pcr_selection_for_indices overflow_checks pcr_indices));
      _ ← require_tpm;
      digest ← wrap "reading current PCR digest" (Tpm.current_pcr_digest selection);
      mret (Some digest)
  end.

(** ** The functions of the command line *)

Definition open_default_tpm (path : option string) : M World string Tpm.Tpm :=
  r ← attempt Store.load_default_pcr_policy;
  let pcr_indices := match r with Ok i => i | _ => None end in
  Tpm.open overflow_checks (default "/dev/tpmrm0"%string path) pcr_indices.

Definition update_pcr_policy_for_credential (path : option string) (credential_id : bytes)
    (recovery_passphrase : string) : M World string unit :=
  credentials ← Store.load_ctap2_credentials None;
  credential ← lift (ok_or (find_by (fun c => bool_decide (s_id c = credential_id)) credentials)
                       "credential not found"%string);
  policy ← lift (ok_or (s_policy credential) "credential has no PCR policy"%string);
  recovery ← lift (ok_or (s_recovery credential) "credential has no recovery slot"%string);
  ref ← lift (ok_or (policy_ref policy) "credential has no policyRef"%string);
  name ← lift (ok_or (authority_name policy) "credential has no authority name"%string);
  hash ← lift (Tpm.recovery_passphrase_hash (kdf recovery) (passphrase_salt recovery) recovery_passphrase);
  _ ← lift (guard (bool_decide (hash = passphrase_hash recovery)) "recovery passphrase does not match"%string);
  t ← Tpm.wrap_err "opening TPM for PCR policy update" (open_default_tpm path);
  new_policy ← Tpm.wrap_err "updating authorized PCR policy"
    (Tpm.update_authorized_policy t (slot_key recovery) name ref);
  Tpm.wrap_err "saving updated PCR policy"
    (Store.update_ctap2_policy credential_id (policy_of_binding new_policy)).

Definition change_recovery_passphrase (path : option string) (credential_id : bytes)
    (old_passphrase new_passphrase : string) : M World string unit :=
  credentials ← Store.load_ctap2_credentials None;
  credential ← lift (ok_or (find_by (fun c => bool_decide (s_id c = credential_id)) credentials)
                       "credential not found"%string);
  recovery ← lift (ok_or (s_recovery credential) "credential has no recovery slot"%string);
  old_hash ← lift (Tpm.recovery_passphrase_hash (kdf recovery) (passphrase_salt recovery) old_passphrase);
  _ ← lift (guard (bool_decide (old_hash = passphrase_hash recovery)) "recovery passphrase does not match"%string);
  t ← next;
  new_salt ← lift (ok_or (getrandom t 32) "generating new recovery passphrase salt"%string);
  new_hash ← lift (Tpm.recovery_passphrase_hash argon2id_default new_salt new_passphrase);
  _ ← Tpm.wrap_err "opening TPM for passphrase change" (open_default_tpm path);
  updated_key ← Tpm.wrap_err "changing TPM recovery key authorization"
    (Tpm.change_key_auth (slot_key recovery) new_hash);
  Tpm.wrap_err "saving updated recovery slot"
    (Store.update_recovery_slot credential_id (private updated_key) new_salt new_hash argon2id_default).
End ctap2.

End Ctap2.
