(* ===== verification/Ctap2Facts.v ===== *)
(** How runs of the authenticator's computations come apart, and what the calls
    to the outside leave alone. *)
From Stdlib Require Import ZArith Lia String.
From stdpp Require Import base list option strings.
From S2P Require Import Prelude Schema Platform Cbor Session Tpm Store Ctap2Types Ctap2.

#[local] Open Scope Z_scope.

Module Ctap2Facts.
Import Ctap2.

(** ** Successful runs *)

Lemma on_world_Ok {E A} (m : M World E A) s a s' :
  on_world m s = (Ok a, s') -> exists w, m (world s) = (Ok a, w) /\ s' = set_world w s.
Proof. unfold on_world. destruct (m (world s)) as [r w]. intros [= -> <-]. eauto. Qed.

Lemma field_Ok {E A} (f : Authenticator -> A) s a s' :
  (field f : M St E A) s = (Ok a, s') -> a = f (auth s) /\ s' = s.
Proof. unfold field. by intros [-> ->]%gets_Ok. Qed.

Lemma update_Ok {E} f s u s' :
  (update f : M St E unit) s = (Ok u, s') -> s' = set_auth (f (auth s)) s.
Proof. unfold update. by intros ->%modify_Ok. Qed.

Lemma call_Ok {E A} (m : M World string A) s r s' :
  (call m : M St E _) s = (Ok r, s') -> exists w, m (world s) = (r, w) /\ r <> Panic /\ s' = set_world w s.
Proof. unfold call. intros (w & [? ?]%attempt_Ok & ->)%on_world_Ok. eauto. Qed.

Lemma or_fail_Ok {A} e (m : M World string A) s a s' :
  or_fail e m s = (Ok a, s') -> exists w, m (world s) = (Ok a, w) /\ s' = set_world w s.
Proof.
  unfold or_fail. intros (r & s1 & (w & Hm & _ & ->)%call_Ok & H)%bind_Ok.
  destruct r; [|done..]. apply ret_Ok in H as [-> ->]. eauto.
Qed.

Lemma deny_if_Ok b e s u s' : deny_if b e s = (Ok u, s') -> b = false /\ s' = s.
Proof. unfold deny_if. destruct b; [done|]. by intros [_ ->]%ret_Ok. Qed.

Lemma next_Ok {E} w t w' :
  (next : M World E nat) w = (Ok t, w') -> t = w_tick w /\ w' = set_tick (S (w_tick w)) w.
Proof. by intros [= <- <-]. Qed.

Ltac ctap_inv_with tac := run_inv_with ltac:(idtac; match goal with
  | H : next _ = (Ok _, _) |- _ => apply next_Ok in H as [? ?]
  | H : field _ _ = (Ok _, _) |- _ => apply field_Ok in H as [? ?]
  | H : update _ _ = (Ok _, _) |- _ => apply update_Ok in H
  | H : deny_if _ _ _ = (Ok _, _) |- _ => apply deny_if_Ok in H as [? ?]
  | H : or_fail _ _ _ = (Ok _, _) |- _ => apply or_fail_Ok in H as (? & ? & ?)
  | H : call _ _ = (Ok _, _) |- _ => apply call_Ok in H as (? & ? & ? & ?)
  | H : on_world _ _ = (Ok _, _) |- _ => apply on_world_Ok in H as (? & ? & ?)
  | _ => tac
  end).
Ltac ctap_inv := ctap_inv_with fail.

(** ** What the outside leaves alone *)

(** A relation that does not look at the world. *)
Class IgnoresWorld (R : relation St) := ignores_world s w : R s (set_world w s).

Lemma keeps_on_world {E A} (R : relation St) {iw : IgnoresWorld R} (m : M World E A) :
  keeps R (on_world m).
Proof. intros s. unfold on_world. destruct (m (world s)) as [r w]. apply ignores_world. Qed.

Lemma keeps_field {E A} (R : relation St) {po : PreOrder R} (f : Authenticator -> A) :
  keeps R (field f : M St E A).
Proof. apply keeps_gets, _. Qed.

Lemma keeps_update {E} (R : relation St) f :
  (forall s, R s (set_auth (f (auth s)) s)) -> keeps R (update f : M St E unit).
Proof. intros H. apply keeps_modify. exact H. Qed.

#[export] Hint Resolve keeps_field : keeps.
#[export] Hint Extern 1 (IgnoresWorld _) => typeclasses eauto : keeps.
#[export] Hint Resolve keeps_on_world : keeps.

Section plumbing.
Context {pf : Platform} {cr : Crypto} {codec : CborCodec} {es : Esapi} {sc : StoreCodec}.
Context (R : relation St) {po : PreOrder R} {iw : IgnoresWorld R}.

Lemma keeps_call {E A} (m : M World string A) : keeps R (call m : M St E _).
Proof. unfold call. eauto with keeps. Qed.
Lemma keeps_or_fail {A} e (m : M World string A) : keeps R (or_fail e m).
Proof. unfold or_fail. keeps_walk ltac:(apply keeps_call). Qed.
Lemma keeps_deny_if b e : keeps R (deny_if b e).
Proof. unfold deny_if. keeps_walk fail. Qed.
Lemma keeps_instant_now {E} : keeps R (instant_now : M St E Z).
Proof. unfold instant_now. keeps_walk fail. Qed.
Lemma keeps_elapsed {E} t : keeps R (elapsed t : M St E Z).
Proof. unfold elapsed. keeps_walk ltac:(apply keeps_instant_now). Qed.
Lemma keeps_fill_random {E} n : keeps R (fill_random n : M St E bytes).
Proof. unfold fill_random. keeps_walk fail. Qed.
Lemma keeps_encrypt_aes k p : keeps R (encrypt_aes k p).
Proof. unfold encrypt_aes. keeps_walk ltac:(apply keeps_fill_random). Qed.
Lemma keeps_credential_at {E} i : keeps R (credential_at i : M St E Credential).
Proof. unfold credential_at. keeps_walk fail. Qed.
Lemma keeps_session_matches {E} : keeps R (session_matches : M St E bool).
Proof. unfold session_matches. keeps_walk fail. Qed.
Lemma keeps_session_approves {E} p : keeps R (session_approves p : M St E bool).
Proof. unfold session_approves. keeps_walk fail. Qed.
Lemma keeps_session_uid {E} : keeps R (session_uid : M St E (option Z)).
Proof. unfold session_uid. keeps_walk fail. Qed.
Lemma keeps_assertion_approved {E} rp : keeps R (assertion_approved rp : M St E bool).
Proof.
  unfold assertion_approved.
  keeps_walk ltac:(first [apply keeps_session_matches | apply keeps_session_approves]).
Qed.
Lemma keeps_user_consents {E} p : keeps R (user_consents p : M St E bool).
Proof.
  unfold user_consents.
  keeps_walk ltac:(first [apply keeps_session_matches | apply keeps_session_approves]).
Qed.
Lemma keeps_save_credentials {E} : keeps R (save_credentials : M St E unit).
Proof. unfold save_credentials. keeps_walk ltac:(apply keeps_call). Qed.
Lemma keeps_persist_client_pin p : keeps R (persist_client_pin p).
Proof. apply keeps_or_fail. Qed.
Lemma keeps_pin_uv_keys k : keeps R (pin_uv_keys k).
Proof. unfold pin_uv_keys. keeps_walk fail. Qed.
Lemma keeps_new_pin_state p : keeps R (new_pin_state p).
Proof. unfold new_pin_state. keeps_walk ltac:(apply keeps_fill_random). Qed.
Lemma keeps_check_permissions p rp : keeps R (check_permissions p rp).
Proof. unfold check_permissions. keeps_walk ltac:(apply keeps_deny_if). Qed.
Lemma keeps_delete_all_credentials {E} cs : keeps R (delete_all_credentials cs : M St E unit).
Proof. induction cs; simpl; keeps_walk ltac:(apply keeps_call). Qed.
Lemma keeps_passphrase_gate c : keeps R (passphrase_gate c).
Proof. unfold passphrase_gate. keeps_walk ltac:(apply keeps_call). Qed.

(** Opening the TPM sets a field of the authenticator. *)
Context (Htpm : forall t s, R s (set_auth (set_tpm t (auth s)) s)).

Lemma keeps_open_tpm {E} oc n p i : keeps R (open_tpm oc n p i : M St E _).
Proof.
  induction n as [|n IH]; simpl; [eauto with keeps|].
  keeps_walk ltac:(first [apply keeps_call | apply keeps_update; intros; apply Htpm]).
Qed.
Lemma keeps_ensure_tpm {E} oc : keeps R (ensure_tpm oc : M St E _).
Proof. unfold ensure_tpm. keeps_walk ltac:(first [apply keeps_call | apply keeps_open_tpm]). Qed.
Lemma keeps_sign_credential oc k p a d : keeps R (sign_credential oc k p a d).
Proof. unfold sign_credential. keeps_walk ltac:(apply keeps_ensure_tpm). Qed.
Lemma keeps_create_key_material t o i p : keeps R (create_key_material t o i p).
Proof. unfold create_key_material. keeps_walk ltac:(apply keeps_or_fail). Qed.
End plumbing.

#[export] Hint Resolve keeps_call keeps_or_fail keeps_deny_if keeps_instant_now keeps_elapsed
  keeps_fill_random keeps_encrypt_aes keeps_credential_at keeps_session_matches
  keeps_session_approves keeps_session_uid keeps_assertion_approved keeps_user_consents
  keeps_save_credentials keeps_persist_client_pin keeps_pin_uv_keys keeps_new_pin_state
  keeps_check_permissions keeps_delete_all_credentials keeps_passphrase_gate
  keeps_ensure_tpm keeps_sign_credential keeps_create_key_material : keeps.

(** Walk a handler; [tac] settles the updates of the authenticator. *)
Ltac handler_walk tac :=
  keeps_walk ltac:(first [ apply keeps_update; intro; tac ]).

End Ctap2Facts.
