(* ===== verification/WorldFacts.v ===== *)
(** What the daemon's computations do to the world: TPM commands and the session
    leave the store alone, and the authenticator changes it only through the
    operations of [Store]. *)
From Stdlib Require Import ZArith Lia String.
From stdpp Require Import base list option strings.
From S2P Require Import Prelude Schema Platform Cbor Session Tpm Store StoreProps Ctap2Types Ctap2.
From S2P Require Import Ctap2Facts.

#[local] Open Scope Z_scope.

(** A relation on worlds that looks at the store and at the passing of calls only. *)
Class StoreRel (R : relation World) := {
  store_rel_preorder :: PreOrder R;
  store_rel_db w w' : w_db w = w_db w' -> (w_tick w <= w_tick w')%nat -> R w w' }.

Module WorldFacts.
Import Ctap2 Ctap2Facts.

Section outside.
Context {pf : Platform} {cr : Crypto} {es : Esapi} {sc : StoreCodec}.
Context (R : relation World) {sr : StoreRel R}.

(** ** The session *)

Lemma store_next {E} : keeps R (next : M World E nat).
Proof. intros w. apply store_rel_db; simpl; auto. Qed.

Lemma store_verify {E} s : keeps R (Session.verify_matches_current s : M World E bool).
Proof. unfold Session.verify_matches_current, Session.detect. keeps_walk ltac:(apply store_next). Qed.

Lemma store_approve {E} p s : keeps R (Session.approve p s : M World E bool).
Proof.
  unfold Session.approve, Session.approve_on_terminal, Session.check_session.
  keeps_walk ltac:(apply store_next).
Qed.

(** ** TPM commands *)

Lemma store_command {A} (f : nat -> res string A) : keeps R (Tpm.command f).
Proof. unfold Tpm.command. keeps_walk ltac:(apply store_next). Qed.

Lemma store_opening f : keeps R (Tpm.opening f).
Proof. intros w. unfold Tpm.opening. destruct (f _); apply store_rel_db; simpl; auto. Qed.

Lemma store_flush h : keeps R (Tpm.flush_context h).
Proof. intros w. unfold Tpm.flush_context. destruct (esys_flush _ _); apply store_rel_db; simpl; auto. Qed.

Lemma store_guarded {A} h (m : M World string A) : keeps R m -> keeps R (Tpm.guarded h m).
Proof.
  intros Hm w. unfold Tpm.guarded. specialize (Hm w). destruct (m w) as [r w1].
  pose proof (store_flush h w1) as Hf. destruct (Tpm.flush_context h w1) as [r2 w2]. simpl in *. by etrans.
Qed.

Lemma store_wrap_err {A} msg (m : M World string A) : keeps R m -> keeps R (Tpm.wrap_err msg m).
Proof. intros Hm w. specialize (Hm w). unfold Tpm.wrap_err. by destruct (m w) as [[]]. Qed.

Lemma store_session ty none : keeps R (Tpm.start_session ty none).
Proof.
  unfold Tpm.start_session.
  keeps_walk ltac:(first [apply store_command | apply keeps_modify; intros; apply store_rel_db; simpl; auto]).
Qed.
End outside.

#[export] Hint Resolve store_next store_verify store_approve store_command store_opening store_flush
  store_session : keeps.
#[export] Hint Extern 1 (StoreRel _) => typeclasses eauto : keeps.

Ltac store_walk tac :=
  keeps_walk ltac:(first
    [ apply store_guarded; [typeclasses eauto|]
    | apply store_wrap_err; try typeclasses eauto
    | tac ]).

Section tpm.
Context {pf : Platform} {cr : Crypto} {es : Esapi} {sc : StoreCodec}.
Context (R : relation World) {sr : StoreRel R} (oc : bool).

Lemma store_parent : keeps R Tpm.create_storage_parent.
Proof. unfold Tpm.create_storage_parent. store_walk fail. Qed.
Lemma store_load p priv pub : keeps R (Tpm.load p priv pub).
Proof. unfold Tpm.load. store_walk fail. Qed.
Lemma store_set_auth k h : keeps R (Tpm.set_auth_of k h).
Proof. unfold Tpm.set_auth_of. store_walk fail. Qed.
Lemma store_pcr_digest l : keeps R (Tpm.current_pcr_digest l).
Proof. unfold Tpm.current_pcr_digest. store_walk fail. Qed.
Lemma store_open path l : keeps R (Tpm.open oc path l).
Proof. unfold Tpm.open. store_walk fail. Qed.
Hint Resolve store_parent store_load store_set_auth store_pcr_digest : keeps.

Lemma store_create_key p a : keeps R (Tpm.create_credential_key_with_policy_and_auth p a).
Proof. unfold Tpm.create_credential_key_with_policy_and_auth. store_walk fail. Qed.
Hint Resolve store_create_key : keeps.
Lemma store_recovery_material l s h k : keeps R (Tpm.create_recovery_material_with_hash l s h k).
Proof.
  unfold Tpm.create_recovery_material_with_hash, Tpm.create_credential_key_with_auth. store_walk fail.
Qed.
Lemma store_secure_boot t : keeps R (Tpm.create_secure_boot_policy t).
Proof. unfold Tpm.create_secure_boot_policy. store_walk fail. Qed.
Lemma store_sign_recovery a p r : keeps R (Tpm.sign_recovery_policy a p r).
Proof. unfold Tpm.sign_recovery_policy. store_walk fail. Qed.
Hint Resolve store_sign_recovery : keeps.
Lemma store_authorized_policy t b a r : keeps R (Tpm.create_authorized_policy t b a r).
Proof. unfold Tpm.create_authorized_policy. store_walk fail. Qed.
Lemma store_update_policy t a n r : keeps R (Tpm.update_authorized_policy t a n r).
Proof. unfold Tpm.update_authorized_policy. store_walk fail. Qed.
Lemma store_sign t c p a d : keeps R (Tpm.sign_digest_with_policy t c p a d).
Proof.
  unfold Tpm.sign_digest_with_policy, Tpm.sign_authorized, Tpm.sign_pcr_bound. store_walk fail.
Qed.
Lemma store_change_auth c n : keeps R (Tpm.change_key_auth c n).
Proof. unfold Tpm.change_key_auth. store_walk fail. Qed.
End tpm.

#[export] Hint Resolve store_open store_create_key store_recovery_material store_secure_boot
  store_authorized_policy store_update_policy store_sign store_change_auth store_pcr_digest : keeps.

(** ** The authenticator *)

(** The operations of the store that the daemon's own thread uses. *)
Definition daemon_op (op : StoreProps.StoreOp) : bool :=
  match op with
  | StoreProps.SaveDefaultPcrPolicy _ | StoreProps.SaveDaemonPassphrase _ _ _ => false
  | _ => true
  end.

(** The operations that leave the client PIN alone. *)
Definition quiet_op (op : StoreProps.StoreOp) : bool :=
  match op with
  | StoreProps.SaveClientPin _ | StoreProps.DeleteClientPin => false
  | _ => true
  end.

(** The operations a management connection uses on its own. It stores a daemon
    passphrase only with a salt it has drawn and the hash of a passphrase. *)
Definition management_op {pf : Platform} {cr : Crypto} (op : StoreProps.StoreOp) : Prop :=
  match op with
  | StoreProps.LoadCredentials _ | StoreProps.UpdatePolicy _ _
  | StoreProps.UpdateRecovery _ _ _ _ _ | StoreProps.LoadClientPin | StoreProps.LoadDefaultPcrPolicy
  | StoreProps.SaveDefaultPcrPolicy _ | StoreProps.LoadDaemonPassphrase => True
  | StoreProps.SaveDaemonPassphrase salt hash _ =>
      (exists t, getrandom t 32 = Some salt) /\
      exists k passphrase, Tpm.recovery_passphrase_hash k salt passphrase = Ok hash
  | _ => False
  end.

(** A relation on worlds as one on the daemon's state. *)
Definition on_st (R : relation World) : relation St := fun s s' => R (world s) (world s').

#[export] Instance on_st_preorder R {po : PreOrder R} : PreOrder (on_st R).
Proof. split; unfold on_st; [by intros s|intros s1 s2 s3; apply transitivity]. Qed.

Lemma on_st_world {E A} R (m : M World E A) : keeps R m -> keeps (on_st R) (on_world m).
Proof. intros Hm s. unfold on_world, on_st. specialize (Hm (world s)). by destruct (m (world s)). Qed.

Lemma on_st_update {E} R {po : PreOrder R} f : keeps (on_st R) (update f : M St E unit).
Proof. apply keeps_update. intros s. unfold on_st. simpl. reflexivity. Qed.

Lemma keeps_drop {S E A} (R : relation S) (m : M S E A) : keeps R (_ ← m; mret tt) -> keeps R m.
Proof.
  intros H s. specialize (H s). unfold mbind, M_bind in H. by destruct (m s) as [[]].
Qed.

(** A call of a store operation. *)
Ltac store_op_with R Hop :=
  match goal with
  | |- keeps R (Store.load_ctap2_credentials ?u) => apply keeps_drop, (Hop (StoreProps.LoadCredentials u)); auto
  | |- keeps R (Store.save_ctap2_credentials ?c) => apply (Hop (StoreProps.SaveCredentials c)); auto
  | |- keeps R (Store.update_ctap2_sign_count ?i ?n) => apply (Hop (StoreProps.UpdateSignCount i n)); auto
  | |- keeps R (Store.update_ctap2_policy ?i ?p) => apply (Hop (StoreProps.UpdatePolicy i p)); auto
  | |- keeps R (Store.update_recovery_slot ?i ?p ?s ?h ?k) =>
      apply (Hop (StoreProps.UpdateRecovery i p s h k)); auto
  | |- keeps R (Store.delete_ctap2_credential ?i) => apply (Hop (StoreProps.DeleteCredential i)); auto
  | |- keeps R (Store.save_client_pin_state ?s) => apply (Hop (StoreProps.SaveClientPin s)); auto
  | |- keeps R Store.delete_client_pin_state => apply (Hop StoreProps.DeleteClientPin); auto
  | |- keeps R Store.load_client_pin_state => apply keeps_drop, (Hop StoreProps.LoadClientPin); auto
  | |- keeps R Store.load_default_pcr_policy => apply keeps_drop, (Hop StoreProps.LoadDefaultPcrPolicy); auto
  | |- keeps R Store.load_daemon_passphrase => apply keeps_drop, (Hop StoreProps.LoadDaemonPassphrase); auto
  end.

(** The operations that only read. *)
Definition read_op (op : StoreProps.StoreOp) : bool :=
  match op with
  | StoreProps.LoadCredentials _ | StoreProps.LoadClientPin | StoreProps.LoadDefaultPcrPolicy
  | StoreProps.LoadDaemonPassphrase => true
  | _ => false
  end.

(** Those of them that the daemon's own thread uses for connections too. *)
Definition manager_op (op : StoreProps.StoreOp) : bool :=
  match op with
  | StoreProps.UpdatePolicy _ _ | StoreProps.UpdateRecovery _ _ _ _ _ => true
  | _ => read_op op
  end.

(** [R] is kept by the operations of [ok], which has the ones that read; a handler
    that uses others asks for them. *)
Section authenticator.
Context {pf : Platform} {cr : Crypto} {codec : CborCodec} {es : Esapi} {sc : StoreCodec}.
Context (R : relation World) {sr : StoreRel R} (oc : bool) (ok : StoreProps.StoreOp -> bool).
Context (Hop : forall op, ok op = true -> keeps R (StoreProps.run_op op)).
Context (Hread : forall op, read_op op = true -> ok op = true).

Ltac store_op := store_op_with R Hop.
Ltac world_walk := store_walk ltac:(first [ apply on_st_update, _ | apply on_st_world | store_op ]).

Lemma world_call {E A} (m : M World string A) : keeps R m -> keeps (on_st R) (call m : M St E _).
Proof. intros Hm. unfold call. world_walk. Qed.
Lemma world_or_fail {A} e (m : M World string A) : keeps R m -> keeps (on_st R) (or_fail e m).
Proof. intros Hm. unfold or_fail, call. world_walk. Qed.
Lemma world_fill_random {E} n : keeps (on_st R) (fill_random n : M St E bytes).
Proof. unfold fill_random. world_walk. Qed.
Lemma world_approved {E} rp : keeps (on_st R) (assertion_approved rp : M St E bool).
Proof. unfold assertion_approved, session_matches, session_approves. world_walk. Qed.
Lemma world_ensure_tpm {E} : keeps (on_st R) (ensure_tpm oc : M St E _).
Proof.
  assert (forall n p l, keeps (on_st R) (open_tpm oc n p l : M St E _)) as Ho.
  { intros n p l. induction n; simpl; unfold call; world_walk. }
  unfold ensure_tpm, call. world_walk.
Qed.
Hint Resolve world_fill_random world_approved world_ensure_tpm : keeps.

Lemma world_validate p a m pe rp : keeps (on_st R) (validate_pin_uv_auth p a m pe rp).
Proof. unfold validate_pin_uv_auth, session_matches, elapsed, instant_now. world_walk. Qed.
Lemma world_sign k p a d : keeps (on_st R) (sign_credential oc k p a d).
Proof. unfold sign_credential. world_walk. Qed.
Lemma world_issue k m p r : keeps (on_st R) (issue_token k m p r).
Proof. unfold issue_token, instant_now, encrypt_aes. world_walk. Qed.
Lemma world_key_material t o i p : keeps (on_st R) (create_key_material t o i p).
Proof. unfold create_key_material, or_fail, call, Tpm.create_credential_key_with_policy. world_walk. Qed.
Lemma world_passphrase_gate c : keeps (on_st R) (passphrase_gate c).
Proof. unfold passphrase_gate, call. world_walk. Qed.
Hint Resolve world_validate world_sign world_issue world_key_material world_passphrase_gate : keeps.

(** The start of the daemon only reads. *)
Lemma world_load_credentials {E} u : keeps R (load_credentials_from_disk u : M World E _).
Proof. unfold load_credentials_from_disk. world_walk. Qed.
Lemma world_new {E} p : keeps R (new p : M World E Authenticator).
Proof. unfold new, load_credentials_from_disk, Session.detect. world_walk. Qed.

(** ** Registration, assertions and management *)

Context (Hsave : forall cs, ok (StoreProps.SaveCredentials cs) = true).
Context (Hcount : forall i n, ok (StoreProps.UpdateSignCount i n) = true).
Context (Hdelete : forall i, ok (StoreProps.DeleteCredential i) = true).

Lemma world_save {E} : keeps (on_st R) (save_credentials : M St E unit).
Proof. unfold save_credentials, call. world_walk. Qed.
Hint Resolve world_save : keeps.
Lemma world_make_credential b : keeps (on_st R) (make_credential oc b).
Proof.
  unfold make_credential, deny_if, session_matches, session_approves, session_uid, or_fail, call. world_walk.
Qed.
Lemma world_assert_with i h v t : keeps (on_st R) (assert_with oc i h v t).
Proof. unfold assert_with, credential_at, or_fail, call. world_walk. Qed.
Hint Resolve world_assert_with : keeps.
Lemma world_get_assertion b : keeps (on_st R) (get_assertion oc b).
Proof.
  unfold get_assertion, load_credentials_from_disk, deny_if, instant_now, session_uid. world_walk.
Qed.
Lemma world_get_next b : keeps (on_st R) (get_next_assertion oc b).
Proof. unfold get_next_assertion, deny_if, elapsed, instant_now, session_uid, session_matches. world_walk. Qed.
Lemma world_delete_all {E} cs : keeps (on_st R) (delete_all_credentials cs : M St E unit).
Proof. induction cs; simpl; unfold call; world_walk. Qed.
Hint Resolve world_delete_all : keeps.
Lemma world_management b : keeps (on_st R) (credential_management b).
Proof.
  unfold credential_management, expire_management, enumerate_rps_begin, enumerate_rps_next,
    enumerate_credentials_begin, enumerate_credentials_next, start_management, delete_credential,
    update_user_information, session_matches, session_uid, elapsed, instant_now, credential_at, deny_if,
    or_fail, call. world_walk.
Qed.

(** ** Management commands *)

Context (Hpolicy : forall i p, ok (StoreProps.UpdatePolicy i p) = true).
Context (Hrecovery : forall i p s h k, ok (StoreProps.UpdateRecovery i p s h k) = true).

Lemma world_handle_tpm_command c : keeps (on_st R) (handle_tpm_command oc c).
Proof. unfold handle_tpm_command, require_tpm, wrap. world_walk. Qed.

(** The renewal of a policy without the daemon. *)
Lemma world_update_pcr_policy p i s : keeps R (update_pcr_policy_for_credential oc p i s).
Proof. unfold update_pcr_policy_for_credential, open_default_tpm. world_walk. Qed.

(** ** The client PIN *)

Context (Hpin : forall p, ok (StoreProps.SaveClientPin p) = true).
Context (Hforget : ok StoreProps.DeleteClientPin = true).

Lemma world_persist p : keeps (on_st R) (persist_client_pin p).
Proof. unfold persist_client_pin, or_fail, call. world_walk. Qed.
Hint Resolve world_persist : keeps.
Lemma world_authenticate h : keeps (on_st R) (authenticate_pin h).
Proof. unfold authenticate_pin. world_walk. Qed.
Hint Resolve world_authenticate : keeps.
Lemma world_client_pin b : keeps (on_st R) (client_pin_ b).
Proof.
  unfold client_pin_, set_pin, change_pin, get_pin_uv_auth_token, get_pin_uv_auth_token_using_uv,
    user_consents, session_matches, session_approves, check_permissions, deny_if, new_pin_state,
    pin_uv_keys. world_walk.
Qed.
Lemma world_reset : keeps (on_st R) reset.
Proof. unfold reset, deny_if, call. world_walk. Qed.
Hint Resolve world_make_credential world_get_assertion world_get_next world_management world_client_pin
  world_reset : keeps.

(** A request changes the store only through its operations. *)
Lemma world_handle_cbor {E} p : keeps (on_st R) (handle_cbor oc p : M St E bytes).
Proof.
  unfold handle_cbor, respond, clear_stale, dispatch, selection_, deny_if, bio_enrollment, large_blobs,
    config. world_walk.
Qed.
End authenticator.

(** The same, for a relation that all of the daemon's operations keep. *)
Section all_operations.
Context {pf : Platform} {cr : Crypto} {codec : CborCodec} {es : Esapi} {sc : StoreCodec}.
Context (R : relation World) {sr : StoreRel R} (oc : bool).
Context (Hop : forall op, daemon_op op = true -> keeps R (StoreProps.run_op op)).

Lemma read_daemon op : read_op op = true -> daemon_op op = true.
Proof. by destruct op. Qed.
Hint Resolve read_daemon : core.

Lemma daemon_handle_cbor {E} p : keeps (on_st R) (handle_cbor oc p : M St E bytes).
Proof. apply (world_handle_cbor R oc daemon_op); auto. Qed.
Lemma daemon_new {E} p : keeps R (new p : M World E Authenticator).
Proof. apply (world_new R daemon_op); auto. Qed.
Lemma daemon_tpm_command c : keeps (on_st R) (handle_tpm_command oc c).
Proof. apply (world_handle_tpm_command R oc daemon_op); auto. Qed.
Lemma daemon_update_pcr_policy p i s : keeps R (update_pcr_policy_for_credential oc p i s).
Proof. apply (world_update_pcr_policy R oc daemon_op); auto. Qed.
End all_operations.

(** The constraints of the schema, as a relation on worlds. *)
#[export] Instance wf_rel_store : StoreRel StoreProps.wf_rel.
Proof. split; [apply _|]. intros w w' Hw. unfold StoreProps.wf_rel, inv_rel. by rewrite Hw. Qed.

(** The settings of the daemon are the same. *)
Definition same_config : relation World := fun w w' => daemon_config (w_db w) = daemon_config (w_db w').

#[export] Instance same_config_store : StoreRel same_config.
Proof.
  split; [split; unfold same_config; [by intros w|congruence]|].
  intros w w' Hw. unfold same_config. by rewrite Hw.
Qed.

Lemma config_update f : (forall d, daemon_config (f d) = daemon_config d) ->
  keeps same_config (Store.db_update f).
Proof. intros Hf w. unfold same_config. simpl. by rewrite Hf. Qed.

Lemma config_get {A} (f : Db -> A) : keeps same_config (Store.db_get f).
Proof. by intros w. Qed.

Lemma config_committing {pf : Platform} {A} msg (m : M World string A) :
  keeps same_config m -> keeps same_config (Store.committing msg m).
Proof.
  intros Hm w. unfold Store.committing.
  assert (keeps same_config (a ← m; _ ← Store.io msg; mret a)) as H
    by (unfold Store.io; store_walk ltac:(exact Hm)).
  specialize (H w). by destruct ((a ← m; _ ← Store.io msg; mret a) w) as [[] w'].
Qed.

(** The daemon's own thread does not change its settings. *)
Lemma config_run_op {pf : Platform} {cr : Crypto} {sc : StoreCodec} op :
  daemon_op op = true -> keeps same_config (StoreProps.run_op op).
Proof.
  assert (forall cs, keeps same_config (Store.save_all cs)) as Hall.
  { intros cs. induction cs; simpl;
      unfold Store.save_credential, Store.save_recovery, Store.insert_metadata, Store.insert_keyslot,
        Store.insert_token, Store.load_or_generate_hmac_key, Store.io;
      store_walk ltac:(first [apply config_get | apply config_update; done]). }
  intros Hop. destruct op; simpl in *; try discriminate Hop.
  all: unfold Store.load_ctap2_credentials, Store.load_row, Store.check_integrity,
    Store.save_ctap2_credentials, Store.update_ctap2_sign_count, Store.update_ctap2_policy,
    Store.update_recovery_slot, Store.delete_ctap2_credential, Store.load_client_pin_state,
    Store.save_client_pin_state, Store.delete_client_pin_state, Store.load_default_pcr_policy,
    Store.load_daemon_passphrase, Store.open_database, Store.transaction,
    Store.load_or_generate_hmac_key, Store.io.
  all: store_walk ltac:(first
    [apply config_get | apply config_committing | apply config_update; done | apply Hall]).
Qed.

End WorldFacts.
