(* ===== verification/StoreCounts.v ===== *)
(** The ids and signature counters in the store: which of them an operation can
    add, and which credentials a load can return. *)
From Stdlib Require Import ZArith Lia String.
From stdpp Require Import base list option strings gmap.
From S2P Require Import Prelude Schema Platform Cbor Session Tpm Store StoreProps StoreUpdates.
From S2P Require Import Ctap2Types Ctap2 Ctap2Facts WorldFacts.

#[local] Open Scope Z_scope.

Module StoreCounts.
Import Store StoreProps WorldFacts.

(** The ids and counters of the store. *)
Definition count_of (m : MetadataRow) : bytes * Z := (m_credential_id m, m_sign_count m).
Definition counts (d : Db) : list (bytes * Z) := count_of <$> metadata d.
Definition stored_count (c : StoredCtap2Credential) : bytes * Z := (s_id c, s_sign_count c).

(** Time passes, the constraints stay, and only counters of [X] are new. *)
Record within (X : bytes * Z -> Prop) (w w' : World) : Prop := {
  within_tick : (w_tick w <= w_tick w')%nat;
  within_wf : db_wf (w_db w) -> db_wf (w_db w');
  within_counts p : p ∈ counts (w_db w') -> p ∈ counts (w_db w) \/ X p }.

(** The same, without the constraints. *)
Record grows (X : bytes * Z -> Prop) (w w' : World) : Prop := {
  grows_tick : (w_tick w <= w_tick w')%nat;
  grows_counts p : p ∈ counts (w_db w') -> p ∈ counts (w_db w) \/ X p }.

#[export] Instance grows_store X : StoreRel (grows X).
Proof.
  split; [split|].
  - intros w. split; auto.
  - intros a b c [T1 C1] [T2 C2]. split; [lia|]. intros p [?|?]%C2; auto.
  - intros w w' Hw Ht. split; [done|]. rewrite Hw. auto.
Qed.

#[export] Instance within_store X : StoreRel (within X).
Proof.
  split; [split|].
  - intros w. split; auto.
  - intros a b c [T1 W1 C1] [T2 W2 C2]. split; [lia|auto|]. intros p [?|?]%C2; auto.
  - intros w w' Hw Ht. split; [done|..]; rewrite Hw; auto.
Qed.

Lemma within_weaken X Y w w' : (forall p, X p -> Y p) -> within X w w' -> within Y w w'.
Proof. intros H [T W C]. split; auto. intros p [?|?]%C; auto. Qed.

(** ** What an operation adds *)

Definition adds (op : StoreOp) (p : bytes * Z) : Prop :=
  match op with
  | SaveCredentials cs => p ∈ stored_count <$> cs
  | UpdateSignCount id n => p = (id, n)
  | _ => False
  end.

Section ops.
Context {pf : Platform} {cr : Crypto} {sc : StoreCodec} (X : bytes * Z -> Prop).

Lemma grows_update f :
  (forall d p, p ∈ counts (f d) -> p ∈ counts d \/ X p) -> keeps (grows X) (db_update f).
Proof. intros Hf w. split; [done|]. apply Hf. Qed.

Lemma grows_same f : (forall d, metadata (f d) = metadata d) -> keeps (grows X) (db_update f).
Proof. intros Hf. apply grows_update. intros d p. unfold counts. rewrite Hf. auto. Qed.

Lemma grows_get {A} (f : Db -> A) : keeps (grows X) (db_get f).
Proof. intros w. by apply store_rel_db. Qed.

Lemma grows_delete q : keeps (grows X) (db_update (delete_metadata q)).
Proof.
  apply grows_update. intros d p (m & -> & [Hm _]%elem_of_filterb)%list_elem_of_fmap. left.
  by apply (list_elem_of_fmap_2 count_of).
Qed.

Lemma grows_insert row : X (count_of row) -> keeps (grows X) (insert_metadata row).
Proof.
  intros Hx. unfold insert_metadata. store_walk ltac:(first [apply grows_get | apply grows_update]).
  intros d p. unfold counts. simpl. rewrite fmap_app. intros [?|Hp]%elem_of_app; [auto|].
  apply list_elem_of_singleton in Hp as ->. auto.
Qed.

Lemma grows_committing {A} msg (m : M World string A) :
  keeps (grows X) m -> keeps (grows X) (committing msg m).
Proof.
  intros Hm w. unfold committing.
  assert (keeps (grows X) (a ← m; _ ← io msg; mret a)) as H by (unfold io; store_walk ltac:(exact Hm)).
  specialize (H w). destruct ((a ← m; _ ← io msg; mret a) w) as [[] w']; [done|..];
    destruct H as [Ht _]; split; auto.
Qed.

Lemma grows_save_all cs :
  (forall c, c ∈ cs -> X (stored_count c)) -> keeps (grows X) (save_all cs).
Proof.
  induction cs as [|c cs IH]; simpl; intros Hx; [eauto with keeps|].
  assert (X (stored_count c)) by (apply Hx; left).
  assert (keeps (grows X) (save_all cs)) as Hall by (apply IH; intros; apply Hx; by right).
  unfold save_credential, save_recovery, insert_keyslot, insert_token, load_or_generate_hmac_key, io.
  store_walk ltac:(first [apply grows_get | apply grows_same; done | by apply grows_insert]).
Qed.

Lemma grows_op op : (forall p, adds op p -> X p) -> keeps (grows X) (run_op op).
Proof.
  intros Hx. destruct op as [u|cs|id n|id p|id np ns nh k|id| |st| | |l| |s h k]; simpl in *.
  2:{ assert (keeps (grows X) (save_all cs)) as Hall.
      { apply grows_save_all. intros c Hc. apply Hx.
        by apply list_elem_of_fmap_2. }
      unfold save_ctap2_credentials, open_database, transaction, io.
      store_walk ltac:(first [apply grows_delete | apply grows_committing | apply grows_same; done]). }
  2:{ unfold update_ctap2_sign_count, open_database, io.
      store_walk ltac:(first [apply grows_get | apply grows_same; done | apply grows_update]).
      intros d p. unfold counts. simpl. unfold update_rows. intros (m & -> & Hm)%list_elem_of_fmap.
      apply list_elem_of_In, in_map_iff in Hm as (m0 & <- & Hm0). apply list_elem_of_In in Hm0.
      destruct (has_id id m0) eqn:Hid; [right; apply Hx; unfold has_id in Hid; unfold count_of; simpl; f_equal; by bools|left].
      by apply list_elem_of_fmap_2. }
  all: try (destruct k); unfold load_ctap2_credentials, load_row, check_integrity, update_ctap2_policy,
    update_recovery_slot, delete_ctap2_credential, load_client_pin_state, save_client_pin_state,
    delete_client_pin_state, load_default_pcr_policy, save_default_pcr_policy, load_daemon_passphrase,
    save_daemon_passphrase, open_database, transaction, load_or_generate_hmac_key, io.
  all: store_walk ltac:(first
    [apply grows_get | apply grows_delete | apply grows_committing | apply grows_same; done]).
Qed.

Lemma within_op op : (forall p, adds op p -> X p) -> keeps (within X) (run_op op).
Proof.
  intros Hx w. destruct (grows_op op Hx w) as [Ht Hc]. split; [done|apply wf_run_op|done].
Qed.
End ops.

(** ** What a load returns *)

(** The query returns at most one row for a credential. *)
Lemma select_ids user_id d :
  db_wf d -> NoDup ((fun j => m_credential_id (j_m j)) <$> select_rows user_id d) /\
    Forall (fun j => j_m j ∈ metadata d) (select_rows user_id d).
Proof.
  intros Hwf. unfold select_rows. split.
  - rewrite sort_by_perm.
    apply (sublist_NoDup _ (m_credential_id <$> List.filter (visible user_id) (metadata d))).
    { apply NoDup_fmap_filterb, Hwf. }
    induction (List.filter (visible user_id) (metadata d)) as [|m ms IH]; [done|].
    rewrite bind_cons, fmap_app. pose proof (StoreUpdates.joined_of_m d m) as Hm.
    destruct (StoreUpdates.joined_short d m Hwf) as [E|[j E]]; rewrite E in *; simpl.
    + by apply sublist_cons.
    + apply Forall_cons in Hm as [-> _]. by apply sublist_skip.
  - apply Forall_forall. intros j Hj%elem_of_sort_by. apply list_elem_of_bind in Hj as (m & Hj & [Hm _]%elem_of_filterb).
    pose proof (StoreUpdates.joined_of_m d m) as Hall. rewrite Forall_forall in Hall. by rewrite (Hall _ Hj).
Qed.

Section load.
Context {pf : Platform} {cr : Crypto} {sc : StoreCodec}.

Lemma try_u32_Some z n : try_u32 z = Some n -> n = z.
Proof. unfold try_u32. by destruct (_ && _); intros [= ->]. Qed.

Lemma load_row_Ok user_id j w c w' :
  load_row user_id j w = (Ok c, w') -> stored_count c = count_of (j_m j).
Proof.
  unfold load_row, check_integrity, decode_row. intros H. run_inv; unfold stored_count, count_of; simpl;
    f_equal; by apply try_u32_Some.
Qed.

Lemma load_counts user_id w cs w' :
  load_ctap2_credentials user_id w = (Ok cs, w') -> db_wf (w_db w) ->
  NoDup (s_id <$> cs) /\ forall c, c ∈ cs -> stored_count c ∈ counts (w_db w).
Proof.
  unfold load_ctap2_credentials, open_database, io, db_update, db_get. intros H Hwf. run_inv.
  { split; [constructor|]. by intros c ?%not_elem_of_nil. }
  repeat match goal with H : next _ = (Ok _, _) |- _ => apply Ctap2Facts.next_Ok in H as [-> ->] end.
  destruct (select_ids user_id (set_exists (w_db w))) as [Hn Hm]; [by eapply db_wf_same; [..|exact Hwf]|].
  match goal with H : _ = (Ok cs, _) |- _ => apply mapM_run_Ok in H as Hall end.
  assert (stored_count <$> cs = (fun j => count_of (j_m j)) <$> select_rows user_id (set_exists (w_db w))) as Hc.
  { simpl in Hall. clear -Hall. revert Hall. generalize (select_rows user_id (set_exists (w_db w))).
    intros rows Hall. induction Hall as [|j c js cs (w1 & w2 & Hj%load_row_Ok) _ IH]; [done|].
    rewrite !fmap_cons, Hj. by f_equal. }
  split.
  - assert (s_id <$> cs = fst <$> (stored_count <$> cs)) as -> by by rewrite <- list_fmap_compose.
    rewrite Hc, <- list_fmap_compose. exact Hn.
  - intros c Hin. apply (list_elem_of_fmap_2 stored_count) in Hin. rewrite Hc in Hin.
    apply list_elem_of_fmap in Hin as (j & -> & Hj). rewrite Forall_forall in Hm.
    by apply (list_elem_of_fmap_2 count_of), (Hm j).
Qed.

(** Writing a counter changes the rows of its credential only, and all of them
    when it succeeds. *)
Lemma update_count_runs id n w r w' :
  update_ctap2_sign_count id n w = (r, w') ->
  r = Ok tt -> forall p, p ∈ counts (w_db w') -> p.1 = id -> p.2 = n.
Proof.
  unfold update_ctap2_sign_count, open_database, io, db_update, db_get. intros H ->.
  run_inv. simpl. intros p. unfold counts. simpl. unfold update_rows.
  intros (m & -> & Hm)%list_elem_of_fmap Hid. apply list_elem_of_In, in_map_iff in Hm as (m0 & <- & _).
  destruct (has_id id m0) eqn:E; [done|]. unfold has_id in E. bools. done.
Qed.
End load.
End StoreCounts.
