(* ===== verification/Ctap2Pin.v ===== *)
(** The client PIN: an abstract machine of the retry counter that every request
    refines, the bound on PIN guesses, and when a request counts as verified. *)
From Stdlib Require Import ZArith Lia String.
From stdpp Require Import base list option strings.
From S2P Require Import Prelude Schema Platform Cbor Session Tpm Store Ctap2Types Ctap2 Ctap2Facts.

#[local] Open Scope Z_scope.

Module Ctap2Pin.
Import Ctap2 Ctap2Facts.

(** ** The abstract machine *)

(** What a request did to the PIN. *)
Inductive PinEvent := Untouched | Wrong | Right | Chosen | Changed | Cleared.

#[export] Instance PinEvent_eq_dec : EqDecision PinEvent.
Proof. solve_decision. Defined.

(** The PIN hash [h] is the one the state was made for. *)
Definition pin_matches {cr : Crypto} (p : ClientPinState) (h : bytes) : Prop :=
  length h = 16%nat /\ constant_time_equal (pin_verifier (pin_salt p) h) (pin_verifier_ p) = true.

Inductive pin_step {cr : Crypto} : PinEvent -> option ClientPinState -> option ClientPinState -> Prop :=
| step_untouched o : pin_step Untouched o o
| step_wrong p : retries p <> 0 ->
    pin_step Wrong (Some p) (Some (with_retries (saturating_sub (retries p) 1) p))
| step_right p h : retries p <> 0 -> pin_matches p h ->
    pin_step Right (Some p) (Some (with_retries PIN_RETRIES p))
| step_chosen p : retries p = PIN_RETRIES -> pin_step Chosen None (Some p)
| step_changed p h p' : retries p <> 0 -> pin_matches p h -> retries p' = PIN_RETRIES ->
    pin_step Changed (Some p) (Some p')
| step_cleared o : pin_step Cleared o None.

(** A run of the machine. *)
Inductive pin_trace {cr : Crypto} : list PinEvent -> option ClientPinState -> option ClientPinState -> Prop :=
| trace_nil o : pin_trace [] o o
| trace_cons e es o1 o2 o3 : pin_step e o1 o2 -> pin_trace es o2 o3 -> pin_trace (e :: es) o1 o3.

(** ** The handlers refine it *)

Definition same_pin (s s' : St) : Prop := client_pin (auth s') = client_pin (auth s).

#[export] Instance same_pin_preorder : PreOrder same_pin.
Proof. split; unfold same_pin; repeat intro; congruence. Qed.
#[export] Instance same_pin_world : IgnoresWorld same_pin.
Proof. done. Qed.
Lemma same_pin_tpm t s : same_pin s (set_auth (set_tpm t (auth s)) s).
Proof. done. Qed.
#[export] Hint Resolve same_pin_tpm : keeps.

Ltac pin_walk := handler_walk ltac:(reflexivity).

Section refine.
Context {pf : Platform} {cr : Crypto} {codec : CborCodec} {es : Esapi} {sc : StoreCodec}.
Context (oc : bool).

Lemma same_pin_validate pr ap msg p rp : keeps same_pin (validate_pin_uv_auth pr ap msg p rp).
Proof. unfold validate_pin_uv_auth. pin_walk. Qed.
Lemma same_pin_issue_token k m p rp : keeps same_pin (issue_token k m p rp).
Proof. unfold issue_token. pin_walk. Qed.
#[local] Hint Resolve same_pin_validate same_pin_issue_token : keeps.
Lemma same_pin_using_uv k p rp : keeps same_pin (get_pin_uv_auth_token_using_uv k p rp).
Proof. unfold get_pin_uv_auth_token_using_uv. pin_walk. Qed.
Lemma same_pin_make_credential b : keeps same_pin (make_credential oc b).
Proof. unfold make_credential. pin_walk. Qed.
Lemma same_pin_assert_with i h v n : keeps same_pin (assert_with oc i h v n).
Proof. unfold assert_with. pin_walk. Qed.
#[local] Hint Resolve same_pin_assert_with : keeps.
Lemma same_pin_get_assertion b : keeps same_pin (get_assertion oc b).
Proof. unfold get_assertion. pin_walk. Qed.
Lemma same_pin_get_next_assertion b : keeps same_pin (get_next_assertion oc b).
Proof. unfold get_next_assertion. pin_walk. Qed.
Lemma same_pin_start_management a b c d : keeps same_pin (start_management a b c d).
Proof. unfold start_management. pin_walk. Qed.
#[local] Hint Resolve same_pin_start_management : keeps.
Lemma same_pin_credential_management b : keeps same_pin (credential_management b).
Proof.
  unfold credential_management, expire_management, enumerate_rps_begin, enumerate_rps_next,
    enumerate_credentials_begin, enumerate_credentials_next, delete_credential, update_user_information.
  pin_walk.
Qed.
Lemma same_pin_clear_stale c : keeps same_pin (clear_stale c).
Proof. unfold clear_stale. pin_walk. Qed.
End refine.
#[export] Hint Resolve same_pin_issue_token same_pin_using_uv same_pin_clear_stale : keeps.

(** A step that does not remove the PIN. *)
Definition pin_moves {cr : Crypto} (o o' : option ClientPinState) : Prop :=
  exists e, e <> Cleared /\ pin_step e o o'.

Lemma pin_moves_refl {cr : Crypto} o : pin_moves o o.
Proof. exists Untouched. split; [done|constructor]. Qed.
#[local] Hint Resolve pin_moves_refl : fido.

(** Every run of [m] is one such step of the machine. *)
Definition stepping {cr : Crypto} {E A} (m : M St E A) : Prop :=
  forall s, pin_moves (client_pin (auth s)) (client_pin (auth (m s).2)).

Section steps.
Context {pf : Platform} {cr : Crypto} {codec : CborCodec} {es : Esapi} {sc : StoreCodec}.
Context (oc : bool).

Lemma stepping_same {E A} (m : M St E A) : keeps same_pin m -> stepping m.
Proof. intros Hm s. rewrite (Hm s). apply pin_moves_refl. Qed.

Lemma stepping_bind_same {E A B} (m : M St E A) (k : A -> M St E B) :
  keeps same_pin m -> (forall a, stepping (k a)) -> stepping (m ≫= k).
Proof.
  intros Hm Hk s. specialize (Hm s). unfold mbind, M_bind. destruct (m s) as [[a|e|] s1]; simpl in *.
  - rewrite <- Hm. apply Hk.
  - rewrite Hm. apply pin_moves_refl.
  - rewrite Hm. apply pin_moves_refl.
Qed.

Lemma stepping_attempt {E F A} (m : M St F A) : stepping m -> stepping (attempt m : M St E _).
Proof. intros Hm s. specialize (Hm s). unfold attempt. by destruct (m s) as [[] ?]. Qed.

(** What a bind does after a computation that leaves the PIN alone. *)
Lemma after_same {E A B} (m : M St E A) (k : A -> M St E B) s :
  keeps same_pin m ->
  same_pin s (((m ≫= k) s).2) \/ exists a s1, same_pin s s1 /\ ((m ≫= k) s) = k a s1.
Proof.
  intros Hm. specialize (Hm s). unfold mbind, M_bind. destruct (m s) as [[a|e|] s1]; eauto.
Qed.

Lemma update_then {E A} f (m : M St E A) s :
  ((_ ← update f; m) : M St E A) s = m (set_auth (f (auth s)) s).
Proof. done. Qed.

Definition with_pin (p : ClientPinState) (s : St) : St := set_auth (set_client_pin (Some p) (auth s)) s.

Lemma authenticate_pin_eq h s :
  authenticate_pin h s =
  if negb (length h =? 16)%nat then (Err InvalidParameter, s)
  else match client_pin (auth s) with
  | None => (Err PinNotSet, s)
  | Some pin =>
      if retries pin =? 0 then (Err PinBlocked, s)
      else if constant_time_equal (pin_verifier (pin_salt pin) h) (pin_verifier_ pin) then
        if retries pin =? PIN_RETRIES then (Ok tt, s)
        else persist_client_pin (with_retries PIN_RETRIES pin) (with_pin (with_retries PIN_RETRIES pin) s)
      else
        let pin' := with_retries (saturating_sub (retries pin) 1) pin in
        (_ ← persist_client_pin pin'; throw (if retries pin' =? 0 then PinBlocked else PinInvalid))
          (with_pin pin' s)
  end.
Proof.
  unfold authenticate_pin. destruct (negb (length h =? 16)%nat); [done|].
  rewrite (bind_run_Ok (field client_pin) _ s (client_pin (auth s)) s eq_refl).
  destruct (client_pin (auth s)) as [pin|]; [|done]. destruct (retries pin =? 0); [done|].
  destruct (constant_time_equal _ _); [|done]. by destruct (retries pin =? PIN_RETRIES).
Qed.

(** A PIN that is presented: wrong, right, or not looked at. *)
Lemma authenticate_pin_step h s r s' :
  authenticate_pin h s = (r, s') ->
  pin_moves (client_pin (auth s)) (client_pin (auth s')) /\
  (r = Ok tt ->
   exists p, client_pin (auth s) = Some p /\ retries p <> 0 /\ pin_matches p h /\
     is_Some (client_pin (auth s'))).
Proof.
  rewrite authenticate_pin_eq. destruct (negb (length h =? 16)%nat) eqn:Hl; bools.
  { intros [= <- <-]. split; [auto with fido|done]. }
  destruct (client_pin (auth s)) as [p|] eqn:Hp.
  2:{ intros [= <- <-]. rewrite Hp. split; [auto with fido|done]. }
  destruct (retries p =? 0) eqn:Hr; bools.
  { intros [= <- <-]. rewrite Hp. split; [auto with fido|done]. }
  destruct (constant_time_equal _ _) eqn:Hv.
  - destruct (retries p =? PIN_RETRIES) eqn:H8.
    { intros [= <- <-]. rewrite Hp. split; [auto with fido|]. intros _. by exists p. }
    intros H. pose proof (keeps_persist_client_pin same_pin (with_retries PIN_RETRIES p)
      (with_pin (with_retries PIN_RETRIES p) s)) as Hk. rewrite H in Hk. unfold same_pin in Hk. simpl in Hk.
    rewrite Hk. split; [exists Right; split; [done|by apply (step_right p h)]|]. intros _. by exists p.
  - simpl. set (p' := with_retries (saturating_sub (retries p) 1) p). intros H.
    assert (keeps same_pin (_ ← persist_client_pin p';
      (throw (if retries p' =? 0 then PinBlocked else PinInvalid) : M St ErrorStatus unit))) as Hk by pin_walk.
    specialize (Hk (with_pin p' s)). unfold p' in Hk. simpl in Hk. unfold p' in H. simpl in H. rewrite H in Hk.
    unfold same_pin in Hk. simpl in Hk. rewrite Hk. split; [exists Wrong; split; [done|by constructor]|].
    intros ->. by apply bind_Ok in H as (? & ? & _ & ?).
Qed.

Lemma stepping_then_same {E A B} (m : M St E A) (k : A -> M St E B) :
  stepping m -> (forall a, keeps same_pin (k a)) -> stepping (m ≫= k).
Proof.
  intros Hm Hk s. specialize (Hm s). unfold mbind, M_bind.
  destruct (m s) as [[a|x|] s1]; simpl in *; [|done..]. by rewrite (Hk a s1).
Qed.

(** The PIN is as it was, or it was just chosen. *)
Definition chosen_rel (s s' : St) : Prop :=
  same_pin s s' \/ exists p, client_pin (auth s') = Some p /\ retries p = PIN_RETRIES.

#[local] Instance chosen_rel_preorder : PreOrder chosen_rel.
Proof.
  split; [by left|]. unfold chosen_rel, same_pin. intros a b c [Hab|(p & Hp & Hr)] [Hbc|Hc]; auto.
  - left. congruence.
  - right. exists p. split; [congruence|done].
Qed.
#[local] Instance chosen_rel_world : IgnoresWorld chosen_rel.
Proof. by left. Qed.

Lemma keeps_new_pin {A} new_pin (k : ClientPinState -> M St ErrorStatus A) :
  (forall state, retries state = PIN_RETRIES -> keeps chosen_rel (k state)) ->
  keeps chosen_rel (new_pin_state new_pin ≫= k).
Proof.
  intros Hk s. pose proof (keeps_new_pin_state chosen_rel new_pin s) as Hn. unfold mbind at 1, M_bind at 1.
  destruct (new_pin_state new_pin s) as [[state|e|] s1] eqn:E; [|exact Hn..].
  etrans; [exact Hn|]. apply Hk. unfold new_pin_state in E. by run_inv.
Qed.

(** The end of [set_pin] and [change_pin]. *)
Lemma chosen_tail new_pin :
  keeps chosen_rel (state ← new_pin_state new_pin; _ ← persist_client_pin state;
    _ ← update (set_client_pin (Some state)); mret empty_response).
Proof.
  apply keeps_new_pin. intros state Hr.
  keeps_walk ltac:(apply keeps_update; intros; right; by exists state).
Qed.

Lemma set_pin_stepping k e a : stepping (set_pin k e a).
Proof.
  intros s. unfold set_pin. rewrite (bind_run_Ok (field client_pin) _ s (client_pin (auth s)) s eq_refl).
  destruct (client_pin (auth s)) as [p|] eqn:Hp; [simpl; rewrite Hp; auto with fido|].
  match goal with |- context [?m s] => assert (keeps chosen_rel m) as Hk end.
  { keeps_walk ltac:(apply chosen_tail). }
  destruct (Hk s) as [H|(p & -> & Hr)].
  - rewrite H, Hp. auto with fido.
  - exists Chosen. split; [done|by constructor].
Qed.

Lemma change_pin_stepping k e h a : stepping (change_pin k e h a).
Proof.
  unfold change_pin. apply stepping_bind_same; [pin_walk|intros pin].
  do 2 (apply stepping_bind_same; [pin_walk|intros _]).
  apply stepping_bind_same; [pin_walk|intros [aes_key hmac_key]].
  apply stepping_bind_same; [pin_walk|intros _].
  apply stepping_bind_same; [pin_walk|intros new_pin].
  apply stepping_bind_same; [pin_walk|intros _].
  apply stepping_bind_same; [pin_walk|intros pin_hash].
  intros s. destruct (authenticate_pin pin_hash s) as [r s1] eqn:Ha.
  destruct (authenticate_pin_step _ _ _ _ Ha) as [Hstep Hok].
  unfold mbind at 1, M_bind at 1. rewrite Ha. destruct r as [[]|x|]; [|exact Hstep..].
  destruct (Hok eq_refl) as (p & Hp & Hr & Hm & _).
  destruct (chosen_tail new_pin s1) as [H|(p' & Hp' & Hr')].
  - unfold same_pin in H. by rewrite H.
  - exists Changed. split; [done|]. rewrite Hp, Hp'. by apply (step_changed p pin_hash p').
Qed.

Lemma authenticate_pin_stepping h : stepping (authenticate_pin h).
Proof.
  intros s. destruct (authenticate_pin h s) as [r s'] eqn:E. by apply authenticate_pin_step in E as [? _].
Qed.

Lemma get_pin_uv_auth_token_stepping k h p rp : stepping (get_pin_uv_auth_token k h p rp).
Proof.
  unfold get_pin_uv_auth_token. apply stepping_bind_same; [pin_walk|intros _].
  apply stepping_bind_same; [pin_walk|intros [aes_key mac_key]].
  apply stepping_bind_same; [pin_walk|intros pin_hash].
  apply stepping_then_same; [apply authenticate_pin_stepping|intros _; pin_walk].
Qed.

Lemma client_pin_stepping body : stepping (client_pin_ body).
Proof.
  unfold client_pin_. do 3 (apply stepping_bind_same; [pin_walk|intro]).
  repeat match goal with |- stepping (match ?x with _ => _ end) => destruct x end;
    try (apply stepping_same; by pin_walk);
    repeat first
      [ apply set_pin_stepping | apply change_pin_stepping | apply get_pin_uv_auth_token_stepping
      | apply stepping_bind_same; [by pin_walk|intro] ].
Qed.

(** The PIN is as it was, or there is none. *)
Definition cleared_rel (s s' : St) : Prop := same_pin s s' \/ client_pin (auth s') = None.

#[local] Instance cleared_rel_preorder : PreOrder cleared_rel.
Proof.
  split; [by left|]. unfold cleared_rel, same_pin. intros a b c [?|?] [?|?]; auto; [left|right]; congruence.
Qed.
#[local] Instance cleared_rel_world : IgnoresWorld cleared_rel.
Proof. by left. Qed.

Lemma cleared_reset : keeps cleared_rel reset.
Proof. unfold reset. handler_walk ltac:(first [by left | by right]). Qed.

(** ** Requests *)

(** What a request may do to the PIN, by its command byte. *)
Definition event_allowed (payload : bytes) (e : PinEvent) : Prop :=
  match e with
  | Untouched => True
  | Cleared => head payload = Some 0x07
  | _ => head payload = Some 0x06
  end.

Lemma command_byte b c : command_of_u8 b = Some c -> b = u8_of_command c.
Proof. unfold command_of_u8. intros H. repeat case_match; simplify_eq; done. Qed.

(** What the body of a request does. *)
Lemma dispatch_step c body s :
  exists e, pin_step e (client_pin (auth s)) (client_pin (auth (dispatch oc c body s).2)) /\
    event_allowed [u8_of_command c] e.
Proof.
  assert (forall m : M St ErrorStatus bytes, keeps same_pin m ->
    exists e, pin_step e (client_pin (auth s)) (client_pin (auth (m s).2)) /\
      event_allowed [u8_of_command c] e) as Hs.
  { intros m Hm. exists Untouched. rewrite (Hm s). split; [constructor|done]. }
  destruct c; cbn [dispatch].
  - apply Hs, same_pin_make_credential.
  - apply Hs, same_pin_get_assertion.
  - apply Hs. pin_walk.
  - destruct (client_pin_stepping body s) as (e & He & Hstep). exists e. split; [done|]. by destruct e.
  - apply Hs, same_pin_get_next_assertion.
  - destruct (cleared_reset s) as [H| ->].
    + exists Untouched. rewrite H. split; [constructor|done].
    + exists Cleared. split; [constructor|done].
  - apply Hs, same_pin_credential_management.
  - apply Hs. unfold selection_. pin_walk.
  - apply Hs. unfold bio_enrollment. pin_walk.
  - apply Hs. unfold large_blobs. pin_walk.
  - apply Hs. unfold config. pin_walk.
  - apply Hs. unfold bio_enrollment. pin_walk.
  - apply Hs, same_pin_credential_management.
Qed.

Lemma handle_cbor_step {E} payload s :
  exists e, pin_step e (client_pin (auth s)) (client_pin (auth ((handle_cbor oc payload : M St E bytes) s).2)) /\
    event_allowed payload e.
Proof.
  assert (forall r : res E bytes, exists e, pin_step e (client_pin (auth s)) (client_pin (auth (r, s).2)) /\
    event_allowed payload e) as Hs by (exists Untouched; split; [constructor|done]).
  unfold handle_cbor. destruct payload as [|b body]; [apply (Hs (Ok (error_response InvalidCommand)))|]. simpl.
  destruct (command_of_u8 b) as [c|] eqn:Hc; [|apply (Hs (Ok (error_response InvalidCommand)))].
  apply command_byte in Hc as ->.
  set (m := (_ ← clear_stale c; _ ← passphrase_gate c; dispatch oc c body)).
  assert (((respond m : M St E bytes) s).2 = (m s).2) as ->.
  { unfold respond, mbind, M_bind, attempt. destruct (m s) as [[]]; done. }
  assert (keeps same_pin (clear_stale c)) as Hc1 by pin_walk.
  assert (keeps same_pin (passphrase_gate c)) as Hc2 by pin_walk.
  destruct (after_same _ (fun _ => _ ← passphrase_gate c; dispatch oc c body) s Hc1) as [H|(a & s1 & H1 & H)].
  { exists Untouched. unfold m. rewrite H. split; [constructor|done]. }
  unfold m. rewrite H. rewrite <- H1.
  destruct (after_same _ (fun _ => dispatch oc c body) s1 Hc2) as [H'|(a' & s2 & H2 & H')].
  { exists Untouched. rewrite H'. split; [constructor|done]. }
  rewrite H', <- H2. destruct (dispatch_step c body s2) as (e & He & Ha). exists e. split; [done|].
  by destruct e.
Qed.
End steps.

(** ** What a request enters *)

Section entries.
Context {pf : Platform} {cr : Crypto} {codec : CborCodec} {es : Esapi} {sc : StoreCodec}.

(** The keys that a client shares with the authenticator. *)
Definition shared_keys (key_agreement_param : option cbor_map) (a : Authenticator)
    : res ErrorStatus (bytes * bytes) :=
  client_key ← ok_or key_agreement_param MissingParameter;
  client_key ← parse_key_agreement client_key;
  secret ← ok_or (key_agreement a) InvalidCommand;
  ok_or (derive_protocol2_keys (p256_ecdh secret client_key)) OperationDenied.

(** The new PIN and the hash of the old one, of a change that has passed the checks
    before the old PIN is looked at. *)
Definition entered_to_change (key_agreement_param : option cbor_map) (new_pin_enc pin_hash_enc auth_param : bytes)
    (a : Authenticator) : res ErrorStatus (bytes * bytes) :=
  _ ← guard (bool_decide (is_Some (client_pin a))) PinNotSet;
  _ ← guard (negb ((length new_pin_enc <? 16)%nat || negb ((length new_pin_enc - 16) mod 16 =? 0)%nat
               || (length pin_hash_enc <? 16)%nat || negb ((length pin_hash_enc - 16) mod 16 =? 0)%nat)) InvalidParameter;
  '(aes_key, hmac_key) ← shared_keys key_agreement_param a;
  _ ← verify_pin_uv_auth_param hmac_key auth_param (new_pin_enc ++ pin_hash_enc);
  new_pin ← decrypt_pin aes_key new_pin_enc;
  _ ← validate_new_pin new_pin;
  pin_hash ← decrypt_pin_hash aes_key pin_hash_enc;
  mret (new_pin, pin_hash).

(** The keys and the PIN hash, of a request for a token. *)
Definition entered_for_token (key_agreement_param : option cbor_map) (pin_hash_enc : bytes) (permissions : Z)
    (rp_id : option string) (a : Authenticator) : res ErrorStatus (bytes * bytes * bytes) :=
  _ ← guard (negb (is_empty permissions)) InvalidParameter;
  _ ← guard (negb (contains permissions GET_ASSERTION && bool_decide (rp_id = None))) InvalidParameter;
  '(aes_key, mac_key) ← shared_keys key_agreement_param a;
  pin_hash ← decrypt_pin_hash aes_key pin_hash_enc;
  mret (aes_key, mac_key, pin_hash).

(** The PIN hash that the body of a ClientPIN request enters: changePIN (4) and the
    two requests for a token on a PIN (6 and 9) have one. *)
Definition entered_body (body : bytes) (a : Authenticator) : res ErrorStatus bytes :=
  request ← decode_map body;
  _ ← validate_pin_uv_protocol (map_integer request 1);
  sub_command ← ok_or (map_integer request 2) MissingParameter;
  let key_agreement_param := map_map request 3 in
  match sub_command with
  | 4 =>
      let '(new_pin_enc, pin_hash_enc, auth_param) :=
        match map_map request 4 with
        | Some params => (map_bytes params 1, map_bytes params 2, map_bytes params 3)
        | None => (map_bytes request 5, map_bytes request 6, map_bytes request 4)
        end in
      new_pin_enc ← ok_or new_pin_enc MissingParameter;
      pin_hash_enc ← ok_or pin_hash_enc MissingParameter;
      auth_param ← ok_or auth_param MissingParameter;
      '(_, pin_hash) ← entered_to_change key_agreement_param new_pin_enc pin_hash_enc auth_param a;
      mret pin_hash
  | 6 | 9 =>
      let '(pin_hash_enc, permissions, rp_id) :=
        match map_map request 4 with
        | Some params => (map_bytes params 1, permissions_param params 2, map_text params 3)
        | None => (map_bytes request 6, permissions_param request 9, map_text request 10)
        end in
      pin_hash_enc ← ok_or pin_hash_enc MissingParameter;
      permissions ← ok_or permissions MissingParameter;
      '(_, pin_hash) ← entered_for_token key_agreement_param pin_hash_enc permissions rp_id a;
      mret pin_hash
  | _ => Err InvalidCommand
  end.

(** The PIN hash that a request, 0x06 being ClientPIN, enters in a state. *)
Definition entered (payload : bytes) (a : Authenticator) : option bytes :=
  match payload with
  | b :: body => if b =? 0x06 then res_ok (entered_body body a) else None
  | [] => None
  end.

(** It is the right one, or a wrong one, while there are retries left. *)
Definition enters (right : bool) (x : bytes * Authenticator) : bool :=
  match entered x.1 x.2, client_pin x.2 with
  | Some h, Some p =>
      negb (retries p =? 0) && (length h =? 16)%nat &&
      Bool.eqb (bool_decide (pin_verifier (pin_salt p) h = pin_verifier_ p)) right
  | _, _ => false
  end.
Definition right_entry : bytes * Authenticator -> bool := enters true.
Definition wrong_entry : bytes * Authenticator -> bool := enters false.

Lemma pin_uv_keys_eq k s : pin_uv_keys k s = (shared_keys k (auth s), s).
Proof.
  unfold pin_uv_keys, shared_keys, field, gets, lift, mbind, M_bind. simpl.
  repeat (case_match; simplify_eq/=; try done).
Qed.

Lemma bind_then {A B} (m : M St ErrorStatus A) (k : A -> M St ErrorStatus B) r s s1 :
  m s = (r, s1) -> (m ≫= k) s = match r with Ok a => k a s1 | Err e => (Err e, s1) | Panic => (Panic, s1) end.
Proof. intros H. unfold mbind, M_bind. rewrite H. by destruct r. Qed.

Lemma keys_then {B} k (f : bytes * bytes -> M St ErrorStatus B) s :
  (pin_uv_keys k ≫= f) s =
    match shared_keys k (auth s) with Ok x => f x s | Err e => (Err e, s) | Panic => (Panic, s) end.
Proof. apply bind_then, pin_uv_keys_eq. Qed.

Lemma lift_then {A B} (r : res ErrorStatus A) (k : A -> M St ErrorStatus B) s :
  (lift r ≫= k) s = match r with Ok a => k a s | Err e => (Err e, s) | Panic => (Panic, s) end.
Proof. by apply bind_then. Qed.

Lemma deny_then {B} b e (k : unit -> M St ErrorStatus B) s :
  (deny_if b e ≫= k) s = if b then (Err e, s) else k tt s.
Proof. unfold mbind, M_bind, deny_if. by destruct b. Qed.

(** A handler looks at the PIN that was entered, or stops before. *)
Lemma change_pin_enters k e h m s :
  match entered_to_change k e h m (auth s) with
  | Ok (_, pin_hash) => exists rest, change_pin k e h m s = (authenticate_pin pin_hash ≫= rest) s
  | _ => (change_pin k e h m s).2 = s
  end.
Proof.
  unfold change_pin, entered_to_change.
  rewrite (bind_run_Ok (field client_pin) _ s (client_pin (auth s)) s eq_refl), deny_then.
  destruct (bool_decide (is_Some (client_pin (auth s)))); simpl; [|done]. rewrite deny_then.
  destruct (_ || _ || _ || _); simpl; [done|]. rewrite keys_then.
  destruct (shared_keys k (auth s)) as [[aes_key hmac_key]|x|]; simpl; [|done..]. rewrite lift_then.
  destruct (verify_pin_uv_auth_param _ _ _) as [u|x|]; simpl; [|done..]. rewrite lift_then.
  destruct (decrypt_pin _ _) as [new_pin|x|]; simpl; [|done..]. rewrite lift_then.
  destruct (validate_new_pin _) as [u'|x|]; simpl; [|done..]. rewrite lift_then.
  destruct (decrypt_pin_hash _ _) as [hash|x|]; simpl; [|done..]. by eexists.
Qed.

Lemma get_token_enters k h p rp s :
  match entered_for_token k h p rp (auth s) with
  | Ok (_, pin_hash) => exists rest, get_pin_uv_auth_token k h p rp s = (authenticate_pin pin_hash ≫= rest) s
  | _ => (get_pin_uv_auth_token k h p rp s).2 = s
  end.
Proof.
  unfold get_pin_uv_auth_token, entered_for_token.
  assert (check_permissions p rp s = (if is_empty p then Err InvalidParameter else
    if contains p GET_ASSERTION && bool_decide (rp = None) then Err InvalidParameter else Ok tt, s)) as Hc.
  { unfold check_permissions. rewrite deny_then. unfold deny_if. by destruct (is_empty p), (contains p GET_ASSERTION && bool_decide (rp = None)). }
  rewrite (bind_then _ _ _ _ _ Hc). destruct (is_empty p); simpl; [done|].
  destruct (contains p GET_ASSERTION && bool_decide (rp = None)); simpl; [done|]. rewrite keys_then.
  destruct (shared_keys k (auth s)) as [[aes_key mac_key]|x|]; simpl; [|done..].
  rewrite lift_then. destruct (decrypt_pin_hash _ _) as [hash|x|]; simpl; [|done..]. by eexists.
Qed.

Lemma set_pin_refused k e m s : is_Some (client_pin (auth s)) -> set_pin k e m s = (Err InvalidCommand, s).
Proof.
  intros Hp. unfold set_pin. rewrite (bind_run_Ok (field client_pin) _ s (client_pin (auth s)) s eq_refl), deny_then.
  by rewrite bool_decide_eq_true_2.
Qed.

Lemma client_pin_enters body s :
  match entered_body body (auth s) with
  | Ok h => exists rest, client_pin_ body s = (authenticate_pin h ≫= rest) s
  | _ => is_Some (client_pin (auth s)) -> same_pin s (client_pin_ body s).2
  end.
Proof.
  unfold client_pin_, entered_body. rewrite lift_then. destruct (decode_map body) as [request|e|]; simpl; [|done..].
  rewrite lift_then. destruct (validate_pin_uv_protocol _) as [u|e|]; simpl; [|done..].
  rewrite lift_then. destruct (map_integer request 2) as [sub|]; simpl; [|done].
  assert (forall m : M St ErrorStatus bytes, keeps same_pin m ->
    is_Some (client_pin (auth s)) -> same_pin s (m s).2) as Hkeep by (intros m Hm _; apply Hm).
  destruct sub as [|n|n]; [by apply Hkeep; pin_walk| |by apply Hkeep; pin_walk].
  do 4 (try destruct n as [n|n|]); try (apply Hkeep; by pin_walk).
  all: destruct (map_map request 4) as [params|];
    repeat (rewrite ?lift_then; match goal with |- context [ok_or ?o MissingParameter] => destruct o; simpl; try done end).
  all: rewrite ?lift_then; simpl; rewrite ?lift_then; simpl; try (intros Hp; rewrite (set_pin_refused _ _ _ _ Hp); reflexivity).
  all: match goal with
    | |- context [entered_for_token ?k ?h ?p ?rp (auth ?s)] =>
        pose proof (get_token_enters k h p rp s) as H; destruct (entered_for_token k h p rp (auth s)) as [[keys hash]|e|]
    | |- context [entered_to_change ?k ?e ?h ?m (auth ?s)] =>
        pose proof (change_pin_enters k e h m s) as H; destruct (entered_to_change k e h m (auth s)) as [[new hash]|x|]
    end; simpl; [exact H|unfold same_pin; by rewrite H..].
Qed.

End entries.

(** The state after a sequence of requests. *)
Definition serve {pf : Platform} {cr : Crypto} {codec : CborCodec} {es : Esapi} {sc : StoreCodec}
    (oc : bool) (payloads : list bytes) (s : St) : St :=
  foldl (fun s p => ((handle_cbor oc p : M St Empty_set bytes) s).2) s payloads.

Lemma serve_trace {pf : Platform} {cr : Crypto} {codec : CborCodec} {es : Esapi} {sc : StoreCodec}
    oc payloads s :
  exists events, Forall2 event_allowed payloads events /\
    pin_trace events (client_pin (auth s)) (client_pin (auth (serve oc payloads s))).
Proof.
  revert s. induction payloads as [|p payloads IH]; intros s.
  { exists []. split; [constructor|constructor]. }
  destruct (handle_cbor_step oc (E := Empty_set) p s) as (e & He & Ha).
  destruct (IH ((handle_cbor oc p : M St Empty_set bytes) s).2) as (events & Hall & Htr).
  exists (e :: events). split; [by constructor|]. by econstructor.
Qed.


(** ** What an entry costs *)

Definition same_token (s s' : St) : Prop := pin_uv_auth_token (auth s') = pin_uv_auth_token (auth s).

#[export] Instance same_token_preorder : PreOrder same_token.
Proof. split; unfold same_token; repeat intro; congruence. Qed.
#[export] Instance same_token_world : IgnoresWorld same_token.
Proof. done. Qed.

Section costs.
Context {pf : Platform} {cr : Crypto} {codec : CborCodec} {es : Esapi} {sc : StoreCodec}.
Context (oc : bool).

Lemma same_token_authenticate h : keeps same_token (authenticate_pin h).
Proof. unfold authenticate_pin. handler_walk ltac:(reflexivity). Qed.

Lemma authenticate_wrong s p h r s' :
  client_pin (auth s) = Some p -> retries p <> 0 -> length h = 16%nat ->
  pin_verifier (pin_salt p) h <> pin_verifier_ p -> authenticate_pin h s = (r, s') ->
  r <> Ok tt /\ client_pin (auth s') = Some (with_retries (saturating_sub (retries p) 1) p).
Proof.
  intros Hp Hr Hl Hv. rewrite <- constant_time_equal_eq in Hv. apply not_true_is_false in Hv.
  rewrite authenticate_pin_eq, Hp, Hl, Hv. simpl.
  destruct (retries p =? 0) eqn:E; bools; [done|]. set (p' := with_retries _ p). intros H.
  assert (keeps same_pin (_ ← persist_client_pin p';
    (throw (if retries p' =? 0 then PinBlocked else PinInvalid) : M St ErrorStatus unit))) as Hk by pin_walk.
  specialize (Hk (with_pin p' s)). unfold same_pin in Hk. cbn [retries p' with_retries] in Hk.
  cbv zeta in H. rewrite H in Hk. split; [|exact Hk].
  intros ->. by apply bind_Ok in H as (? & ? & _ & ?).
Qed.

Lemma handle_client_pin {E} body s :
  exists s1, auth s1 = set_management None (set_pending_assertion None (auth s)) /\
    (handle_cbor oc (0x06 :: body) : M St E bytes) s = respond (client_pin_ body) s1.
Proof. eexists. by split; [|reflexivity]. Qed.

(** What a request with neither the right PIN nor a reset does. *)
Lemma entry_counts {E} payload s p :
  client_pin (auth s) = Some p -> head payload <> Some 0x07 -> right_entry (payload, auth s) = false ->
  let '(r, s') := (handle_cbor oc payload : M St E bytes) s in
  if wrong_entry (payload, auth s)
  then retries p <> 0 /\ client_pin (auth s') = Some (with_retries (saturating_sub (retries p) 1) p) /\
    same_token s s' /\ (forall response, r = Ok response -> exists e, response = error_response e)
  else client_pin (auth s') = Some p.
Proof.
  intros Hp H7 Hright. unfold right_entry, wrong_entry, enters in *. simpl in *. rewrite Hp in *.
  destruct (decide (head payload = Some 0x06)) as [H6|H6].
  2:{ assert (entered payload (auth s) = None) as ->.
    { destruct payload as [|b body]; [done|]. simpl in *. destruct (b =? 6) eqn:E6; bools; [by subst|done]. }
    destruct (handle_cbor_step oc (E := E) payload s) as (e & He & Ha).
    destruct (handle_cbor oc payload s) as [r s']. simpl in He. rewrite Hp in He.
    destruct e; simpl in Ha; try done. by inversion He. }
  destruct payload as [|b body]; simplify_eq/=. destruct (handle_client_pin (E := E) body s) as (s1 & Ha & ->).
  assert (entered_body body (auth s1) = entered_body body (auth s)) as Hent by (by rewrite Ha).
  assert (client_pin (auth s1) = Some p) as Hp1 by (by rewrite Ha).
  assert (pin_uv_auth_token (auth s1) = pin_uv_auth_token (auth s)) as Ht by (by rewrite Ha).
  pose proof (client_pin_enters body s1) as Hrun. rewrite Hent in Hrun. unfold respond, attempt, mbind, M_bind.
  destruct (entered_body body (auth s)) as [h|e|]; simpl in *.
  2,3: specialize (Hrun (mk_is_Some _ _ Hp1)); unfold same_pin in Hrun; destruct (client_pin_ body s1) as [[] s2];
    simpl in *; congruence.
  destruct Hrun as [rest ->]. unfold mbind, M_bind.
  destruct (retries p =? 0) eqn:Hr; simpl in *.
  { rewrite authenticate_pin_eq, Hp1, Hr. by destruct (length h =? 16)%nat. }
  destruct (length h =? 16)%nat eqn:Hl; simpl in *.
  2:{ rewrite authenticate_pin_eq, Hl. done. }
  destruct (decide (pin_verifier (pin_salt p) h = pin_verifier_ p)) as [Hv|Hv];
    [by rewrite bool_decide_eq_true_2 in Hright|]. rewrite bool_decide_eq_false_2 by done. simpl. bools.
  pose proof (same_token_authenticate h s1) as Hk. unfold same_token in *.
  destruct (authenticate_pin h s1) as [r s2] eqn:Eau.
  destruct (authenticate_wrong s1 p h r s2 Hp1 Hr Hl Hv Eau) as [Hn Hp2]. simpl in Hk.
  destruct r as [[]|e|]; [done|simpl..]; (split_and!; [done|done|congruence|]).
  - intros response [= <-]. by exists e.
  - done.
Qed.

(** The requests that are made in the course of [payloads], each with the state it
    is made in. *)
Fixpoint arrivals (payloads : list bytes) (s : St) : list (bytes * Authenticator) :=
  match payloads with
  | [] => []
  | p :: payloads => (p, auth s) :: arrivals payloads ((handle_cbor oc p : M St Empty_set bytes) s).2
  end.
End costs.

(** How many of them enter a wrong PIN. *)
Definition wrong_entries {cr : Crypto} {codec : CborCodec} (l : list (bytes * Authenticator)) : Z :=
  Z.of_nat (length (List.filter wrong_entry l)).

(** None of them enters the right PIN or asks for a reset. *)
Definition guessing {cr : Crypto} {codec : CborCodec} (l : list (bytes * Authenticator)) : Prop :=
  Forall (fun x => right_entry x = false /\ head x.1 <> Some 0x07) l.

Lemma guessing_bool {cr : Crypto} {codec : CborCodec} (l : list (bytes * Authenticator)) :
  forallb (fun x => negb (right_entry x) && negb (bool_decide (head x.1 = Some 0x07))) l = true -> guessing l.
Proof.
  unfold guessing. rewrite forallb_forall, Forall_forall. intros H x Hx%list_elem_of_In%H. bools. by split.
Qed.

(** The PIN after [n] wrong entries. *)
Definition after_wrong (n : Z) (p : ClientPinState) : ClientPinState := with_retries (retries p - n) p.

Lemma after_wrong_0 p : after_wrong 0 p = p.
Proof. unfold after_wrong. rewrite Z.sub_0_r. by destruct p. Qed.

Lemma wrong_entries_cons {cr : Crypto} {codec : CborCodec} x l :
  wrong_entries (x :: l) = (if wrong_entry x then 1 else 0) + wrong_entries l.
Proof. unfold wrong_entries. simpl. destruct (wrong_entry x); simpl; lia. Qed.

(** One more request, and the bound is kept. *)
Lemma after_wrong_cons {cr : Crypto} {codec : CborCodec} x l p p1 o : 0 <= retries p ->
  (if wrong_entry x then retries p <> 0 /\ p1 = with_retries (saturating_sub (retries p) 1) p else p1 = p) ->
  (0 <= retries p1 -> wrong_entries l <= retries p1 /\ o = Some (after_wrong (wrong_entries l) p1)) ->
  wrong_entries (x :: l) <= retries p /\ o = Some (after_wrong (wrong_entries (x :: l)) p).
Proof.
  intros Hr H1 H2. rewrite wrong_entries_cons. destruct (wrong_entry x).
  - destruct H1 as [Hn ->]. unfold saturating_sub in H2. simpl in H2. destruct H2 as [H ->]; [lia|].
    split; [lia|]. unfold after_wrong, with_retries. simpl. do 2 f_equal. lia.
  - subst. destruct (H2 Hr) as [H ->]. by rewrite Z.add_0_l.
Qed.

(** C1. A PIN guess costs a retry. Let a PIN be set, and send any sequence of requests
    of which none enters the right PIN in the state it arrives in and none is a
    Reset, whatever the platform answers. A request enters a wrong PIN when it passes
    the checks in front of the PIN and the hash it has encrypted is not the one that
    the stored verifier was made from, while there are retries. There are at most as
    many such requests as there were retries, and at the end the retries are fewer by
    exactly their number, with the PIN unchanged. And in any state, a request with a
    wrong PIN is answered with an error, or not at all, and gets no token. *)
Theorem pin_guesses_are_bounded {pf : Platform} {cr : Crypto} {codec : CborCodec} {es : Esapi}
    {sc : StoreCodec} oc payloads s p :
  client_pin (auth s) = Some p -> 0 <= retries p -> guessing (arrivals oc payloads s) ->
  wrong_entries (arrivals oc payloads s) <= retries p /\
  client_pin (auth (serve oc payloads s)) = Some (after_wrong (wrong_entries (arrivals oc payloads s)) p) /\
  forall payload s0, wrong_entry (payload, auth s0) = true ->
    let '(r, s1) := (handle_cbor oc payload : M St Empty_set bytes) s0 in
    pin_uv_auth_token (auth s1) = pin_uv_auth_token (auth s0) /\
    forall response, r = Ok response -> exists e, response = error_response e.
Proof.
  intros Hp Hr Hg. apply and_assoc. split.
  - revert s p Hp Hr Hg. induction payloads as [|x payloads IH]; intros s p Hp Hr Hg.
    { split; [done|]. by rewrite after_wrong_0. }
    apply Forall_cons in Hg as [[Hx1 Hx2] Hg]. pose proof (entry_counts oc (E := Empty_set) x s p Hp Hx2 Hx1) as Hx.
    simpl in Hg |- *. change (serve oc (x :: payloads) s) with (serve oc payloads ((handle_cbor oc x : M St Empty_set bytes) s).2).
    destruct ((handle_cbor oc x : M St Empty_set bytes) s) as [r s1]. simpl in Hg |- *.
    assert (exists p1, client_pin (auth s1) = Some p1 /\ if wrong_entry (x, auth s)
      then retries p <> 0 /\ p1 = with_retries (saturating_sub (retries p) 1) p else p1 = p) as (p1 & Hp1 & H1).
    { destruct (wrong_entry (x, auth s)); [destruct Hx as (Hn & -> & _)|rewrite Hx]; by eauto. }
    eapply after_wrong_cons; [done|exact H1|]. intros Hr1. by apply IH.
  - intros payload s0 Hw. assert (exists p0, client_pin (auth s0) = Some p0) as [p0 Hp0].
    { unfold wrong_entry, enters in Hw. simpl in Hw. destruct (entered _ _), (client_pin (auth s0)); by eauto. }
    assert (head payload <> Some 0x07 /\ right_entry (payload, auth s0) = false) as [H1 H2].
    { unfold right_entry, wrong_entry, enters in *. simpl in *. rewrite Hp0 in *. split.
      - destruct payload as [|b body]; [done|]. simpl in *. destruct (b =? 6) eqn:E; [|done]. bools. by subst.
      - destruct (entered _ _) as [h|]; [|done]. destruct (bool_decide _); [|by rewrite andb_false_r].
        by rewrite andb_false_r in Hw. }
    pose proof (entry_counts oc (E := Empty_set) payload s0 p0 Hp0 H1 H2) as H. rewrite Hw in H.
    destruct (handle_cbor oc payload s0) as [r s1]. destruct H as (_ & _ & Ht & Hresp). by split.
Qed.

(** C13. A blocked PIN stays blocked: when no retries are left, no sequence of
    requests without a Reset changes the PIN state, so that not even the right PIN
    is accepted any more. *)
Theorem blocked_pin_stays_blocked {pf : Platform} {cr : Crypto} {codec : CborCodec} {es : Esapi}
    {sc : StoreCodec} oc payloads s p :
  client_pin (auth s) = Some p -> retries p = 0 ->
  Forall (fun payload => head payload <> Some 0x07) payloads ->
  client_pin (auth (serve oc payloads s)) = Some p /\
  forall h, (authenticate_pin h (serve oc payloads s)).1 <> Ok tt.
Proof.
  intros Hp Hr Hall. destruct (serve_trace oc payloads s) as (events & Ha & Htr). rewrite Hp in Htr.
  assert (client_pin (auth (serve oc payloads s)) = Some p) as Hend.
  { revert Htr. generalize (client_pin (auth (serve oc payloads s))). clear Hp. revert Ha.
    induction 1 as [|pl e pls evs Hev _ IH]; intros o Htr; inversion Htr; subst; [done|].
    apply Forall_cons in Hall as [Hpl Hall].
    match goal with H : pin_step _ _ _ |- _ => inversion H; subst; try lia end; [auto|done]. }
  split; [done|]. intros h. rewrite authenticate_pin_eq, Hend.
  destruct (negb _); [done|]. by rewrite Hr.
Qed.

(** ** Verified requests *)

(** The client holds a token that is valid for the operation: it was issued at
    most ten minutes ago, with this permission, for this relying party or for
    any, and its HMAC of the message is the one presented. *)
Definition token_authorizes {pf : Platform} {cr : Crypto} (token : PinUvAuthToken) (t : nat)
    (mac message : bytes) (permission : Z) (rp_id : option string) : Prop :=
  now t - issued_at token <= from_secs 600 /\
  contains (permissions token) permission = true /\
  (token_rp_id token = None \/ token_rp_id token = rp_id) /\
  (length mac = 16%nat \/ length mac = 32%nat) /\
  take (length mac) (hmac_sha256 (token_value token) message) = mac.

Lemma protocol_Ok o u : validate_pin_uv_protocol o = Ok u -> o = Some PIN_UV_AUTH_PROTOCOL.
Proof.
  unfold validate_pin_uv_protocol. destruct o as [z|]; simpl; [|done]. unfold try_u64.
  destruct (_ && _); [|done]. destruct (z =? _) eqn:E; [|done]. bools. by subst.
Qed.

(** C6. A request counts as verified only if the client holds a token that
    authorizes it, under the session the daemon is bound to; without any
    PIN/UV parameters it passes unverified. *)
Theorem verified_requests_hold_a_token {pf : Platform} {cr : Crypto} protocol
    auth_param message permission rp_id s b s' :
  validate_pin_uv_auth protocol auth_param message permission rp_id s = (Ok b, s') ->
  auth s' = auth s /\
  (exists t, Session.same_session (Session.detect_at t) (session (auth s)) = true) /\
  if b then exists token mac t, pin_uv_auth_token (auth s) = Some token /\ auth_param = Some mac /\
              protocol = Some PIN_UV_AUTH_PROTOCOL /\
              token_authorizes token t mac message permission rp_id
  else protocol = None /\ auth_param = None.
Proof.
  intros Hrun. unfold validate_pin_uv_auth, session_matches, Session.verify_matches_current,
    Session.detect, elapsed, instant_now in Hrun.
  ctap_inv; bools; simplify_eq/=; (split; [done|]); (split; [by exists (w_tick (world s))|]).
  - done.
  - match goal with H : validate_pin_uv_protocol _ = _ |- _ => apply protocol_Ok in H as -> end.
    match goal with H : Some _ = (if ?c then _ else _) |- _ => destruct c eqn:?; simplify_eq end.
    match goal with H : Some ?t = pin_uv_auth_token _, E : constant_time_equal (take (length ?m) _) _ = true |- _ =>
      exists t, m, (S (w_tick (world s))); symmetry in H; split_and!; [done..|];
      apply constant_time_equal_eq in E end.
    bools. unfold token_authorizes. split_and!; [lia|done| | |done].
    + destruct (token_rp_id _); [right|by left]. by bools.
    + match goal with H : negb _ = false \/ negb _ = false |- _ => destruct H; bools; auto end.
Qed.

(** ** Rejected parameters *)

(** Every error that [m] ends with satisfies [P], in the state it leaves. *)
Definition errs {S E A} (P : E -> S -> Prop) (m : M S E A) : Prop :=
  forall s e s', m s = (Err e, s') -> P e s'.

Lemma errs_bind {S E A B} (P : E -> S -> Prop) (m : M S E A) (k : A -> M S E B) :
  errs P m -> (forall a, errs P (k a)) -> errs P (m ≫= k).
Proof.
  intros Hm Hk s e s'. unfold mbind, M_bind. specialize (Hm s).
  destruct (m s) as [[a|e0|] s1]; [apply Hk| |done]. intros [= <- <-]. by apply Hm.
Qed.

Lemma errs_ret {S E A} (P : E -> S -> Prop) (a : A) : errs P (mret a).
Proof. by intros s e s'. Qed.
Lemma errs_panic {S E A} (P : E -> S -> Prop) : errs P (panic : M S E A).
Proof. by intros s e s'. Qed.
Lemma errs_gets {S E A} (P : E -> S -> Prop) (f : S -> A) : errs P (gets f).
Proof. by intros s e s'. Qed.
Lemma errs_modify {S E} (P : E -> S -> Prop) f : errs P (modify f).
Proof. by intros s e s'. Qed.
Lemma errs_attempt {S E F A} (P : F -> S -> Prop) (m : M S E A) : errs P (attempt m).
Proof. intros s e s'. unfold attempt. by destruct (m s) as [[]]. Qed.
Lemma errs_throw {S E A} (P : E -> S -> Prop) e : (forall s, P e s) -> errs P (throw e : M S E A).
Proof. intros H s e' s' [= <- <-]. apply H. Qed.
Lemma errs_lift {S E A} (P : E -> S -> Prop) (r : res E A) : (forall e s, r = Err e -> P e s) -> errs P (lift r).
Proof. intros H s e s' [= -> <-]. by apply H. Qed.

Create HintDb errs.
#[local] Hint Resolve errs_ret errs_panic errs_gets errs_modify errs_attempt : errs.

Ltac errs_walk tac :=
  repeat first
    [ solve [eauto with errs]
    | tac
    | apply errs_bind; [|intro]
    | apply errs_throw; intros ?; discriminate
    | match goal with |- errs _ (match ?x with _ => _ end) => destruct x eqn:? end
    | match goal with |- errs _ (let '_ := ?x in _) => destruct x eqn:? end ].

(** A pure check that never answers PinAuthInvalid. *)
Definition clean {A} (r : res ErrorStatus A) : Prop := r <> Err PinAuthInvalid.

Lemma clean_bind {A B} (r : res ErrorStatus A) (k : A -> res ErrorStatus B) :
  clean r -> (forall a, clean (k a)) -> clean (r ≫= k).
Proof. unfold clean. destruct r as [a|e|]; intros H Hk; simpl; [apply Hk|intros [= ->]; by apply H|done]. Qed.
Lemma clean_ok_or {A} (o : option A) e : e <> PinAuthInvalid -> clean (ok_or o e).
Proof. intros H. by destruct o; [|intros [= ->]]. Qed.
Lemma clean_guard b e : e <> PinAuthInvalid -> clean (guard b e).
Proof. intros H. by destruct b; [|intros [= ->]]. Qed.

Ltac clean_walk :=
  repeat first
    [ apply clean_bind; [|intro]
    | apply clean_ok_or; discriminate
    | apply clean_guard; discriminate
    | assumption
    | discriminate
    | match goal with |- clean (match ?x with _ => _ end) => destruct x eqn:? end ].

Section rejected.
Context {pf : Platform} {cr : Crypto} {codec : CborCodec} {es : Esapi} {sc : StoreCodec} (oc : bool).

(** The status PinAuthInvalid comes with the loss of the token. *)
Definition gone (e : ErrorStatus) (s : St) : Prop := e = PinAuthInvalid -> pin_uv_auth_token (auth s) = None.

(** A call to the outside does not end with this status. *)
Definition other (e : ErrorStatus) (w : World) : Prop := e <> PinAuthInvalid.

Lemma gone_on_world {A} (m : M World ErrorStatus A) : errs other m -> errs gone (on_world m).
Proof.
  intros Hm s e s'. unfold on_world. specialize (Hm (world s)).
  destruct (m (world s)) as [[a|e0|] w]; intros [= <- <-] ->. by destruct (Hm _ _ eq_refl).
Qed.

Lemma gone_call {A} (m : M World string A) : errs gone (call m).
Proof. apply gone_on_world, errs_attempt. Qed.

Lemma gone_lift {A} (r : res ErrorStatus A) : clean r -> errs gone (lift r).
Proof. intros Hr. apply errs_lift. intros e s -> ->. by destruct Hr. Qed.

Lemma gone_deny_if b e : e <> PinAuthInvalid -> errs gone (deny_if b e).
Proof. intros He. unfold deny_if. destruct b; [|apply errs_ret]. apply errs_throw. by intros s ->. Qed.

Lemma gone_or_fail {A} e (m : M World string A) : e <> PinAuthInvalid -> errs gone (or_fail e m).
Proof.
  intros He. unfold or_fail. apply errs_bind; [apply gone_call|]. intros [a|x|]; [apply errs_ret|..];
    apply errs_throw; by intros s ->.
Qed.

Lemma gone_field {A} (f : Authenticator -> A) : errs gone (field f).
Proof. apply errs_gets. Qed.
Lemma gone_update f : errs gone (update f).
Proof. apply errs_modify. Qed.

Lemma other_next : errs other next.
Proof. by intros s e s'. Qed.
Lemma other_detect : errs other Session.detect.
Proof. unfold Session.detect. apply errs_bind; [apply other_next|intros t; apply errs_ret]. Qed.

#[local] Hint Resolve gone_call gone_field gone_update other_next other_detect : errs.

Ltac gone_walk :=
  errs_walk ltac:(first
    [ apply gone_deny_if; discriminate
    | apply gone_or_fail; discriminate
    | apply gone_on_world
    | apply gone_lift; clean_walk ]).

Lemma gone_session_matches : errs gone session_matches.
Proof. unfold session_matches, Session.verify_matches_current. gone_walk. Qed.

Lemma gone_session_approves prompt : errs gone (session_approves prompt).
Proof. unfold session_approves, Session.approve, Session.approve_on_terminal. gone_walk. Qed.

Lemma gone_instant_now : errs gone instant_now.
Proof. unfold instant_now. gone_walk. Qed.
Lemma gone_elapsed t : errs gone (elapsed t).
Proof. pose proof gone_instant_now. unfold elapsed. gone_walk. Qed.
Lemma gone_fill_random n : errs gone (fill_random n).
Proof. unfold fill_random. gone_walk. Qed.
Lemma gone_credential_at i : errs gone (credential_at i).
Proof. unfold credential_at. gone_walk. Qed.

#[local] Hint Resolve gone_session_matches gone_session_approves gone_instant_now gone_elapsed
  gone_fill_random gone_credential_at : errs.

Lemma gone_assertion_approved rp : errs gone (assertion_approved rp).
Proof. unfold assertion_approved. gone_walk. Qed.

Lemma gone_open_tpm n path l : errs gone (open_tpm oc n path l).
Proof. induction n; simpl; gone_walk. Qed.
Lemma gone_ensure_tpm : errs gone (ensure_tpm oc).
Proof. pose proof gone_open_tpm. unfold ensure_tpm. gone_walk. Qed.
#[local] Hint Resolve gone_assertion_approved gone_ensure_tpm : errs.

(** The checks of a PIN/UV parameter drop the token wherever they reject it. *)
Lemma gone_validate protocol auth_param message permission rp_id :
  errs gone (validate_pin_uv_auth protocol auth_param message permission rp_id).
Proof.
  assert (errs gone (_ ← update (set_token None); throw PinAuthInvalid : M St ErrorStatus bool)) as Hinvalid
    by (by intros s e s' [= <- <-]).
  unfold validate_pin_uv_auth, validate_pin_uv_protocol. gone_walk.
Qed.
#[local] Hint Resolve gone_validate : errs.

(** *** The commands *)

Lemma clean_common options b : clean (validate_common_options options b).
Proof. unfold validate_common_options, clean. repeat case_match; done. Qed.

Lemma clean_make_options options : clean (validate_make_credential_options options).
Proof.
  pose proof clean_common. unfold validate_make_credential_options, validate_resident_key_options.
  clean_walk; auto; unfold clean; repeat case_match; done.
Qed.

Lemma clean_descriptors l : clean (validate_credential_descriptor_list l).
Proof. unfold validate_credential_descriptor_list, clean. repeat case_match; done. Qed.

Lemma clean_decode_map body : clean (decode_map body).
Proof. unfold decode_map, clean. repeat case_match; done. Qed.

Lemma clean_client_data_hash h : clean (validate_client_data_hash h).
Proof. unfold validate_client_data_hash, clean. repeat case_match; done. Qed.

Lemma clean_parse_make request : clean (parse_make_request request).
Proof.
  pose proof clean_client_data_hash as Hh. unfold parse_make_request, validate_attestation_conveyance.
  clean_walk; try apply Hh; done.
Qed.

Lemma clean_descriptor_id params : clean (descriptor_id params).
Proof. unfold descriptor_id. clean_walk. Qed.

#[local] Hint Resolve clean_make_options clean_common clean_descriptors clean_decode_map
  clean_client_data_hash clean_parse_make clean_descriptor_id : errs.

Ltac command_walk :=
  errs_walk ltac:(first
    [ apply gone_deny_if; discriminate
    | apply gone_or_fail; discriminate
    | apply gone_on_world
    | apply gone_lift; solve [eauto with errs|clean_walk] ]).

Lemma gone_load_credentials uid : errs other (load_credentials_from_disk uid).
Proof. unfold load_credentials_from_disk. command_walk. Qed.
Lemma gone_session_uid : errs gone session_uid.
Proof. unfold session_uid. command_walk. Qed.
Lemma gone_save_credentials : errs gone save_credentials.
Proof. unfold save_credentials. command_walk. Qed.
#[local] Hint Resolve gone_load_credentials gone_session_uid gone_save_credentials : errs.

Lemma gone_create_key_material t o id p : errs gone (create_key_material t o id p).
Proof. unfold create_key_material. command_walk. Qed.
#[local] Hint Resolve gone_create_key_material : errs.

Lemma gone_make_credential body : errs gone (make_credential oc body).
Proof. unfold make_credential. command_walk. Qed.

Lemma gone_assert_with index h uv total : errs gone (assert_with oc index h uv total).
Proof. unfold assert_with. command_walk. Qed.
#[local] Hint Resolve gone_assert_with : errs.

Lemma gone_get_assertion body : errs gone (get_assertion oc body).
Proof. unfold get_assertion, validate_get_assertion_options. command_walk. Qed.

Lemma gone_get_next_assertion body : errs gone (get_next_assertion oc body).
Proof. unfold get_next_assertion. command_walk. Qed.

Lemma gone_credential_management body : errs gone (credential_management body).
Proof.
  unfold credential_management, expire_management, enumerate_rps_begin, enumerate_rps_next,
    enumerate_credentials_begin, enumerate_credentials_next, delete_credential, update_user_information,
    start_management. command_walk.
Qed.

Lemma gone_delete_all cs : errs gone (delete_all_credentials cs).
Proof. induction cs; simpl; command_walk. Qed.
#[local] Hint Resolve gone_delete_all : errs.

Lemma gone_dispatch command body : command <> ClientPin -> errs gone (dispatch oc command body).
Proof.
  pose proof gone_make_credential. pose proof gone_get_assertion. pose proof gone_get_next_assertion.
  pose proof gone_credential_management. intros Hc.
  destruct command; try done; simpl; unfold reset, selection_, bio_enrollment, large_blobs, config; command_walk.
Qed.

Lemma gone_command command body : command <> ClientPin ->
  errs gone (_ ← clear_stale command; _ ← passphrase_gate command; dispatch oc command body).
Proof. intros Hc. pose proof (gone_dispatch command body Hc). unfold clear_stale, passphrase_gate. command_walk. Qed.
End rejected.

(** C22. A rejected PIN/UV parameter costs the client its token. Whenever a command
    other than ClientPIN, run as [handle_cbor] runs it, is answered with the status
    PinAuthInvalid, the token is gone afterwards, so that it cannot be used to try
    another message or permission. (ClientPIN's own setPIN and changePIN have this
    status for parameters made with the shared secret; the token is no part of that,
    and it stays.) *)
Theorem rejected_auth_drops_token {pf : Platform} {cr : Crypto} {codec : CborCodec} {es : Esapi} {sc : StoreCodec}
    oc command body s s' :
  command <> ClientPin ->
  (_ ← clear_stale command; _ ← passphrase_gate command; dispatch oc command body) s = (Err PinAuthInvalid, s') ->
  pin_uv_auth_token (auth s') = None.
Proof. intros Hc H. by apply (gone_command oc command body Hc _ _ _ H). Qed.

(** ** Choosing a PIN *)

Lemma validate_new_pin_Ok pin u :
  validate_new_pin pin = Ok u -> (4 <= length pin <= 63)%nat /\ 0 ∉ pin.
Proof.
  unfold validate_new_pin. destruct (_ || _) eqn:E; [done|]. intros _. bools. split; [lia|done].
Qed.

Lemma authenticate_right {pf : Platform} {cr : Crypto} {sc : StoreCodec} s p h :
  client_pin (auth s) = Some p -> retries p = PIN_RETRIES -> pin_matches p h ->
  authenticate_pin h s = (Ok tt, s).
Proof.
  intros Hp Hr [Hl Hv]. rewrite authenticate_pin_eq, Hp, Hl, Hr, Hv. done.
Qed.

(** C21. Choosing a PIN works end to end: when set_pin succeeds, there was no PIN
    before, the decrypted PIN has 4 to 63 bytes without zeros and is what the
    client authenticated; afterwards the hash of that PIN is accepted, and a hash
    with another verifier is refused and leaves seven retries. *)
Theorem set_pin_then_authenticate {pf : Platform} {cr : Crypto} {cl : CryptoLaws} {codec : CborCodec}
    {sc : StoreCodec} key_agreement_param new_pin_enc auth_param s response s' :
  set_pin key_agreement_param new_pin_enc auth_param s = (Ok response, s') ->
  client_pin (auth s) = None /\
  exists aes_key hmac_key new_pin salt,
    pin_uv_keys key_agreement_param s = (Ok (aes_key, hmac_key), s) /\
    verify_pin_uv_auth_param hmac_key auth_param new_pin_enc = Ok tt /\
    decrypt_pin aes_key new_pin_enc = Ok new_pin /\ (4 <= length new_pin <= 63)%nat /\ 0 ∉ new_pin /\
    authenticate_pin (take 16 (sha256 new_pin)) s' = (Ok tt, s') /\
    forall h, length h = 16%nat ->
      constant_time_equal (pin_verifier salt h) (pin_verifier salt (take 16 (sha256 new_pin))) = false ->
      let '(r, s2) := authenticate_pin h s' in
      r <> Ok tt /\ (retries <$> client_pin (auth s2)) = Some 7.
Proof.
  unfold set_pin, new_pin_state. intros Hrun. apply bind_Ok in Hrun as (o & s0 & [-> ->]%field_Ok & Hrun).
  ctap_inv. bools.
  match goal with H : pin_uv_keys _ s = (Ok _, ?s1) |- _ =>
    assert (s1 = s) as -> by (unfold pin_uv_keys in H; by ctap_inv) end.
  match goal with V : validate_new_pin ?n = Ok _ |- _ => rename n into new_pin; rename V into HV end.
  match goal with U : verify_pin_uv_auth_param _ _ _ = Ok ?u |- _ => destruct u end.
  match goal with P : persist_client_pin ?p _ = _ |- _ => set (st := p) in * end.
  apply validate_new_pin_Ok in HV as [Hlen Hz].
  assert (length (take 16 (sha256 new_pin)) = 16%nat) as H16 by (by rewrite length_take, length_sha256).
  split; [by destruct (client_pin (auth s)); [exfalso; eauto|]|].
  eexists _, _, new_pin, (pin_salt st). split_and!; try eassumption; try lia.
  - apply (authenticate_right _ st); [done|done|]. split; [done|]. apply constant_time_equal_refl.
  - intros h Hh Hv. destruct (authenticate_pin h _) as [r s2] eqn:Ha.
    apply (authenticate_wrong _ st) in Ha as [Hr ->]; try done.
    simpl. rewrite <- constant_time_equal_eq. unfold st in Hv. simpl in Hv. by rewrite Hv.
Qed.

End Ctap2Pin.
