(* ===== verification/WorldSafe.v ===== *)
(** Computations on the world that do not panic: the session, the TPM layer and
    the store, when the crates they call return. What each leaves of the settings
    in [daemon_config] comes with it, since the code trusts their contents. *)
From Stdlib Require Import ZArith Lia String.
From stdpp Require Import base list option strings gmap.
From S2P Require Import Prelude Schema Platform Session Tpm Store StoreProps StoreRoundtrip.

#[local] Open Scope Z_scope.

(** The functions of tss-esapi return a [Result], and the key of a P-256 template
    is a point of the curve with coordinates of full length. *)
Class EsapiReturns {cr : Crypto} {es : Esapi} := {
  rt_private b : private_try_from b <> Panic;
  rt_digest b : digest_try_from b <> Panic;
  rt_auth b : auth_try_from b <> Panic;
  rt_nonce b : nonce_try_from b <> Panic;
  rt_name b : name_try_from b <> Panic;
  rt_unmarshall b : public_unmarshall b <> Panic;
  rt_marshall b : public_marshall b <> Panic;
  rt_sig_unmarshall b : signature_unmarshall b <> Panic;
  rt_sig_marshall s : signature_marshall s <> Panic;
  rt_ecc_point b : ecc_point b <> Panic;
  rt_selection l : build_pcr_selection l <> Panic;
  rt_template t : build_signing_template t <> Panic;
  rt_parent : build_parent_template <> Panic;
  rt_open t p : esys_open t p <> Panic;
  rt_create_primary t : esys_create_primary t <> Panic;
  rt_create t p tm a : esys_create t p tm a <> Panic;
  rt_load t p a b : esys_load t p a b <> Panic;
  rt_flush t h : esys_flush t h <> Panic;
  rt_tr_set_auth t h a : esys_tr_set_auth t h a <> Panic;
  rt_sign t s k d : esys_sign t s k d <> Panic;
  rt_verify t k d s : esys_verify_signature t k d s <> Panic;
  rt_read_public t h : esys_read_public t h <> Panic;
  rt_change_auth t k p a : esys_object_change_auth t k p a <> Panic;
  rt_session t ty : esys_start_auth_session t ty <> Panic;
  rt_policy_pcr t s d l : esys_policy_pcr t s d l <> Panic;
  rt_authorize t s d n a k : esys_policy_authorize t s d n a k <> Panic;
  rt_command_code t s : esys_policy_command_code_sign t s <> Panic;
  rt_get_digest t s : esys_policy_get_digest t s <> Panic;
  rt_pcr_read t l : esys_pcr_read t l <> Panic;
  created_point t p tm a priv pub x y :
    esys_create t p tm a = Ok (priv, pub) -> ecc_point pub = Ok (Some (x, y)) ->
    p256_valid (4 :: x ++ y) = true /\ length x = 32%nat /\ length y = 32%nat }.

(** The system's calls return, random bytes are there, and [/proc/<pid>/stat] goes
    on with a space and the letter of the state after the name in parentheses. *)
Class PlatformReturns {pf : Platform} := {
  rt_proc_stat t pid : proc_stat t pid <> Panic;
  stat_line t pid stat : proc_stat t pid = Ok stat -> exists before state after,
    as_bytes stat = before ++ 41 :: 32 :: state :: after /\ 0 <= state < 0x80 /\
    41 ∉ state :: after;
  rt_authorization t pid start uid : check_authorization t pid start uid <> Panic;
  getrandom_fills t n : is_Some (getrandom t n) }.

(** What a parser of the crates accepts can be printed again: a PEM public key is
    a point of the curve, and the salt and the hash of a PHC string are valid. *)
Class CodecReturns {cr : Crypto} {sc : StoreCodec} := {
  length_public_key s : length (p256_public_key s) = 65%nat;
  pem_point s x y : pem_decode s = Some (x, y) -> p256_valid (4 :: x ++ y) = true;
  phc_salt s p t b : phc_parse s = Some p -> ph_salt p = Some t -> b64_decode t = Some b ->
    salt_ok (b64_encode b) = true;
  phc_hash s p h : phc_parse s = Some p -> ph_hash p = Some h -> output_ok h = true }.

#[export] Hint Resolve rt_private rt_digest rt_auth rt_nonce rt_name rt_unmarshall rt_marshall
  rt_sig_unmarshall rt_sig_marshall rt_ecc_point rt_selection rt_template rt_parent rt_open
  rt_create_primary rt_create rt_load rt_flush rt_tr_set_auth rt_sign rt_verify rt_read_public rt_change_auth rt_session
  rt_policy_pcr rt_authorize rt_command_code rt_get_digest rt_pcr_read rt_proc_stat rt_authorization : safe.

Module WorldSafe.

(** A predicate on the settings, as one on the world. *)
Definition config (P : gmap string bytes -> Prop) (w : World) : Prop := P (daemon_config (w_db w)).

Section primitives.
Context {pf : Platform} {cr : Crypto} {es : Esapi} {er : EsapiReturns} {sc : StoreCodec}.
Context (P : gmap string bytes -> Prop).

Lemma safe_next {E} : safe (config P) (next : M World E nat).
Proof. by intros w Hw. Qed.

Lemma safe_command {A} (f : nat -> res string A) :
  (forall t, f t <> Panic) -> safe (config P) (Tpm.command f).
Proof. intros Hf. apply safe_bind; [apply safe_next|]. intros t. by apply safe_lift. Qed.

Lemma safe_opening f : (forall t, f t <> Panic) -> safe (config P) (Tpm.opening f).
Proof.
  intros Hf w Hw. unfold Tpm.opening. specialize (Hf (w_tick w)). by destruct (f (w_tick w)).
Qed.

Lemma safe_flush h : safe (config P) (Tpm.flush_context h).
Proof.
  intros w Hw. unfold Tpm.flush_context. pose proof (rt_flush (w_tick w) h). by destruct (esys_flush _ _).
Qed.

Lemma safe_guarded {A} h (m : M World string A) : safe (config P) m -> safe (config P) (Tpm.guarded h m).
Proof.
  intros Hm w Hw. unfold Tpm.guarded. specialize (Hm w Hw). destruct (m w) as [r w1].
  pose proof (safe_flush h w1) as Hf. destruct (Tpm.flush_context h w1) as [r2 w2]. simpl in *. naive_solver.
Qed.

Lemma safe_wrap_err {A} msg (m : M World string A) :
  safe (config P) m -> safe (config P) (Tpm.wrap_err msg m).
Proof. intros Hm w Hw. specialize (Hm w Hw). unfold Tpm.wrap_err. destruct (m w) as [[]]; naive_solver. Qed.

Lemma safe_session ty none : safe (config P) (Tpm.start_session ty none).
Proof.
  unfold Tpm.start_session. safe_walk ltac:(first [apply safe_command; intro | apply safe_modify; by intros]).
Qed.

Lemma safe_committing {A} msg (m : M World string A) :
  safe (config P) m -> safe (config P) (Store.committing msg m).
Proof.
  intros Hm w Hw. unfold Store.committing.
  assert (safe (config P) (a ← m; _ ← Store.io msg; mret a)) as H.
  { unfold Store.io. safe_walk ltac:(apply safe_next). }
  destruct (H w Hw) as [Hr Hp].
  destruct ((a ← m; _ ← Store.io msg; mret a) w) as [[] w']; simpl in *; [done|by split|done].
Qed.
End primitives.

#[export] Hint Resolve safe_next safe_flush safe_session : safe.

Ltac world_safe :=
  safe_walk ltac:(first
    [ apply safe_command; intro
    | apply safe_opening; intro
    | apply safe_guarded
    | apply safe_wrap_err
    | apply safe_committing
    | apply safe_modify; by intros ]).

(** ** Session *)

Section session.
Context {pf : Platform} {pr : PlatformReturns} (P : gmap string bytes -> Prop).

Lemma start_time_safe t pid stat :
  proc_stat t pid = Ok stat -> Session.process_start_time_ticks stat <> Panic.
Proof.
  intros (before & c & after & Hs & Hc & Hn)%stat_line. unfold Session.process_start_time_ticks.
  rewrite Hs, Session.rfind_last; [simpl|].
  - unfold Session.slice_from. rewrite length_app. simpl.
    destruct (_ <? _)%nat eqn:E; bools; [lia|].
    rewrite (app_assoc before [_; _] (c :: after) : before ++ 41 :: 32 :: c :: after = _).
    rewrite drop_app_length' by (rewrite length_app; simpl; lia).
    unfold Session.is_continuation. destruct (_ && _) eqn:E2; bools; [lia|]. simpl. safe_walk fail.
  - apply not_elem_of_cons. split; [done|exact Hn].
Qed.

Lemma safe_verify {E} s : safe (config P) (Session.verify_matches_current s : M World E bool).
Proof. unfold Session.verify_matches_current, Session.detect. world_safe. Qed.

Lemma safe_check_session sid pid uid : safe (config P) (Session.check_session sid pid uid).
Proof.
  unfold Session.check_session. apply safe_bind; [apply safe_next|]. intros t.
  apply (safe_bind_post _ (fun stat => proc_stat t pid = Ok stat)).
  - by intros w stat w' [= -> _].
  - world_safe.
  - intros stat Hs. pose proof (start_time_safe _ _ _ Hs). world_safe.
Qed.

Lemma safe_approve {E} p s : safe (config P) (Session.approve p s : M World E bool).
Proof.
  unfold Session.approve, Session.approve_on_terminal. 
  destruct (Session.session_id s) as [sid|]; [|world_safe].
  destruct (Session.leader_pid s) as [pid|]; [|world_safe].
  destruct (Session.uid s) as [u|]; [|world_safe].
  apply (safe_bind_post _ (fun r => r <> Panic)); [|apply safe_attempt, safe_check_session|].
  - intros w r w' H _. by apply attempt_Ok in H as [_ ?].
  - intros r Hr. world_safe.
Qed.
End session.

(** ** TPM *)

Section tpm.
Context {pf : Platform} {cr : Crypto} {es : Esapi} {er : EsapiReturns} (P : gmap string bytes -> Prop).

Lemma safe_parent : safe (config P) Tpm.create_storage_parent.
Proof. unfold Tpm.create_storage_parent. world_safe. Qed.
Lemma safe_load p priv pub : safe (config P) (Tpm.load p priv pub).
Proof. unfold Tpm.load. world_safe. Qed.
Lemma safe_set_auth k h : safe (config P) (Tpm.set_auth_of k h).
Proof. unfold Tpm.set_auth_of. world_safe. Qed.
Lemma safe_pcr_digest l : safe (config P) (Tpm.current_pcr_digest l).
Proof. unfold Tpm.current_pcr_digest. world_safe. Qed.
#[local] Hint Resolve safe_parent safe_load safe_set_auth safe_pcr_digest : safe.

Lemma signing_public_safe p u : Tpm.signing_key_public p u <> Panic.
Proof. unfold Tpm.signing_key_public. safe_walk fail. Qed.
Lemma public_name_safe b : Tpm.public_name b <> Panic.
Proof. unfold Tpm.public_name. safe_walk fail. Qed.
#[local] Hint Resolve signing_public_safe public_name_safe : safe.

Lemma safe_attempt_bind {A B} (m : M World string A) (k : res string A -> M World string B) :
  safe (config P) m -> (forall r, r <> Panic -> safe (config P) (k r)) ->
  safe (config P) (attempt m ≫= k).
Proof.
  intros Hm Hk. apply (safe_bind_post _ (fun r => r <> Panic)); [|by apply safe_attempt|done].
  intros w r w' H _. by apply attempt_Ok in H as [_ ?].
Qed.

Lemma safe_create_key p a : safe (config P) (Tpm.create_credential_key_with_policy_and_auth p a).
Proof.
  unfold Tpm.create_credential_key_with_policy_and_auth.
  do 3 (apply safe_bind; [world_safe|intro]). apply safe_attempt_bind; [world_safe|].
  intros key Hkey. world_safe.
Qed.
#[local] Hint Resolve safe_create_key : safe.

Lemma safe_recovery_material l s h k : safe (config P) (Tpm.create_recovery_material_with_hash l s h k).
Proof. unfold Tpm.create_recovery_material_with_hash, Tpm.create_credential_key_with_auth. world_safe. Qed.
Lemma safe_secure_boot t : safe (config P) (Tpm.create_secure_boot_policy t).
Proof. unfold Tpm.create_secure_boot_policy. world_safe. Qed.
Lemma safe_sign_recovery a p r : safe (config P) (Tpm.sign_recovery_policy a p r).
Proof. unfold Tpm.sign_recovery_policy. world_safe. Qed.
#[local] Hint Resolve safe_sign_recovery : safe.
Lemma safe_authorized_policy t b a r : safe (config P) (Tpm.create_authorized_policy t b a r).
Proof. unfold Tpm.create_authorized_policy. world_safe. Qed.

Lemma safe_update_authorized t a n r : safe (config P) (Tpm.update_authorized_policy t a n r).
Proof. unfold Tpm.update_authorized_policy. world_safe. Qed.
Lemma safe_change_auth c n : safe (config P) (Tpm.change_key_auth c n).
Proof. unfold Tpm.change_key_auth. world_safe. Qed.

Lemma safe_sign t c p a d : safe (config P) (Tpm.sign_digest_with_policy t c p a d).
Proof.
  unfold Tpm.sign_digest_with_policy. destruct (negb _); [world_safe|].
  apply safe_bind; [world_safe|intros parent]. apply safe_guarded. do 2 (apply safe_bind; [world_safe|intro]).
  apply safe_bind; [world_safe|intros key]. apply safe_guarded. apply safe_bind; [world_safe|intros digest].
  apply (safe_bind_post _ (fun r => r <> Panic)).
  - intros w r w' H _. repeat case_match; unfold Tpm.sign_authorized, Tpm.sign_pcr_bound in H; Tpm.tpm_inv; done.
  - unfold Tpm.sign_authorized, Tpm.sign_pcr_bound. world_safe.
  - intros r Hr. world_safe.
Qed.
End tpm.

(** ** Keys and records that can be stored *)

Section printable.
Context {cr : Crypto} {sc : StoreCodec}.

(** The coordinates are a point of the curve, so that they can be written as PEM. *)
Definition point_ok (k : TpmCredential) : Prop :=
  p256_valid (4 :: public_key_x k ++ public_key_y k) = true.

(** The salt and the hash can be written as a PHC string. *)
Definition phc_ok (salt hash : bytes) : Prop := salt_ok (b64_encode salt) = true /\ output_ok hash = true.

Definition slot_ok (r : StoredRecoverySlot) : Prop :=
  point_ok (slot_key r) /\ phc_ok (passphrase_salt r) (passphrase_hash r).

Definition printable (c : StoredCtap2Credential) : Prop :=
  point_ok (s_key c) /\ forall r, s_recovery c = Some r -> slot_ok r.

(** The daemon passphrase, if there is one, can be written as a PHC string. *)
Definition passphrase_ok (c : gmap string bytes) : Prop :=
  forall blob hash salt m t l, c !! "daemon_passphrase"%string = Some blob ->
    passphrase_decode blob = Some (hash, salt, m, t, l) -> phc_ok salt hash.

(** The settings the code relies on: the daemon passphrase and, where shifts are
    checked, that the PCR indices are below 32. *)
Definition settings_ok (overflow_checks : bool) (c : gmap string bytes) : Prop :=
  passphrase_ok c /\
  (forall blob l, c !! "default_pcr_policy"%string = Some blob -> indices_decode blob = Some l ->
     overflow_checks = true -> Forall (fun i => i < 32) l).
End printable.

Section keys.
Context {pf : Platform} {cr : Crypto} {es : Esapi} {er : EsapiReturns} {sc : StoreCodec}.

Lemma created_key_ok p a w k w' :
  Tpm.create_credential_key_with_policy_and_auth p a w = (Ok k, w') -> StoreRoundtrip.key_ok k.
Proof.
  unfold Tpm.create_credential_key_with_policy_and_auth. intros H. Tpm.tpm_inv.
  all: unfold StoreRoundtrip.key_ok; simpl; by eapply created_point.
Qed.

Lemma material_ok l s h k w m w' :
  Tpm.create_recovery_material_with_hash l s h k w = (Ok m, w') ->
  StoreRoundtrip.key_ok (rm_key m) /\ rm_passphrase_salt m = s /\ rm_passphrase_hash m = h.
Proof.
  unfold Tpm.create_recovery_material_with_hash, Tpm.create_credential_key_with_auth. intros H.
  Tpm.tpm_inv. split_and!; [|done..]. by eapply created_key_ok.
Qed.

Lemma pcr_slots_safe oc l : (oc = true -> Forall (fun i => i < 32) l) -> Tpm.pcr_slots oc l <> Panic.
Proof.
  intros Hl. induction l as [|i l IH]; simpl; [done|]. apply res_bind_safe.
  - unfold Tpm.shl_one. destruct (32 <=? i) eqn:E; [|done]. destruct oc; [|done]. bools.
    specialize (Hl eq_refl). apply Forall_cons in Hl as [? _]. lia.
  - intros m _. assert (Tpm.pcr_slots oc l <> Panic).
    { apply IH. intros Ho. by apply Hl, Forall_cons in Ho as [_ ?]. }
    safe_walk fail.
Qed.

Lemma selection_safe oc l : (oc = true -> Forall (fun i => i < 32) l) ->
  Tpm.pcr_selection_for_indices oc l <> Panic.
Proof.
  intros Hl. unfold Tpm.pcr_selection_for_indices. pose proof (pcr_slots_safe oc _ Hl). safe_walk fail.
Qed.

Lemma safe_open P oc path l : (oc = true -> Forall (fun i => i < 32) (default [7] l)) ->
  safe (config P) (Tpm.open oc path l).
Proof.
  intros Hl. unfold Tpm.open. apply safe_bind; [world_safe|intro].
  apply safe_bind; [|intros []; world_safe]. apply safe_lift. unfold Tpm.default_pcr_selection.
  pose proof (selection_safe oc _ Hl). safe_walk fail.
Qed.
End keys.

(** ** Store *)

Section store.
Context {pf : Platform} {cr : Crypto} {sc : StoreCodec} {cd : CodecReturns} (P : gmap string bytes -> Prop).

Ltac store_unfold :=
  unfold Store.transaction, Store.open_database, Store.io, Store.load_or_generate_hmac_key, Store.db_get,
    Store.db_update.

Lemma safe_load_credentials u : safe (config P) (Store.load_ctap2_credentials u).
Proof.
  unfold Store.load_ctap2_credentials, Store.load_row, Store.check_integrity, Store.decode_row,
    Store.tpm_key_from_blob, Store.recovery_of_row, Store.kdf_params_from_string, Store.sec1_decode_point,
    Store.owner_of_row. store_unfold. world_safe.
Qed.

Lemma safe_load_passphrase : safe (config P) Store.load_daemon_passphrase.
Proof. unfold Store.load_daemon_passphrase. store_unfold. world_safe. Qed.
Lemma safe_load_policy : safe (config P) Store.load_default_pcr_policy.
Proof. unfold Store.load_default_pcr_policy. store_unfold. world_safe. Qed.
Lemma safe_load_pin : safe (config P) Store.load_client_pin_state.
Proof. unfold Store.load_client_pin_state. store_unfold. world_safe. Qed.
Lemma safe_save_pin st : safe (config P) (Store.save_client_pin_state st).
Proof. unfold Store.save_client_pin_state. store_unfold. world_safe. Qed.
Lemma safe_delete_pin : safe (config P) Store.delete_client_pin_state.
Proof. unfold Store.delete_client_pin_state. store_unfold. world_safe. Qed.
Lemma safe_sign_count id n : safe (config P) (Store.update_ctap2_sign_count id n).
Proof. unfold Store.update_ctap2_sign_count. store_unfold. world_safe. Qed.
Lemma safe_delete id : safe (config P) (Store.delete_ctap2_credential id).
Proof. unfold Store.delete_ctap2_credential. store_unfold. world_safe. Qed.

Lemma sec1_encode_safe k : point_ok k -> Store.sec1_encode_point (public_key_x k) (public_key_y k) <> Panic.
Proof. unfold point_ok, Store.sec1_encode_point. by intros ->. Qed.
Lemma kdf_params_safe k salt hash : phc_ok salt hash -> Store.kdf_params_to_string k salt hash <> Panic.
Proof. intros [Hs Ho]. unfold Store.kdf_params_to_string. destruct k. by rewrite Hs, Ho. Qed.

Lemma safe_update_policy id p : safe (config P) (Store.update_ctap2_policy id p).
Proof. unfold Store.update_ctap2_policy. store_unfold. world_safe. Qed.
Lemma from_blob_safe b pem : Store.tpm_key_from_blob b pem <> Panic.
Proof. unfold Store.tpm_key_from_blob, Store.sec1_decode_point. safe_walk fail. Qed.
Lemma safe_update_recovery id priv salt hash k : phc_ok salt hash ->
  safe (config P) (Store.update_recovery_slot id priv salt hash k).
Proof.
  intros Hs. pose proof (kdf_params_safe k _ _ Hs). pose proof from_blob_safe.
  unfold Store.update_recovery_slot. store_unfold. world_safe.
Qed.

Lemma safe_save_credential c : printable c -> safe (config P) (Store.save_credential c).
Proof.
  intros [Hk Hr]. pose proof (sec1_encode_safe _ Hk).
  unfold Store.save_credential, Store.insert_metadata, Store.insert_keyslot, Store.save_recovery. store_unfold.
  destruct (s_recovery c) as [r|]; [|world_safe]. destruct (Hr r eq_refl) as [Hp Hs].
  pose proof (sec1_encode_safe _ Hp). pose proof (kdf_params_safe (kdf r) _ _ Hs).
  unfold Store.insert_keyslot, Store.insert_token. world_safe.
Qed.

Lemma safe_save_credentials cs : Forall printable cs -> safe (config P) (Store.save_ctap2_credentials cs).
Proof.
  intros Hcs. assert (safe (config P) (Store.save_all cs)).
  { induction Hcs; simpl; [apply safe_ret|]. apply safe_bind; [by apply safe_save_credential|done]. }
  unfold Store.save_ctap2_credentials. store_unfold. world_safe.
Qed.

(** ** What the loads return *)

Lemma from_blob_point data pem k : Store.tpm_key_from_blob data pem = Ok k -> point_ok k.
Proof.
  unfold Store.tpm_key_from_blob, Store.sec1_decode_point. intros H. run_inv.
  unfold point_ok. simpl. by eapply pem_point.
Qed.

Lemma from_phc_ok s salt hash k : Store.kdf_params_from_string s = Ok (salt, hash, k) -> phc_ok salt hash.
Proof.
  unfold Store.kdf_params_from_string. intros H. run_inv. split; [by eapply phc_salt|by eapply phc_hash].
Qed.

Lemma decoded_printable u row c : Store.decode_row u row = Ok c -> printable c.
Proof.
  unfold Store.decode_row. intros H. run_inv. split; simpl; [by eapply from_blob_point|]. intros r ->.
  match goal with H : Store.recovery_of_row _ = _ |- _ => rename H into Hr end.
  unfold Store.recovery_of_row in Hr. run_inv. split; simpl; [by eapply from_blob_point|by eapply from_phc_ok].
Qed.

Lemma loaded_printable u w cs w' : Store.load_ctap2_credentials u w = (Ok cs, w') -> Forall printable cs.
Proof.
  unfold Store.load_ctap2_credentials, Store.db_get. intros H. run_inv; [constructor|].
  match goal with H : mapM _ _ _ = _ |- _ => apply mapM_run_Ok in H; rename H into Hrows end.
  apply Forall_forall. intros c [i Hi]%list_elem_of_lookup.
  destruct (Forall2_lookup_r _ _ _ _ _ Hrows Hi) as (row & _ & w1 & w2 & Hload).
  unfold Store.load_row, Store.check_integrity in Hload. run_inv; by eapply decoded_printable.
Qed.

Ltac io_same :=
  repeat match goal with H : Store.io _ _ = _ |- _ => apply StoreProps.io_db in H; simpl in H end;
  repeat match goal with H : w_db ?w = _, H' : context [w_db ?w] |- _ => rewrite H in H'; clear H end;
  simpl in *.

Lemma loaded_passphrase w salt hash k w' :
  config passphrase_ok w -> Store.load_daemon_passphrase w = (Ok (Some (salt, hash, k)), w') ->
  phc_ok salt hash.
Proof.
  intros Hp H. unfold Store.load_daemon_passphrase, Store.open_database, Store.db_get, Store.db_update in H.
  run_inv. io_same. eapply Hp; [|eassumption]. congruence.
Qed.

Lemma loaded_policy oc w l w' :
  config (settings_ok oc) w -> Store.load_default_pcr_policy w = (Ok (Some l), w') ->
  oc = true -> Forall (fun i => i < 32) l.
Proof.
  intros [_ Hp] H. unfold Store.load_default_pcr_policy, Store.open_database, Store.db_get, Store.db_update in H.
  run_inv. io_same. eapply Hp; [|eassumption]. congruence.
Qed.
End store.
End WorldSafe.
