(* ===== verification/Settings.v ===== *)
(** The daemon passphrase among the settings: what a management connection stores
    there can be written as a PHC string again, and nothing else changes it. *)
From Stdlib Require Import ZArith Lia String.
From stdpp Require Import base list option strings gmap.
From S2P Require Import Prelude Schema Platform Session Tpm Store StoreProps StoreCounts Ctap2Types.
From S2P Require Import Ctap2 Ctap2Facts WorldFacts WorldSafe.

#[local] Open Scope Z_scope.

(** Argon2 returns and fills the buffer it is given; 32 bytes are a salt and a hash that the
    password-hash crate accepts (salts of 4 to 64 characters, hashes of 10 to 64
    bytes). *)
Class PhcFits {cr : Crypto} {sc : StoreCodec} := {
  argon2id_returns k salt p n : argon2id_hash k salt p n <> Panic;
  length_argon2id k salt p n h : argon2id_hash k salt p n = Ok h -> length h = n;
  salt_fits b : length b = 32%nat -> salt_ok (b64_encode b) = true;
  output_fits h : length h = 32%nat -> output_ok h = true }.

Module Settings.
Import Ctap2Facts WorldFacts WorldSafe.

Section settings.
Context {pf : Platform} {pl : PlatformLaws} {cr : Crypto} {sc : StoreCodec} {ph : PhcFits}.

Lemma drawn_phc_ok t salt k passphrase hash :
  getrandom t 32 = Some salt -> Tpm.recovery_passphrase_hash k salt passphrase = Ok hash -> phc_ok salt hash.
Proof.
  intros Hs%length_getrandom Hh%length_argon2id. split; [by apply salt_fits|by apply output_fits].
Qed.

(** The stored passphrase stays one that can be written. *)
Definition passphrase_kept : relation World := inv_rel (config passphrase_ok).

#[export] Instance passphrase_kept_store : StoreRel passphrase_kept.
Proof. split; [apply _|]. intros w w' Hw _. unfold passphrase_kept, inv_rel, config. by rewrite Hw. Qed.

Lemma passphrase_config w w' : same_config w w' -> passphrase_kept w w'.
Proof. intros Hc. unfold passphrase_kept, inv_rel, config. by rewrite Hc. Qed.

Lemma passphrase_update f :
  (forall d, passphrase_ok (daemon_config d) -> passphrase_ok (daemon_config (f d))) ->
  keeps passphrase_kept (Store.db_update f).
Proof. intros Hf w Hw. by apply (Hf (w_db w)). Qed.

Lemma passphrase_ok_other c i blob :
  i <> "daemon_passphrase"%string -> passphrase_ok c -> passphrase_ok (<[i := blob]> c).
Proof. intros Hi Hc b hash salt m t l. rewrite lookup_insert_ne by done. apply Hc. Qed.

Lemma passphrase_ok_new {sl : StoreCodecLaws} c salt hash m t l :
  phc_ok salt hash -> passphrase_ok (<["daemon_passphrase"%string := passphrase_encode (hash, salt, m, t, l)]> c).
Proof.
  intros Hp b hash' salt' m' t' l'. rewrite lookup_insert_eq. intros [= <-].
  rewrite passphrase_roundtrip. by intros [= <- <- _ _ _].
Qed.

(** Whatever a connection or the daemon's own thread does to the store. *)
Lemma passphrase_daemon_op op : daemon_op op = true -> keeps passphrase_kept (StoreProps.run_op op).
Proof. intros Hop w. by apply passphrase_config, config_run_op. Qed.

Lemma passphrase_management_op {sl : StoreCodecLaws} op :
  management_op op -> keeps passphrase_kept (StoreProps.run_op op).
Proof.
  destruct (daemon_op op) eqn:Hd; [intros _; by apply passphrase_daemon_op|].
  destruct op as [| | | | | | | | | |l| |salt hash k]; try discriminate Hd; simpl;
    unfold Store.save_default_pcr_policy, Store.save_daemon_passphrase, Store.open_database, Store.io.
  - intros _. store_walk ltac:(apply passphrase_update; intros d Hok; first [exact Hok | by apply passphrase_ok_other]).
  - intros ([t Ht] & k' & p & Hh). pose proof (drawn_phc_ok _ _ _ _ _ Ht Hh). destruct k.
    store_walk ltac:(apply passphrase_update; intros d Hok; first [exact Hok | by apply passphrase_ok_new]).
Qed.
End settings.
End Settings.
