(* ===== verification/Ctap2Restart.v ===== *)
(** The client PIN across restarts: what the store holds is what the running
    daemon believes, so a restart neither forgets the PIN nor gives back retries. *)
From Stdlib Require Import ZArith Lia String.
From stdpp Require Import base list option strings.
From S2P Require Import Prelude Schema Platform Cbor Session Tpm Store StoreProps StoreUpdates.
From S2P Require Import Ctap2Types Ctap2 Ctap2Facts WorldFacts Ctap2Pin.

#[local] Open Scope Z_scope.

Module Ctap2Restart.
Import Ctap2 Ctap2Facts WorldFacts Ctap2Pin.

(** ** What other operations do to the stored PIN *)

(** The file of the integrity key, if there is one, is a key. *)
Definition key_ok (d : Db) : Prop := forall k, hmac_key_file d = Some k -> length k = 32%nat.

(** The stored PIN and the key it is authenticated with are the same. *)
Record pin_row_kept (w w' : World) : Prop := {
  kept_row : pin_row (w_db w') = pin_row (w_db w);
  kept_exists : db_exists (w_db w) = true -> db_exists (w_db w') = true;
  kept_key k : hmac_key_file (w_db w) = Some k -> hmac_key_file (w_db w') = Some k;
  kept_key_ok : key_ok (w_db w) -> key_ok (w_db w') }.

#[export] Instance pin_row_kept_store : StoreRel pin_row_kept.
Proof.
  split; [split|].
  - intros w. by split.
  - intros a b c [R1 X1 K1 O1] [R2 X2 K2 O2]. split; [congruence|auto..].
  - intros w w' Hw _. split; by rewrite Hw.
Qed.

Lemma kept_update f :
  (forall d, pin_row (f d) = pin_row d /\ hmac_key_file (f d) = hmac_key_file d /\
     (db_exists d = true -> db_exists (f d) = true)) ->
  keeps pin_row_kept (Store.db_update f).
Proof.
  intros Hf w. destruct (Hf (w_db w)) as (Hr & Hk & He). split; unfold key_ok; simpl; rewrite ?Hr, ?Hk; auto.
Qed.

Lemma kept_get {A} (f : Db -> A) : keeps pin_row_kept (Store.db_get f).
Proof. intros w. by apply store_rel_db. Qed.

Section store.
Context {pf : Platform} {hp : Healthy} {cr : Crypto} {sc : StoreCodec}.

Lemma kept_committing {A} msg (m : M World string A) :
  keeps pin_row_kept m -> keeps pin_row_kept (Store.committing msg m).
Proof.
  intros Hm w. unfold Store.committing.
  assert (keeps pin_row_kept (a ← m; _ ← Store.io msg; mret a)) as H
    by (unfold Store.io; store_walk ltac:(exact Hm)).
  specialize (H w). destruct ((a ← m; _ ← Store.io msg; mret a) w) as [[] w']; [done|..];
    destruct H as [Hr He Hk Ho]; by split.
Qed.

Lemma load_hmac_key w :
  key_ok (w_db w) -> exists k, length k = 32%nat /\
    Store.load_or_generate_hmac_key w = (Ok k, set_tick (S (w_tick w)) (set_db (set_hmac_key_file (Some k) (w_db w)) w)).
Proof.
  intros Hk. unfold Store.load_or_generate_hmac_key, Store.db_get, gets, mbind, M_bind, next. simpl.
  destruct (hmac_key_file (w_db w)) as [k|] eqn:E.
  - exists k. specialize (Hk _ E). split; [done|]. rewrite no_key_file_fault, Hk. simpl.
    destruct w as [t d h]. simpl in *. unfold set_tick, set_db. simpl. repeat f_equal.
    unfold set_hmac_key_file. destruct d. simpl in *. by rewrite E.
  - destruct (random_bytes (w_tick w) 32) as (k & Hr & Hl). exists k. split; [done|].
    unfold lift. rewrite Hr. simpl. by rewrite no_key_file_fault.
Qed.

Lemma kept_hmac_key : keeps pin_row_kept Store.load_or_generate_hmac_key.
Proof.
  intros w. unfold Store.load_or_generate_hmac_key, Store.db_get, gets, mbind, M_bind, next. simpl.
  destruct (hmac_key_file (w_db w)) as [raw|] eqn:E.
  - rewrite no_key_file_fault. destruct (length raw =? 32)%nat; apply store_rel_db; simpl; auto.
  - destruct (random_bytes (w_tick w) 32) as (k & Hr & Hl). unfold lift. rewrite Hr. simpl.
    rewrite no_key_file_fault. simpl. split; simpl; [done..| |]; [by rewrite E|by intros _ ? [= <-]].
Qed.

Lemma kept_run_op op : quiet_op op = true -> keeps pin_row_kept (StoreProps.run_op op).
Proof.
  pose proof kept_hmac_key.
  assert (forall cs, keeps pin_row_kept (Store.save_all cs)) as Hall.
  { intros cs. induction cs; simpl;
      unfold Store.save_credential, Store.save_recovery, Store.insert_metadata, Store.insert_keyslot,
        Store.insert_token, Store.io;
      store_walk ltac:(first [apply kept_get | apply kept_update; done]). }
  intros Hop. destruct op as [u|cs|id n|id p|id np ns nh k|id| |st| | |l| |s h k]; simpl in *;
    try discriminate Hop; try destruct k.
  all: unfold Store.load_ctap2_credentials, Store.load_row, Store.check_integrity,
    Store.save_ctap2_credentials, Store.update_ctap2_sign_count, Store.update_ctap2_policy,
    Store.update_recovery_slot, Store.delete_ctap2_credential, Store.load_client_pin_state,
    Store.load_default_pcr_policy, Store.load_daemon_passphrase, Store.save_default_pcr_policy,
    Store.save_daemon_passphrase, Store.open_database, Store.transaction, Store.io.
  all: store_walk ltac:(first
    [apply kept_get | apply kept_committing | apply kept_update; done | apply Hall]).
Qed.

Lemma quiet_read op : read_op op = true -> quiet_op op = true.
Proof. by destruct op. Qed.

(** ** The PIN of the daemon and the PIN of the store *)

Definition stored_pin (p : ClientPinState) : StoredClientPinState :=
  {| sp_pin_salt := pin_salt p; sp_pin_verifier := pin_verifier_ p; sp_retries := retries p;
     sp_integrity_mac := None |}.

(** The store holds the PIN [o], under the key of its file. *)
Definition holds_pin (o : option ClientPinState) (d : Db) : Prop :=
  match o with
  | None => pin_row d = None
  | Some p => db_exists d = true /\ StoreUpdates.pin_state_ok (stored_pin p) /\
      exists key, hmac_key_file d = Some key /\ pin_row d = Some (StoreUpdates.pin_row_of key (stored_pin p))
  end.

(** The store holds the PIN the daemon believes in. *)
Definition pin_in_step (s : St) : Prop :=
  key_ok (w_db (world s)) /\ holds_pin (client_pin (auth s)) (w_db (world s)).

Lemma holds_pin_kept o w w' : pin_row_kept w w' -> holds_pin o (w_db w) -> holds_pin o (w_db w').
Proof.
  intros [Hr He Hk _]. destruct o as [p|]; simpl; [|congruence].
  intros (H1 & H2 & key & H3 & H4). split_and!; auto. exists key. rewrite Hr. auto.
Qed.

(** The PIN can always be written. *)
Lemma save_client_pin_runs st w :
  key_ok (w_db w) -> StoreUpdates.pin_state_ok st -> exists w' key,
    Store.save_client_pin_state st w = (Ok tt, w') /\ key_ok (w_db w') /\ db_exists (w_db w') = true /\
    hmac_key_file (w_db w') = Some key /\ pin_row (w_db w') = Some (StoreUpdates.pin_row_of key st).
Proof.
  intros Hk (H1 & H2 & H3). unfold Store.save_client_pin_state. rewrite H1, H2. simpl.
  destruct (Z.ltb_spec 8 (sp_retries st)); [lia|].
  destruct (StoreProps.runs_open_database (w_db w) w eq_refl) as [t1 E1].
  rewrite (bind_run_Ok Store.open_database _ _ _ _ E1).
  edestruct load_hmac_key as (key & Hl & E2); [|rewrite (bind_run_Ok Store.load_or_generate_hmac_key _ _ _ _ E2)].
  { exact Hk. }
  edestruct StoreProps.runs_io as [t3 E3]; [done|]. rewrite (bind_run_Ok _ _ _ _ _ E3).
  eexists _, key. split; [reflexivity|]. split; [|done]. by intros k [= <-].
Qed.

Lemma load_client_pin_runs o w :
  key_ok (w_db w) -> holds_pin o (w_db w) -> exists r w',
    Store.load_client_pin_state w = (Ok r, w') /\ w_db w' = w_db w /\
    (fun st => {| pin_salt := sp_pin_salt st; pin_verifier_ := sp_pin_verifier st;
                  retries := sp_retries st |}) <$> r = o.
Proof.
  intros Hk Ho. destruct o as [p|].
  - destruct Ho as (He & Hp & key & Hf & Hr).
    destruct (StoreUpdates.runs_load_client_pin key (stored_pin p) (w_db w) Hf (Hk _ Hf) Hp He Hr w eq_refl)
      as [t E]. eexists _, _. split; [exact E|]. split; [done|]. by destruct p.
  - exists None. unfold Store.load_client_pin_state, Store.db_get. 
    rewrite (bind_run_Ok (gets _) _ w _ w eq_refl). destruct (db_exists (w_db w)) eqn:He; [|by exists w].
    cbn [negb].
    destruct (StoreProps.runs_open_database (w_db w) w eq_refl) as [t1 E1].
    rewrite (bind_run_Ok Store.open_database _ _ _ _ E1).
    edestruct StoreProps.runs_io as [t2 E2]; [done|]. rewrite (bind_run_Ok _ _ _ _ _ E2).
    unfold gets, mbind, M_bind. simpl. rewrite Ho. eexists. split; [done|]. split; [|done]. simpl.
    unfold set_exists. by destruct (w_db w); simpl in *; subst.
Qed.

Lemma load_credentials_safe u : safe (fun _ => True) (Store.load_ctap2_credentials u).
Proof.
  unfold Store.load_ctap2_credentials, Store.open_database, Store.io,
    Store.load_row, Store.check_integrity, Store.decode_row, Store.tpm_key_from_blob, Store.recovery_of_row,
    Store.kdf_params_from_string, Store.sec1_decode_point, Store.owner_of_row,
    Store.load_or_generate_hmac_key, Store.db_get, Store.db_update, next.
  safe_walk ltac:(first [apply safe_modify | by intros]).
Qed.

Lemma load_client_pin_safe : safe (fun _ => True) Store.load_client_pin_state.
Proof.
  unfold Store.load_client_pin_state, Store.open_database, Store.io, Store.load_or_generate_hmac_key,
    Store.db_get, Store.db_update, next.
  safe_walk ltac:(first [apply safe_modify | by intros]).
Qed.

Lemma load_credentials_total {E} u w :
  exists cs w', (load_credentials_from_disk u : M World E _) w = (Ok cs, w').
Proof.
  unfold load_credentials_from_disk, mbind, M_bind, attempt.
  destruct (load_credentials_safe u w I) as [Hr _].
  destruct (Store.load_ctap2_credentials u w) as [[]]; simpl; eauto; done.
Qed.

Lemma new_in_step {E} path o w :
  key_ok (w_db w) -> holds_pin o (w_db w) -> exists a w',
    (new path : M World E Authenticator) w = (Ok a, w') /\ client_pin a = o /\
    pin_in_step {| auth := a; world := w' |}.
Proof.
  intros Hk Ho. unfold new. rewrite (bind_run_Ok Session.detect _ w _ _ eq_refl).
  set (session := Session.detect_at _). set (w1 := set_tick _ w).
  pose proof (world_load_credentials (E := E) pin_row_kept quiet_op kept_run_op quiet_read (Session.uid session) w1) as Hl.
  destruct (load_credentials_total (E := E) (Session.uid session) w1) as (cs & w2 & E2).
  rewrite (bind_run_Ok _ _ _ _ _ E2). rewrite E2 in Hl. simpl in Hl. destruct (load_client_pin_runs o w2) as (r & w3 & E3 & Hd & Hr).
  { by apply Hl. }
  { by apply (holds_pin_kept o w1). }
  unfold mbind at 1, M_bind at 1, attempt at 1. rewrite E3. eexists _, w3. split; [reflexivity|].
  assert (forall x : option StoredClientPinState,
    match (Ok x : res string _) with
    | Ok (Some st) => Some {| pin_salt := sp_pin_salt st; pin_verifier_ := sp_pin_verifier st;
                             retries := sp_retries st |}
    | _ => None
    end = (fun st => {| pin_salt := sp_pin_salt st; pin_verifier_ := sp_pin_verifier st;
                        retries := sp_retries st |}) <$> x) as Hx by (by intros []).
  unfold pin_in_step. cbn [client_pin auth world]. rewrite Hx, Hr, Hd. split; [done|].
  split; [by apply Hl|by apply (holds_pin_kept o w1)].
Qed.
End store.

(** ** Requests keep them in step *)

Definition in_step {cr : Crypto} : relation St := inv_rel pin_in_step.

#[export] Instance in_step_preorder {cr : Crypto} : PreOrder in_step.
Proof. apply inv_rel_preorder. Qed.

Section requests.
Context {pf : Platform} {hp : Healthy} {cr : Crypto} {cl : CryptoLaws} {codec : CborCodec} {es : Esapi}
  {sc : StoreCodec} (oc : bool).

Lemma in_step_quiet {E A} (m : M St E A) :
  keeps same_pin m -> keeps (on_st pin_row_kept) m -> keeps in_step m.
Proof.
  intros Hs Hw s [Hk Ho]. specialize (Hs s). specialize (Hw s). unfold pin_in_step.
  rewrite Hs. split; [by apply Hw|by apply (holds_pin_kept _ (world s))].
Qed.

Lemma in_step_update {E} f :
  (forall a, client_pin (f a) = client_pin a) -> keeps in_step (update f : M St E unit).
Proof. intros Hf s [Hk Ho]. split; [done|]. simpl. by rewrite Hf. Qed.

(** A PIN that was just written is in step. *)
Lemma persist_runs p s :
  key_ok (w_db (world s)) -> StoreUpdates.pin_state_ok (stored_pin p) -> exists w,
    persist_client_pin p s = (Ok tt, set_world w s) /\ key_ok (w_db w) /\ holds_pin (Some p) (w_db w).
Proof.
  intros Hk Hp. destruct (save_client_pin_runs (stored_pin p) (world s) Hk Hp)
    as (w' & key & E & Hk' & He & Hf & Hr).
  exists w'. unfold persist_client_pin, or_fail, call, on_world, attempt, mbind, M_bind.
  unfold stored_pin in E. rewrite E. split; [done|]. split; [done|]. simpl. eauto.
Qed.

Lemma pin_ok_retries p n :
  StoreUpdates.pin_state_ok (stored_pin p) -> 0 <= n <= 8 ->
  StoreUpdates.pin_state_ok (stored_pin (with_retries n p)).
Proof. by intros (? & ? & _) ?. Qed.

Lemma in_step_authenticate h : keeps in_step (authenticate_pin h).
Proof.
  intros s Hs. pose proof Hs as [Hk Ho]. rewrite authenticate_pin_eq. destruct (negb _); [done|].
  destruct (client_pin (auth s)) as [p|] eqn:Hp; [|exact Hs].
  pose proof Ho as (He & Hok & _). pose proof Hok as (_ & _ & Hr). simpl in Hr.
  assert (forall A (k : unit -> M St ErrorStatus A) n, 0 <= n <= 8 -> (forall s, (k tt s).2 = s) ->
    pin_in_step ((_ ← persist_client_pin (with_retries n p); k tt) (with_pin (with_retries n p) s)).2) as Hw.
  { intros A k n Hn Hkk. destruct (persist_runs (with_retries n p) (with_pin (with_retries n p) s) Hk)
      as (w & E & Hk' & Ho'); [by apply pin_ok_retries|].
    unfold mbind, M_bind. rewrite E, Hkk. by split. }
  destruct (retries p =? 0); [exact Hs|]. destruct (constant_time_equal _ _).
  - destruct (retries p =? PIN_RETRIES); [exact Hs|].
    specialize (Hw unit (fun _ => mret tt) PIN_RETRIES ltac:(unfold PIN_RETRIES; lia) ltac:(done)).
    unfold mbind, M_bind in Hw. by destruct (persist_client_pin _ _) as [[[]| |] ?].
  - apply (Hw unit (fun _ => throw _)); [unfold saturating_sub; lia|done].
Qed.

(** The end of [set_pin] and [change_pin]. *)
Lemma in_step_tail new_pin :
  keeps in_step (state ← new_pin_state new_pin; _ ← persist_client_pin state;
    _ ← update (set_client_pin (Some state)); mret empty_response).
Proof.
  intros s [Hk Ho]. destruct (random_bytes (w_tick (world s)) 32) as (salt & Hr & Hl).
  assert (exists p s1, new_pin_state new_pin s = (Ok p, s1) /\ StoreUpdates.pin_state_ok (stored_pin p) /\
    key_ok (w_db (world s1))) as (p & s1 & E & Hp & Hk1).
  { unfold new_pin_state, fill_random, on_world, mbind, M_bind. simpl. rewrite Hr. simpl.
    eexists _, _. split; [reflexivity|]. split; [|done].
    split_and!; [done|apply length_pbkdf2|unfold PIN_RETRIES; simpl; lia..]. }
  rewrite (bind_run_Ok _ _ _ _ _ E). destruct (persist_runs p s1 Hk1 Hp) as (w & E1 & Hk' & Ho').
  rewrite (bind_run_Ok _ _ _ _ _ E1). by split.
Qed.

Ltac in_step_walk :=
  keeps_walk ltac:(first
    [ apply in_step_tail | apply in_step_authenticate
    | solve [apply in_step_quiet;
        [pin_walk | store_walk ltac:(first [apply on_st_update, _ | apply on_st_world])]] ]).

Lemma in_step_issue_token k m p rp : keeps in_step (issue_token k m p rp).
Proof. apply in_step_quiet; [eauto with keeps|apply world_issue, _]. Qed.
Hint Resolve in_step_issue_token : keeps.

Lemma in_step_client_pin body : keeps in_step (client_pin_ body).
Proof.
  unfold client_pin_, set_pin, change_pin, get_pin_uv_auth_token, get_pin_uv_auth_token_using_uv, 
    user_consents, session_matches, session_approves, check_permissions, deny_if, pin_uv_keys.
  in_step_walk.
Qed.

Lemma in_step_forget :
  keeps in_step (_ ← call Store.delete_client_pin_state; _ ← update (set_client_pin None);
    _ ← update (set_key_agreement None); (update (set_token None) : M St ErrorStatus unit)).
Proof.
  intros s [Hk Ho]. destruct (StoreUpdates.runs_delete_client_pin (w_db (world s)) (world s) eq_refl) as [t E].
  unfold call, on_world, attempt, mbind at 1, M_bind at 1. rewrite E. by split.
Qed.

Lemma in_step_reset : keeps in_step reset.
Proof.
  assert (forall cs, keeps in_step (delete_all_credentials cs : M St ErrorStatus unit)) as Hd.
  { intros cs. apply in_step_quiet; [eauto with keeps|apply (world_delete_all _ quiet_op kept_run_op); auto]. }
  assert (keeps in_step (assertion_approved "reset" : M St ErrorStatus bool)) as Ha.
  { apply in_step_quiet; [eauto with keeps|apply world_approved, _]. }
  unfold reset, deny_if. keeps_walk ltac:(first [apply in_step_forget | by apply in_step_update]).
Qed.

Lemma in_step_dispatch c body : keeps in_step (dispatch oc c body).
Proof.
  assert (forall m : M St ErrorStatus bytes, keeps same_pin m -> keeps (on_st pin_row_kept) m -> keeps in_step m)
    as Hq by (intros; by apply in_step_quiet).
  pose proof quiet_read. destruct c; cbn [dispatch].
  - apply Hq; [apply same_pin_make_credential|apply (world_make_credential _ _ quiet_op kept_run_op); auto].
  - apply Hq; [apply same_pin_get_assertion|apply (world_get_assertion _ _ quiet_op kept_run_op); auto].
  - in_step_walk.
  - apply in_step_client_pin.
  - apply Hq; [apply same_pin_get_next_assertion|apply (world_get_next _ _ quiet_op kept_run_op); auto].
  - apply in_step_reset.
  - apply Hq; [apply same_pin_credential_management|apply (world_management _ quiet_op kept_run_op); auto].
  - unfold selection_. apply Hq; [pin_walk|unfold deny_if; keeps_walk ltac:(apply world_approved, _)].
  - unfold bio_enrollment. in_step_walk.
  - unfold large_blobs. in_step_walk.
  - unfold config. in_step_walk.
  - unfold bio_enrollment. in_step_walk.
  - apply Hq; [apply same_pin_credential_management|apply (world_management _ quiet_op kept_run_op); auto].
Qed.

Lemma in_step_handle_cbor {E} payload : keeps in_step (handle_cbor oc payload : M St E bytes).
Proof.
  assert (forall c, keeps in_step (passphrase_gate c)) as Hg.
  { intros c. apply in_step_quiet; [eauto with keeps|apply (world_passphrase_gate _ quiet_op kept_run_op quiet_read); auto]. }
  unfold handle_cbor, respond, clear_stale.
  keeps_walk ltac:(first [apply in_step_dispatch | apply Hg | by apply in_step_update]).
Qed.

Lemma in_step_handle_tpm_command c : keeps in_step (handle_tpm_command oc c).
Proof.
  apply in_step_quiet; [|apply (world_handle_tpm_command _ _ quiet_op kept_run_op quiet_read); auto].
  unfold handle_tpm_command, require_tpm, wrap. pin_walk.
Qed.
End requests.
End Ctap2Restart.
