(* ===== verification/Ctap2Assert.v ===== *)
(** Assertions and registrations: which credential an assertion uses, what the
    answer says and what was stored before it was given; what a registration
    adds. *)
From Stdlib Require Import ZArith Lia String.
From stdpp Require Import base list option strings sorting.
From S2P Require Import Prelude Schema Platform Cbor Session Tpm Store Ctap2Types Ctap2 Ctap2Facts.

#[local] Open Scope Z_scope.

Module Ctap2Assert.
Import Ctap2 Ctap2Facts.

(** ** Choosing credentials *)

Lemma elem_of_filter_enumerate {A} (p : A -> bool) (l : list A) i :
  i ∈ fst <$> List.filter (fun '(_, c) => p c) (enumerate l) <->
  exists c, l !! i = Some c /\ p c = true.
Proof.
  rewrite list_elem_of_fmap. split.
  - intros ([j c] & -> & H). apply list_elem_of_In, filter_In in H as [H Hp].
    apply list_elem_of_In, elem_of_enumerate in H. simpl in *. eauto.
  - intros (c & Hc & Hp). exists (i, c). split; [done|]. apply list_elem_of_In, filter_In.
    split; [|done]. by apply list_elem_of_In, elem_of_enumerate.
Qed.

Lemma filter_imap_sorted {A} (p : A -> bool) (l : list A) k :
  StronglySorted lt (fst <$> List.filter (fun '(_, c) => p c) (imap (fun i x => ((k + i)%nat, x)) l)) /\
  Forall (fun i => k <= i)%nat (fst <$> List.filter (fun '(_, c) => p c) (imap (fun i x => ((k + i)%nat, x)) l)).
Proof.
  revert k. induction l as [|x l IH]; intros k; simpl; [split; constructor|].
  assert (imap (compose (fun i y => ((k + i)%nat, y)) S) l = imap (fun i y => ((S k + i)%nat, y)) l) as E.
  { apply imap_ext. intros i y _. simpl. f_equal. lia. }
  rewrite E. destruct (IH (S k)) as [Hs Hk]. rewrite Nat.add_0_r. destruct (p x); simpl.
  - split; constructor; [done| |lia|]; (eapply Forall_impl; [exact Hk|]); simpl; lia.
  - split; [done|]. eapply Forall_impl; [exact Hk|]. simpl. lia.
Qed.

Lemma sorted_filter_enumerate {A} (p : A -> bool) (l : list A) :
  StronglySorted lt (fst <$> List.filter (fun '(_, c) => p c) (enumerate l)).
Proof. apply (filter_imap_sorted p l 0). Qed.

(** A credential may be used for an assertion: it is of this relying party, and
    the allow list names it or, without a list, it is discoverable. *)
Definition usable (rp_id : string) (allow_list : option (list Value)) (c : Credential) : Prop :=
  c_rp_id c = rp_id /\
  match allow_list with
  | Some ((_ :: _) as l) => exists m, VMap m ∈ l /\ map_text m "type"%string = Some "public-key"%string /\
                              map_bytes m "id"%string = Some (c_id c)
  | _ => c_discoverable c = true
  end.

Lemma descriptor_list_contains_iff l id :
  credential_descriptor_list_contains l id = true <->
  exists m, VMap m ∈ l /\ map_text m "type"%string = Some "public-key"%string /\
    map_bytes m "id"%string = Some id.
Proof.
  unfold credential_descriptor_list_contains. rewrite existsb_exists. split.
  - intros (v & Hv & H). apply list_elem_of_In in Hv. destruct v; try done. bools. eauto.
  - intros (m & Hm & Ht & Hi). exists (VMap m). split; [by apply list_elem_of_In|].
    by rewrite !bool_decide_eq_true_2.
Qed.

Lemma credential_matches_iff rp_id allow_list c :
  credential_matches rp_id allow_list c = true <-> usable rp_id allow_list c.
Proof.
  unfold credential_matches, usable. destruct (bool_decide (c_rp_id c = rp_id)) eqn:E; bools; simpl.
  - destruct allow_list as [[|v l]|]; [tauto| |tauto]. cbn [allow_list_allows].
    rewrite descriptor_list_contains_iff. tauto.
  - split; [done|]. by intros [? _].
Qed.

(** C23. The candidates of an assertion are exactly the usable credentials, each
    once, in the order of the store. *)
Theorem matching_indexes_exact cs rp_id allow_list :
  StronglySorted lt (matching_credential_indexes cs rp_id allow_list) /\
  forall i, i ∈ matching_credential_indexes cs rp_id allow_list <->
    exists c, cs !! i = Some c /\ usable rp_id allow_list c.
Proof.
  unfold matching_credential_indexes. split; [apply sorted_filter_enumerate|].
  intros i. rewrite elem_of_filter_enumerate. by setoid_rewrite credential_matches_iff.
Qed.

(** ** Assertions *)

(** The credentials and the session are as they were. *)
Definition same_creds (s s' : St) : Prop :=
  credentials (auth s') = credentials (auth s) /\ session (auth s') = session (auth s).

#[export] Instance same_creds_preorder : PreOrder same_creds.
Proof. split; unfold same_creds; repeat intro; [done|]. intuition congruence. Qed.
#[export] Instance same_creds_world : IgnoresWorld same_creds.
Proof. done. Qed.
Lemma same_creds_tpm t s : same_creds s (set_auth (set_tpm t (auth s)) s).
Proof. done. Qed.
#[export] Hint Resolve same_creds_tpm : keeps.

Section assertion.
Context {pf : Platform} {cr : Crypto} {codec : CborCodec} {es : Esapi} {sc : StoreCodec}.
Context (oc : bool).

Lemma same_creds_validate pr ap msg p rp : keeps same_creds (validate_pin_uv_auth pr ap msg p rp).
Proof. unfold validate_pin_uv_auth. handler_walk ltac:(done). Qed.
#[local] Hint Resolve same_creds_validate : keeps.

(** The TPM signed [data] with the key, the policy and the recovery authority of
    the credential, whose policy version is supported. *)
Definition signed_by (c : Credential) (data signature : bytes) : Prop :=
  (forall p, c_policy c = Some p -> is_version_supported (policy_version p) = true) /\
  exists t w w', Tpm.sign_digest_with_policy t (c_key c) (binding_of_policy <$> c_policy c)
    (slot_key <$> c_recovery c) (sha256 data) w = (Ok signature, w').

Lemma sign_credential_Ok c data s sig s' :
  sign_credential oc (c_key c) (c_policy c) (c_recovery c) data s = (Ok sig, s') ->
  signed_by c data sig.
Proof.
  unfold sign_credential. intros Hrun. ctap_inv.
  split; [|by eauto]. intros p Hp. rewrite Hp in *. by bools.
Qed.

(** The data an assertion signs. *)
Definition assertion_data (c : Credential) (user_verified : bool) : bytes :=
  make_auth_data (c_rp_id c) (Z.lor 0x01 (uv_flag user_verified)) (saturating_add (c_sign_count c) 1) None None.

Lemma assert_with_Ok i h uv total s response s' :
  assert_with oc i h uv total s = (Ok response, s') ->
  exists c sig w, credentials (auth s) !! i = Some c /\
    signed_by c (assertion_data c uv ++ h) sig /\
    Store.update_ctap2_sign_count (c_id c) (saturating_add (c_sign_count c) 1) w = (Ok tt, world s') /\
    credentials (auth s') = alter (with_sign_count (saturating_add (c_sign_count c) 1)) i (credentials (auth s)) /\
    response = encode_assertion_response (c_id c) (assertion_data c uv) sig (assertion_user uv c) total.
Proof.
  unfold assert_with, credential_at. intros Hrun. ctap_inv.
  match goal with H : sign_credential _ _ _ _ _ _ = (Ok ?sig, ?s1), L : _ !! i = Some ?c,
      U : Store.update_ctap2_sign_count _ _ _ = (Ok ?u, ?w) |- _ =>
    assert (same_creds s s1) as [Hc _] by (eapply keeps_run; [|exact H]; eauto with keeps);
    destruct u; exists c, sig, (world s1) end.
  simpl. rewrite Hc. split_and!; try done. by eapply sign_credential_Ok.
Qed.

Lemma assertion_approved_Ok {E} rp s s' :
  (assertion_approved rp : M St E bool) s = (Ok true, s') ->
  auth s' = auth s /\
  exists w w', Session.approve (E := E) ("Authenticate with passkey for " +:+ rp)%string (session (auth s)) w = (Ok true, w').
Proof.
  unfold assertion_approved, session_matches, session_approves. intros Hrun. ctap_inv; try done.
  match goal with H : Session.approve _ _ _ = (Ok ?b, _), N : negb ?b = false |- _ => destruct b; [|done] end.
  simpl in *. split; [done|]. eauto.
Qed.

Lemma client_data_hash_Ok h u : validate_client_data_hash h = Ok u -> length h = 32%nat.
Proof. unfold validate_client_data_hash. destruct (negb _) eqn:E; [done|]. by bools. Qed.

Lemma head_matching cs rp allow i rest :
  matching_credential_indexes cs rp allow = i :: rest ->
  exists c, cs !! i = Some c /\ usable rp allow c.
Proof.
  intros E. assert (i ∈ matching_credential_indexes cs rp allow) as Hi by (rewrite E; left).
  unfold matching_credential_indexes in Hi. apply elem_of_filter_enumerate in Hi as (c & Hc & Hm).
  exists c. by rewrite <- credential_matches_iff.
Qed.
End assertion.

(** The credentials an assertion is made from: those the store has for the user of the
    session, or those in memory for a daemon that was started without a TPM. *)
Definition held {pf : Platform} {cr : Crypto} {sc : StoreCodec} (s : St) (cs : list Credential) : Prop :=
  match tpm_path (auth s) with
  | Some _ => exists w, (load_credentials_from_disk (Session.uid (session (auth s))) : M World ErrorStatus _) (world s) = (Ok cs, w)
  | None => cs = credentials (auth s)
  end.

Lemma validate_Ok_auth {pf : Platform} {cr : Crypto} protocol auth_param message permission rp_id s b s' :
  validate_pin_uv_auth protocol auth_param message permission rp_id s = (Ok b, s') -> auth s' = auth s.
Proof.
  unfold validate_pin_uv_auth, session_matches, Session.verify_matches_current, Session.detect, elapsed, instant_now.
  intros Hrun. ctap_inv; done.
Qed.

(** C5. What a successful assertion says and did. The credential [c] is the first one
    the request may use of those the daemon held before, which are loaded from the
    store again; the user approved the operation on the daemon's own session; the TPM
    signed the authenticator data of this answer followed by the client data hash
    under the policy of that credential; the counter in the signed data is one more
    than the counter [c] was held with, up to 2^32 - 1, and it was written to the
    store, under the id of [c], as the last thing before the answer, which carries the
    id, the data, the signature and the user of that credential; in memory the counter
    of [c], and nothing else, has changed in what was held. The UV flag is set only for
    a verified request or one that asks for UV. *)
Theorem assertion_answer {pf : Platform} {cr : Crypto} {codec : CborCodec} {es : Esapi}
    {sc : StoreCodec} oc body s response s' :
  get_assertion oc body s = (Ok response, s') ->
  exists request rp_id client_data_hash verified s1 cs i rest c sig w,
    let uv := verified || option_true (map_map request 5) "uv" in
    let count := Z.min (c_sign_count c + 1) u32_max in
    let data := make_auth_data (c_rp_id c) (Z.lor 0x01 (uv_flag uv)) count None None in
    decode_map body = Ok request /\ map_text request 1 = Some rp_id /\
    map_bytes request 2 = Some client_data_hash /\ length client_data_hash = 32%nat /\
    validate_pin_uv_auth (map_integer request 7) (map_bytes request 6) client_data_hash
       GET_ASSERTION (Some rp_id) s = (Ok verified, s1) /\ auth s1 = auth s /\
    held s1 cs /\ matching_credential_indexes cs rp_id (map_array request 3) = i :: rest /\
    cs !! i = Some c /\ usable rp_id (map_array request 3) c /\
    (exists w w', Session.approve (E := ErrorStatus) ("Authenticate with passkey for " +:+ rp_id)%string
                    (session (auth s)) w = (Ok true, w')) /\
    signed_by c (data ++ client_data_hash) sig /\
    Store.update_ctap2_sign_count (c_id c) count w = (Ok tt, world s') /\
    credentials (auth s') = alter (with_sign_count count) i cs /\
    response = encode_assertion_response (c_id c) data sig (assertion_user uv c) (length (i :: rest)).
Proof.
  intros Hrun. unfold get_assertion in Hrun.
  apply bind_Ok in Hrun as (request & s0 & [Hreq ->]%lift_Ok & Hrun).
  apply bind_Ok in Hrun as (rp_id & s0 & [Hrp ->]%lift_Ok & Hrun). apply ok_or_Ok in Hrp.
  apply bind_Ok in Hrun as (cdh & s0 & [Hcdh ->]%lift_Ok & Hrun). apply ok_or_Ok in Hcdh.
  apply bind_Ok in Hrun as (u & s0 & [Hlen%client_data_hash_Ok ->]%lift_Ok & Hrun).
  apply bind_Ok in Hrun as (verified & s1 & Hval & Hrun). pose proof (validate_Ok_auth _ _ _ _ _ _ _ _ Hval) as Hauth.
  do 2 (apply bind_Ok in Hrun as (? & ? & [_ ->]%lift_Ok & Hrun)).
  apply bind_Ok in Hrun as (path & ? & [-> ->]%field_Ok & Hrun).
  apply bind_Ok in Hrun as (u2 & s2 & Hload & Hrun).
  assert (session (auth s2) = session (auth s1) /\ held s1 (credentials (auth s2))) as [Hses2 Hheld].
  { unfold held. destruct (tpm_path (auth s1)); unfold session_uid in Hload; ctap_inv; simpl; eauto. }
  apply bind_Ok in Hrun as (cs & ? & [-> ->]%field_Ok & Hrun). cbv zeta in Hrun.
  destruct (matching_credential_indexes (credentials (auth s2)) rp_id (map_array request 3)) as [|i rest] eqn:Hm; [done|].
  destruct (head_matching _ _ _ _ _ Hm) as (c & Hc & Hu).
  apply bind_Ok in Hrun as ([] & s3 & Ha & Hrun); [|done].
  apply assertion_approved_Ok in Ha as [Hs3 Happ].
  apply bind_Ok in Hrun as (u3 & s4 & [_ ->]%deny_if_Ok & Hrun).
  apply bind_Ok in Hrun as (u4 & s5 & Hpend & Hrun).
  assert (credentials (auth s5) = credentials (auth s2)) as Hs5.
  { destruct rest; unfold session_uid, instant_now in Hpend; ctap_inv; simpl; by rewrite Hs3. }
  apply assert_with_Ok in Hrun as (c' & sig & w & Hc' & Hsig & Hupd & Hcs & ->).
  rewrite Hs5, Hc in Hc'. injection Hc' as <-.
  exists request, rp_id, cdh, verified, s1, (credentials (auth s2)), i, rest, c, sig, w. cbv zeta.
  split_and!; try done.
  - by rewrite Hses2, Hauth in Happ.
  - by rewrite Hcs, Hs5.
Qed.

(** ** Registration *)

(** The record a registration stores. *)
Definition new_credential (m : MakeRequest) (options : option cbor_map) (uid : option Z)
    (id : bytes) (key : TpmCredential) (policy : PcrPolicyBinding) (recovery : option RecoveryMaterial)
    : Credential :=
  {| c_id := id; c_rp_id := mr_rp_id m; c_discoverable := discoverable_requested options;
     c_user_id := uid; c_user_handle := mr_user_handle m; c_user_name := mr_user_name m;
     c_user_display_name := mr_user_display_name m; c_key := key;
     c_policy := Some (policy_of_binding policy); c_recovery := slot_of_material <$> recovery;
     c_sign_count := 0 |}.

Section registration.
Context {pf : Platform} {cr : Crypto} {codec : CborCodec} {es : Esapi} {sc : StoreCodec}.
Context (oc : bool).

(** The key was made by the TPM for the policy that is stored with it. *)
Definition key_bound_to (key : TpmCredential) (policy : PcrPolicyBinding) : Prop :=
  exists w w', Tpm.create_credential_key_with_policy (Some policy) w = (Ok key, w').

Lemma create_key_material_Ok t o id p s key policy recovery s' :
  create_key_material t o id p s = (Ok (key, policy, recovery), s') ->
  auth s' = auth s /\ key_bound_to key policy /\ (is_Some recovery <-> is_Some p).
Proof.
  unfold create_key_material. intros Hrun. ctap_inv; (split; [done|]); (split; [by do 2 eexists|]);
    split; intros [? ?]; by eauto.
Qed.

End registration.

(** C7. What a successful registration did: the request was well formed and
    named no excluded credential; the user approved the registration for that
    relying party on the daemon's own session; the TPM made the key for the policy
    that is stored with it; exactly one credential was added, of the requested
    user and relying party, owned by the session's user, with a counter of zero;
    the store was asked to replace its contents by the credentials held now, as
    the last thing before the answer and whether it succeeded or not; the answer attests the id and the public key of that credential. *)
Theorem registration_answer {pf : Platform} {pl : PlatformLaws} {cr : Crypto} {codec : CborCodec}
    {es : Esapi} {sc : StoreCodec} oc body s response s' :
  make_credential oc body s = (Ok response, s') ->
  exists request m verified id key policy recovery,
    let options := map_map request 7 in
    let uv := verified || option_true options "uv" in
    decode_map body = Ok request /\ parse_make_request request = Ok m /\
    (validate_pin_uv_auth (map_integer request 9) (map_bytes request 8)
       (mr_client_data_hash m ++ as_bytes (mr_rp_id m)) MAKE_CREDENTIAL (Some (mr_rp_id m)) s).1 = Ok verified /\
    excluded_credential_exists (credentials (auth s)) (mr_rp_id m) (map_array request 5) = false /\
    (exists w w', Session.approve (E := ErrorStatus) (register_prompt m) (session (auth s)) w = (Ok true, w')) /\
    key_bound_to key policy /\ length id = 32%nat /\
    credentials (auth s') = credentials (auth s) ++
      [new_credential m options (Session.uid (session (auth s))) id key policy recovery] /\
    (exists w r, Store.save_ctap2_credentials (map stored_of_credential (credentials (auth s'))) w = (r, world s')) /\
    response = encode_response (VMap
      [(VInteger 1, VText "none");
       (VInteger 2, VBytes (make_auth_data (mr_rp_id m) (Z.lor 0x41 (uv_flag uv)) 0
          (Some (id, cose_credential_public_key key))
          (if mr_cred_props m then Some (cred_props_extension (discoverable_requested options)) else None)));
       (VInteger 3, VMap [])]).
Proof.
  intros Hrun. unfold make_credential in Hrun.
  apply bind_Ok in Hrun as (request & s0 & [Hreq ->]%lift_Ok & Hrun).
  apply bind_Ok in Hrun as (m & s0 & [Hm ->]%lift_Ok & Hrun). cbv zeta in Hrun.
  apply bind_Ok in Hrun as (verified & s1 & Hval & Hrun).
  pose proof (keeps_run _ _ _ _ _ (same_creds_validate _ _ _ _ _) Hval) as [Hcs1 Hses1].
  do 2 (apply bind_Ok in Hrun as (? & ? & [_ ->]%lift_Ok & Hrun)).
  apply bind_Ok in Hrun as (cs & ? & [-> ->]%field_Ok & Hrun).
  apply bind_Ok in Hrun as (u & ? & [Hex ->]%deny_if_Ok & Hrun).
  unfold session_matches, session_approves, session_uid, save_credentials, fill_random in Hrun.
  ctap_inv. bools. subst. simpl in *.
  match goal with H : create_key_material _ _ ?id _ ?s2 = (Ok (?key, ?policy, ?rec), ?s3),
      T : ensure_tpm _ ?sa = (_, ?sb) |- _ =>
    pose proof (create_key_material_Ok _ _ _ _ _ _ _ _ _ H) as (Ha & Hk & _);
    pose proof (keeps_run same_creds _ _ _ _ (keeps_ensure_tpm same_creds same_creds_tpm oc) T) as [Hcs2 Hses2];
    exists request, m, verified, id, key, policy, rec end.
  simpl in *. cbv zeta. split_and!; try done.
  - by rewrite Hval.
  - by rewrite <- Hcs1.
  - rewrite <- Hses1. eauto.
  - by eapply length_getrandom.
  - rewrite Ha, Hcs2, Hcs1, Hses2, Hses1. done.
  - do 2 eexists. eassumption.
Qed.

End Ctap2Assert.
