(* ===== verification/Ctap2Counter.v ===== *)
(** Signature counters: over any requests, management commands and restarts, two
    assertions with the same credential carry increasing counters. *)
From Stdlib Require Import ZArith Lia String.
From stdpp Require Import base list option strings.
From S2P Require Import Prelude Schema Platform Cbor Session Tpm Store StoreProps StoreCounts.
From S2P Require Import Ctap2Types Ctap2 Ctap2Facts WorldFacts Ctap2Pin Ctap2Restart Ctap2Assert.

#[local] Open Scope Z_scope.

Module Ctap2Counter.
Import Ctap2 Ctap2Facts WorldFacts Ctap2Restart Ctap2Assert StoreCounts.

(** ** Ids and counters the daemon knows *)

Definition cred_count (c : Credential) : bytes * Z := (c_id c, c_sign_count c).

(** Those in the store and those in memory. *)
Definition live (s : St) : list (bytes * Z) :=
  counts (w_db (world s)) ++ (cred_count <$> credentials (auth s)).

(** Before the call [n], the kernel did not give the same 32 bytes twice. *)
Definition distinct_draws {pf : Platform} (n : nat) : Prop :=
  forall t t' b, (t < n)%nat -> (t' < n)%nat ->
    getrandom t 32 = Some b -> getrandom t' 32 = Some b -> t = t'.

Lemma distinct_draws_le {pf : Platform} n n' : (n <= n')%nat -> distinct_draws n' -> distinct_draws n.
Proof. intros Hn Hd t t' b Ht Ht'. apply Hd; lia. Qed.

(** The assertions [L] were answered; no id of [F] is in use. *)
Record tracking {pf : Platform} (L : list (bytes * Z)) (F : bytes -> Prop) (s : St) : Prop := {
  tr_wf : StoreProps.db_wf (w_db (world s));
  tr_nodup : NoDup (c_id <$> credentials (auth s));
  tr_drawn p : p ∈ live s ++ L -> exists t, (t < w_tick (world s))%nat /\ getrandom t 32 = Some p.1;
  tr_reserved id : F id -> exists t, (t < w_tick (world s))%nat /\ getrandom t 32 = Some id;
  tr_fresh p : p ∈ live s ++ L -> ~ F p.1;
  tr_floor id k : (id, k) ∈ L -> k <= u32_max /\ forall n, (id, n) ∈ live s -> k <= n }.

(** Whatever was drawn, no counter is negative. *)
Definition nonneg (s : St) : Prop :=
  StoreProps.db_wf (w_db (world s)) /\ forall p, p ∈ live s -> 0 <= p.2.

Definition tracked {pf : Platform} (L : list (bytes * Z)) (F : bytes -> Prop) (s : St) : Prop :=
  nonneg s /\ (distinct_draws (w_tick (world s)) -> tracking L F s).

Definition none : bytes -> Prop := fun _ => False.

(** Nothing is added: no id appears and no counter changes. *)
Record settles (s s' : St) : Prop := {
  se_tick : (w_tick (world s) <= w_tick (world s'))%nat;
  se_wf : StoreProps.db_wf (w_db (world s)) -> StoreProps.db_wf (w_db (world s'));
  se_nodup : StoreProps.db_wf (w_db (world s)) -> NoDup (c_id <$> credentials (auth s)) ->
    NoDup (c_id <$> credentials (auth s'));
  se_live : StoreProps.db_wf (w_db (world s)) -> forall p, p ∈ live s' -> p ∈ live s }.

#[export] Instance settles_preorder : PreOrder settles.
Proof.
  split.
  - intros s. split; auto.
  - intros a b c [T1 W1 N1 L1] [T2 W2 N2 L2]. split; auto. lia.
Qed.

Lemma tracked_settles {pf : Platform} L F s s' : settles s s' -> tracked L F s -> tracked L F s'.
Proof.
  intros [Ht Hw Hn Hl] [[Hdb H0] Hs]. split; [split; auto|]. intros Hd. destruct (Hs (distinct_draws_le _ _ Ht Hd)) as [W N D R X K].
  assert (forall p, p ∈ live s' ++ L -> p ∈ live s ++ L) as Hin.
  { intros p. rewrite !elem_of_app. intros [?|?]; auto. }
  split; auto.
  - intros p Hp%Hin%D. destruct Hp as (t & ? & ?). exists t. split; [lia|done].
  - intros id Hid%R. destruct Hid as (t & ? & ?). exists t. split; [lia|done].
  - intros id k HL. destruct (K id k HL) as [? Hf]. split; [done|]. auto.
Qed.

Lemma settles_tracked {pf : Platform} {E A} L F (m : M St E A) :
  keeps settles m -> keeps (inv_rel (tracked L F)) m.
Proof. intros Hm s Hs. eapply tracked_settles; [apply Hm|exact Hs]. Qed.

(** ** What settles *)

(** The operations of the store that set no counter. *)
Definition steady_op (op : StoreProps.StoreOp) : bool :=
  match op with
  | StoreProps.SaveCredentials _ | StoreProps.UpdateSignCount _ _ => false
  | _ => true
  end.

Lemma steady_read op : read_op op = true -> steady_op op = true.
Proof. by destruct op. Qed.
#[local] Hint Resolve steady_read : core.

Section steady.
Context {pf : Platform} {cr : Crypto} {codec : CborCodec} {es : Esapi} {sc : StoreCodec} (oc : bool).

Definition nothing : bytes * Z -> Prop := fun _ => False.

Lemma steady_run op : steady_op op = true -> keeps (within nothing) (StoreProps.run_op op).
Proof. intros Hop. apply within_op. by destruct op. Qed.

Lemma settles_world s w : within nothing (world s) w -> settles s (set_world w s).
Proof.
  intros [T W C]. split; simpl; auto. intros _ p. unfold live. simpl. rewrite !elem_of_app.
  intros [[?|[]]%C|?]; auto.
Qed.

Lemma settles_creds s s' : same_creds s s' -> within nothing (world s) (world s') -> settles s s'.
Proof.
  intros [Hcs _] [T W C]. split; auto.
  - by rewrite Hcs.
  - intros _ p. unfold live. rewrite Hcs, !elem_of_app. intros [[?|[]]%C|?]; auto.
Qed.

Lemma settles_same {E A} (m : M St E A) :
  keeps same_creds m -> keeps (on_st (within nothing)) m -> keeps settles m.
Proof. intros Hc Hw s. apply settles_creds; [apply Hc|apply Hw]. Qed.

Lemma settles_credentials {E} f :
  (forall a, cred_count <$> credentials (f a) `sublist_of` cred_count <$> credentials a) ->
  keeps settles (update f : M St E unit).
Proof.
  intros Hf. apply keeps_update. intros s. specialize (Hf (auth s)).
  assert (forall cs, c_id <$> cs = fst <$> (cred_count <$> cs)) as Hid
    by (intros cs; by rewrite <- list_fmap_compose).
  split; simpl; auto.
  - intros _. rewrite !Hid. intros Hn. eapply sublist_NoDup; [exact Hn|]. by apply fmap_sublist.
  - intros _ p. unfold live. simpl. rewrite !elem_of_app. intros [?|Hp]; [auto|right].
    by eapply elem_of_sublist.
Qed.

Lemma settles_on_world {E A} (m : M World E A) : keeps (within nothing) m -> keeps settles (on_world m).
Proof.
  intros Hm s. unfold on_world. specialize (Hm (world s)). destruct (m (world s)) as [r w].
  by apply settles_world.
Qed.

(** Loading the credentials from the store. *)
Lemma loaded_counts {E} uid w cs w' :
  (load_credentials_from_disk uid : M World E _) w = (Ok cs, w') -> StoreProps.db_wf (w_db w) ->
  NoDup (c_id <$> cs) /\ forall p, p ∈ cred_count <$> cs -> p ∈ counts (w_db w).
Proof.
  unfold load_credentials_from_disk, mbind, M_bind, attempt. intros H Hwf.
  destruct (Store.load_ctap2_credentials uid w) as [[l|e|] w1] eqn:El; [| |done]; injection H as <- _.
  - destruct (load_counts _ _ _ _ El Hwf) as [Hn Hc].
    change (map credential_of_stored l) with (credential_of_stored <$> l). rewrite <- !list_fmap_compose.
    split; [done|]. intros p (c & -> & Hin)%list_elem_of_fmap. by apply (Hc c).
  - split; [constructor|]. by intros p ?%not_elem_of_nil.
Qed.

Lemma settles_load {E} uid :
  keeps settles (cs ← on_world (load_credentials_from_disk uid); (update (set_credentials cs) : M St E unit)).
Proof.
  intros s. unfold mbind, M_bind, on_world.
  pose proof (world_load_credentials (E := E) (within nothing) steady_op steady_run steady_read uid (world s)) as Hw.
  destruct (load_credentials_from_disk uid (world s)) as [[cs|e|] w] eqn:El; simpl in Hw;
    [|by apply settles_world..].
  destruct Hw as [T W C]. split; simpl; auto.
  - intros Hwf _. by destruct (loaded_counts _ _ _ _ El Hwf).
  - intros Hwf p. unfold live. simpl. rewrite !elem_of_app. intros [[?|[]]%C|Hp]; [auto|left].
    by apply (loaded_counts _ _ _ _ El Hwf).
Qed.

(** Writing the credentials in memory to the store. *)
Lemma settles_save {E} : keeps settles (save_credentials : M St E unit).
Proof.
  intros s. unfold save_credentials, call, mbind, M_bind. simpl. unfold on_world, attempt.
  set (cs := map stored_of_credential (credentials (auth s))).
  pose proof (within_op (fun p => p ∈ cred_count <$> credentials (auth s)) (StoreProps.SaveCredentials cs)) as Hop.
  simpl in Hop. specialize (Hop (fun p => ltac:(unfold cs;
    change (map stored_of_credential (credentials (auth s))) with (stored_of_credential <$> credentials (auth s));
    rewrite <- list_fmap_compose; exact id)) (world s)).
  assert (forall w, within (fun p => p ∈ cred_count <$> credentials (auth s)) (world s) w ->
    settles s (set_world w s)) as Hs.
  { intros w [T W C]. split; simpl; auto. intros _ p. unfold live. simpl. rewrite !elem_of_app.
    intros [[?|?]%C|?]; auto. }
  destruct (Store.save_ctap2_credentials cs (world s)) as [[] w]; simpl in *; auto.
Qed.

Ltac steady_walk := handler_walk ltac:(done).

Lemma steady_validate p a m pe rp : keeps settles (validate_pin_uv_auth p a m pe rp).
Proof. apply settles_same; [apply same_creds_validate|apply world_validate, _]. Qed.
Lemma steady_sign k p a d : keeps settles (sign_credential oc k p a d).
Proof. apply settles_same; [eauto with keeps|]. apply (world_sign _ oc steady_op); auto using steady_run. Qed.
Lemma steady_ensure_tpm {E} : keeps settles (ensure_tpm oc : M St E _).
Proof. apply settles_same; [eauto with keeps|]. apply (world_ensure_tpm _ oc steady_op); auto using steady_run. Qed.
Lemma steady_key_material t o i p : keeps settles (create_key_material t o i p).
Proof. apply settles_same; [eauto with keeps|]. apply world_key_material, _. Qed.
Lemma steady_approved {E} rp : keeps settles (assertion_approved rp : M St E bool).
Proof. apply settles_same; [eauto with keeps|]. apply world_approved, _. Qed.
Lemma steady_gate c : keeps settles (passphrase_gate c).
Proof. apply settles_same; [eauto with keeps|]. apply (world_passphrase_gate _ steady_op); auto using steady_run. Qed.
Lemma steady_client_pin b : keeps settles (client_pin_ b).
Proof.
  apply settles_same; [|apply (world_client_pin _ steady_op); auto using steady_run].
  unfold client_pin_, set_pin, change_pin, get_pin_uv_auth_token, get_pin_uv_auth_token_using_uv,
    issue_token, authenticate_pin. steady_walk.
Qed.
Lemma steady_tpm_command c : keeps settles (handle_tpm_command oc c).
Proof.
  apply settles_same; [|apply (world_handle_tpm_command _ oc steady_op); auto using steady_run].
  unfold handle_tpm_command, require_tpm, wrap. steady_walk.
Qed.
Lemma steady_clear_stale c : keeps settles (clear_stale c).
Proof. apply settles_same; [|]; unfold clear_stale; [steady_walk|]. keeps_walk ltac:(apply on_st_update, _). Qed.
Lemma steady_update {E} f :
  (forall a, credentials (f a) = credentials a) -> keeps settles (update f : M St E unit).
Proof. intros Hf. apply settles_credentials. intros a. by rewrite Hf. Qed.
End steady.
#[export] Hint Resolve settles_save steady_validate steady_sign steady_ensure_tpm steady_key_material steady_approved
  steady_gate steady_client_pin steady_tpm_command steady_clear_stale : keeps.

Lemma fmap_alter_same {A B} (g : A -> B) f (i : nat) (l : list A) :
  (forall x, g (f x) = g x) -> g <$> alter f i l = g <$> l.
Proof.
  intros Hf. revert i. induction l as [|x l IH]; intros [|i]; [done..| |]; csimpl; [by rewrite Hf|].
  f_equal. apply IH.
Qed.

Ltac settles_walk :=
  keeps_walk ltac:(idtac; lazymatch goal with
    | |- keeps settles (update _) => by apply steady_update
    | |- keeps settles (on_world (load_credentials_from_disk _) ≫= _) => apply settles_load
    | |- keeps settles (on_world _) => apply settles_on_world; store_walk ltac:(first
        [ apply (steady_run (StoreProps.DeleteCredential _)); done
        | apply (steady_run StoreProps.DeleteClientPin); done
        | apply keeps_drop, (steady_run StoreProps.LoadDaemonPassphrase); done ])
    end).

Section handlers.
Context {pf : Platform} {cr : Crypto} {codec : CborCodec} {es : Esapi} {sc : StoreCodec} (oc : bool).

Lemma steady_reset : keeps settles reset.
Proof.
  assert (forall cs, keeps settles (delete_all_credentials cs : M St ErrorStatus unit)) as Hd.
  { intros cs. induction cs; simpl; unfold call; settles_walk. }
  assert (keeps settles (update (set_credentials []) : M St ErrorStatus unit)) as Hu.
  { apply settles_credentials. intros a. apply sublist_nil_l. }
  unfold reset, deny_if, call. settles_walk.
Qed.

Lemma steady_delete i : keeps settles (update (fun a => set_credentials (delete i (credentials a)) a) : M St ErrorStatus unit).
Proof. apply settles_credentials. intros a. apply fmap_sublist, sublist_delete. Qed.

Lemma steady_alter i f : (forall c, cred_count (f c) = cred_count c) ->
  keeps settles (update (fun a => set_credentials (alter f i (credentials a)) a) : M St ErrorStatus unit).
Proof. intros Hf. apply settles_credentials. intros a. simpl. by rewrite fmap_alter_same. Qed.

Lemma steady_management b : keeps settles (credential_management b).
Proof.
  pose proof steady_delete.
  unfold credential_management, expire_management, enumerate_rps_begin, enumerate_rps_next,
    enumerate_credentials_begin, enumerate_credentials_next, start_management, delete_credential,
    update_user_information, session_matches, session_uid, elapsed, instant_now, credential_at, deny_if,
    or_fail, call.
  keeps_walk ltac:(first [by apply steady_alter | progress settles_walk]).
Qed.

(** ** Registration *)

(** From a state in [P], [m] ends in a state in [Q]. *)
Definition into {E A} (P Q : St -> Prop) (m : M St E A) : Prop := forall s, P s -> Q (m s).2.

Lemma into_bind {E A B} (P Q : St -> Prop) (m : M St E A) (k : A -> M St E B) :
  (forall s, P s -> Q s) -> keeps (inv_rel P) m -> (forall a, into P Q (k a)) -> into P Q (m ≫= k).
Proof.
  intros Hpq Hm Hk s Hs. specialize (Hm s Hs). unfold mbind, M_bind.
  destruct (m s) as [[a|e|] s1]; simpl in *; [by apply Hk|auto..].
Qed.

Lemma into_then {E A B} (P Q : St -> Prop) (m : M St E A) (k : A -> M St E B) :
  into P Q m -> (forall a, keeps (inv_rel Q) (k a)) -> into P Q (m ≫= k).
Proof.
  intros Hm Hk s Hs. specialize (Hm s Hs). unfold mbind, M_bind.
  destruct (m s) as [[a|e|] s1]; simpl in *; [by apply Hk|auto..].
Qed.

Lemma tracked_none L F s : tracked L F s -> tracked L none s.
Proof. intros [H0 Hs]. split; [done|]. intros Hd. destruct (Hs Hd). split; auto; by intros. Qed.

(** An id that was just drawn is not in use. *)
Lemma tracked_draw {E} L s id s' :
  (fill_random 32 : M St E bytes) s = (Ok id, s') -> tracked L none s -> tracked L (eq id) s'.
Proof.
  unfold fill_random, on_world, next, mbind, M_bind. simpl. set (s1 := set_world _ s). intros Hf Hs.
  destruct (getrandom (w_tick (world s)) 32) as [b|] eqn:Hr; [|done]. apply ret_Ok in Hf as [-> ->].
  assert (tracked L none s1) as Hs1.
  { eapply tracked_settles; [|exact Hs]. apply settles_world. by apply store_rel_db; simpl; auto. }
  destruct Hs1 as [H0 Hs1], Hs as [_ Hs]. split; [done|].
  intros Hd. destruct (Hs1 Hd) as [W N D _ _ K]. split; auto.
  - intros ? <-. exists (w_tick (world s)). split; [simpl; lia|done].
  - intros p Hp ->. destruct Hs as [_ _ D0 _ _ _]; [by eapply distinct_draws_le; [|exact Hd]; simpl; lia|].
    destruct (D0 p Hp) as (t & Ht & Hg).
    assert (t = w_tick (world s)) by (apply (Hd _ _ p.1); simpl; auto; lia). lia.
Qed.

Lemma tracked_fresh {E A} L (k : bytes -> M St E A) :
  (forall id, into (tracked L (eq id)) (tracked L none) (k id)) ->
  keeps (inv_rel (tracked L none)) (fill_random 32 ≫= k).
Proof.
  intros Hk s Hs. assert (keeps settles (fill_random (E := E) 32)) as Hse by (unfold fill_random; settles_walk).
  specialize (Hse s).
  unfold mbind, M_bind. destruct (fill_random 32 s) as [[id|e|] s1] eqn:Hf; [|by eapply tracked_settles..].
  by apply Hk, (tracked_draw _ _ _ _ Hf).
Qed.

(** It can be given to a new credential. *)
Lemma into_push {E} L id c :
  cred_count c = (id, 0) ->
  into (tracked L (eq id)) (tracked L none)
    (update (fun a => set_credentials (credentials a ++ [c]) a) : M St E unit).
Proof.
  intros [= Hid Hn] s [[Hdb H0] Hs].
  assert (forall p, p ∈ live (set_auth (set_credentials (credentials (auth s) ++ [c]) (auth s)) s) ->
    p ∈ live s \/ p = (id, 0)) as Hl.
  { intros p. unfold live. simpl. rewrite fmap_app, !elem_of_app. intros [?|[?|Hp]]; auto.
    apply list_elem_of_singleton in Hp as ->. right. unfold cred_count. congruence. }
  split; [split; [done|]; by intros p [?| ->]%Hl; [auto|simpl]|].
  intros Hd. simpl in Hd. destruct (Hs Hd) as [W N D R X K]. simpl. split; simpl; auto.
  - rewrite fmap_app. apply NoDup_app. split_and!; [done| |apply NoDup_singleton].
    intros x Hx ->%list_elem_of_singleton. apply list_elem_of_fmap in Hx as (c' & Hc & Hin).
    apply (X (cred_count c')); [|simpl; congruence].
    apply elem_of_app. left. apply elem_of_app. right. by apply list_elem_of_fmap_2.
  - intros p [[?| ->]%Hl|?]%elem_of_app; [apply D, elem_of_app; auto|by apply R|apply D, elem_of_app; auto].
  - by intros.
  - intros id' k HL. destruct (K id' k HL) as [? Hf]. split; [done|].
    intros n [?|[= -> ->]]%Hl; [auto|]. exfalso. apply (X (id, k)); [|done]. rewrite elem_of_app. auto.
Qed.

Lemma tracked_make L body : keeps (inv_rel (tracked L none)) (make_credential oc body).
Proof.
  unfold make_credential, deny_if, session_matches, session_approves, session_uid, call.
  keeps_walk ltac:(first [apply tracked_fresh; intro | solve [apply settles_tracked; settles_walk]]).
  apply into_bind; [apply tracked_none|apply settles_tracked; settles_walk|intros [[key policy] recovery]].
  apply into_bind; [apply tracked_none|apply settles_tracked; settles_walk|intros uid].
  apply into_then; [by apply into_push|intros _; apply settles_tracked; settles_walk].
Qed.

(** ** Assertions *)

(** The counter [k] is after every counter that was answered for [id]. *)
Definition after (L : list (bytes * Z)) (id : bytes) (k : Z) : Prop :=
  forall k', (id, k') ∈ L -> k' < k \/ k = u32_max.

(** The answer of an assertion with the credential [id] and the counter [k], the
    four bytes of which are in the authenticator data. *)
Definition answers (r id : bytes) (k : Z) : Prop :=
  0 <= k <= u32_max /\ exists rp flags sig user total,
    r = encode_assertion_response id (make_auth_data rp flags k None None) sig user total.

(** A successful run of [m] answers one more assertion, an unsuccessful one none. *)
Definition logs (m : M St ErrorStatus bytes) : Prop :=
  forall L s, tracked L none s ->
    match m s with
    | (Ok r, s') => exists id k, answers r id k /\
        (distinct_draws (w_tick (world s')) -> after L id k) /\ tracked (L ++ [(id, k)]) none s'
    | (_, s') => tracked L none s'
    end.

Lemma logs_throw e : logs (throw e).
Proof. by intros L s Hs. Qed.

Lemma logs_bind {A} (m : M St ErrorStatus A) (k : A -> M St ErrorStatus bytes) :
  keeps settles m -> (forall a, logs (k a)) -> logs (m ≫= k).
Proof.
  intros Hm Hk L s Hs. specialize (Hm s). unfold mbind, M_bind.
  destruct (m s) as [[a|e|] s1]; simpl in *; [apply Hk|..]; by eapply tracked_settles.
Qed.

(** The next counter of a credential in memory. *)
Lemma tracked_next L s i c :
  tracking L none s -> credentials (auth s) !! i = Some c ->
  after L (c_id c) (saturating_add (c_sign_count c) 1) /\
  forall k, (c_id c, k) ∈ L -> k <= saturating_add (c_sign_count c) 1.
Proof.
  intros [W N D R X K] Hc.
  assert (forall k, (c_id c, k) ∈ L -> k <= u32_max /\ k <= c_sign_count c) as Hk.
  { intros k HL. destruct (K _ _ HL) as [? Hf]. split; [done|]. apply Hf, elem_of_app. right.
    apply (list_elem_of_fmap_2 cred_count). by eapply list_elem_of_lookup_2. }
  unfold saturating_add. split; intros k HL%Hk; lia.
Qed.

(** Its counter was written, whether that is known to have worked or not. *)
Lemma tracked_written L s i c w :
  let n := saturating_add (c_sign_count c) 1 in
  tracked L none s -> credentials (auth s) !! i = Some c -> within (eq (c_id c, n)) (world s) w ->
  tracked L none (set_world w s).
Proof.
  intros n [[Hwf H0] Hs] Hc [T Hw C].
  assert (forall p, p ∈ live (set_world w s) -> p ∈ live s \/ p = (c_id c, n)) as Hl.
  { intros p. unfold live. simpl. rewrite !elem_of_app. intros [[?|<-]%C|?]; auto. }
  assert (cred_count c ∈ live s) as Hlive.
  { apply elem_of_app. right. apply (list_elem_of_fmap_2 cred_count). by eapply list_elem_of_lookup_2. }
  split; [split; [by apply Hw|]; intros p [?| ->]%Hl; [auto|]; specialize (H0 _ Hlive); simpl in *;
    unfold n, saturating_add, u32_max; lia|].
  intros Hd. specialize (Hs (distinct_draws_le _ _ T Hd)).
  destruct (tracked_next L s i c Hs Hc) as [_ Hn]. fold n in Hn. destruct Hs as [W N D R X K].
  assert (forall p, p ∈ live s ++ L -> exists t, (t < w_tick w)%nat /\ getrandom t 32 = Some p.1) as HD.
  { intros p Hp%D. destruct Hp as (t & ? & ?). exists t. split; [lia|done]. }
  split; simpl; auto.
  - intros p [[?| ->]%Hl|?]%elem_of_app; [| |apply HD, elem_of_app; auto].
    + apply HD, elem_of_app. auto.
    + apply (HD (cred_count c)), elem_of_app. auto.
  - by intros ? [].
  - intros id k HL. destruct (K _ _ HL) as [? Hf]. split; [done|].
    intros m [?|[= -> ->]]%Hl; auto.
Qed.

Lemma alter_counts n i c l p :
  l !! i = Some c -> NoDup (c_id <$> l) -> p ∈ cred_count <$> alter (with_sign_count n) i l ->
  p = (c_id c, n) \/ (p ∈ cred_count <$> l /\ p.1 <> c_id c).
Proof.
  intros Hc Hn (c' & -> & Hin)%list_elem_of_fmap. apply list_elem_of_lookup in Hin as [j Hj].
  destruct (decide (j = i)) as [->|Hne].
  - rewrite list_lookup_alter_eq, Hc in Hj. injection Hj as <-. by left.
  - rewrite list_lookup_alter_ne in Hj by done. right. split.
    + apply list_elem_of_fmap_2. by eapply list_elem_of_lookup_2.
    + simpl. intros E. apply Hne. eapply NoDup_lookup; [exact Hn|..]; rewrite list_lookup_fmap.
      * by rewrite Hj.
      * rewrite Hc. simpl. by f_equal.
Qed.

Lemma alter_counted n i (l : list Credential) p :
  p ∈ cred_count <$> alter (with_sign_count n) i l -> p ∈ cred_count <$> l \/ p.2 = n.
Proof.
  intros (c' & -> & Hin)%list_elem_of_fmap. apply list_elem_of_lookup in Hin as [j Hj].
  destruct (decide (j = i)) as [->|Hne].
  - rewrite list_lookup_alter_eq in Hj. destruct (l !! i) as [c|]; [|done]. injection Hj as <-. by right.
  - rewrite list_lookup_alter_ne in Hj by done. left. apply list_elem_of_fmap_2. by eapply list_elem_of_lookup_2.
Qed.

(** It is known to have worked, and memory follows. *)
Lemma tracked_counted L s i c :
  let n := saturating_add (c_sign_count c) 1 in
  tracked L none s -> credentials (auth s) !! i = Some c ->
  (forall p, p ∈ counts (w_db (world s)) -> p.1 = c_id c -> p.2 = n) ->
  tracked (L ++ [(c_id c, n)]) none
    (set_auth (set_credentials (alter (with_sign_count n) i (credentials (auth s))) (auth s)) s).
Proof.
  intros n [[Hwf H0] Hs] Hc Hdb. split.
  { split; [done|]. assert (0 <= n) as Hn0.
    { assert (cred_count c ∈ live s) as Hlive%H0.
      { apply elem_of_app. right. apply list_elem_of_fmap_2. by eapply list_elem_of_lookup_2. }
      simpl in Hlive. unfold n, saturating_add, u32_max. lia. }
    intros p [Hp|[Hp| ->]%alter_counted]%elem_of_app; [|apply H0, elem_of_app; by right|done].
    apply H0, elem_of_app. by left. }
  intros Hd. simpl in Hd. specialize (Hs Hd).
  destruct (tracked_next L s i c Hs Hc) as [_ Hn]. fold n in Hn. destruct Hs as [W N D R X K].
  assert (n <= u32_max) as Hmax by (unfold n, saturating_add; lia). set (s' := set_auth _ s).
  assert (forall p, p ∈ live s' -> p.1 = c_id c /\ p.2 = n \/ p ∈ live s /\ p.1 <> c_id c) as Hl.
  { intros p [Hp|Hp]%elem_of_app; simpl in Hp.
    - destruct (decide (p.1 = c_id c)); [left; auto|right]. split; [apply elem_of_app; auto|done].
    - destruct (alter_counts n i c _ p Hc N Hp) as [->|[? ?]]; [auto|right].
      split; [apply elem_of_app; auto|done]. }
  assert (exists t, (t < w_tick (world s))%nat /\ getrandom t 32 = Some (c_id c)) as Ht.
  { apply (D (cred_count c)), elem_of_app. left. apply elem_of_app. right.
    apply (list_elem_of_fmap_2 cred_count). by eapply list_elem_of_lookup_2. }
  split; simpl; auto.
  - by rewrite fmap_alter_same.
  - intros p. rewrite !elem_of_app. intros [[[-> _]|[? _]]%Hl|[?|Hp]]; [done|apply D, elem_of_app; auto..|].
    by apply list_elem_of_singleton in Hp as ->.
  - intros id k [HL|[= -> ->]%list_elem_of_singleton]%elem_of_app.
    + destruct (K _ _ HL) as [? Hf]. split; [done|]. intros m [[E1 E2]|[? _]]%Hl; [|auto]. simpl in *. subst. auto.
    + split; [done|]. intros m [[E1 E2]|[_ E]]%Hl; simpl in *; [lia|done].
Qed.

Lemma logs_assert_with i h v total : logs (assert_with oc i h v total).
Proof.
  intros L s Hs. unfold assert_with. destruct (credentials (auth s) !! i) as [c|] eqn:Hc.
  2:{ unfold credential_at, mbind, M_bind. simpl. by rewrite Hc. }
  rewrite (bind_run_Ok (credential_at i) _ s c s)
    by (unfold credential_at, mbind, M_bind; simpl; by rewrite Hc).
  cbv zeta. set (n := saturating_add (c_sign_count c) 1). set (data := make_auth_data _ _ _ _ _).
  pose proof (steady_sign oc (c_key c) (c_policy c) (c_recovery c) (data ++ h) s) as Hset.
  assert (keeps same_creds (sign_credential oc (c_key c) (c_policy c) (c_recovery c) (data ++ h))) as Hsame
    by eauto with keeps.
  destruct (Hsame s) as [Hcs _]. unfold attempt, mbind at 1, M_bind at 1.
  destruct (sign_credential oc (c_key c) (c_policy c) (c_recovery c) (data ++ h) s) as [[sig|e|] s1];
    simpl in Hset, Hcs; [|by eapply tracked_settles..].
  assert (tracked L none s1) as Hs1 by by eapply tracked_settles.
  assert (credentials (auth s1) !! i = Some c) as Hc1 by by rewrite Hcs.
  pose proof (within_op (eq (c_id c, n)) (StoreProps.UpdateSignCount (c_id c) n)
    (fun p H => eq_sym H) (world s1)) as Hw. simpl in Hw.
  unfold or_fail, call, on_world, attempt, mbind, M_bind.
  destruct (Store.update_ctap2_sign_count (c_id c) n (world s1)) as [r w] eqn:Eu. simpl in Hw.
  assert (tracked L none (set_world w s1)) as Hs2 by by eapply tracked_written.
  destruct r as [[]|e|]; simpl; [|done..]. exists (c_id c), n. split_and!.
  - assert (0 <= c_sign_count c) as Hc0.
    { apply (proj2 (proj1 Hs1) (cred_count c)), elem_of_app. right. apply list_elem_of_fmap_2.
      by eapply list_elem_of_lookup_2. }
    split; [unfold n, saturating_add, u32_max; lia|]. by do 5 eexists.
  - simpl. intros Hd. apply (tracked_next L s1 i c); [|done]. apply Hs1. eapply distinct_draws_le, Hd. apply Hw.
  - apply (tracked_counted L (set_world w s1)); auto. simpl. eapply update_count_runs; [exact Eu|done].
Qed.

Ltac logs_walk :=
  repeat lazymatch goal with
  | |- logs (assert_with _ _ _ _ _) => apply logs_assert_with
  | |- logs (throw _) => apply logs_throw
  | |- logs (_ ≫= _) => apply logs_bind; [solve [settles_walk]|intro]
  | |- logs (match ?x with _ => _ end) => destruct x
  end.

Lemma logs_get_assertion body : logs (get_assertion oc body).
Proof.
  unfold get_assertion, deny_if, instant_now, session_uid.
  logs_walk.
Qed.

Lemma logs_get_next body : logs (get_next_assertion oc body).
Proof.
  unfold get_next_assertion, deny_if, elapsed, instant_now, session_uid, session_matches.
  logs_walk.
Qed.

(** ** Requests *)

(** The request asks for an assertion: 0x02 is GetAssertion, 0x08 GetNextAssertion. *)
Definition asserting (payload : bytes) : Prop := head payload = Some 0x02 \/ head payload = Some 0x08.

(** What a request and its outcome say: an assertion was answered with this id and
    counter, or none was. *)
Definition answered (payload : bytes) (outcome : res Empty_set bytes) (e : option (bytes * Z)) : Prop :=
  match e with
  | Some (id, k) => asserting payload /\ exists r, outcome = Ok r /\ answers r id k
  | None => asserting payload -> outcome = Panic \/ exists status, outcome = Ok (error_response status)
  end.

Definition logged (L : list (bytes * Z)) (e : option (bytes * Z)) : list (bytes * Z) := L ++ option_list e.

Lemma tracked_dispatch L c body :
  c <> GetAssertion -> c <> GetNextAssertion -> keeps (inv_rel (tracked L none)) (dispatch oc c body).
Proof.
  intros H1 H2. destruct c; cbn [dispatch]; try done.
  1: apply tracked_make.
  all: apply settles_tracked; unfold selection_, deny_if, bio_enrollment, large_blobs, config.
  all: first [apply steady_reset | apply steady_management | settles_walk].
Qed.

(** The gate in front of every command. *)
Lemma logs_gated c body : logs (dispatch oc c body) ->
  logs (_ ← clear_stale c; _ ← passphrase_gate c; dispatch oc c body).
Proof. intros Hd. apply logs_bind; [eauto with keeps|intros _]. by apply logs_bind; [eauto with keeps|intros _]. Qed.

Lemma respond_logs (m : M St ErrorStatus bytes) L s payload :
  logs m -> asserting payload -> tracked L none s ->
  exists e, answered payload ((respond m : M St Empty_set bytes) s).1 e /\
    (forall id k, e = Some (id, k) -> distinct_draws (w_tick (world ((respond m : M St Empty_set bytes) s).2)) ->
       after L id k) /\
    tracked (logged L e) none ((respond m : M St Empty_set bytes) s).2.
Proof.
  intros Hm Ha Hs. specialize (Hm L s Hs). unfold respond, mbind, M_bind, attempt, logged.
  destruct (m s) as [[r|e|] s']; simpl.
  - destruct Hm as (id & k & Hr & Hk & Ht). exists (Some (id, k)). split_and!; [|by intros ? ? [= <- <-]|done].
    split; [done|]. by exists r.
  - exists None. simpl. rewrite app_nil_r. split_and!; [|done|done]. intros _. right. by exists e.
  - exists None. simpl. rewrite app_nil_r. split_and!; [|done|done]. intros _. by left.
Qed.

Lemma handle_cbor_logs payload L s :
  tracked L none s ->
  exists e, answered payload ((handle_cbor oc payload : M St Empty_set bytes) s).1 e /\
    (forall id k, e = Some (id, k) ->
       distinct_draws (w_tick (world ((handle_cbor oc payload : M St Empty_set bytes) s).2)) -> after L id k) /\
    tracked (logged L e) none ((handle_cbor oc payload : M St Empty_set bytes) s).2.
Proof.
  intros Hs. unfold handle_cbor.
  assert (exists e, answered payload (Ok (error_response InvalidCommand)) e /\
    (forall id k, e = Some (id, k) -> distinct_draws (w_tick (world s)) -> after L id k) /\
    tracked (logged L e) none s) as Hinv.
  { exists None. unfold logged. simpl. rewrite app_nil_r. split_and!; [|done|done]. eauto. }
  destruct payload as [|b body]; [exact Hinv|]. simpl.
  destruct (command_of_u8 b) as [c|] eqn:Hb; [|exact Hinv]. apply Ctap2Pin.command_byte in Hb as ->.
  destruct (decide (c = GetAssertion)) as [->|H1]; [|destruct (decide (c = GetNextAssertion)) as [->|H2]].
  - apply respond_logs; [apply logs_gated, logs_get_assertion|by left|done].
  - apply respond_logs; [apply logs_gated, logs_get_next|by right|done].
  - exists None. unfold logged. simpl. rewrite app_nil_r. split_and!; [|done|].
    + intros [E|E]; simpl in E; destruct c; done.
    + pose proof (tracked_dispatch L c body H1 H2) as Hd.
      assert (keeps (inv_rel (tracked L none)) (respond (_ ← clear_stale c; _ ← passphrase_gate c;
        dispatch oc c body) : M St Empty_set bytes)) as Hk; [|by apply Hk].
      unfold respond. keeps_walk ltac:(first [exact Hd | apply settles_tracked; solve [eauto with keeps]]).
Qed.
(** The daemon always starts, with the credentials of its store. *)
Lemma new_settles path s0 : exists a w,
  (new path : M World Empty_set Authenticator) (world s0) = (Ok a, w) /\ settles s0 {| auth := a; world := w |}.
Proof.
  pose proof (world_new (E := Empty_set) (within nothing) steady_op steady_run steady_read path (world s0)) as Hw.
  unfold new in *. rewrite (bind_run_Ok Session.detect _ (world s0) _ _ eq_refl) in *.
  set (session := Session.detect_at _) in *. set (w1 := set_tick _ (world s0)) in *.
  destruct (load_credentials_total (E := Empty_set) (Session.uid session) w1) as (cs & w2 & El).
  pose proof (loaded_counts _ _ _ _ El) as Hlc.
  rewrite (bind_run_Ok _ _ _ _ _ El) in *. destruct (load_client_pin_safe w2 I) as [Hp _].
  unfold mbind, M_bind, attempt in *. destruct (Store.load_client_pin_state w2) as [r w3].
  assert (forall a, credentials a = cs -> within nothing (world s0) w3 ->
    settles s0 {| auth := a; world := w3 |}) as Hnew.
  { intros a Ha [T W C]. split; simpl; auto; rewrite ?Ha.
    - intros Hwf _. by apply Hlc.
    - intros Hwf p. unfold live. simpl. rewrite Ha, !elem_of_app. intros [[?|[]]%C|?]; [auto|left].
      by apply (Hlc Hwf). }
  destruct r; [| |done]; simpl in *; eauto.
Qed.

End handlers.
End Ctap2Counter.
