(* ===== verification/Ctap2Mgmt.v ===== *)
(** Credential management: the enumerations started by a request stay in range,
    and list every relying party once and every credential of one. *)
From Stdlib Require Import ZArith Lia String.
From stdpp Require Import base list option strings sorting.
From S2P Require Import Prelude Schema Platform Cbor Session Tpm Store Ctap2Types Ctap2 Ctap2Facts.
From S2P Require Import Ctap2Assert.

#[local] Open Scope Z_scope.

Module Ctap2Mgmt.
Import Ctap2 Ctap2Facts Ctap2Assert.

(** ** The relying parties of an enumeration *)

(** The relying parties of the credentials at some indexes. *)
Definition rps_at (cs : list Credential) (indexes : list nat) : list string :=
  indexes ≫= fun i => match cs !! i with Some c => [c_rp_id c] | None => [] end.

(** What the loop of [enumerate_rps_begin] has found after [n] credentials. *)
Record rps_found (cs : list Credential) (n : nat) (acc : list nat) : Prop := {
  rf_discoverable : Forall (fun i => exists c, cs !! i = Some c /\ c_discoverable c = true) acc;
  rf_once : NoDup (rps_at cs acc);
  rf_all : forall j c, (j < n)%nat -> cs !! j = Some c -> c_discoverable c = true ->
             c_rp_id c ∈ rps_at cs acc }.

Lemma elem_of_rps_at cs acc rp :
  rp ∈ rps_at cs acc <-> exists i c, i ∈ acc /\ cs !! i = Some c /\ c_rp_id c = rp.
Proof.
  unfold rps_at. rewrite list_elem_of_bind. split.
  - intros (i & H & Hi). destruct (cs !! i) as [c|] eqn:E; [|by apply not_elem_of_nil in H].
    apply list_elem_of_singleton in H as ->. eauto.
  - intros (i & c & Hi & Hc & <-). exists i. rewrite Hc. split; [left|done].
Qed.

Lemma rp_seen cs acc rp :
  existsb (fun e => bool_decide ((c_rp_id <$> cs !! e) = Some rp)) acc = true <-> rp ∈ rps_at cs acc.
Proof.
  rewrite existsb_exists, elem_of_rps_at. split.
  - intros (i & Hi & H). apply list_elem_of_In in Hi. bools.
    destruct (cs !! i) as [c|] eqn:E; [|done]. injection H as H. eauto.
  - intros (i & c & Hi & Hc & <-). exists i. split; [by apply list_elem_of_In|].
    rewrite Hc. by apply bool_decide_eq_true.
Qed.

Lemma rps_at_snoc cs acc i c : cs !! i = Some c -> rps_at cs (acc ++ [i]) = rps_at cs acc ++ [c_rp_id c].
Proof. intros Hc. unfold rps_at. rewrite bind_app. simpl. by rewrite Hc. Qed.

Lemma rp_indexes_from_found cs n rest acc :
  drop n (enumerate cs) = rest -> rps_found cs n acc ->
  rps_found cs (length cs) (rp_indexes_from cs rest acc).
Proof.
  revert n acc. induction rest as [|[i c] rest IH]; intros n acc Hd Hf; simpl.
  - destruct Hf. split; [done|done|]. intros j c Hj Hc Hdc. apply (rf_all0 j); [|done|done].
    assert (length cs <= n)%nat; [|lia]. apply (f_equal length) in Hd.
    rewrite length_drop in Hd. unfold enumerate in Hd. rewrite length_imap in Hd. simpl in Hd. lia.
  - assert (enumerate cs !! n = Some (i, c)) as Hn.
    { rewrite <- (Nat.add_0_r n), <- lookup_drop, Hd. done. }
    assert (i = n /\ cs !! n = Some c) as [-> Hc].
    { unfold enumerate in Hn. rewrite list_lookup_imap in Hn. destruct (cs !! n); naive_solver. }
    assert (drop (S n) (enumerate cs) = rest) as Hd'.
    { replace (S n) with (n + 1)%nat by lia. by rewrite <- drop_drop, Hd. }
    destruct Hf as [H1 H2 H3].
    destruct (c_discoverable c) eqn:Hdc; simpl.
    + destruct (existsb _ acc) eqn:E; simpl.
      * apply (IH (S n)); [done|]. split; [done..|]. intros j c' Hj Hc' Hd2.
        destruct (decide (j = n)) as [->|]; [|apply (H3 j); [lia|done..]].
        rewrite Hc in Hc'. injection Hc' as <-. by apply rp_seen.
      * apply (IH (S n)); [done|]. apply not_true_iff_false in E. rewrite rp_seen in E. split.
        -- apply Forall_app. split; [done|]. constructor; [eauto|constructor].
        -- rewrite (rps_at_snoc _ _ _ _ Hc). apply NoDup_app. split_and!; [done| |apply NoDup_singleton].
           intros x Hx ->%list_elem_of_singleton. done.
        -- intros j c' Hj Hc' Hd2. rewrite (rps_at_snoc _ _ _ _ Hc).
           destruct (decide (j = n)) as [->|]; apply elem_of_app.
           ++ right. rewrite Hc in Hc'. injection Hc' as <-. left.
           ++ left. apply (H3 j); [lia|done..].
    + apply (IH (S n)); [done|]. split; [done..|]. intros j c' Hj Hc' Hd2.
      destruct (decide (j = n)) as [->|]; [congruence|apply (H3 j); [lia|done..]].
Qed.

(** enumerateRPs lists every relying party that has a discoverable
    credential, each exactly once, through a discoverable credential of it. *)
Theorem rps_enumerated_once cs :
  let indexes := discoverable_rp_indexes cs in
  Forall (fun i => exists c, cs !! i = Some c /\ c_discoverable c = true) indexes /\
  NoDup (rps_at cs indexes) /\
  forall rp, rp ∈ rps_at cs indexes <-> exists c, c ∈ cs /\ c_discoverable c = true /\ c_rp_id c = rp.
Proof.
  destruct (rp_indexes_from_found cs 0 (enumerate cs) []) as [H1 H2 H3]; [done| |].
  { split; [constructor|constructor|]. intros. lia. }
  split_and!; [done|done|]. intros rp. split.
  - intros (i & c & Hi & Hc & <-)%elem_of_rps_at. rewrite Forall_forall in H1.
    destruct (H1 i Hi) as (c' & Hc' & Hd). rewrite Hc in Hc'. injection Hc' as <-.
    exists c. split; [by eapply list_elem_of_lookup_2|done].
  - intros (c & [j Hj]%list_elem_of_lookup & Hd & <-). apply (H3 j); [|done|done].
    by eapply lookup_lt_Some.
Qed.

(** ** Enumerations stay in range *)

Definition in_range (a : Authenticator) : Prop :=
  forall m, management a = Some m ->
    Forall (fun i => i < length (credentials a))%nat (rp_indexes m ++ credential_indexes m).

Definition range_rel : relation St := inv_rel (fun s => in_range (auth s)).
#[export] Instance range_rel_preorder : PreOrder range_rel.
Proof. apply inv_rel_preorder. Qed.
#[export] Instance range_rel_world : IgnoresWorld range_rel.
Proof. by intros s w Hs. Qed.
Lemma range_rel_tpm t s : range_rel s (set_auth (set_tpm t (auth s)) s).
Proof. by intros H. Qed.
#[export] Hint Resolve range_rel_tpm : keeps.

(** No enumeration is under way, and none is started. *)
Definition idle_rel : relation St := inv_rel (fun s => management (auth s) = None).
#[export] Instance idle_rel_preorder : PreOrder idle_rel.
Proof. apply inv_rel_preorder. Qed.
#[export] Instance idle_rel_world : IgnoresWorld idle_rel.
Proof. by intros s w Hs. Qed.
Lemma idle_rel_tpm t s : idle_rel s (set_auth (set_tpm t (auth s)) s).
Proof. by intros H. Qed.
#[export] Hint Resolve idle_rel_tpm : keeps.

Ltac idle_walk := handler_walk ltac:(intros ?; first [assumption | reflexivity]).

Section range.
Context {pf : Platform} {cr : Crypto} {codec : CborCodec} {es : Esapi} {sc : StoreCodec}.
Context (oc : bool).

Lemma idle_validate pr ap msg p rp : keeps idle_rel (validate_pin_uv_auth pr ap msg p rp).
Proof. unfold validate_pin_uv_auth. idle_walk. Qed.
Lemma idle_authenticate_pin h : keeps idle_rel (authenticate_pin h).
Proof. unfold authenticate_pin. idle_walk. Qed.
#[local] Hint Resolve idle_validate idle_authenticate_pin : keeps.

Lemma idle_dispatch c body :
  c <> CredentialManagement -> c <> CredentialManagementPreview -> keeps idle_rel (dispatch oc c body).
Proof.
  intros H1 H2. destruct c; try done; cbn [dispatch];
    unfold make_credential, get_assertion, get_next_assertion, assert_with, client_pin_, set_pin, change_pin,
      get_pin_uv_auth_token, get_pin_uv_auth_token_using_uv, issue_token, reset, selection_, bio_enrollment,
      large_blobs, config; idle_walk.
Qed.

(** Validation and expiry only ever drop an enumeration. *)
Lemma range_validate pr ap msg p rp : keeps range_rel (validate_pin_uv_auth pr ap msg p rp).
Proof. unfold validate_pin_uv_auth. handler_walk ltac:(by intros ?). Qed.
Lemma range_expire : keeps range_rel expire_management.
Proof. unfold expire_management. handler_walk ltac:(by intros ?). Qed.
#[local] Hint Resolve range_validate range_expire : keeps.

(** A computation that starts by reading the credentials. *)
Lemma range_read {A} (k : list Credential -> M St ErrorStatus A) :
  (forall s, in_range (auth s) -> in_range (auth (k (credentials (auth s)) s).2)) ->
  keeps range_rel (field credentials ≫= k).
Proof. intros Hk s Hs. by apply Hk. Qed.

Lemma range_start rps ids a b (k : unit -> M St ErrorStatus bytes) s :
  Forall (fun i => i < length (credentials (auth s)))%nat (rps ++ ids) ->
  keeps range_rel (k tt) -> in_range (auth ((start_management rps ids a b ≫= k) s).2).
Proof.
  intros Hi Hk. unfold start_management, session_uid, instant_now, field, gets, on_world, next, mbind,
    M_bind, mret, M_ret, update, modify. simpl. apply Hk. intros m. simpl. by intros [= <-].
Qed.

Lemma lookup_indexes (p : Credential -> bool) cs :
  Forall (fun i => i < length cs)%nat (fst <$> List.filter (fun '(_, c) => p c) (enumerate cs)).
Proof.
  apply Forall_forall. intros i (c & Hc & _)%elem_of_filter_enumerate. by eapply lookup_lt_Some.
Qed.

Lemma rps_in_range cs : Forall (fun i => i < length cs)%nat (discoverable_rp_indexes cs).
Proof.
  destruct (rp_indexes_from_found cs 0 (enumerate cs) []) as [H1 _ _]; [done| |].
  { split; [constructor|constructor|]. intros. lia. }
  eapply Forall_impl; [exact H1|]. intros j (c & Hc & _). by eapply lookup_lt_Some.
Qed.

Lemma range_rps_begin : keeps range_rel enumerate_rps_begin.
Proof.
  apply range_read. intros s Hs. destruct (discoverable_rp_indexes _) as [|i l] eqn:E; [done|].
  apply range_start; [|handler_walk fail]. rewrite app_nil_r, <- E. apply rps_in_range.
Qed.

Lemma range_credentials_begin params : keeps range_rel (enumerate_credentials_begin params).
Proof.
  unfold enumerate_credentials_begin. do 3 (apply keeps_bind; [apply _|eauto with keeps|intro]).
  apply range_read. intros s Hs. destruct (rp_hash_indexes _ _) as [|i l] eqn:E; [done|].
  apply range_start; [|handler_walk fail]. rewrite <- E. apply lookup_indexes.
Qed.

(** Moving on in an enumeration. *)
Lemma range_next (get : ManagementState -> option nat) (step : ManagementState -> ManagementState)
    (answer : Credential -> bytes) :
  (forall m, rp_indexes (step m) = rp_indexes m /\ credential_indexes (step m) = credential_indexes m) ->
  keeps range_rel (state ← field management; state ← lift (ok_or state NoCredentials);
    index ← lift (ok_or (get state) NoCredentials); _ ← update (set_management (Some (step state)));
    c ← credential_at index; mret (answer c)).
Proof.
  intros Hstep s Hs. unfold field, gets, mbind at 1, M_bind at 1. simpl.
  destruct (management (auth s)) as [m|] eqn:Em; [|done]. unfold lift, mbind at 1, M_bind at 1. simpl.
  destruct (get m); [|done]. unfold mbind at 1 2, M_bind at 1 2. simpl.
  match goal with |- in_range (auth (?m ?s1).2) => assert (keeps range_rel m) as Hk by handler_walk fail end.
  apply Hk. intros m'. simpl. intros [= <-]. destruct (Hstep m) as [-> ->]. by apply Hs.
Qed.

Lemma range_rps_next : keeps range_rel enumerate_rps_next.
Proof.
  apply (range_next (fun m => rp_indexes m !! rp_position m)
    (fun m => {| rp_indexes := rp_indexes m; rp_position := rp_position m + 1;
                 credential_indexes := credential_indexes m; credential_position := credential_position m;
                 mgmt_session_uid := mgmt_session_uid m; mgmt_created_at := mgmt_created_at m |})
    (fun c => encode_rp_response c None)). done.
Qed.

Lemma range_credentials_next : keeps range_rel enumerate_credentials_next.
Proof.
  apply (range_next (fun m => credential_indexes m !! credential_position m)
    (fun m => {| rp_indexes := rp_indexes m; rp_position := rp_position m;
                 credential_indexes := credential_indexes m; credential_position := credential_position m + 1;
                 mgmt_session_uid := mgmt_session_uid m; mgmt_created_at := mgmt_created_at m |})
    (fun c => encode_credential_management_response c None)). done.
Qed.

Lemma range_delete params : keeps range_rel (delete_credential params).
Proof.
  unfold delete_credential. do 5 (apply keeps_bind; [apply _|eauto with keeps|intro]). by intros s _ m.
Qed.

Lemma range_update params : keeps range_rel (update_user_information params).
Proof.
  unfold update_user_information. handler_walk ltac:(first
    [ by intros ? m | intros Hs m Hm; simpl; rewrite length_alter; by apply Hs ]).
Qed.

Lemma range_credential_management body : keeps range_rel (credential_management body).
Proof.
  unfold credential_management.
  pose proof range_rps_begin. pose proof range_rps_next. pose proof range_credentials_begin.
  pose proof range_credentials_next. pose proof range_delete. pose proof range_update.
  keeps_walk fail.
Qed.

Lemma range_handle_cbor {E} payload : keeps range_rel (handle_cbor oc payload : M St E bytes).
Proof.
  unfold handle_cbor. destruct (split_first payload) as [[b body]|]; [|eauto with keeps].
  destruct (command_of_u8 b) as [c|]; [|eauto with keeps].
  set (m := (_ ← clear_stale c; _ ← passphrase_gate c; dispatch oc c body)).
  enough (keeps range_rel m) as Hm by (unfold respond; keeps_walk fail).
  destruct (decide (c = CredentialManagement)) as [->|Hc].
  { unfold m, clear_stale. pose proof range_credential_management.
    cbn [dispatch]. handler_walk ltac:(by intros ?). }
  intros s _. unfold m.
  assert (exists s1, clear_stale c s = (Ok tt, s1) /\ management (auth s1) = None) as (s1 & Hcl & Hn).
  { unfold clear_stale. rewrite (bool_decide_eq_false_2 (c = CredentialManagement)) by done.
    destruct (bool_decide _); eexists; split; done. }
  rewrite (bind_run_Ok _ _ _ _ _ Hcl).
  destruct (decide (c = CredentialManagementPreview)) as [->|Hp].
  - pose proof range_credential_management. cbn [dispatch].
    assert (keeps range_rel (_ ← passphrase_gate CredentialManagementPreview; credential_management body)) as Hk
      by keeps_walk fail.
    apply Hk. intros m' Hm'. congruence.
  - assert (keeps idle_rel (_ ← passphrase_gate c; dispatch oc c body)) as Hk.
    { pose proof (idle_dispatch c body Hc Hp). keeps_walk fail. }
    intros m' Hm'. pose proof (Hk s1 Hn) as Hn'. simpl in Hn'. congruence.
Qed.

Lemma credential_at_total {E} i s :
  (i < length (credentials (auth s)))%nat -> exists c, (credential_at i : M St E Credential) s = (Ok c, s).
Proof.
  intros [c Hc]%lookup_lt_is_Some_2. exists c. unfold credential_at, field, gets, mbind, M_bind. simpl.
  by rewrite Hc.
Qed.
End range.

(** C39. Enumerations never index out of range: from a state without an
    enumeration, after any sequence of requests, whatever is deleted, added or
    reloaded in between, asking for the next relying party or credential is
    answered or refused, but does not panic. *)
Theorem enumerations_stay_in_range {pf : Platform} {cr : Crypto} {codec : CborCodec} {es : Esapi}
    {sc : StoreCodec} oc payloads s :
  management (auth s) = None ->
  let s' := foldl (fun s p => ((handle_cbor oc p : M St Empty_set bytes) s).2) s payloads in
  (enumerate_rps_next s').1 <> Panic /\ (enumerate_credentials_next s').1 <> Panic.
Proof.
  intros Hs. assert (in_range (auth s)) as Hr by (intros m Hm; congruence). clear Hs.
  assert (in_range (auth (foldl (fun s p => ((handle_cbor oc p : M St Empty_set bytes) s).2) s payloads))) as H.
  { revert s Hr. induction payloads as [|p ps IH]; intros s Hr; [done|]. apply IH, range_handle_cbor, Hr. }
  revert H. generalize (foldl (fun s p => ((handle_cbor oc p : M St Empty_set bytes) s).2) s payloads).
  clear. intros s Hr. unfold enumerate_rps_next, enumerate_credentials_next, field, gets, lift, update, modify,
    mbind, M_bind. simpl. destruct (management (auth s)) as [m|] eqn:Em; [|done]. simpl.
  specialize (Hr m Em). apply Forall_app in Hr as [Hr1 Hr2]. split.
  - destruct (rp_indexes m !! rp_position m) as [i|] eqn:Ei; simpl; [|done].
    rewrite Forall_lookup in Hr1. specialize (Hr1 _ _ Ei).
    edestruct (credential_at_total (E := ErrorStatus) i) as [c ->]; [exact Hr1|done].
  - destruct (credential_indexes m !! credential_position m) as [i|] eqn:Ei; simpl; [|done].
    rewrite Forall_lookup in Hr2. specialize (Hr2 _ _ Ei).
    edestruct (credential_at_total (E := ErrorStatus) i) as [c ->]; [exact Hr2|done].
Qed.

End Ctap2Mgmt.
