(* ===== verification/Ctap2Data.v ===== *)
(** Authenticator data as a relying party reads it, the daemon-passphrase gate
    and the effect of a reset. *)
From Stdlib Require Import ZArith Lia String.
From stdpp Require Import base list option strings gmap.
From S2P Require Import Prelude Schema Platform Cbor Session Tpm Store StoreProps StoreUpdates.
From S2P Require Import Ctap2Types Ctap2 Ctap2Facts Ctap2Assert.

#[local] Open Scope Z_scope.

Module Ctap2Data.
Import Ctap2 Ctap2Facts Ctap2Assert.

(** ** Authenticator data *)

(** What a relying party reads from authenticator data (WebAuthn, section 6.1):
    hash of the relying party id, flags, counter and, with the flag AT, the
    AAGUID, the credential id and the public key. *)
Record AuthData := {
  ad_rp_hash : bytes; ad_flags : Z; ad_count : Z; ad_attested : option (bytes * bytes * Value) }.

Definition read_auth_data {codec : CborCodec} (b : bytes) : option AuthData :=
  flags ← b !! 32%nat;
  let rp_hash := take 32 b in
  let count := be_val (slice 33 37 b) in
  if (length b <? 37)%nat then None
  else if Z.testbit flags 6 then
    let n := Z.to_nat (be_val (slice 53 55 b)) in
    if (length b <? 55 + n)%nat then None
    else
      public_key ← cbor_decode (drop (55 + n) b);
      Some {| ad_rp_hash := rp_hash; ad_flags := flags; ad_count := count;
              ad_attested := Some (slice 37 53 b, slice 55 (55 + n) b, public_key) |}
  else Some {| ad_rp_hash := rp_hash; ad_flags := flags; ad_count := count; ad_attested := None |}.

Lemma slice_skip {A} (a l : list A) i j :
  (length a <= i)%nat -> slice i j (a ++ l) = slice (i - length a) (j - length a) l.
Proof.
  intros Hi. unfold slice. rewrite drop_app_ge by done. f_equal. lia.
Qed.

Lemma slice_head {A} (a l : list A) n : length a = n -> slice 0 n (a ++ l) = a.
Proof. intros <-. apply slice_app_l. Qed.

Lemma drop_skip {A} (a l : list A) i : (length a <= i)%nat -> drop i (a ++ l) = drop (i - length a) l.
Proof. apply drop_app_ge. Qed.

Lemma testbit_lor_ext flags (ext : option Value) :
  Z.testbit (Z.lor flags (match ext with Some _ => 0x80 | None => 0x00 end)) 6 = Z.testbit flags 6.
Proof. rewrite Z.lor_spec. destruct ext; apply orb_false_r. Qed.

(** The reader on data that is put together from its parts. *)
Lemma read_parts {codec : CborCodec} (h c4 rest : bytes) f :
  length h = 32%nat -> length c4 = 4%nat ->
  let b := h ++ [f] ++ c4 ++ rest in
  b !! 32%nat = Some f /\ take 32 b = h /\ slice 33 37 b = c4 /\ length b = (37 + length rest)%nat /\
  (forall i j, slice (37 + i) (37 + j) b = slice i j rest) /\ (forall i, drop (37 + i) b = drop i rest).
Proof.
  intros Hh Hc b. unfold b. split_and!.
  - by rewrite lookup_app_r, Hh by lia.
  - rewrite <- Hh. apply take_app_length.
  - rewrite slice_skip, Hh by lia. rewrite slice_skip by (simpl; lia). by apply slice_head.
  - rewrite !length_app, Hh, Hc. simpl. lia.
  - intros i j. rewrite slice_skip, Hh by lia. rewrite slice_skip by (simpl; lia).
    rewrite slice_skip by (rewrite Hc; simpl; lia). rewrite Hc. f_equal; simpl; lia.
  - intros i. rewrite drop_skip, Hh by lia. rewrite drop_skip by (simpl; lia).
    rewrite drop_skip by (rewrite Hc; simpl; lia). rewrite Hc. f_equal. simpl. lia.
Qed.

(** The attested credential data, likewise. *)
Lemma read_attested (id rest : bytes) :
  Z.of_nat (length id) < 65536 ->
  let a := AAGUID ++ be_bytes 2 (u16 (Z.of_nat (length id))) ++ id ++ rest in
  slice 0 16 a = AAGUID /\ be_val (slice 16 18 a) = Z.of_nat (length id) /\
  slice 18 (18 + length id) a = id /\ drop (18 + length id) a = rest /\
  length a = (18 + length id + length rest)%nat.
Proof.
  intros Hid a. unfold a. set (l2 := be_bytes 2 _). assert (length l2 = 2%nat) as Hl by apply length_be_bytes.
  split_and!.
  - by apply slice_head.
  - rewrite slice_skip by (simpl; lia). change (16 - length AAGUID)%nat with 0%nat.
    change (18 - length AAGUID)%nat with 2%nat. rewrite slice_head by done. unfold l2, u16.
    rewrite Z.mod_small by lia. apply be_val_to_be_bytes. simpl. lia.
  - rewrite slice_skip by (simpl; lia). rewrite slice_skip by (rewrite Hl; simpl; lia).
    rewrite Hl. change (length AAGUID) with 16%nat.
    replace (18 - 16 - 2)%nat with 0%nat by lia. replace (18 + length id - 16 - 2)%nat with (length id) by lia.
    by apply slice_head.
  - rewrite drop_skip by (simpl; lia). rewrite drop_skip by (rewrite Hl; simpl; lia).
    rewrite Hl. change (length AAGUID) with 16%nat. apply drop_app_length'. lia.
  - rewrite !length_app, Hl. simpl. lia.
Qed.

(** C24. A relying party reads back what the authenticator wrote: the hash of its
    own id, the flags with the extension bit, the counter and, when a credential
    is attested, the authenticator's AAGUID, the credential id and the COSE key. *)
Theorem auth_data_reads_back {cr : Crypto} {cl : CryptoLaws} {codec : CborCodec} {laws : CborLaws}
    rp_id flags count attested extensions :
  0 <= count < 2 ^ 32 -> Z.testbit flags 6 = bool_decide (is_Some attested) ->
  (forall id pk, attested = Some (id, pk) -> value_ok pk = true /\ Z.of_nat (length id) < 65536) ->
  read_auth_data (make_auth_data rp_id flags count attested extensions) =
  Some {| ad_rp_hash := sha256 (as_bytes rp_id);
          ad_flags := Z.lor flags (match extensions with Some _ => 0x80 | None => 0x00 end);
          ad_count := count;
          ad_attested := (fun '(id, pk) => (AAGUID, id, pk)) <$> attested |}.
Proof.
  intros Hcount Hbit Hatt. unfold make_auth_data. set (f := Z.lor flags _).
  match goal with |- context [_ ++ [f] ++ _ ++ ?r] => set (rest := r) end.
  destruct (read_parts (sha256 (as_bytes rp_id)) (be_bytes 4 count) rest f) as (E1 & E2 & E3 & E4 & E5 & E6);
    [apply length_sha256|apply length_be_bytes|].
  unfold read_auth_data. rewrite E1. cbn [mbind option_bind]. rewrite E2, E3, E4, be_val_to_be_bytes by done.
  destruct (_ <? 37)%nat eqn:E37; bools; [lia|].
  unfold f at 1. rewrite testbit_lor_ext, Hbit. fold f.
  destruct attested as [[id pk]|] eqn:Ea; [|done]. destruct (Hatt id pk eq_refl) as [Hpk Hid].
  rewrite bool_decide_eq_true_2 by eauto. unfold rest in *. clear rest.
  rewrite <- !app_assoc in *. set (ext := cbor_encode pk ++ _) in *.
  destruct (read_attested id ext Hid) as (F1 & F2 & F3 & F4 & F5).
  match goal with H : forall i, drop (37 + i) ?b' = _ |- _ => set (b := b') in * end.
  assert (be_val (slice 53 55 b) = Z.of_nat (length id)) as -> by (rewrite <- F2; f_equal; exact (E5 16 18)%nat).
  rewrite Nat2Z.id.
  assert (drop (55 + length id) b = ext) as -> by (exact (eq_trans (E6 (18 + length id)%nat) F4)).
  assert (slice 55 (55 + length id) b = id) as -> by (exact (eq_trans (E5 18 (18 + length id))%nat F3)).
  assert (slice 37 53 b = AAGUID) as -> by (exact (eq_trans (E5 0 16)%nat F1)).
  rewrite F5. destruct (_ <? _)%nat eqn:El; bools; [lia|].
  unfold ext. by rewrite cbor_roundtrip.
Qed.

(** ** The daemon passphrase *)

Lemma load_daemon_passphrase_total {pf : Platform} {sc : StoreCodec} w :
  (Store.load_daemon_passphrase w).1 <> Panic /\
  StoreProps.same_tables (w_db w) (w_db (Store.load_daemon_passphrase w).2).
Proof.
  unfold Store.load_daemon_passphrase, Store.open_database, Store.io, Store.db_update, Store.db_get, modify,
    gets, next, mbind, M_bind, lift, mret, M_ret, throw. simpl.
  destruct (db_fault _); simpl; [done|]. destruct (db_fault _); simpl; [done|].
  destruct (daemon_config _ !! _); simpl; [|done]. destruct (passphrase_decode _) as [[[[[]]]]|]; simpl; done.
Qed.

(** C12. Without a daemon passphrase four commands do nothing: when the store has none,
    or it cannot be read, MakeCredential (0x01), GetAssertion (0x02),
    GetNextAssertion (0x08) and CredentialManagement (0x0a) are answered with
    OperationDenied, whatever their parameters, and neither the credentials, the PIN,
    the token nor any table changes. The preview number of CredentialManagement, 0x41,
    is not gated: it runs the same handler whatever the passphrase is. *)
Theorem passphrase_gate_denies {pf : Platform} {cr : Crypto} {codec : CborCodec} {es : Esapi}
    {sc : StoreCodec} oc command body s :
  command ∈ [0x01; 0x02; 0x08; 0x0a] ->
  (forall p, (Store.load_daemon_passphrase (world s)).1 <> Ok (Some p)) ->
  (let '(r, s') := (handle_cbor oc (command :: body) : M St Empty_set bytes) s in
   r = Ok [0x27] /\
   credentials (auth s') = credentials (auth s) /\ client_pin (auth s') = client_pin (auth s) /\
   pin_uv_auth_token (auth s') = pin_uv_auth_token (auth s) /\ session (auth s') = session (auth s) /\
   StoreProps.same_tables (w_db (world s)) (w_db (world s'))) /\
  (handle_cbor oc (0x41 :: body) : M St Empty_set bytes) s =
    respond (credential_management body) (set_auth (set_management None (set_pending_assertion None (auth s))) s).
Proof.
  intros Hin Hp. split; [|done]. unfold handle_cbor. cbn [split_first].
  assert (exists c, command_of_u8 command = Some c /\ needs_passphrase c = true) as (c & -> & Hc).
  { repeat (apply elem_of_cons in Hin as [->|Hin]; [by eexists|]). by apply not_elem_of_nil in Hin. }
  unfold respond, mbind at 1, M_bind at 1, attempt.
  assert (exists s1, clear_stale c s = (Ok tt, s1) /\ world s1 = world s /\
    credentials (auth s1) = credentials (auth s) /\ client_pin (auth s1) = client_pin (auth s) /\
    pin_uv_auth_token (auth s1) = pin_uv_auth_token (auth s) /\ session (auth s1) = session (auth s))
    as (s1 & Hcl & Hw & H1 & H2 & H3 & H4).
  { unfold clear_stale. do 2 destruct (bool_decide _); eexists; split_and!; done. }
  rewrite (bind_run_Ok _ _ _ _ _ Hcl). unfold passphrase_gate. rewrite Hc.
  unfold call, on_world, attempt, mbind, M_bind. rewrite Hw.
  destruct (load_daemon_passphrase_total (world s)) as [Hn Ht].
  destruct (Store.load_daemon_passphrase (world s)) as [[[p|]|e|] w']; simpl in *; [by destruct (Hp p)| | |done];
    by split_and!.
Qed.

(** ** Reset *)

Lemma runs_call {E A} (m : M World string A) d r d' s :
  StoreProps.runs m d r d' -> r <> Panic -> w_db (world s) = d ->
  exists s', (call m : M St E _) s = (Ok r, s') /\ w_db (world s') = d' /\ auth s' = auth s.
Proof.
  intros Hm Hr Hs. destruct (Hm (world s) Hs) as [t Ht]. unfold call, on_world, attempt. rewrite Ht.
  destruct r; [eexists; split_and!; done..|done].
Qed.

Lemma runs_delete {pf : Platform} {hp : Healthy} {sc : StoreCodec} id d :
  StoreProps.runs (Store.delete_ctap2_credential id) d
    (guard (Store.rows_affected (Store.has_id id) (metadata d) =? 1)%nat
       "deleted rows for credential ID; expected 1"%string)
    (Store.delete_metadata (Store.has_id id) (set_exists d)).
Proof.
  unfold Store.delete_ctap2_credential. eapply StoreProps.runs_bind; [apply StoreProps.runs_open_database|].
  eapply StoreProps.runs_bind; [apply StoreProps.runs_io|].
  eapply StoreProps.runs_bind; [apply StoreProps.runs_db_get|].
  eapply StoreProps.runs_bind; [apply StoreProps.runs_db_update|]. apply StoreProps.runs_lift.
Qed.

(** No row of the table has one of these ids. *)
Definition gone (cs : list Credential) (d : Db) : Prop :=
  forall c, c ∈ cs -> c_id c ∉ m_credential_id <$> metadata d.

Lemma gone_delete cs id d : gone cs d -> gone cs (Store.delete_metadata (Store.has_id id) d).
Proof.
  intros Hg c Hc (m & Hm & [Hin _]%StoreProps.elem_of_filterb)%list_elem_of_fmap.
  apply (Hg c Hc). rewrite Hm. by apply list_elem_of_fmap_2.
Qed.

Lemma delete_gone id d : id ∉ m_credential_id <$> metadata (Store.delete_metadata (Store.has_id id) d).
Proof.
  intros (m & -> & [_ H]%StoreProps.elem_of_filterb)%list_elem_of_fmap.
  unfold Store.has_id in H. by rewrite bool_decide_eq_true_2 in H.
Qed.

Lemma delete_all_run {pf : Platform} {hp : Healthy} {sc : StoreCodec} {E} done_ cs s :
  gone done_ (w_db (world s)) ->
  exists s', (delete_all_credentials cs : M St E unit) s = (Ok tt, s') /\ auth s' = auth s /\
    gone (done_ ++ cs) (w_db (world s')) /\ pin_row (w_db (world s')) = pin_row (w_db (world s)).
Proof.
  revert done_ s. induction cs as [|c cs IH]; intros done_ s Hg; simpl.
  { exists s. by rewrite app_nil_r. }
  destruct (runs_call (E := E) _ _ _ _ s (runs_delete (c_id c) (w_db (world s)))) as (s1 & Hrun & Hd & Ha);
    [by destruct (_ =? 1)%nat|done|].
  destruct (IH (done_ ++ [c]) s1) as (s' & Hrun' & Ha' & Hg' & Hp).
  { rewrite Hd. intros c' [Hc| ->%list_elem_of_singleton]%elem_of_app; [|apply delete_gone].
    exact (gone_delete done_ (c_id c) (set_exists (w_db (world s))) Hg c' Hc). }
  exists s'. rewrite (bind_run_Ok _ _ _ _ _ Hrun). rewrite <- app_assoc in Hg'.
  split_and!; [done|congruence|done|]. by rewrite Hp, Hd.
Qed.

(** The end of [reset]. *)
Lemma reset_tail {pf : Platform} {hp : Healthy} {cr : Crypto} {codec : CborCodec} {sc : StoreCodec} s :
  let '(r, s') := (cs ← field credentials; _ ← delete_all_credentials cs; _ ← update (set_credentials []);
    _ ← update (set_pending_assertion None); _ ← update (set_management None); mret empty_response) s in
  r = (Ok empty_response : res ErrorStatus bytes) /\
  auth s' = set_management None (set_pending_assertion None (set_credentials [] (auth s))) /\
  gone (credentials (auth s)) (w_db (world s')) /\ pin_row (w_db (world s')) = pin_row (w_db (world s)).
Proof.
  rewrite (bind_run_Ok (field credentials) _ s (credentials (auth s)) s eq_refl).
  destruct (delete_all_run (E := ErrorStatus) [] (credentials (auth s)) s) as (s1 & Hrun & Ha & Hg & Hp).
  { intros c Hc. by apply not_elem_of_nil in Hc. }
  rewrite (bind_run_Ok _ _ _ _ _ Hrun). simpl. by rewrite Ha.
Qed.

(** C31. A reset that is approved forgets everything the session's user had: the
    credentials, the PIN, the pending assertion and the enumeration, in memory and,
    with a working store, on disk (the rows of the credentials held in memory, and the
    PIN row if a PIN is held in memory); a token survives only if there was no PIN. One
    that is not approved is denied and changes no table. *)
Theorem reset_forgets {pf : Platform} {hp : Healthy} {cr : Crypto} {codec : CborCodec}
    {sc : StoreCodec} s b s1 :
  (assertion_approved "reset" : M St ErrorStatus bool) s = (Ok b, s1) ->
  let '(r, s') := reset s in
  if b then
    r = Ok empty_response /\ credentials (auth s') = [] /\ client_pin (auth s') = None /\
    pending_assertion (auth s') = None /\ management (auth s') = None /\
    (is_Some (client_pin (auth s1)) -> pin_uv_auth_token (auth s') = None /\
       key_agreement (auth s') = None /\ pin_row (w_db (world s')) = None) /\
    gone (credentials (auth s1)) (w_db (world s'))
  else r = Err OperationDenied /\ s' = s1.
Proof.
  intros Ha. unfold reset. rewrite (bind_run_Ok _ _ _ _ _ Ha). destruct b; [|done]. simpl.
  rewrite (bind_run_Ok (deny_if false OperationDenied) _ s1 tt s1 eq_refl).
  rewrite (bind_run_Ok (field client_pin) _ s1 (client_pin (auth s1)) s1 eq_refl).
  destruct (client_pin (auth s1)) as [p|] eqn:Hp.
  - pose proof (StoreUpdates.runs_delete_client_pin (w_db (world s1))) as Hrun.
    destruct (runs_call (E := ErrorStatus) _ _ _ _ s1 Hrun) as (s2 & Hc & Hd & Ha2); [done|done|].
    set (s3 := set_auth (set_token None (set_key_agreement None (set_client_pin None (auth s2)))) s2).
    rewrite (bind_run_Ok _ _ s1 tt s3) by (rewrite (bind_run_Ok _ _ _ _ _ Hc); done).
    generalize (reset_tail s3). match goal with |- _ -> let '(_, _) := ?x in _ => destruct x as [r s'] end.
    simpl. rewrite Ha2. intros (-> & -> & Hg & Hpr). split_and!; try done.
    intros _. by rewrite Hpr, Hd.
  - rewrite (bind_run_Ok (mret tt) _ s1 tt s1 eq_refl).
    generalize (reset_tail s1). match goal with |- _ -> let '(_, _) := ?x in _ => destruct x as [r s'] end.
    by intros (-> & -> & Hg & Hpr).
Qed.

End Ctap2Data.
