(* ===== verification/Ctap2Safe.v ===== *)
(** Which requests the authenticator answers: none of its handlers panics when the
    crates return, except for the commands that are not implemented and for a
    getNextAssertion after the credentials have changed. *)
From Stdlib Require Import ZArith Lia String.
From stdpp Require Import base list option strings gmap.
From S2P Require Import Prelude Schema Platform Cbor Session Tpm Store StoreRoundtrip Ctap2Types Ctap2.
From S2P Require Import Ctap2Facts WorldSafe Ctap2Assert Ctap2Mgmt.

#[local] Open Scope Z_scope.

Module Ctap2Safe.
Import Ctap2 Ctap2Facts WorldSafe.

(** ** Computations that change what holds *)

(** From [P], [m] does not panic and leads to [Q], with an error or without. *)
Definition calm {S E A} (P : S -> Prop) (m : M S E A) (Q : S -> Prop) : Prop :=
  forall s, P s -> (m s).1 <> Panic /\ Q (m s).2.

Section calm.
Context {S E : Type}.
Implicit Types P Q : S -> Prop.

Lemma calm_safe {A} P Q (m : M S E A) : safe P m -> (forall s, P s -> Q s) -> calm P m Q.
Proof. intros Hm HQ s Hs. destruct (Hm s Hs). auto. Qed.

Lemma calm_pre {A} P P' Q (m : M S E A) : (forall s, P s -> P' s) -> calm P' m Q -> calm P m Q.
Proof. intros HP Hm s Hs. auto. Qed.

(** The state after [m] satisfies [P'], which is enough for an error to end here. *)
Lemma calm_bind {A B} P P' Q (m : M S E A) (k : A -> M S E B) :
  calm P m P' -> (forall s, P' s -> Q s) -> (forall a, calm P' (k a) Q) -> calm P (m ≫= k) Q.
Proof.
  intros Hm HQ Hk s Hs. unfold mbind, M_bind. destruct (Hm s Hs) as [Hr Hp].
  destruct (m s) as [[a|e|] s1] eqn:E1; simpl in *; [by apply Hk|auto|done].
Qed.

Lemma calm_bind_post {A B} P Q (R : A -> Prop) (m : M S E A) (k : A -> M S E B) :
  (forall s a s', m s = (Ok a, s') -> P s -> R a) -> safe P m -> (forall s, P s -> Q s) ->
  (forall a, R a -> calm P (k a) Q) -> calm P (m ≫= k) Q.
Proof.
  intros HR Hm HQ Hk s Hs. unfold mbind, M_bind. destruct (Hm s Hs) as [Hr Hp].
  destruct (m s) as [[a|e|] s1] eqn:E1; simpl in *; [by apply Hk; eauto|auto|done].
Qed.
End calm.

(** ** The fields the handlers index into *)

Section safe.
Context {pf : Platform} {pr : PlatformReturns} {cr : Crypto} {codec : CborCodec}.
Context {es : Esapi} {er : EsapiReturns} {sc : StoreCodec} {cd : CodecReturns}.
Context (oc : bool).

Abbreviation Fields := (list Credential -> option PendingAssertion -> option ManagementState -> Prop).

Definition both (R : Fields) (s : St) : Prop :=
  config (settings_ok oc) (world s) /\
  R (credentials (auth s)) (pending_assertion (auth s)) (management (auth s)).

Section plumbing.
Context (R : Fields).

Lemma safe_on_world {E A} (m : M World E A) :
  safe (config (settings_ok oc)) m -> safe (both R) (on_world m).
Proof.
  intros Hm s [Hc Hr]. destruct (Hm _ Hc) as [Hp Hc']. unfold on_world.
  destruct (m (world s)) as [r w]. simpl in *. split; [done|by split].
Qed.

Lemma safe_field {E A} (f : Authenticator -> A) : safe (both R) (field f : M St E A).
Proof. apply safe_gets. Qed.

Lemma safe_update {E} f :
  (forall a, R (credentials a) (pending_assertion a) (management a) ->
     R (credentials (f a)) (pending_assertion (f a)) (management (f a))) ->
  safe (both R) (update f : M St E unit).
Proof. intros Hf. apply safe_modify. intros s [Hc Hr]. split; [done|by apply Hf]. Qed.

Lemma safe_call {E A} (m : M World string A) :
  safe (config (settings_ok oc)) m -> safe (both R) (call m : M St E _).
Proof. intros Hm. unfold call. by apply safe_on_world, safe_attempt. Qed.

Lemma safe_or_fail {A} e (m : M World string A) :
  safe (config (settings_ok oc)) m -> safe (both R) (or_fail e m).
Proof. intros Hm. unfold or_fail. safe_walk ltac:(by apply safe_call). Qed.

Lemma safe_deny_if b e : safe (both R) (deny_if b e).
Proof. unfold deny_if. safe_walk fail. Qed.
End plumbing.

#[local] Hint Resolve safe_field safe_deny_if safe_next safe_verify safe_approve safe_load_passphrase
  safe_load_policy safe_load_credentials safe_save_pin safe_delete_pin safe_sign_count safe_delete
  safe_secure_boot safe_recovery_material safe_authorized_policy safe_create_key safe_sign : safe.

Ltac st_safe tac :=
  safe_walk ltac:(first
    [ apply safe_on_world
    | apply safe_call
    | apply safe_or_fail
    | apply safe_update; by intros
    | tac ]).

Section handlers.
Context (R : Fields).

Lemma safe_instant_now {E} : safe (both R) (instant_now : M St E Z).
Proof. unfold instant_now. st_safe fail. Qed.
#[local] Hint Resolve safe_instant_now : safe.
Lemma safe_elapsed {E} t : safe (both R) (elapsed t : M St E Z).
Proof. unfold elapsed. st_safe fail. Qed.
Lemma safe_fill_random {E} n : safe (both R) (fill_random n : M St E bytes).
Proof.
  unfold fill_random. apply safe_bind; [st_safe fail|]. intros t.
  destruct (getrandom_fills t n) as [b ->]. st_safe fail.
Qed.
#[local] Hint Resolve safe_elapsed safe_fill_random : safe.
Lemma safe_encrypt_aes k p : safe (both R) (encrypt_aes k p).
Proof. unfold encrypt_aes. st_safe fail. Qed.
Lemma safe_session_matches {E} : safe (both R) (session_matches : M St E bool).
Proof. unfold session_matches. st_safe fail. Qed.
Lemma safe_session_approves {E} p : safe (both R) (session_approves p : M St E bool).
Proof. unfold session_approves. st_safe fail. Qed.
Lemma safe_session_uid {E} : safe (both R) (session_uid : M St E (option Z)).
Proof. unfold session_uid. st_safe fail. Qed.
#[local] Hint Resolve safe_encrypt_aes safe_session_matches safe_session_approves safe_session_uid : safe.
Lemma safe_assertion_approved {E} rp : safe (both R) (assertion_approved rp : M St E bool).
Proof. unfold assertion_approved. st_safe fail. Qed.
Lemma safe_user_consents {E} p : safe (both R) (user_consents p : M St E bool).
Proof. unfold user_consents. st_safe fail. Qed.
Lemma safe_persist p : safe (both R) (persist_client_pin p).
Proof. unfold persist_client_pin. st_safe fail. Qed.
#[local] Hint Resolve safe_assertion_approved safe_user_consents safe_persist : safe.

(** *** The TPM *)

Lemma safe_open_tpm {E} n path l : (oc = true -> Forall (fun i => i < 32) (default [7] l)) ->
  safe (both R) (open_tpm oc n path l : M St E _).
Proof.
  intros Hl. pose proof (fun path => safe_open (settings_ok oc) oc path l Hl).
  induction n as [|n IH]; simpl; st_safe fail.
Qed.

Lemma safe_ensure_tpm {E} : safe (both R) (ensure_tpm oc : M St E _).
Proof.
  unfold ensure_tpm. apply safe_bind; [st_safe fail|]. intros [t|]; [st_safe fail|].
  apply safe_bind; [st_safe fail|]. intros [path|]; [|st_safe fail].
  apply (safe_bind_post _ (fun r => forall l, r = Ok (Some l) -> oc = true -> Forall (fun i => i < 32) l)).
  - intros s r s' (w & Hl & _ & _)%call_Ok [Hc _] l ->. by eapply loaded_policy.
  - st_safe fail.
  - intros r Hr. apply safe_open_tpm. intros Ho.
    destruct r as [[l|]| |]; simpl; [by eapply Hr|by repeat constructor..].
Qed.
#[local] Hint Resolve safe_ensure_tpm : safe.

Lemma safe_sign_credential k p a d : safe (both R) (sign_credential oc k p a d).
Proof. unfold sign_credential. st_safe fail. Qed.

(** *** The PIN *)

Lemma protocol_safe p : validate_pin_uv_protocol p <> Panic.
Proof. unfold validate_pin_uv_protocol. safe_walk fail. Qed.
Lemma decode_map_safe b : decode_map b <> Panic.
Proof. unfold decode_map. safe_walk fail. Qed.
#[local] Hint Resolve protocol_safe decode_map_safe : safe.

Lemma safe_validate p a m x rp : safe (both R) (validate_pin_uv_auth p a m x rp).
Proof. unfold validate_pin_uv_auth. st_safe fail. Qed.

Lemma safe_pin_uv_keys k : safe (both R) (pin_uv_keys k).
Proof. unfold pin_uv_keys, parse_key_agreement. st_safe fail. Qed.

Lemma safe_authenticate h : safe (both R) (authenticate_pin h).
Proof. unfold authenticate_pin. st_safe fail. Qed.
Lemma safe_new_pin_state p : safe (both R) (new_pin_state p).
Proof. unfold new_pin_state. st_safe fail. Qed.
Lemma safe_issue_token a m p rp : safe (both R) (issue_token a m p rp).
Proof. unfold issue_token. st_safe fail. Qed.
Lemma safe_check_permissions p rp : safe (both R) (check_permissions p rp).
Proof. unfold check_permissions. st_safe fail. Qed.
#[local] Hint Resolve safe_validate safe_pin_uv_keys safe_authenticate safe_new_pin_state
  safe_issue_token safe_check_permissions : safe.

Lemma verify_param_safe k p m : verify_pin_uv_auth_param k p m <> Panic.
Proof. unfold verify_pin_uv_auth_param. safe_walk fail. Qed.
Lemma decrypt_pin_safe k p : decrypt_pin k p <> Panic.
Proof. unfold decrypt_pin, decrypt_aes. safe_walk fail. Qed.
Lemma decrypt_pin_hash_safe k p : decrypt_pin_hash k p <> Panic.
Proof. unfold decrypt_pin_hash, decrypt_aes. safe_walk fail. Qed.
Lemma validate_new_pin_safe p : validate_new_pin p <> Panic.
Proof. unfold validate_new_pin. safe_walk fail. Qed.
Lemma key_agreement_safe secret : key_agreement_response secret <> Panic.
Proof. unfold key_agreement_response. by rewrite length_public_key. Qed.
#[local] Hint Resolve verify_param_safe decrypt_pin_safe decrypt_pin_hash_safe validate_new_pin_safe
  key_agreement_safe : safe.

Lemma safe_client_pin body : safe (both R) (client_pin_ body).
Proof.
  unfold client_pin_, set_pin, change_pin, get_pin_uv_auth_token, get_pin_uv_auth_token_using_uv.
  st_safe fail.
Qed.

Lemma safe_gate c : safe (both R) (passphrase_gate c).
Proof. unfold passphrase_gate. st_safe fail. Qed.
End handlers.

#[local] Hint Resolve safe_instant_now safe_elapsed safe_fill_random safe_session_matches
  safe_session_approves safe_session_uid safe_assertion_approved safe_user_consents safe_ensure_tpm
  safe_sign_credential protocol_safe decode_map_safe safe_validate safe_client_pin safe_gate : safe.

(** ** What the handlers rely on *)

(** The credentials can be stored, and the enumeration points into them. *)
Definition base (cs : list Credential) (m : option ManagementState) : Prop :=
  Forall (fun c => printable (stored_of_credential c)) cs /\
  forall st, m = Some st -> Forall (fun i => i < length cs)%nat (rp_indexes st ++ credential_indexes st).

(** The indices that a pending assertion has left point into the credentials. *)
Definition pending_in (cs : list Credential) (p : option PendingAssertion) : Prop :=
  forall pa, p = Some pa -> Forall (fun i => i < length cs)%nat (pa_credential_indexes pa).

Definition sound : Fields := fun cs p m => base cs m /\ pending_in cs p.
Definition fresh : Fields := fun cs p m => base cs m /\ p = None /\ m = None.

Lemma fresh_sound cs p m : fresh cs p m -> sound cs p m.
Proof. intros (Hb & -> & ->). by split. Qed.

Lemma both_impl (R R' : Fields) s :
  (forall cs p m, R cs p m -> R' cs p m) -> both R s -> both R' s.
Proof. intros H [Hc Hr]. split; [done|by apply H]. Qed.

(** The credentials of [cs'] are those of [cs], changed without touching the keys. *)
Lemma base_longer cs cs' m : (length cs <= length cs')%nat ->
  Forall (fun c => printable (stored_of_credential c)) cs' -> base cs m -> base cs' m.
Proof.
  intros Hl Hp [_ Hm]. split; [done|]. intros st Hst. eapply Forall_impl; [by apply Hm|]. simpl. lia.
Qed.

Lemma pending_longer cs cs' p : (length cs <= length cs')%nat -> pending_in cs p -> pending_in cs' p.
Proof. intros Hl Hp pa Hpa. eapply Forall_impl; [by apply Hp|]. simpl. lia. Qed.

Lemma printable_alter f i cs :
  (forall c, printable (stored_of_credential c) -> printable (stored_of_credential (f c))) ->
  Forall (fun c => printable (stored_of_credential c)) cs ->
  Forall (fun c => printable (stored_of_credential c)) (alter f i cs).
Proof.
  intros Hf Hcs. apply Forall_lookup. intros j c Hj. rewrite Forall_lookup in Hcs.
  destruct (decide (i = j)) as [<-|Hne].
  - rewrite list_lookup_alter_eq in Hj. apply fmap_Some in Hj as (c0 & Hc0 & ->). eauto.
  - rewrite list_lookup_alter_ne in Hj by done. eauto.
Qed.

Lemma safe_credential_at {E} (R : Fields) i :
  (forall cs p m, R cs p m -> (i < length cs)%nat) -> safe (both R) (credential_at i : M St E Credential).
Proof.
  intros Hi s Hs. pose proof (Hi _ _ _ (proj2 Hs)) as Hl.
  by destruct (Ctap2Mgmt.credential_at_total (E := E) i s Hl) as [c ->].
Qed.

Lemma safe_store_credentials {E} (R : Fields) :
  (forall cs p m, R cs p m -> Forall (fun c => printable (stored_of_credential c)) cs) ->
  safe (both R) (save_credentials : M St E unit).
Proof.
  intros Hp. unfold save_credentials.
  apply (safe_bind_post _ (fun cs => Forall (fun c => printable (stored_of_credential c)) cs)).
  - intros s cs s' [-> _]%field_Ok [_ Hr]. by eapply Hp.
  - st_safe fail.
  - intros cs Hcs. apply safe_bind; [|st_safe fail]. apply safe_call, safe_save_credentials.
    by apply Forall_fmap.
Qed.

Lemma sound_alter f i cs p m :
  (forall c, printable (stored_of_credential c) -> printable (stored_of_credential (f c))) ->
  sound cs p m -> sound (alter f i cs) p m.
Proof.
  intros Hf [Hb Hp]. split.
  - apply (base_longer cs); [by rewrite length_alter|by apply printable_alter; [|apply Hb]|exact Hb].
  - apply (pending_longer cs); [by rewrite length_alter|exact Hp].
Qed.

(** ** Assertions *)

Lemma safe_assert_with i h uv n :
  safe (both (fun cs p m => sound cs p m /\ (i < length cs)%nat)) (assert_with oc i h uv n).
Proof.
  unfold assert_with. st_safe ltac:(first
    [ apply safe_credential_at; naive_solver
    | apply safe_update; intros ? [Hs Hi]; simpl; split;
      [by apply sound_alter; [by intros ?|]|by rewrite length_alter] ]).
Qed.

Lemma calm_read {E A B} (R : Fields) (f : Authenticator -> A) (k : A -> M St E B) Q :
  (forall x, calm (fun s => both R s /\ f (auth s) = x) (k x) Q) -> calm (both R) (field f ≫= k) Q.
Proof. intros Hk s Hs. by apply (Hk (f (auth s))). Qed.

Lemma loaded_credentials {E} u w cs w' :
  (load_credentials_from_disk u : M World E _) w = (Ok cs, w') ->
  Forall (fun c => printable (stored_of_credential c)) cs.
Proof.
  unfold load_credentials_from_disk. intros H. run_inv.
  destruct x as [l| |]; [|constructor..]. apply loaded_printable in H.
  apply Forall_fmap. eapply Forall_impl; [exact H|]. by intros c.
Qed.

Lemma safe_load_from_disk {E} u :
  safe (config (settings_ok oc)) (load_credentials_from_disk u : M World E _).
Proof. unfold load_credentials_from_disk. st_safe fail. Qed.

(** The reload of the credentials before an assertion. *)
Lemma safe_reload (path : option string) : safe (both fresh) (
  match path with
  | Some _ => uid ← session_uid; cs ← on_world (load_credentials_from_disk uid); update (set_credentials cs)
  | None => mret tt
  end : M St ErrorStatus unit).
Proof.
  destruct path as [path|]; [|st_safe fail].
  apply safe_bind; [st_safe fail|]. intros uid.
  apply (safe_bind_post _ (Forall (fun c => printable (stored_of_credential c)))).
  - intros s cs s' (w & Hl & _)%on_world_Ok _. by eapply loaded_credentials.
  - apply safe_on_world, safe_load_from_disk.
  - intros cs Hcs. apply safe_update. intros a (_ & Hp & Hm). simpl. rewrite Hp, Hm. by repeat split.
Qed.

Lemma client_data_hash_safe h : validate_client_data_hash h <> Panic.
Proof. unfold validate_client_data_hash. safe_walk fail. Qed.
Lemma descriptors_safe l : validate_credential_descriptor_list l <> Panic.
Proof. unfold validate_credential_descriptor_list. safe_walk fail. Qed.
Lemma common_options_safe o b : validate_common_options o b <> Panic.
Proof. unfold validate_common_options. safe_walk fail. Qed.
#[local] Hint Resolve client_data_hash_safe descriptors_safe common_options_safe : safe.

Lemma pending_match rp l cs :
  Forall (fun i => i < length cs)%nat (matching_credential_indexes cs rp l).
Proof. apply Ctap2Mgmt.lookup_indexes. Qed.

(** One step of a computation that keeps [R], on the way from [R] to [R']. *)
Lemma calm_step {E A B} (R R' : Fields) (m : M St E A) (k : A -> M St E B) :
  (forall cs p m, R cs p m -> R' cs p m) -> safe (both R) m -> (forall a, calm (both R) (k a) (both R')) ->
  calm (both R) (m ≫= k) (both R').
Proof.
  intros HR Hm Hk. eapply calm_bind; [by apply calm_safe; [exact Hm|]| |exact Hk].
  intros s. by apply both_impl.
Qed.

Lemma calm_read_credentials {E B} (R R' : Fields) (k : list Credential -> M St E B) :
  (forall cs, calm (both (fun cs' p m => R cs' p m /\ cs' = cs)) (k cs) (both R')) ->
  calm (both R) (field credentials ≫= k) (both R').
Proof.
  intros Hk. apply calm_read. intros cs. eapply calm_pre; [|apply (Hk cs)].
  by intros s [[Hc Hr] Hcs].
Qed.

Lemma calm_update {E} (R R' : Fields) f :
  (forall a, R (credentials a) (pending_assertion a) (management a) ->
     R' (credentials (f a)) (pending_assertion (f a)) (management (f a))) ->
  calm (both R) (update f : M St E unit) (both R').
Proof. intros Hf s [Hc Hr]. split; [done|]. split; [done|by apply Hf]. Qed.

(** An update cannot fail, so that it may lead anywhere. *)
Lemma calm_update_then {E A} (R R' : Fields) f (k : unit -> M St E A) Q :
  (forall a, R (credentials a) (pending_assertion a) (management a) ->
     R' (credentials (f a)) (pending_assertion (f a)) (management (f a))) ->
  calm (both R') (k tt) Q -> calm (both R) (update f ≫= k) Q.
Proof. intros Hf Hk s [Hc Hr]. apply Hk. split; [done|by apply Hf]. Qed.

Lemma calm_get_assertion body : calm (both fresh) (get_assertion oc body) (both sound).
Proof.
  unfold get_assertion, validate_get_assertion_options.
  do 8 (apply calm_step; [apply fresh_sound|st_safe fail|intro]).
  apply calm_step; [apply fresh_sound|apply safe_reload|intros _].
  apply calm_read_credentials. intros cs. pose proof (pending_match a0 (map_array a 3) cs) as Hin.
  destruct (matching_credential_indexes _ _ _) as [|i rest].
  { apply calm_safe; [apply safe_throw|]. intros s. apply both_impl. intros c p m [? _]. by apply fresh_sound. }
  pose (R := (fun cs' p m => fresh cs' p m /\ Forall (fun k => k < length cs')%nat (i :: rest)) : Fields).
  assert (forall cs p m, R cs p m -> sound cs p m /\ (i < length cs)%nat) as HR.
  { intros c p m [Hf Hall]. apply Forall_cons in Hall as [Hi _]. split; [by apply fresh_sound|done]. }
  apply (calm_pre _ (both R)). { intros s. apply both_impl. by intros c p m [? ->]. }
  do 2 (apply calm_step; [by intros ??? [? _]%HR|st_safe fail|intro]).
  apply (calm_bind _ (both (fun cs p m => sound cs p m /\ (i < length cs)%nat))).
  - assert (forall pa, (forall p, pa = Some p -> pa_credential_indexes p = rest) ->
      calm (both R) (update (set_pending_assertion pa) : M St ErrorStatus unit)
        (both (fun cs p m => sound cs p m /\ (i < length cs)%nat))) as Hset.
    { intros pa Hpa. apply calm_update. intros x [(Hb & _ & _) Hall]. apply Forall_cons in Hall as [Hi Hall].
      simpl. split; [|done]. split; [done|]. intros p Hp. by rewrite (Hpa p Hp). }
    destruct rest as [|j rest]; [by apply Hset|].
    do 2 (apply calm_step; [done|st_safe fail|intro]). apply Hset. by intros p [= <-].
  - intros s. apply both_impl. by intros ??? [? _].
  - intros _. apply calm_safe; [apply safe_assert_with|]. intros s. apply both_impl. by intros ??? [? _].
Qed.

Lemma safe_get_next body : safe (both sound) (get_next_assertion oc body).
Proof.
  unfold get_next_assertion. apply calm_step; [done|st_safe fail|intros _]. apply calm_read. intros x.
  pose (R := (fun cs p m => sound cs p m /\ pending_in cs x) : Fields).
  assert (forall cs p m, R cs p m -> sound cs p m) as HR by by intros ??? [? _].
  apply (calm_pre _ (both R)). { intros s [[Hc Hs] <-]. split; [done|]. by split; [|apply Hs]. }
  apply calm_step; [done| |intros _].
  { apply safe_update. intros a [[Hb _] Hx]. by split. }
  apply (calm_bind_post _ _ (fun pa => x = Some pa)); [|st_safe fail|intros s; by apply both_impl|].
  { intros s pa s' H _. run_inv. done. }
  intros pa ->. do 6 (apply calm_step; [done|st_safe fail|intro]).
  destruct (pa_credential_indexes pa) as [|i rest] eqn:Ei.
  { apply calm_safe; [apply safe_throw|]. intros s. by apply both_impl. }
  apply (calm_update_then _ (fun cs p m => sound cs p m /\ (i < length cs)%nat)).
  - intros x [[Hb _] Hx]. specialize (Hx pa eq_refl). rewrite Ei in Hx.
    apply Forall_cons in Hx as [Hi Hrest]. simpl. split; [|done]. split; [done|].
    destruct rest; [done|]. by intros p [= <-].
  - apply calm_safe; [apply safe_assert_with|]. intros s. apply both_impl. by intros ??? [? _].
Qed.

(** ** Registration *)

Lemma parse_make_safe r : parse_make_request r <> Panic.
Proof. unfold parse_make_request, validate_attestation_conveyance. safe_walk fail. Qed.
Lemma make_options_safe o : validate_make_credential_options o <> Panic.
Proof.
  unfold validate_make_credential_options, validate_resident_key_options. safe_walk fail.
Qed.
#[local] Hint Resolve parse_make_safe make_options_safe : safe.

Lemma safe_key_material R t u i p : safe (both R) (create_key_material t u i p).
Proof.
  unfold create_key_material, Tpm.create_credential_key_with_policy. st_safe fail.
Qed.

(** The material of a new credential can be stored. *)
Lemma key_material_ok t u i p s key policy material s' :
  (forall salt hash k, p = Some (salt, hash, k) -> phc_ok salt hash) ->
  create_key_material t u i p s = (Ok (key, policy, material), s') ->
  StoreRoundtrip.key_ok key /\
  forall m, material = Some m -> StoreRoundtrip.recovery_ok (slot_of_material m).
Proof.
  intros Hp H. unfold create_key_material, Tpm.create_credential_key_with_policy in H.
  ctap_inv; (split; [by eapply created_key_ok|]); [|done].
  intros m [= <-]. match goal with H : Tpm.create_recovery_material_with_hash _ _ _ _ _ = _ |- _ =>
    destruct (material_ok _ _ _ _ _ _ _ H) as (Hk & E1 & E2) end.
  split; [done|]. simpl. rewrite E1, E2. by eapply Hp.
Qed.

Lemma sound_add cs p m c : printable (stored_of_credential c) -> sound cs p m -> sound (cs ++ [c]) p m.
Proof.
  intros Hc [Hb Hp]. assert (length cs <= length (cs ++ [c]))%nat as Hl by (rewrite length_app; lia). split.
  - apply (base_longer cs); [done| |done]. apply Forall_app. split; [apply Hb|by constructor].
  - by apply (pending_longer cs).
Qed.

Lemma safe_make body : safe (both sound) (make_credential oc body).
Proof.
  unfold make_credential. do 14 (apply safe_bind; [st_safe fail|intro]). 
  apply (safe_bind_post _ (fun r => forall salt hash k, r = Ok (Some (salt, hash, k)) -> phc_ok salt hash)).
  { intros s r s' (w & Hl & _ & _)%call_Ok [[Hc _] _] salt hash k ->. by eapply loaded_passphrase. }
  { st_safe fail. }
  intros r Hr. apply safe_bind; [st_safe fail|]. intros [t|]; [|st_safe fail].
  apply safe_bind; [st_safe fail|]. intros id.
  apply (safe_bind_post _ (fun '(key, _, material) =>
    point_ok key /\ forall m, material = Some m -> slot_ok (slot_of_material m))).
  { intros s [[key policy] material] s' H _. apply key_material_ok in H as [[Hk _] Hm].
    - split; [exact Hk|]. intros m Em. destruct (Hm m Em) as ([? _] & ?). by split.
    - intros salt hash k. destruct r as [o| |]; [|done..]. intros ->. by eapply Hr. }
  { apply safe_key_material. }
  intros [[key policy] material] [Hk Hm]. apply safe_bind; [st_safe fail|]. intros u.
  apply safe_bind.
  { apply safe_update. intros x Hx. simpl. apply sound_add; [|done]. split; simpl; [done|].
    intros q (m' & Hm' & ->)%fmap_Some. by apply Hm. }
  intros _. apply safe_bind; [|st_safe fail]. apply safe_store_credentials. by intros ??? [[? _] _].
Qed.

(** ** Credential management *)

(** It leaves the pending assertion alone, so that anything may be known of it. *)
Section management.
Context (K : option PendingAssertion -> Prop).
Let R : Fields := fun cs p m => base cs m /\ K p.
Let Rat (i : nat) : Fields := fun cs p m => R cs p m /\ (i < length cs)%nat.

(** The first answer of an enumeration. *)
Lemma calm_enumerate rps ids a b (answer : Credential -> bytes) cs i :
  Forall (fun i => i < length cs)%nat (rps ++ ids) -> (i < length cs)%nat ->
  calm (both (fun cs' p m => R cs' p m /\ cs' = cs))
    (_ ← start_management rps ids a b; c ← credential_at i; mret (answer c) : M St ErrorStatus bytes) (both R).
Proof.
  intros Hall Hi. apply (calm_bind _ (both (Rat i))).
  - unfold start_management.
    assert (forall cs' p m, R cs' p m /\ cs' = cs -> Rat i cs' p m) as HR by by intros ??? [? ->].
    do 2 (apply calm_step; [done|st_safe fail|intro]). apply calm_update.
    intros x [[Hb Hk] Hcs]. unfold Rat, R. simpl. rewrite Hcs in *. split_and!; try done. split; [apply Hb|].
    by intros st [= <-].
  - intros s. apply both_impl. by intros ??? [? _].
  - intros _. apply calm_safe; [|intros s; apply both_impl; by intros ??? [? _]].
    apply safe_bind; [apply safe_credential_at; by intros ??? [_ ?]|st_safe fail].
Qed.

Lemma safe_rps_begin : safe (both R) enumerate_rps_begin.
Proof.
  apply calm_read_credentials. intros cs. pose proof (Ctap2Mgmt.rps_in_range cs) as Hin.
  destruct (discoverable_rp_indexes cs) as [|i l].
  - apply calm_safe; [apply safe_throw|]. intros s. apply both_impl. by intros ??? [? _].
  - apply calm_enumerate; [by rewrite app_nil_r|]. by apply Forall_cons in Hin as [? _].
Qed.

Lemma safe_credentials_begin params : safe (both R) (enumerate_credentials_begin params).
Proof.
  unfold enumerate_credentials_begin. do 3 (apply safe_bind; [st_safe fail|intro]).
  apply calm_read_credentials. intros cs. assert (Forall (fun i => i < length cs)%nat (rp_hash_indexes cs a0)) as Hin
    by apply Ctap2Mgmt.lookup_indexes.
  destruct (rp_hash_indexes cs a0) as [|i l].
  - apply calm_safe; [apply safe_throw|]. intros s. apply both_impl. by intros ??? [? _].
  - apply calm_enumerate; [done|]. by apply Forall_cons in Hin as [? _].
Qed.

(** The next answer: the position moves on, and the index points into the credentials. *)
Lemma safe_enumerate_next (get : ManagementState -> option nat) (step : ManagementState -> ManagementState)
    (answer : Credential -> bytes) :
  (forall st, rp_indexes (step st) = rp_indexes st /\ credential_indexes (step st) = credential_indexes st) ->
  (forall st i, get st = Some i -> i ∈ rp_indexes st ++ credential_indexes st) ->
  safe (both R) (state ← field management; state ← lift (ok_or state NoCredentials);
    index ← lift (ok_or (get state) NoCredentials); _ ← update (set_management (Some (step state)));
    c ← credential_at index; mret (answer c)).
Proof.
  intros Hstep Hget. apply calm_read. intros x. pose (Rx := (fun cs p m => R cs p m /\ base cs x) : Fields).
  assert (forall cs p m, Rx cs p m -> R cs p m) as HR by by intros ??? [? _].
  apply (calm_pre _ (both Rx)). { intros s [[Hc [Hb Hk]] <-]. split; [done|]. by split; [split|]. }
  apply (calm_bind_post _ _ (fun st => x = Some st)); [|st_safe fail|intros s; by apply both_impl|].
  { intros s st s' H _. run_inv. done. }
  intros st ->. apply (calm_bind_post _ _ (fun i => get st = Some i)); [|st_safe fail|intros s; by apply both_impl|].
  { intros s i s' H _. run_inv. done. }
  intros i Hi%Hget. apply (calm_update_then _ (Rat i)).
  - intros a [[[Hp _] Hk] [_ Hst]]. specialize (Hst st eq_refl). split; [split; [split; [exact Hp|]|exact Hk]|].
    + intros st' [= <-]. by destruct (Hstep st) as [-> ->].
    + rewrite Forall_forall in Hst. by apply Hst.
  - apply calm_safe; [|intros s; apply both_impl; by intros ??? [? _]].
    apply safe_bind; [apply safe_credential_at; by intros ??? [_ ?]|st_safe fail].
Qed.

Lemma safe_rps_next : safe (both R) enumerate_rps_next.
Proof.
  apply (safe_enumerate_next (fun m => rp_indexes m !! rp_position m)
    (fun m => {| rp_indexes := rp_indexes m; rp_position := rp_position m + 1;
                 credential_indexes := credential_indexes m; credential_position := credential_position m;
                 mgmt_session_uid := mgmt_session_uid m; mgmt_created_at := mgmt_created_at m |})
    (fun c => encode_rp_response c None)); [done|].
  intros st i Hi. apply elem_of_app. left. by eapply list_elem_of_lookup_2.
Qed.

Lemma safe_credentials_next : safe (both R) enumerate_credentials_next.
Proof.
  apply (safe_enumerate_next (fun m => credential_indexes m !! credential_position m)
    (fun m => {| rp_indexes := rp_indexes m; rp_position := rp_position m;
                 credential_indexes := credential_indexes m; credential_position := credential_position m + 1;
                 mgmt_session_uid := mgmt_session_uid m; mgmt_created_at := mgmt_created_at m |})
    (fun c => encode_credential_management_response c None)); [done|].
  intros st i Hi. apply elem_of_app. right. by eapply list_elem_of_lookup_2.
Qed.

(** Without an enumeration the credentials may change. *)
Let Rc : Fields := fun cs p m => Forall (fun c => printable (stored_of_credential c)) cs /\ K p.

Lemma calm_end_enumeration : calm (both Rc)
  (_ ← update (set_management None); mret empty_response : M St ErrorStatus bytes) (both R).
Proof.
  apply (calm_update_then _ R); [|apply safe_ret]. intros a [Hp Hk]. by repeat split.
Qed.

Lemma descriptor_safe p : descriptor_id p <> Panic.
Proof. unfold descriptor_id. safe_walk fail. Qed.
#[local] Hint Resolve descriptor_safe : safe.

Lemma safe_delete_credential params : safe (both R) (delete_credential params).
Proof.
  unfold delete_credential. do 5 (apply safe_bind; [st_safe fail|intro]).
  apply (calm_update_then _ Rc); [|apply calm_end_enumeration].
  intros x [[Hp _] Hk]. split; [by apply Forall_delete|done].
Qed.

Lemma safe_update_user params : safe (both R) (update_user_information params).
Proof.
  unfold update_user_information. do 5 (apply safe_bind; [st_safe fail|intro]).
  apply (calm_update_then _ R).
  { intros x [Hb Hk]. split; [|done]. simpl. apply (base_longer (credentials x)); [by rewrite length_alter| |done].
    apply printable_alter; [by intros ?|apply Hb]. }
  apply safe_bind; [apply safe_store_credentials; by intros ??? [[? _] _]|intros _].
  eapply calm_pre; [|apply calm_end_enumeration]. intros s. apply both_impl. by intros ??? [[? _] ?].
Qed.

Lemma safe_expire : safe (both R) expire_management.
Proof. unfold expire_management. st_safe ltac:(apply safe_update; intros ? [[? ?] ?]; by repeat split). Qed.

Lemma safe_management body : safe (both R) (credential_management body).
Proof.
  unfold credential_management.
  pose proof safe_rps_begin. pose proof safe_rps_next. pose proof safe_credentials_begin.
  pose proof safe_credentials_next. pose proof safe_delete_credential. pose proof safe_update_user.
  pose proof safe_expire. st_safe fail.
Qed.
End management.

(** ** The other commands *)

Lemma safe_delete_all {E} R cs : safe (both R) (delete_all_credentials cs : M St E unit).
Proof. induction cs; simpl; st_safe fail. Qed.

Lemma safe_reset : safe (both fresh) reset.
Proof.
  unfold reset. pose proof (fun cs => safe_delete_all (E := ErrorStatus) fresh cs).
  st_safe ltac:(apply safe_update; intros ? (Hb & Hp & Hm); simpl; rewrite ?Hp, ?Hm;
    split; [split; [constructor || apply Hb|done]|done]).
Qed.

(** [todo!()] *)
Definition unimplemented (c : Ctap2Command) : bool :=
  bool_decide (c ∈ [BioEnrollment; BioEnrollmentPreview; LargeBlobs; Config]).

(** The commands that leave a pending assertion where it is. *)
Definition continues (c : Ctap2Command) : bool := bool_decide (c ∈ [GetNextAssertion; CredentialManagement]).

Lemma calm_dispatch c body : unimplemented c = false -> continues c = false ->
  calm (both fresh) (dispatch oc c body) (both sound).
Proof.
  intros Hu Hc.
  assert (forall m : M St ErrorStatus bytes, safe (both sound) m -> calm (both fresh) m (both sound)) as Hsound.
  { intros m Hm. eapply calm_pre; [|exact Hm]. intros s. apply both_impl, fresh_sound. }
  assert (forall m : M St ErrorStatus bytes, safe (both fresh) m -> calm (both fresh) m (both sound)) as Hfresh.
  { intros m Hm. apply calm_safe; [done|]. intros s. apply both_impl, fresh_sound. }
  destruct c; try done; cbn [dispatch].
  - apply Hsound, safe_make.
  - apply calm_get_assertion.
  - apply Hfresh. st_safe fail.
  - apply Hfresh, safe_client_pin.
  - apply Hfresh, safe_reset.
  - apply Hfresh. unfold selection_. st_safe fail.
  - eapply calm_pre; [|eapply calm_safe; [apply (safe_management (fun p => p = None))|]].
    + intros s. apply both_impl. by intros cs p m (Hb & -> & _).
    + intros s. apply both_impl. by intros cs p m (Hb & ->).
Qed.

(** ** Requests *)

(** What holds between two requests; [managed] says that credentials may have been
    deleted since the last assertion began. *)
Definition between (managed : bool) : Fields := fun cs p m =>
  base cs m /\ (managed = false -> pending_in cs p).

Definition command_of (payload : bytes) : option Ctap2Command :=
  split_first payload ≫= fun '(b, _) => command_of_u8 b.

(** What the request [payload] leaves of [managed]. *)
Definition managed_after (managed : bool) (payload : bytes) : bool :=
  match command_of payload with
  | Some CredentialManagement => true
  | Some GetNextAssertion | None => managed
  | Some _ => false
  end.

(** The request is implemented, and does not continue an assertion after
    credentials may have been deleted. *)
Definition answerable (managed : bool) (payload : bytes) : bool :=
  match command_of payload with
  | Some c => negb (unimplemented c) && negb (bool_decide (c = GetNextAssertion) && managed)
  | None => true
  end.

Lemma calm_clear c : continues c = false ->
  calm (both (fun cs p m => base cs m)) (clear_stale c) (both fresh).
Proof.
  intros Hc s [Hs Hb]. unfold clear_stale, continues in *. rewrite Hc.
  assert (c <> CredentialManagement) as Hn by (intros ->; done).
  rewrite bool_decide_eq_false_2 by done. split; [done|]. split; [done|]. simpl. split; [|done].
  split; [apply Hb|done].
Qed.

Lemma calm_request managed c body : unimplemented c = false ->
  bool_decide (c = GetNextAssertion) && managed = false ->
  calm (both (between managed)) (_ ← clear_stale c; _ ← passphrase_gate c; dispatch oc c body)
    (both (between (match c with CredentialManagement => true | GetNextAssertion => managed | _ => false end))).
Proof.
  intros Hu Hm. assert (forall b cs p m, sound cs p m -> between b cs p m) as Hsb by by intros b ??? [? ?].
  destruct (continues c) eqn:Hc.
  - assert (c = GetNextAssertion \/ c = CredentialManagement) as [->| ->]
      by (apply bool_decide_eq_true in Hc; set_solver).
    + destruct managed; [done|]. eapply calm_pre; [|eapply calm_safe].
      * intros s. apply (both_impl _ sound). by intros ??? [? Hp]; split; [|apply Hp].
      * apply safe_bind; [|intros _; apply safe_bind; [st_safe fail|intros _; apply safe_get_next]].
        unfold clear_stale. simpl. apply safe_bind; [st_safe fail|intros _].
        apply safe_update. intros a [[Hb _] Hp]. by repeat split.
      * intros s. apply both_impl. intros ??? ?. by apply Hsb.
    + eapply calm_pre; [|eapply calm_safe].
      * intros s. apply (both_impl _ (fun cs p m => base cs m /\ True)). by intros ??? [? _].
      * apply safe_bind; [|intros _; apply safe_bind; [st_safe fail|intros _; apply safe_management]].
        unfold clear_stale. simpl. st_safe fail.
      * intros s. apply both_impl. by intros ??? [? _].
  - eapply calm_pre; [intros s; apply (both_impl _ (fun cs p m => base cs m)); by intros ??? [? _]|].
    eapply calm_bind; [by apply calm_clear|intros s; apply both_impl; intros ??? ?%fresh_sound; by apply Hsb|].
    intros _. apply calm_step; [intros ??? ?%fresh_sound; by apply Hsb|st_safe fail|intros _].
    intros s Hs. destruct (calm_dispatch c body Hu Hc s Hs) as [Hr Hp]. split; [done|].
    eapply both_impl; [|exact Hp]. auto.
Qed.

Lemma handle_answered {E} managed payload s :
  both (between managed) s -> answerable managed payload = true ->
  exists r s', (handle_cbor oc payload : M St E bytes) s = (Ok r, s') /\
    both (between (managed_after managed payload)) s'.
Proof.
  intros Hs Ha. unfold handle_cbor, answerable, managed_after, command_of in *.
  destruct (split_first payload) as [[b body]|]; simpl in *; [|by eexists _, s].
  destruct (command_of_u8 b) as [c|]; simpl in *; [|by eexists _, s].
  apply andb_true_iff in Ha as [Hu%negb_true_iff Hm%negb_true_iff].
  destruct (calm_request managed c body Hu Hm s Hs) as [Hr Hp].
  unfold respond, mbind at 1, M_bind at 1, attempt.
  destruct ((_ ← clear_stale c; _ ← passphrase_gate c; dispatch oc c body) s) as [[r|e|] s1]; simpl in *;
    [..|done]; (eexists _, s1; split; [done|]); by destruct c.
Qed.

Lemma handle_unimplemented {E} payload c s :
  command_of payload = Some c -> unimplemented c = true ->
  ((handle_cbor oc payload : M St E bytes) s).1 = Panic.
Proof.
  unfold handle_cbor, command_of. intros Hc Hu. destruct (split_first payload) as [[b body]|]; [|done].
  simpl in Hc. rewrite Hc. by destruct c.
Qed.

(** ** TPM commands of the management threads *)

(** The salt and the hash can be stored and, where shifts are checked, the PCR
    indices are below 32. *)
Definition command_ok (c : TpmCommand) : bool :=
  match c with
  | PcrPolicyUpdate _ _ _ _ => true
  | PassphraseChange _ _ hash salt _ => salt_ok (b64_encode salt) && output_ok hash
  | PcrDigestCheck l => negb oc || forallb (fun i => i <? 32) l
  end.

Lemma safe_tpm_command R c : command_ok c = true -> safe (both R) (handle_tpm_command oc c).
Proof.
  intros Hc. destruct c as [id a n r|id k h s kdf|l]; simpl in *; unfold require_tpm, wrap.
  - st_safe ltac:(first [apply safe_wrap_err | apply safe_update_authorized | apply safe_update_policy]).
  - apply andb_true_iff in Hc.
    st_safe ltac:(first [apply safe_wrap_err | apply safe_change_auth | by apply safe_update_recovery]).
  - assert (Tpm.pcr_selection_for_indices oc l <> Panic).
    { apply selection_safe. intros ->. simpl in Hc. rewrite forallb_forall in Hc.
      apply Forall_forall. intros i Hi%list_elem_of_In%Hc. lia. }
    st_safe ltac:(first [apply safe_wrap_err | apply safe_pcr_digest]).
Qed.

(** ** The main thread *)

(** What the main thread is given: a request of the host or a command of a
    management thread; and what the other threads do to the store meanwhile. *)
Inductive Work := Host (payload : bytes) | Command (c : TpmCommand) | Others (d : Db).

Definition work (x : Work) : M St string unit :=
  match x with
  | Host payload => _ ← handle_cbor oc payload; mret tt
  | Command c => _ ← handle_tpm_command oc c; mret tt
  | Others d => on_world (modify (set_db d))
  end.

Fixpoint orderly (managed : bool) (l : list Work) : Prop :=
  match l with
  | [] => True
  | Host payload :: l => answerable managed payload = true /\ orderly (managed_after managed payload) l
  | Command c :: l => command_ok c = true /\ orderly managed l
  | Others d :: l => settings_ok oc (daemon_config d) /\ orderly managed l
  end.

Fixpoint never_panics (l : list Work) (s : St) : Prop :=
  match l with
  | [] => True
  | x :: l => (work x s).1 <> Panic /\ never_panics l (work x s).2
  end.

Lemma orderly_runs l : forall managed s,
  both (between managed) s -> orderly managed l -> never_panics l s.
Proof.
  induction l as [|x l IH]; intros managed s Hs Ho; [done|]. destruct x as [p|c|d]; destruct Ho as [Ha Ho]; simpl.
  - destruct (handle_answered (E := string) managed p s Hs Ha) as (r & s1 & E & Hs1).
    unfold mbind, M_bind. rewrite E. split; [done|]. by eapply IH.
  - assert (safe (both (between managed)) (_ ← handle_tpm_command oc c; mret tt)) as Hc.
    { apply safe_bind; [by apply safe_tpm_command|intro; apply safe_ret]. }
    destruct (Hc s Hs). split; [done|]. by eapply IH.
  - split; [done|]. eapply IH; [|done]. by destruct Hs as [_ Hr].
Qed.

Lemma new_ready {E} path w : config (settings_ok oc) w -> exists a w1,
  (new path : M World E Authenticator) w = (Ok a, w1) /\ both (between false) {| auth := a; world := w1 |}.
Proof.
  intros Hw. unfold new, Session.detect.
  assert (safe (config (settings_ok oc)) Store.load_client_pin_state) as Hpin by apply safe_load_pin.
  rewrite (bind_run_Ok _ _ w (Session.detect_at (w_tick w)) (set_tick (S (w_tick w)) w)) by done.
  set (w1 := set_tick (S (w_tick w)) w). assert (config (settings_ok oc) w1) as Hw1 by done.
  destruct (safe_load_from_disk (E := E) (Session.uid (Session.detect_at (w_tick w))) w1 Hw1) as [Hr Hw2].
  destruct (load_credentials_from_disk _ w1) as [[cs|e|] w2] eqn:El; simpl in *; [| |done].
  - rewrite (bind_run_Ok _ _ _ _ _ El). destruct (Hpin w2 Hw2) as [Hp Hw3].
    unfold mbind, M_bind, attempt. destruct (Store.load_client_pin_state w2) as [r w3]; simpl in *.
    destruct r as [o|e|]; [..|done]; (eexists _, w3; split; [done|]; split; [done|];
      split; [split; [by eapply loaded_credentials|done]|done]).
  - exfalso. unfold load_credentials_from_disk, mbind, M_bind, attempt in El.
    by destruct (Store.load_ctap2_credentials _ w1) as [[] ?].
Qed.
End safe.

(** The main thread does not panic, with overflow checks or without. After a start of the daemon, over any
    sequence of requests of the host and commands of management threads, with the
    store changed by other threads in between, none ends in a panic when the
    crates return and the settings are sane, provided that no request is one of
    the four commands that are not implemented and that none asks for the next
    assertion after a credential management request that may have deleted
    credentials. The former always panic, whatever the state. *)
Theorem main_thread_never_panics {pf : Platform} {pr : PlatformReturns} {cr : Crypto} {codec : CborCodec}
    {es : Esapi} {er : EsapiReturns} {sc : StoreCodec} {cd : CodecReturns} oc path w l :
  settings_ok oc (daemon_config (w_db w)) -> orderly oc false l ->
  (exists a w1, (new path : M World Empty_set Authenticator) w = (Ok a, w1) /\
     never_panics oc l {| auth := a; world := w1 |}) /\
  forall payload c s, command_of payload = Some c -> unimplemented c = true ->
    ((handle_cbor oc payload : M St Empty_set bytes) s).1 = Panic.
Proof.
  intros Hs Ho. split.
  - destruct (new_ready (E := Empty_set) oc path w Hs) as (a & w1 & Hn & Hb). exists a, w1.
    split; [done|]. by eapply orderly_runs.
  - intros payload c s. apply handle_unimplemented.
Qed.

End Ctap2Safe.
