(* ===== verification/Ctap2Mirror.v ===== *)
(** The credentials of the running daemon and those of its store: after every
    request the store holds the credentials the daemon has in memory, so that a
    restart brings them back. *)
From Stdlib Require Import ZArith Lia String.
From stdpp Require Import base list option strings gmap.
From S2P Require Import Prelude Schema Platform Cbor Session Tpm Store StoreProps StoreRoundtrip.
From S2P Require Import StoreUpdates StoreRefine StoreCounts Ctap2Types Ctap2 Ctap2Facts WorldFacts WorldSafe.
From S2P Require Import Settings Ctap2Restart Ctap2Assert Ctap2Counter Ctap2Safe.

#[local] Open Scope Z_scope.

Module Ctap2Mirror.
Import Ctap2 Ctap2Facts WorldFacts WorldSafe StoreRoundtrip StoreRefine StoreCounts Ctap2Assert Ctap2Counter.

(** ** Calls that leave the stored credentials alone *)

(** Time passes; the tables of the credentials, the settings and the key are as they
    were. *)
Record shelf_kept (w w' : World) : Prop := {
  sk_tick : (w_tick w <= w_tick w')%nat;
  sk_metadata : metadata (w_db w') = metadata (w_db w);
  sk_keyslots : keyslots (w_db w') = keyslots (w_db w);
  sk_next : next_keyslot_id (w_db w') = next_keyslot_id (w_db w);
  sk_tokens : tokens (w_db w') = tokens (w_db w);
  sk_config : daemon_config (w_db w') = daemon_config (w_db w);
  sk_exists : db_exists (w_db w) = true -> db_exists (w_db w') = true;
  sk_key k : hmac_key_file (w_db w) = Some k -> hmac_key_file (w_db w') = Some k }.

#[export] Instance shelf_kept_store : StoreRel shelf_kept.
Proof.
  split; [split|].
  - intros w. by split.
  - intros a b c [] []. split; [lia|congruence..|auto|auto].
  - intros w w' Hw Ht. split; by rewrite ?Hw.
Qed.

Lemma shelf_update f :
  (forall d, metadata (f d) = metadata d /\ keyslots (f d) = keyslots d /\
     next_keyslot_id (f d) = next_keyslot_id d /\ tokens (f d) = tokens d /\
     daemon_config (f d) = daemon_config d /\ hmac_key_file (f d) = hmac_key_file d /\
     (db_exists d = true -> db_exists (f d) = true)) ->
  keeps shelf_kept (Store.db_update f).
Proof.
  intros Hf w. destruct (Hf (w_db w)) as (E1 & E2 & E3 & E4 & E5 & E6 & He).
  split; simpl; rewrite ?E6; auto.
Qed.

Lemma shelf_get {A} (f : Db -> A) : keeps shelf_kept (Store.db_get f).
Proof. intros w. by apply store_rel_db. Qed.

(** The operations that do not touch the credentials. *)
Definition calm_op (op : StoreProps.StoreOp) : bool :=
  match op with
  | StoreProps.SaveClientPin _ | StoreProps.DeleteClientPin => true
  | _ => read_op op
  end.

Lemma calm_op_read op : read_op op = true -> calm_op op = true.
Proof. by destruct op. Qed.
#[local] Hint Resolve calm_op_read : core.

Section calm.
Context {pf : Platform} {cr : Crypto} {sc : StoreCodec}.

Lemma shelf_hmac_key : keeps shelf_kept Store.load_or_generate_hmac_key.
Proof.
  intros w. unfold Store.load_or_generate_hmac_key, Store.db_get, gets, mbind, M_bind, next, lift, mret, M_ret.
  simpl. destruct (hmac_key_file (w_db w)) as [raw|] eqn:E.
  - repeat case_match; simplify_eq/=; apply store_rel_db; simpl; auto.
  - repeat case_match; simplify_eq/=; try (apply store_rel_db; simpl; by auto).
    all: split; simpl; try done; try lia; by rewrite E.
Qed.

Lemma shelf_run op : calm_op op = true -> keeps shelf_kept (StoreProps.run_op op).
Proof.
  pose proof shelf_hmac_key. intros Hop.
  destruct op as [u|cs|id n|id p|id np ns nh k|id| |st| | |l| |s h k]; simpl in *; try discriminate Hop.
  all: unfold Store.load_ctap2_credentials, Store.load_row, Store.check_integrity, Store.load_client_pin_state,
    Store.save_client_pin_state, Store.delete_client_pin_state, Store.load_default_pcr_policy,
    Store.load_daemon_passphrase, Store.open_database, Store.io.
  all: store_walk ltac:(first [apply shelf_get | apply shelf_update; done]).
Qed.

(** No counter is set either. *)
Definition calm_world (w w' : World) : Prop := within nothing w w' /\ shelf_kept w w'.

#[export] Instance calm_world_store : StoreRel calm_world.
Proof.
  split; [split|].
  - intros w. split; reflexivity.
  - intros a b c [] []. split; by etrans.
  - intros w w' Hw Ht. split; by apply store_rel_db.
Qed.

Lemma calm_run op : calm_op op = true -> keeps calm_world (StoreProps.run_op op).
Proof. intros Hop w. split; [apply steady_run; by destruct op|by apply shelf_run]. Qed.
End calm.

(** ** What memory and store have in common *)

(** A credential without its policy and its recovery slot, which management
    connections renew in the store behind the daemon's back, and without its
    integrity code. *)
Definition core (c : StoredCtap2Credential) : StoredCtap2Credential :=
  {| s_id := s_id c; s_rp_id := s_rp_id c; s_discoverable := s_discoverable c;
     s_user_id := s_user_id c; s_user_handle := s_user_handle c; s_user_name := s_user_name c;
     s_user_display_name := s_user_display_name c; s_key := s_key c; s_policy := None;
     s_recovery := None; s_sign_count := s_sign_count c; s_integrity_mac := None |}.

Definition memory_core (s : St) : list StoredCtap2Credential :=
  (fun c => core (stored_of_credential c)) <$> credentials (auth s).

Section mirror.
Context {pf : Platform} {hp : Healthy} {cr : Crypto} {codec : CborCodec}.
Context {es : Esapi} {er : EsapiReturns} {sc : StoreCodec} {sl : StoreCodecLaws}.
Context (oc : bool) (key : bytes) (Hlen : length key = 32%nat) (u : Z).

(** The store holds [cs], all of user [u], and memory the same, perhaps in another
    order and with older policies. *)
Record mirrored (cs : list StoredCtap2Credential) (s : St) : Prop := {
  mi_shelf : shelved key (w_db (world s)) cs;
  mi_core : core <$> cs ≡ₚ memory_core s;
  mi_storable : Forall (fun c => storable (stored_of_credential c)) (credentials (auth s));
  mi_owner : Forall (fun c => c_user_id c = Some u) (credentials (auth s));
  mi_passphrase : passphrase_ok (daemon_config (w_db (world s)));
  mi_user : 0 <= u < 2 ^ 32 /\ Session.uid (session (auth s)) = Some u }.

(** As long as no id was drawn twice, no two credentials have the same id and the
    store mirrors the memory. *)
Record mirror (s : St) : Prop := {
  mr_tracked : tracked [] none s;
  mr_mirrored : distinct_draws (w_tick (world s)) -> exists cs, mirrored cs s }.

(** What neither changes credentials nor the tables. *)
Definition rests (s s' : St) : Prop := same_creds s s' /\ calm_world (world s) (world s').

#[local] Instance rests_preorder : PreOrder rests.
Proof.
  split.
  - intros s. split; reflexivity.
  - intros a b c [] []. split; by etrans.
Qed.

Lemma rests_same {E A} (m : M St E A) : keeps same_creds m -> keeps (on_st calm_world) m -> keeps rests m.
Proof. intros Hc Hw s. split; [apply Hc|apply Hw]. Qed.

Lemma shelved_kept w w' cs : shelf_kept w w' -> shelved key (w_db w) cs -> shelved key (w_db w') cs.
Proof.
  intros [] []. split; auto.
  - eapply StoreProps.db_wf_same; [..|done]; by symmetry.
  - unfold represents in *. rewrite sk_metadata0. eapply Forall2_impl; [done|].
    intros m c [-> [n Hj]]. split; [done|]. exists n. rewrite <- Hj. unfold Store.joined_of. by rewrite sk_keyslots0, sk_tokens0.
Qed.

Lemma rests_settles s s' : rests s s' -> settles s s'.
Proof. intros [Hc [Hw _]]. by apply settles_creds. Qed.

Lemma mirror_rests s s' : rests s s' -> mirror s -> mirror s'.
Proof.
  intros Hr [Ht Hm]. pose proof (rests_settles _ _ Hr) as Hse. split; [by eapply tracked_settles|].
  intros Hd. destruct Hm as [cs []]; [eapply distinct_draws_le; [apply Hse|done]|].
  destruct Hr as [[Hc Hs] [_ Hk]]. exists cs. split; [by eapply shelved_kept|..]; unfold memory_core; rewrite ?Hc, ?Hs; try done.
  by rewrite (sk_config _ _ Hk).
Qed.

#[local] Instance mirror_preorder : PreOrder (inv_rel mirror).
Proof. apply inv_rel_preorder. Qed.
Abbreviation keeps_mirror := (keeps (inv_rel mirror)).

Lemma rests_mirror {E A} (m : M St E A) : keeps rests m -> keeps_mirror m.
Proof. intros Hm s Hs. eapply mirror_rests; [apply Hm|exact Hs]. Qed.

(** The ids of the store are those of memory, each once. *)
Lemma mirrored_ids cs s : mirrored cs s -> s_id <$> cs ≡ₚ c_id <$> credentials (auth s).
Proof.
  intros Hm. pose proof (Permutation_map s_id (mi_core _ _ Hm)) as H. unfold memory_core in H.
  change (s_id <$> (core <$> cs) ≡ₚ s_id <$> ((fun c => core (stored_of_credential c)) <$> credentials (auth s))) in H.
  by rewrite <- !list_fmap_compose in H.
Qed.

(** ** One operation of the store *)

Lemma shelf_step op b cs cs' w : shelved key (w_db w) cs -> rearranges key (StoreProps.run_op op) (w_db w) b cs' ->
  exists r w', StoreProps.run_op op w = (r, w') /\ outcome r b /\ shelved key (w_db w') cs' /\
    daemon_config (w_db w') = daemon_config (w_db w).
Proof.
  intros Hs (r & d' & Hr & Ho & (_ & _ & _ & Hc) & Hs'). destruct (Hr w eq_refl) as [t E]. eexists r, _.
  split_and!; [exact E|done|..]; simpl; [|done]. apply Hs'. eapply op_runs_wf; [exact Hr|apply Hs].
Qed.

Lemma call_run {E A} (m : M World string A) s r w :
  m (world s) = (r, w) -> r <> Panic -> (call m : M St E _) s = (Ok r, set_world w s).
Proof. unfold call, on_world, attempt. intros ->. by destruct r. Qed.

Lemma outcome_returns r b : outcome r b -> r <> Panic.
Proof. destruct b; simpl; [by intros ->|by intros [? ->]]. Qed.

(** ** Saving *)

(** Memory can be saved, whatever the store holds. *)
Record ready (s : St) : Prop := {
  rd_shelf : exists cs, shelved key (w_db (world s)) cs;
  rd_nodup : NoDup (c_id <$> credentials (auth s));
  rd_storable : Forall (fun c => storable (stored_of_credential c)) (credentials (auth s));
  rd_owner : Forall (fun c => c_user_id c = Some u) (credentials (auth s));
  rd_passphrase : passphrase_ok (daemon_config (w_db (world s)));
  rd_user : 0 <= u < 2 ^ 32 /\ Session.uid (session (auth s)) = Some u }.

Lemma mirrored_ready cs s : tracked [] none s -> distinct_draws (w_tick (world s)) -> mirrored cs s -> ready s.
Proof. intros Ht Hd []. split; try done; [by exists cs|]. by destruct (proj2 Ht Hd). Qed.

Lemma ready_save {E} s : ready s ->
  mirrored (stored_of_credential <$> credentials (auth s)) ((save_credentials : M St E unit) s).2.
Proof.
  intros [[cs Hs] Hn Hst Ho Hp Hu]. set (cs' := stored_of_credential <$> credentials (auth s)).
  destruct (shelf_step (StoreProps.SaveCredentials cs') true cs cs' (world s) Hs) as (r & w & E1 & Hr & Hs' & Hc).
  { apply (shelf_save key Hlen _ cs); [done|by apply Forall_fmap|]. unfold cs'. by rewrite <- list_fmap_compose. }
  unfold save_credentials. rewrite (bind_run_Ok (field credentials) _ s _ s eq_refl).
  change (map stored_of_credential (credentials (auth s))) with cs'.
  rewrite (bind_run_Ok _ _ _ _ _ (call_run _ s r w E1 (outcome_returns _ _ Hr))). simpl.
  split; simpl; try done.
  - unfold memory_core, cs'. simpl. by rewrite <- list_fmap_compose.
  - by rewrite Hc.
Qed.

Lemma mirror_save {E} : keeps_mirror (save_credentials : M St E unit).
Proof.
  intros s [Ht Hm]. pose proof (settles_save (E := E) s) as Hse. split; [by eapply tracked_settles|].
  intros Hd. eexists. apply ready_save. assert (distinct_draws (w_tick (world s))) as Hd0
    by (eapply distinct_draws_le; [apply Hse|done]).
  destruct (Hm Hd0) as [cs Hcs]. by eapply mirrored_ready.
Qed.

(** ** Counting *)

Lemma amend_core id n (cs : list StoredCtap2Credential) :
  core <$> (amend id (StoreUpdates.with_sign_count n) <$> cs) = amend id (StoreUpdates.with_sign_count n) <$> (core <$> cs).
Proof.
  rewrite <- !list_fmap_compose. apply list_fmap_ext. intros _ c _. unfold amend. simpl. by case_bool_decide.
Qed.

Lemma alter_amend l i c n : l !! i = Some c -> NoDup (c_id <$> l) ->
  (fun c => core (stored_of_credential c)) <$> alter (Ctap2Types.with_sign_count n) i l =
  amend (c_id c) (StoreUpdates.with_sign_count n) <$> ((fun c => core (stored_of_credential c)) <$> l).
Proof.
  intros Hi Hn. rewrite <- list_fmap_compose. apply list_eq. intros j. rewrite !list_lookup_fmap.
  destruct (decide (i = j)) as [<-|Hj].
  - rewrite list_lookup_alter_eq, Hi. simpl. unfold amend. simpl. by rewrite bool_decide_eq_true_2.
  - rewrite list_lookup_alter_ne by done. destruct (l !! j) as [c'|] eqn:E; [|done]. simpl. unfold amend. simpl.
    rewrite bool_decide_eq_false_2; [done|]. intros Hid. apply Hj. eapply NoDup_lookup; [exact Hn|..];
      rewrite list_lookup_fmap; [by rewrite Hi|rewrite E; simpl; by rewrite Hid].
Qed.

Lemma mirrored_known cs s i c : mirrored cs s -> credentials (auth s) !! i = Some c -> known (c_id c) cs = true.
Proof.
  intros Hm Hi. apply bool_decide_eq_true. rewrite (mirrored_ids _ _ Hm). apply list_elem_of_fmap.
  exists c. split; [done|]. by eapply list_elem_of_lookup_2.
Qed.

(** The store counts an assertion, then memory does. *)
Lemma mirrored_count cs s i c n :
  mirrored cs s -> NoDup (c_id <$> credentials (auth s)) -> credentials (auth s) !! i = Some c -> 0 <= n < 2 ^ 32 ->
  exists w, Store.update_ctap2_sign_count (c_id c) n (world s) = (Ok tt, w) /\
    mirrored (amend (c_id c) (StoreUpdates.with_sign_count n) <$> cs)
      (set_auth (set_credentials (alter (Ctap2Types.with_sign_count n) i (credentials (auth s))) (auth s))
        (set_world w s)).
Proof.
  intros Hm Hnd Hi Hn. pose proof Hm as [Hs Hc Hst Ho Hp Hu].
  destruct (shelf_step (StoreProps.UpdateSignCount (c_id c) n) _ cs _ (world s) Hs
    (shelf_sign_count key _ cs Hs (c_id c) n Hn)) as (r & w & E1 & Hr & Hs' & Hcf).
  rewrite (mirrored_known cs s i c Hm Hi) in Hr. simpl in Hr. subst r. exists w. split; [exact E1|].
  split; simpl; try done.
  - rewrite amend_core. unfold memory_core. simpl. rewrite (alter_amend _ _ c) by done.
    by apply fmap_Permutation.
  - apply Forall_alter; [done|]. intros c' _ []. by split.
  - by apply Forall_alter.
  - by rewrite Hcf.
Qed.

Lemma tracked_less L L' F s : (forall p, p ∈ L -> p ∈ L') -> tracked L' F s -> tracked L F s.
Proof.
  intros HL [H0 Ht]. split; [done|]. intros Hd. destruct (Ht Hd) as [W N D R X K]. split; auto; intros p; rewrite elem_of_app; intros Hp.
  - apply D, elem_of_app. naive_solver.
  - apply X, elem_of_app. naive_solver.
Qed.

Lemma logs_tracked m s : logs m -> tracked [] none s -> tracked [] none (m s).2.
Proof.
  intros Hl Ht. specialize (Hl [] s Ht). destruct (m s) as [[r| |] s']; [|done..].
  destruct Hl as (id & k & _ & _ & Ht'). eapply tracked_less; [|exact Ht']. by intros p ?%not_elem_of_nil.
Qed.

(** Calls to the outside are never taken back. *)
Definition anything : bytes * Z -> Prop := fun _ => True.
Lemma anything_op op : daemon_op op = true -> keeps (within anything) (StoreProps.run_op op).
Proof. intros _. by apply within_op. Qed.

Lemma rests_sign k p a d : keeps rests (sign_credential oc k p a d).
Proof. apply rests_same; [eauto with keeps|]. apply (world_sign _ oc calm_op); auto using calm_run. Qed.

Lemma mirror_assert_with i h v total : keeps_mirror (assert_with oc i h v total).
Proof.
  intros s Hs. pose proof Hs as [Ht Hm]. split; [by apply logs_tracked; [apply logs_assert_with|]|].
  unfold assert_with. destruct (credentials (auth s) !! i) as [c|] eqn:Hi.
  2:{ unfold credential_at, mbind, M_bind. simpl. rewrite Hi. exact Hm. }
  rewrite (bind_run_Ok (credential_at i) _ s c s)
    by (unfold credential_at, mbind, M_bind; simpl; by rewrite Hi).
  set (n := saturating_add (c_sign_count c) 1). set (data := make_auth_data _ _ _ _ _).
  pose proof (rests_sign (c_key c) (c_policy c) (c_recovery c) (data ++ h) s) as Hr.
  unfold mbind, M_bind, attempt.
  destruct (sign_credential oc (c_key c) (c_policy c) (c_recovery c) (data ++ h) s) as [r s1]. simpl in Hr.
  pose proof (mirror_rests _ _ Hr Hs) as [Ht1 Hm1]. destruct r as [sig|e|]; [|exact Hm1..].
  pose proof (anything_op (StoreProps.UpdateSignCount (c_id c) n) eq_refl (world s1)) as [Htick _ _].
  unfold or_fail, call, on_world, mbind, M_bind, attempt. simpl in Htick |- *.
  destruct (Store.update_ctap2_sign_count (c_id c) n (world s1)) as [r w] eqn:E. simpl in Htick.
  assert (distinct_draws (w_tick w) -> exists cs, r = Ok tt /\ mirrored (amend (c_id c) (StoreUpdates.with_sign_count n) <$> cs)
      (set_auth (set_credentials (alter (Ctap2Types.with_sign_count n) i (credentials (auth s1))) (auth s1))
        (set_world w s1))) as Hpost.
  { intros Hd. assert (distinct_draws (w_tick (world s1))) as Hd1 by (by eapply distinct_draws_le).
    destruct (Hm1 Hd1) as [cs Hcs]. destruct Hr as [[Hc _] _]. rewrite <- Hc in Hi.
    assert (storable (stored_of_credential c)) as [_ _ _ Hcnt _].
    { pose proof (mi_storable _ _ Hcs) as Hst. rewrite Forall_forall in Hst. by eapply Hst, list_elem_of_lookup_2. }
    destruct (mirrored_count cs s1 i c n Hcs) as (w' & E' & Hmir); [by destruct (proj2 Ht1 Hd1)|done| |].
    { simpl in Hcnt. unfold n, saturating_add, u32_max. lia. }
    rewrite E in E'. simplify_eq. by exists cs. }
  destruct r as [[]|e|]; simpl; intros Hd; destruct (Hpost Hd) as (cs & Er & Hmir); [|done..]. by eexists.
Qed.

(** ** Loading *)

Lemma mirrored_owner cs s : mirrored cs s -> Forall (fun c => s_user_id c = Some u) cs.
Proof.
  intros Hm. assert (Forall (fun c => s_user_id c = Some u) (core <$> cs)) as H; [|by apply Forall_fmap in H].
  rewrite (mi_core _ _ Hm). apply Forall_fmap, (mi_owner _ _ Hm).
Qed.

(** What a start or an assertion reads back. *)
Definition reread (cs : list StoredCtap2Credential) : list Credential :=
  credential_of_stored <$> loaded key (Some u) cs.

Lemma load_shelved {E} w cs : shelved key (w_db w) cs -> Forall (fun c => s_user_id c = Some u) cs ->
  exists w', (load_credentials_from_disk (Some u) : M World E _) w = (Ok (reread cs), w') /\ w_db w' = w_db w.
Proof.
  intros [] Ho. destruct (runs_load_represented key (Some u) (w_db w) cs) with (w := w) as [t Hl]; try done.
  { eapply Forall_impl; [exact Ho|]. intros c Hc. right. by rewrite Hc. }
  unfold load_credentials_from_disk, mbind, M_bind, attempt. rewrite Hl. by eexists.
Qed.

Lemma visible_all cs : Forall (fun c => s_user_id c = Some u) cs -> List.filter (visible_to (Some u)) cs = cs.
Proof.
  induction 1 as [|c cs Hc _ IH]; simpl; [done|]. rewrite IH. unfold visible_to. by rewrite Hc, Z.eqb_refl.
Qed.

Lemma reread_perm cs : Forall (fun c => s_user_id c = Some u) cs ->
  reread cs ≡ₚ credential_of_stored <$> cs.
Proof.
  intros Ho. unfold reread, loaded. rewrite visible_all, <- list_fmap_compose by done.
  etrans; [apply fmap_Permutation, sort_by_perm|]. reflexivity.
Qed.

(** Memory after a load, from the same store. *)
Lemma mirrored_load cs a w :
  shelved key (w_db w) cs -> Forall (fun c => s_user_id c = Some u) cs ->
  passphrase_ok (daemon_config (w_db w)) -> 0 <= u < 2 ^ 32 -> Session.uid (session a) = Some u ->
  credentials a = reread cs -> mirrored cs {| auth := a; world := w |}.
Proof.
  intros Hs Ho Hp Hu Hse Hc. split; simpl; try done; unfold memory_core; simpl; rewrite ?Hc, ?(reread_perm cs Ho).
  - by rewrite <- list_fmap_compose.
  - apply Forall_fmap. eapply Forall_impl; [apply Hs|]. intros c []. by split.
  - by apply Forall_fmap.
Qed.

Lemma mirror_load {E} : keeps_mirror (uid ← session_uid; cs ← on_world (load_credentials_from_disk uid);
  (update (set_credentials cs) : M St E unit)).
Proof.
  intros s [Ht Hm]. unfold session_uid. rewrite (bind_run_Ok (field _) _ s _ s eq_refl).
  set (uid := Session.uid (session (auth s))). pose proof (settles_load (E := E) uid s) as Hse.
  split; [by eapply tracked_settles|]. intros Hd.
  destruct Hm as [cs Hcs]; [eapply distinct_draws_le; [apply Hse|done]|]. exists cs.
  pose proof Hcs as [Hs _ _ _ Hp [Hu Huid]]. unfold uid. rewrite Huid.
  destruct (load_shelved (E := E) (world s) cs Hs (mirrored_owner _ _ Hcs)) as (w & El & Ew).
  unfold on_world, mbind, M_bind. rewrite El. simpl.
  apply mirrored_load; simpl; try done; rewrite ?Ew; [done|by eapply mirrored_owner|done].
Qed.

(** ** Deleting *)

Definition without (id : bytes) (cs : list StoredCtap2Credential) : list StoredCtap2Credential :=
  List.filter (fun c => negb (bool_decide (s_id c = id))) cs.

Lemma without_perm id cs cs' : cs ≡ₚ cs' -> without id cs ≡ₚ without id cs'.
Proof.
  unfold without. induction 1 as [|c cs cs' _ IH|c c' cs|cs1 cs2 cs3 _ IH1 _ IH2]; simpl; [done|..].
  - case_bool_decide; simpl; by rewrite IH.
  - repeat case_bool_decide; simpl; try done. constructor.
  - by etrans.
Qed.

Lemma core_without id cs : core <$> without id cs = without id (core <$> cs).
Proof.
  unfold without. induction cs as [|c cs IH]; csimpl; [done|]. case_bool_decide; csimpl; by rewrite IH.
Qed.

Lemma without_fresh id cs : id ∉ s_id <$> cs -> without id cs = cs.
Proof.
  unfold without. induction cs as [|c cs IH]; simpl; [done|]. intros [Hc Hcs]%not_elem_of_cons.
  rewrite bool_decide_eq_false_2 by congruence. simpl. by rewrite IH.
Qed.

Lemma without_first c cs : without (s_id c) (c :: cs) = without (s_id c) cs.
Proof. unfold without. simpl. by rewrite bool_decide_eq_true_2. Qed.

Lemma delete_without l i c : l !! i = Some c -> NoDup (c_id <$> l) ->
  (fun c => core (stored_of_credential c)) <$> delete i l =
  without (c_id c) ((fun c => core (stored_of_credential c)) <$> l).
Proof.
  revert i. induction l as [|c1 l IH]; intros [|i] Hi Hn; simplify_eq/=; apply NoDup_cons in Hn as [Hc Hn].
  - rewrite bool_decide_eq_true_2 by done. simpl. fold (without (c_id c)). symmetry. apply without_fresh.
    by rewrite <- list_fmap_compose.
  - rewrite bool_decide_eq_false_2; [simpl; f_equal; by apply IH|]. intros E. apply Hc.
    rewrite E. apply list_elem_of_fmap. exists c. split; [done|]. by eapply list_elem_of_lookup_2.
Qed.

Lemma shelf_without cs id w : shelved key (w_db w) cs -> known id cs = true ->
  exists w', Store.delete_ctap2_credential id w = (Ok tt, w') /\ shelved key (w_db w') (without id cs) /\
    daemon_config (w_db w') = daemon_config (w_db w).
Proof.
  intros Hs Hk. destruct (shelf_step (StoreProps.DeleteCredential id) _ cs _ w Hs (shelf_delete key _ cs Hs id))
    as (r & w' & E & Hr & Hs' & Hc). rewrite Hk in Hr. simpl in Hr. subst r. eauto.
Qed.

(** The store forgets a credential, then memory does. *)
Lemma mirrored_delete cs s i c :
  mirrored cs s -> NoDup (c_id <$> credentials (auth s)) -> credentials (auth s) !! i = Some c ->
  exists w, Store.delete_ctap2_credential (c_id c) (world s) = (Ok tt, w) /\
    mirrored (without (c_id c) cs)
      (set_auth (set_credentials (delete i (credentials (auth s))) (auth s)) (set_world w s)).
Proof.
  intros Hm Hnd Hi. pose proof Hm as [Hs Hc Hst Ho Hp Hu].
  destruct (shelf_without cs (c_id c) (world s) Hs (mirrored_known _ _ _ _ Hm Hi)) as (w & E & Hs' & Hcf).
  exists w. split; [done|]. split; simpl; try done.
  - rewrite core_without. unfold memory_core. simpl. rewrite (delete_without _ _ c) by done. by apply without_perm.
  - by apply Forall_delete.
  - by apply Forall_delete.
  - by rewrite Hcf.
Qed.

(** A reset forgets them all. *)
Lemma delete_all_shelved {E} l : forall cs s,
  shelved key (w_db (world s)) cs -> core <$> cs ≡ₚ (fun c => core (stored_of_credential c)) <$> l ->
  NoDup (c_id <$> l) ->
  exists w, (delete_all_credentials l : M St E unit) s = (Ok tt, set_world w s) /\
    shelved key (w_db w) [] /\ daemon_config (w_db w) = daemon_config (w_db (world s)).
Proof.
  induction l as [|c l IH]; intros cs s Hs Hc Hn; simpl in *.
  - apply Permutation_nil_r, fmap_nil_inv in Hc as ->. exists (world s). split; [by destruct s|done].
  - apply NoDup_cons in Hn as [Hfresh Hn].
    destruct (shelf_without cs (c_id c) (world s) Hs) as (w & E1 & Hs' & Hcf).
    { apply bool_decide_eq_true. assert (s_id <$> cs = s_id <$> (core <$> cs)) as ->
        by (by rewrite <- list_fmap_compose). rewrite Hc. simpl. left. }
    rewrite (bind_run_Ok _ _ _ _ _ (call_run _ s (Ok tt) w E1 ltac:(done))).
    destruct (IH (without (c_id c) cs) (set_world w s)) as (w2 & E2 & Hs2 & Hcf2); [done| |done|].
    + rewrite core_without, (without_perm _ _ _ Hc). change (c_id c) with (s_id (core (stored_of_credential c))).
      rewrite without_first, without_fresh; [done|].
      by rewrite <- list_fmap_compose.
    + exists w2. split_and!; [by rewrite E2|done|]. by rewrite Hcf2.
Qed.

(** ** The handlers that change credentials *)

Lemma mirror_delete params : keeps_mirror (delete_credential params).
Proof.
  unfold delete_credential. do 2 (apply keeps_bind; [apply _|apply keeps_lift, _|intro]).
  rename a0 into id. intros s Hs. pose proof Hs as [Ht Hm].
  match goal with |- mirror (?m s).2 => assert (keeps settles m) as Hse end.
  { pose proof steady_delete. unfold or_fail, call. settles_walk. }
  specialize (Hse s). split; [by eapply tracked_settles|]. revert Hse.
  rewrite (bind_run_Ok (field credentials) _ s _ s eq_refl).
  destruct (position (is_discoverable_id id) (credentials (auth s))) as [i|] eqn:Hpos; [|done].
  apply position_Some in Hpos as (c & Hi & Hd & _). unfold is_discoverable_id in Hd. bools. subst id.
  cbn [ok_or]. rewrite (bind_run_Ok (lift (Ok i)) _ s i s eq_refl). intros Hse Hdr.
  assert (distinct_draws (w_tick (world s))) as Hd0 by (eapply distinct_draws_le; [apply Hse|done]).
  destruct (Hm Hd0) as [cs Hcs]. destruct (mirrored_delete cs s i c Hcs) as (w & E & Hmir); [by destruct (proj2 Ht Hd0)|done|].
  exists (without (c_id c) cs). unfold or_fail, mbind, M_bind.
  rewrite (call_run _ s (Ok tt) w E) by done. simpl. by destruct Hmir.
Qed.

(** What does not touch credentials, as a walk over its calls. *)
Ltac rests_walk :=
  apply rests_mirror, rests_same;
  [ handler_walk ltac:(done)
  | store_walk ltac:(first
      [ apply on_st_update, _ | apply on_st_world | store_op_with calm_world (calm_run (sc := sc)) ]) ].

Lemma mirror_approved {E} rp : keeps_mirror (assertion_approved rp : M St E bool).
Proof. apply rests_mirror, rests_same; [eauto with keeps|apply world_approved, _]. Qed.
Lemma mirror_update {E} f :
  (forall a, credentials (f a) = credentials a /\ session (f a) = session a) ->
  keeps_mirror (update f : M St E unit).
Proof.
  intros Hf. apply rests_mirror, rests_same; [|apply on_st_update, _].
  apply keeps_update. intros s. destruct (Hf (auth s)). by split.
Qed.
#[local] Hint Resolve mirror_approved mirror_save mirror_assert_with mirror_delete : keeps.

Ltac mirror_walk :=
  keeps_walk ltac:(idtac; lazymatch goal with
    | |- keeps _ (update _) => by apply mirror_update
    | |- keeps _ (_ ≫= _) => fail
    | |- keeps _ _ => solve [rests_walk]
    end).

Lemma mirror_reset : keeps_mirror reset.
Proof.
  unfold reset, deny_if, call.
  do 2 (apply keeps_bind; [apply _|mirror_walk|intro]). apply keeps_bind; [apply _|mirror_walk|intros pin].
  apply keeps_bind; [apply _|destruct pin; mirror_walk|intros _]. intros s Hs. pose proof Hs as [Ht Hm].
  match goal with |- mirror (?m s).2 => assert (keeps settles m) as Hse end.
  { assert (forall cs, keeps settles (delete_all_credentials cs : M St ErrorStatus unit)) as Hd.
    { intros cs. induction cs; simpl; unfold call; settles_walk. }
    assert (keeps settles (update (set_credentials []) : M St ErrorStatus unit)) as Hu.
    { apply settles_credentials. intros a'. apply sublist_nil_l. }
    settles_walk. }
  specialize (Hse s). split; [by eapply tracked_settles|]. revert Hse.
  rewrite (bind_run_Ok (field credentials) _ s _ s eq_refl). intros Hse Hdr.
  assert (distinct_draws (w_tick (world s))) as Hd0 by (eapply distinct_draws_le; [apply Hse|done]).
  destruct (Hm Hd0) as [cs [Hs' Hc Hst Ho Hp Hu]].
  destruct (delete_all_shelved (E := ErrorStatus) (credentials (auth s)) cs s Hs' Hc) as (w & E & Hw & Hcf);
    [by destruct (proj2 Ht Hd0)|].
  exists []. rewrite (bind_run_Ok _ _ _ _ _ E). split; simpl; try done. by rewrite Hcf.
Qed.

Lemma mirror_update_user params : keeps_mirror (update_user_information params).
Proof.
  unfold update_user_information. do 3 (apply keeps_bind; [apply _|apply keeps_lift, _|intro]).
  apply keeps_bind; [apply _|mirror_walk|intros cs0]. apply keeps_bind; [apply _|apply keeps_lift, _|intros i].
  set (f := fun c => with_user _ _ _ c). intros s Hs. pose proof Hs as [Ht Hm].
  match goal with |- mirror (?m s).2 => assert (keeps settles m) as Hse end.
  { keeps_walk ltac:(first [by apply steady_alter | progress settles_walk]). }
  specialize (Hse s). split; [by eapply tracked_settles|]. intros Hdr.
  assert (distinct_draws (w_tick (world s))) as Hd0 by (eapply distinct_draws_le; [apply Hse|done]).
  clear Hse Hdr. destruct (Hm Hd0) as [cs Hcs]. destruct (mirrored_ready cs s Ht Hd0 Hcs) as [Hsh Hn Hst Ho Hp Hu].
  set (s1 := set_auth (set_credentials (alter f i (credentials (auth s))) (auth s)) s).
  assert (ready s1) as Hr.
  { split; simpl; try done.
    - by rewrite fmap_alter_same.
    - apply Forall_alter; [done|]. intros c _ []. by split.
    - by apply Forall_alter. }
  pose proof (ready_save (E := ErrorStatus) s1 Hr) as Hmir. rewrite (bind_run_Ok (update (fun a => set_credentials (alter f i (credentials a)) a)) _ s tt s1 eq_refl).
  unfold save_credentials, mbind, M_bind in Hmir |- *. simpl in Hmir |- *.
  destruct (call (Store.save_ctap2_credentials (map stored_of_credential (alter f i (credentials (auth s))))) s1)
    as [[r|e|] s2]; simpl in *; eexists; [destruct Hmir; split; eassumption|exact Hmir|exact Hmir].
Qed.

(** ** Registration *)

(** Between the requests of a registration: no credential has an id of [F], and
    [fact] is known, unless an id was drawn twice. *)
Record pre (F : bytes -> Prop) (fact : Prop) (s : St) : Prop := {
  pre_fresh : tracked [] F s;
  pre_mirror : mirror s;
  pre_fact : distinct_draws (w_tick (world s)) -> fact }.

Lemma pre_rests {E A} F fact (m : M St E A) : keeps rests m -> keeps (inv_rel (pre F fact)) m.
Proof.
  intros Hm s [Hf Hi Hd]. specialize (Hm s). pose proof (rests_settles _ _ Hm) as Hse.
  split; [by eapply tracked_settles|by eapply mirror_rests|].
  intros Hd'. apply Hd. eapply distinct_draws_le; [apply Hse|done].
Qed.

Lemma into_rests {E A B} F fact (m : M St E A) (k : A -> M St E B) :
  keeps rests m -> (forall a, into (pre F fact) mirror (k a)) -> into (pre F fact) mirror (m ≫= k).
Proof. intros Hm. apply into_bind; [by intros s []|by apply pre_rests]. Qed.

(** A call that says something. *)
Lemma into_learn {E A B} F fact (learnt : A -> Prop) (m : M St E A) (k : A -> M St E B) :
  keeps rests m ->
  (forall s a s', m s = (Ok a, s') -> mirror s -> fact -> distinct_draws (w_tick (world s)) -> learnt a) ->
  (forall a, into (pre F (fact /\ learnt a)) mirror (k a)) -> into (pre F fact) mirror (m ≫= k).
Proof.
  intros Hm Hl Hk s Hs. pose proof (pre_rests F fact m Hm s Hs) as [Hf Hi Hd]. specialize (Hm s).
  unfold mbind, M_bind. destruct (m s) as [[a|e|] s1] eqn:E1; simpl in *; [|done..].
  apply Hk. split; [done..|]. intros Hd'. split; [auto|]. destruct Hs as [_ Hs Hfact].
  assert (distinct_draws (w_tick (world s))) by (eapply distinct_draws_le; [apply rests_settles, Hm|done]).
  by eapply Hl; eauto.
Qed.

Lemma rests_fill_random {E} n : keeps rests (fill_random n : M St E bytes).
Proof. apply rests_same; [unfold fill_random; handler_walk ltac:(done)|apply world_fill_random, _]. Qed.

Lemma into_draw {E A} fact (k : bytes -> M St E A) :
  (forall id, into (pre (eq id) fact) mirror (k id)) -> into (pre none fact) mirror (fill_random 32 ≫= k).
Proof.
  intros Hk s Hs. pose proof (pre_rests none fact _ (rests_fill_random (E := E) 32) s Hs) as [_ Hi Hd].
  unfold mbind, M_bind. destruct (fill_random 32 s) as [[id|e|] s1] eqn:Hf; simpl in *; [|done..].
  apply Hk. split; [|done|done]. eapply tracked_draw; [exact Hf|apply Hs].
Qed.

(** A new credential is added to memory, then memory is saved. *)
Lemma into_save {A} fact id c (x : A) :
  cred_count c = (id, 0) -> (fact -> storable (stored_of_credential c) /\ c_user_id c = Some u) ->
  into (pre (eq id) fact) mirror
    (_ ← update (fun a => set_credentials (credentials a ++ [c]) a); _ ← save_credentials; (mret x : M St ErrorStatus A)).
Proof.
  intros Hid Hc s [Hf Hi Hd]. set (s1 := set_auth (set_credentials (credentials (auth s) ++ [c]) (auth s)) s).
  assert (tracked [] none s1) as Ht1 by (by apply (into_push (E := ErrorStatus) [] id c Hid s)).
  rewrite (bind_run_Ok (update (fun a => set_credentials (credentials a ++ [c]) a)) _ s tt s1 eq_refl).
  pose proof (settles_save (E := ErrorStatus) s1) as Hse.
  assert (distinct_draws (w_tick (world s1)) -> ready s1) as Hready.
  { intros Hdr. destruct (mr_mirrored _ Hi Hdr) as [cs [Hs Hco Hst Ho Hp Hu]]. destruct (Hc (Hd Hdr)).
    split; simpl; try done; [by exists cs|by destruct (proj2 Ht1 Hdr)|..]; (apply Forall_app; split; [done|by constructor]). }
  assert (mirror ((save_credentials : M St ErrorStatus unit) s1).2) as Hm.
  { split; [by eapply tracked_settles|]. intros Hdr. eexists. apply ready_save, Hready.
    eapply distinct_draws_le; [apply Hse|done]. }
  unfold mbind at 1, M_bind at 1. by destruct (save_credentials s1) as [[] s2].
Qed.

Lemma mirror_validate p a m pe rp : keeps_mirror (validate_pin_uv_auth p a m pe rp).
Proof. apply rests_mirror, rests_same; [apply same_creds_validate|apply world_validate, _]. Qed.
Lemma rests_ensure_tpm {E} : keeps rests (ensure_tpm oc : M St E _).
Proof. apply rests_same; [eauto with keeps|]. apply (world_ensure_tpm _ oc calm_op); auto using calm_run. Qed.
Lemma rests_key_material t o i p : keeps rests (create_key_material t o i p).
Proof. apply rests_same; [eauto with keeps|]. apply world_key_material, _. Qed.
#[local] Hint Resolve mirror_validate : keeps.

(** The passphrase that is loaded can be stored with a recovery slot. *)
Lemma passphrase_learnt s r s' :
  (call Store.load_daemon_passphrase : M St ErrorStatus _) s = (Ok r, s') -> mirror s ->
  distinct_draws (w_tick (world s)) -> forall salt hash k, r = Ok (Some (salt, hash, k)) -> phc_ok salt hash.
Proof.
  intros (w & Hl & _ & _)%call_Ok [_ Hm] Hd salt hash k ->. destruct (Hm Hd) as [cs Hcs].
  eapply loaded_passphrase; [exact (mi_passphrase _ _ Hcs)|exact Hl].
Qed.

Lemma mirror_make body : keeps_mirror (make_credential oc body).
Proof.
  unfold make_credential, deny_if, session_matches, session_approves.
  do 14 (apply keeps_bind; [apply _|mirror_walk|intro]).
  match goal with |- keeps_mirror ?m => enough (into (pre none True) mirror m) as H end.
  { intros s Hs. apply H. split; [apply Hs|done|done]. }
  apply (into_learn none True (fun r => forall salt hash k, r = Ok (Some (salt, hash, k)) -> phc_ok salt hash)).
  { apply rests_same; [handler_walk ltac:(done)|]. unfold call.
    store_walk ltac:(first [apply on_st_world | store_op_with calm_world (calm_run (sc := sc))]). }
  { intros s r s' Hr Hs _ Hd. by eapply passphrase_learnt. }
  intros r. apply into_rests; [apply rests_ensure_tpm|]. intros [t|]; [|by intros s []].
  apply into_draw. intros id.
  apply (into_learn _ _ (fun '(k, _, material) => key_ok k /\
    forall m, material = Some m -> recovery_ok (slot_of_material m))).
  { apply rests_key_material. }
  { intros s [[k policy] material] s' Hk _ [_ Hp] _. eapply Ctap2Safe.key_material_ok; [|exact Hk].
    intros salt hash kdf E. apply (Hp salt hash kdf). by destruct r; simplify_eq. }
  intros [[k policy] material].
  apply (into_learn _ _ (fun x => x = Some u /\ 0 <= u < 2 ^ 32)).
  { apply rests_same; [apply keeps_field, _|]. intros s. unfold on_st. reflexivity. }
  { intros s x s' Hx [_ Hm] _ Hd. destruct (Hm Hd) as [cs Hcs]. destruct (mi_user _ _ Hcs) as [? <-]. by injection Hx. }
  intros x. apply into_save; [done|]. intros [[_ [Hk Hrec]] [-> Hu]]. split; [|done].
  split; simpl; try done.
  - intros r' (m & -> & ->)%fmap_Some. by apply Hrec.
  - by intros p' [= <-].
  - by intros ? [= <-].
Qed.

(** ** Every request *)

Lemma mirror_get_assertion body : keeps_mirror (get_assertion oc body).
Proof.
  unfold get_assertion, deny_if, instant_now.
  do 8 (apply keeps_bind; [apply _|mirror_walk|intro]).
  apply keeps_bind; [apply _|case_match; [apply mirror_load|mirror_walk]|intros _]. unfold session_uid. mirror_walk.
Qed.

Lemma mirror_get_next body : keeps_mirror (get_next_assertion oc body).
Proof.
  unfold get_next_assertion, deny_if, elapsed, instant_now, session_uid, session_matches. mirror_walk.
Qed.

Lemma mirror_management body : keeps_mirror (credential_management body).
Proof.
  pose proof mirror_update_user.
  unfold credential_management, expire_management, enumerate_rps_begin, enumerate_rps_next,
    enumerate_credentials_begin, enumerate_credentials_next, start_management,
    session_matches, session_uid, elapsed, instant_now, credential_at, deny_if. mirror_walk.
Qed.

Lemma mirror_client_pin body : keeps_mirror (client_pin_ body).
Proof.
  apply rests_mirror, rests_same; [|apply (world_client_pin _ calm_op); auto using calm_run].
  unfold client_pin_, set_pin, change_pin, get_pin_uv_auth_token, get_pin_uv_auth_token_using_uv,
    issue_token, authenticate_pin. handler_walk ltac:(done).
Qed.

Lemma mirror_gate c : keeps_mirror (passphrase_gate c).
Proof.
  apply rests_mirror, rests_same; [eauto with keeps|]. apply (world_passphrase_gate _ calm_op); auto using calm_run.
Qed.

Lemma mirror_clear_stale c : keeps_mirror (clear_stale c).
Proof. unfold clear_stale. mirror_walk. Qed.

Lemma mirror_dispatch c body : keeps_mirror (dispatch oc c body).
Proof.
  destruct c; cbn [dispatch]; unfold selection_, deny_if, bio_enrollment, large_blobs, Ctap2.config.
  all: first
    [ apply mirror_make | apply mirror_get_assertion | apply mirror_get_next | apply mirror_management
    | apply mirror_client_pin | apply mirror_reset | mirror_walk ].
Qed.

Lemma mirror_handle_cbor {E} payload : keeps_mirror (handle_cbor oc payload : M St E bytes).
Proof.
  unfold handle_cbor, respond.
  destruct (split_first payload) as [[c body]|]; [|apply keeps_ret, _].
  destruct (command_of_u8 c) as [c'|]; [|apply keeps_ret, _].
  apply keeps_bind; [apply _| |intros []; first [apply keeps_ret, _ | apply keeps_panic, _]].
  apply keeps_attempt. apply keeps_bind; [apply _|apply mirror_clear_stale|intros _].
  apply keeps_bind; [apply _|apply mirror_gate|intros _]. apply mirror_dispatch.
Qed.

(** ** Other threads *)

(** What may happen to the store meanwhile: the settings change, and the policies
    and the recovery slots of credentials. *)
Record others (w w' : World) : Prop := {
  ot_within : within nothing w w';
  ot_shelf cs : shelved key (w_db w) cs -> exists cs', shelved key (w_db w') cs' /\ core <$> cs' = core <$> cs;
  ot_passphrase : passphrase_ok (daemon_config (w_db w)) -> passphrase_ok (daemon_config (w_db w')) }.

#[export] Instance others_store : StoreRel others.
Proof.
  split; [split|].
  - intros w. split; [reflexivity|eauto|done].
  - intros a b c [W1 S1 P1] [W2 S2 P2]. split; [by etrans| |auto].
    intros cs (cs1 & H1 & E1)%S1. destruct (S2 cs1 H1) as (cs2 & H2 & E2). exists cs2. split; [done|congruence].
  - intros w w' Hw Ht. split; [by apply store_rel_db|rewrite <- Hw; eauto|by rewrite <- Hw].
Qed.

Lemma mirror_others s w : others (world s) w -> mirror s -> mirror (set_world w s).
Proof.
  intros [Hw Hsh Hpw] [Ht Hm]. pose proof (settles_world s w Hw) as Hse. split; [by eapply tracked_settles|].
  intros Hd. destruct Hm as [cs [Hs Hc Hst Ho Hp Hu]]; [eapply distinct_draws_le; [apply Hse|done]|].
  destruct (Hsh cs Hs) as (cs' & Hs' & E). exists cs'. split; simpl; try done; [|auto].
  rewrite E. exact Hc.
Qed.

Lemma others_calm w w' : calm_world w w' -> others w w'.
Proof.
  intros [Hw Hk]. split; [done| |].
  - intros cs Hs. exists cs. split; [by eapply shelved_kept|done].
  - by rewrite (sk_config _ _ Hk).
Qed.

Lemma amend_policy_core id p (cs : list StoredCtap2Credential) : core <$> (amend id (with_policy p) <$> cs) = core <$> cs.
Proof.
  rewrite <- list_fmap_compose. apply list_fmap_ext. intros _ c _. unfold amend. simpl. by case_bool_decide.
Qed.
Lemma amend_recovery_core id a b c k (cs : list StoredCtap2Credential) :
  core <$> (amend id (with_recovery a b c k) <$> cs) = core <$> cs.
Proof.
  rewrite <- list_fmap_compose. apply list_fmap_ext. intros _ x _. unfold amend. simpl. by case_bool_decide.
Qed.

(** An operation that succeeds or fails as [rearranges] says. *)
Lemma others_rearranges op : steady_op op = true -> daemon_op op = true ->
  (forall w cs, shelved key (w_db w) cs -> exists cs', shelved key (w_db (StoreProps.run_op op w).2) cs' /\
     core <$> cs' = core <$> cs) -> keeps others (StoreProps.run_op op).
Proof.
  intros Hst Hdm Hsh w. split; [by apply steady_run|apply Hsh|].
  pose proof (config_run_op op Hdm w) as Hc. unfold same_config in Hc. by rewrite Hc.
Qed.

(** A recovery slot that cannot be written is not updated. *)
Lemma recovery_phc id priv salt hash k w w' :
  Store.update_recovery_slot id priv salt hash k w = (Ok tt, w') -> phc_ok salt hash.
Proof.
  unfold Store.update_recovery_slot, Store.transaction. intros H.
  apply bind_Ok in H as (? & w1 & _ & H). apply bind_Ok in H as (? & w2 & _ & H).
  unfold Store.committing in H. destruct (@mbind (M World string) _ _ _ _ _ w2) as [[[]|e|] w3] eqn:Hb; simplify_eq.
  unfold Store.kdf_params_to_string in Hb. destruct k. run_inv.
  split; by destruct (salt_ok (b64_encode salt)), (output_ok hash).
Qed.

Lemma shelved_tables w w' cs :
  StoreProps.same_tables (w_db w) (w_db w') -> Ctap2Restart.pin_row_kept w w' ->
  shelved key (w_db w) cs -> shelved key (w_db w') cs.
Proof.
  intros (E1 & E2 & E3 & E4 & _ & _) [_ He Hk _] [Hwf Hx Hf Hr Hs]. split; auto.
  - by eapply StoreProps.db_wf_same.
  - unfold represents in *. rewrite <- E1. eapply Forall2_impl; [done|].
    intros m c [-> [n Hj]]. split; [done|]. exists n. rewrite <- Hj. unfold Store.joined_of. by rewrite E2, E4.
Qed.

Lemma amend_unknown id f cs : known id cs = false -> amend id f <$> cs = cs.
Proof.
  intros Hk%bool_decide_eq_false. rewrite <- (list_fmap_id cs) at 2. apply list_fmap_ext. intros i c Hc.
  unfold amend. rewrite bool_decide_eq_false_2; [done|]. intros <-. apply Hk.
  by eapply list_elem_of_fmap_2, list_elem_of_lookup_2.
Qed.

Lemma policy_renewed id p w cs : shelved key (w_db w) cs ->
  exists cs', shelved key (w_db (Store.update_ctap2_policy id p w).2) cs' /\
    match (Store.update_ctap2_policy id p w).1 with
    | Ok _ => known id cs = true /\ cs' = amend id (with_policy p) <$> cs
    | _ => cs' = cs
    end.
Proof.
  intros Hs. destruct (shelf_step (StoreProps.UpdatePolicy id p) _ cs _ w Hs (shelf_policy key _ cs Hs id p))
    as (r & w' & E & Hr & Hs' & _). simpl in E. rewrite E. eexists. split; [exact Hs'|]. simpl.
  destruct (known id cs) eqn:Hk; simpl in Hr; [by subst|]. destruct Hr as [e ->]. by apply amend_unknown.
Qed.

Lemma recovery_renewed id priv salt hash k w cs : shelved key (w_db w) cs ->
  exists cs', shelved key (w_db (Store.update_recovery_slot id priv salt hash k w).2) cs' /\
    match (Store.update_recovery_slot id priv salt hash k w).1 with
    | Ok _ => recoverable id cs = true /\ cs' = amend id (with_recovery priv salt hash k) <$> cs
    | _ => cs' = cs
    end.
Proof.
  intros Hs.
  pose proof (Ctap2Restart.kept_run_op (StoreProps.UpdateRecovery id priv salt hash k) eq_refl w) as Hkept. simpl in *.
  assert (let '(r, w') := Store.update_recovery_slot id priv salt hash k w in
    match r with Ok _ => True | _ => StoreProps.same_tables (w_db w) (w_db w') end) as Ha
    by (unfold Store.update_recovery_slot; apply StoreProps.transaction_atomic).
  destruct (Store.update_recovery_slot id priv salt hash k w) as [[[]|e|] w'] eqn:E; simpl in *;
    [|exists cs; split; [by eapply shelved_tables|done]..].
  destruct (recovery_phc _ _ _ _ _ _ _ E) as [Hsalt Hhash].
  destruct (shelf_step (StoreProps.UpdateRecovery id priv salt hash k) _ cs _ w Hs
    (shelf_recovery key Hlen _ cs Hs id priv salt hash k Hsalt Hhash)) as (r & w2 & E2 & Hr & Hs' & _).
  simpl in E2. rewrite E in E2. simplify_eq. eexists. split; [exact Hs'|]. split; [|done].
  by destruct (recoverable id cs); [|destruct Hr].
Qed.

Lemma others_policy id p : keeps others (Store.update_ctap2_policy id p).
Proof.
  apply (others_rearranges (StoreProps.UpdatePolicy id p)); [done|done|]. intros w cs Hs.
  destruct (policy_renewed id p w cs Hs) as (cs' & Hs' & Hr). exists cs'. split; [exact Hs'|].
  destruct (Store.update_ctap2_policy id p w).1; [destruct Hr as [_ ->]; apply amend_policy_core|by subst..].
Qed.

Lemma others_recovery id priv salt hash k : keeps others (Store.update_recovery_slot id priv salt hash k).
Proof.
  apply (others_rearranges (StoreProps.UpdateRecovery id priv salt hash k)); [done|done|]. intros w cs Hs.
  destruct (recovery_renewed id priv salt hash k w cs Hs) as (cs' & Hs' & Hr). exists cs'. split; [exact Hs'|].
  destruct (Store.update_recovery_slot id priv salt hash k w).1;
    [destruct Hr as [_ ->]; apply amend_recovery_core|by subst..].
Qed.

Lemma others_run op : manager_op op = true -> keeps others (StoreProps.run_op op).
Proof.
  destruct op; try done; intros _; try apply others_policy; try apply others_recovery.
  all: intros w; by apply others_calm, calm_run.
Qed.

(** What only the settings change with leaves every shelf as it is. *)
Definition stays (w w' : World) : Prop := forall cs, shelved key (w_db w) cs -> shelved key (w_db w') cs.

#[local] Instance stays_store : StoreRel stays.
Proof. split; [split; unfold stays; [by intros w|by eauto]|]. intros w w' Hw _. unfold stays. by rewrite Hw. Qed.

Lemma stays_settings f : f = set_exists \/ (exists c, f = fun d => set_config (c d) d) -> keeps stays (Store.db_update f).
Proof.
  intros Hf w cs []. destruct Hf as [->|[c ->]]; (split; try done; by apply (StoreProps.db_wf_same (w_db w))).
Qed.

Lemma settings_stay op : daemon_op op = false -> keeps stays (StoreProps.run_op op).
Proof.
  intros Hd. destruct op as [| | | | | | | | | |l| |salt hash []]; try discriminate Hd; simpl;
    unfold Store.save_default_pcr_policy, Store.save_daemon_passphrase, Store.open_database, Store.io;
    store_walk ltac:(apply stays_settings; first [by left | right; by eexists]).
Qed.

Lemma others_management {pl : PlatformLaws} {ph : PhcFits} op : management_op op -> keeps others (StoreProps.run_op op).
Proof.
  intros Hop w. destruct (manager_op op) eqn:Hm; [by apply others_run|].
  assert (daemon_op op = false /\ steady_op op = true) as [Hd Hs] by (by destruct op).
  split; [by apply steady_run| |by apply Settings.passphrase_management_op].
  intros cs Hcs. exists cs. split; [by apply (settings_stay op)|done].
Qed.

Lemma mirror_tpm_command c : keeps_mirror (handle_tpm_command oc c).
Proof.
  intros s Hs. assert (keeps same_creds (handle_tpm_command oc c)) as Hc
    by (unfold handle_tpm_command, require_tpm, wrap; handler_walk ltac:(done)).
  assert (keeps (on_st others) (handle_tpm_command oc c)) as Hw.
  { apply (world_handle_tpm_command others oc manager_op others_run); [by intros []|done|done]. }
  specialize (Hc s). specialize (Hw s). apply (mirror_others s _ Hw) in Hs.
  eapply mirror_rests; [|exact Hs]. split; [exact Hc|simpl; reflexivity].
Qed.

(** ** The start *)

(** A store with the credentials [cs] of user [u], whose ids this machine has drawn. *)
Record stocked (w : World) (cs : list StoredCtap2Credential) : Prop := {
  so_shelf : shelved key (w_db w) cs;
  so_owner : Forall (fun c => s_user_id c = Some u) cs;
  so_drawn c : c ∈ cs -> exists t, (t < w_tick w)%nat /\ getrandom t 32 = Some (s_id c);
  so_passphrase : passphrase_ok (daemon_config (w_db w)) }.

(** A daemon without credentials, to start from. *)
Definition idle (w : World) : St :=
  {| auth := {| tpm_path := None; tpm := None; session := Session.env_fallback; credentials := [];
                pending_assertion := None; client_pin := None; key_agreement := None; pin_uv_auth_token := None;
                management := None |}; world := w |}.

Lemma shelved_counts d cs p : shelved key d cs -> p ∈ counts d -> 0 <= p.2.
Proof.
  intros Hs (m & -> & Hm)%list_elem_of_fmap. apply list_elem_of_lookup in Hm as [i Hi].
  destruct (Forall2_lookup_l _ _ _ _ _ (sh_credentials _ _ _ Hs) Hi) as (c & Hc & -> & _). simpl.
  apply (Forall_lookup_1 _ _ _ _ (sh_storable _ _ _ Hs) Hc).
Qed.

Lemma idle_tracked w cs : stocked w cs -> tracked [] none (idle w).
Proof.
  intros [Hs Ho Hd Hp]. split.
  { split; [apply Hs|]. intros p Hl. apply elem_of_app in Hl as [Hl|Hl%not_elem_of_nil]; [|done].
    by eapply shelved_counts. }
  intros _. split; simpl; [apply Hs|constructor| | | |].
  - intros p Hp'. rewrite app_nil_r in Hp'. unfold live in Hp'. simpl in Hp'. rewrite app_nil_r in Hp'.
    apply list_elem_of_fmap in Hp' as (m & -> & Hm). simpl.
    pose proof (shelved_ids key _ _ Hs) as Hids.
    assert (m_credential_id m ∈ s_id <$> cs) as (c & -> & Hc)%list_elem_of_fmap; [|by apply Hd].
    rewrite <- Hids. by apply list_elem_of_fmap_2.
  - by intros ? [].
  - by intros ? _ [].
  - by intros ? ? ?%not_elem_of_nil.
Qed.

Lemma start_mirror path w cs a w1 :
  stocked w cs -> (new path : M World Empty_set Authenticator) w = (Ok a, w1) -> 0 <= u < 2 ^ 32 ->
  Session.uid (session a) = Some u ->
  credentials a = reread cs /\ mirror {| auth := a; world := w1 |}.
Proof.
  intros Hst Hn Hu Huid. pose proof Hst as [Hs Ho _ Hp].
  pose proof (world_new (E := Empty_set) calm_world calm_op calm_run calm_op_read path w) as [_ Hk].
  rewrite Hn in Hk. simpl in Hk.
  destruct (new_settles path (idle w)) as (a' & w' & Hn' & Hse). simpl in Hn'. rewrite Hn in Hn'. simplify_eq.
  assert (credentials a' = reread cs) as Hc.
  { unfold new in Hn. rewrite (bind_run_Ok Session.detect _ w _ _ eq_refl) in Hn.
    set (se := Session.detect_at _) in Hn. assert (Session.uid se = Some u) as Hse'.
    { ctap_inv. by simplify_eq/=. }
    rewrite Hse' in Hn. destruct (load_shelved (E := Empty_set) (set_tick (S (w_tick w)) w) cs Hs Ho) as (w2 & El & _).
    apply bind_Ok in Hn as (cs1 & w3 & El' & Hn). rewrite El in El'. simplify_eq.
    by apply bind_Ok in Hn as (r & w4 & _ & [-> _]%ret_Ok). }
  split; [done|]. split; [eapply tracked_settles; [exact Hse|by eapply idle_tracked]|].
  intros _. exists cs. apply mirrored_load; try done; [by eapply shelved_kept|].
  by rewrite (sk_config _ _ Hk).
Qed.

(** The store of a daemon that stops is stocked again, with what was in memory. *)
Lemma mirror_stocked s : mirror s -> distinct_draws (w_tick (world s)) ->
  exists cs, stocked (world s) cs /\ core <$> cs ≡ₚ memory_core s.
Proof.
  intros [Ht Hm] Hd. destruct (Hm Hd) as [cs Hcs]. exists cs. split; [|by apply (mi_core _ _ Hcs)].
  pose proof (mirrored_ids _ _ Hcs) as Hids. destruct (proj2 Ht Hd) as [_ Hn Hdr _ _ _].
  split; [apply Hcs|by eapply mirrored_owner| |apply Hcs].
  intros c Hc. assert (s_id c ∈ c_id <$> credentials (auth s)) as (c' & E & Hin)%list_elem_of_fmap.
  { rewrite <- Hids. by apply list_elem_of_fmap_2. }
  apply (Hdr (s_id c, c_sign_count c')). rewrite app_nil_r. unfold live. apply elem_of_app. right.
  rewrite E. apply (list_elem_of_fmap_2 cred_count _ _ Hin).
Qed.

(** What is read back of a stocked store is what it holds. *)
Lemma reread_core cs : Forall (fun c => s_user_id c = Some u) cs ->
  (fun c => core (stored_of_credential c)) <$> reread cs ≡ₚ core <$> cs.
Proof. intros Ho. rewrite (reread_perm cs Ho). by rewrite <- list_fmap_compose. Qed.
End mirror.
End Ctap2Mirror.
