(* ===== verification/Renewal.v ===== *)
(** What the TPM commands of management connections do to the stored credentials:
    a policy or a recovery slot is renewed, of the credential that is named and of
    no other. *)
From Stdlib Require Import ZArith Lia String.
From stdpp Require Import base list option strings gmap.
From S2P Require Import Prelude Schema Platform Cbor Session Tpm Store StoreProps StoreRoundtrip.
From S2P Require Import StoreUpdates StoreRefine StoreCounts Ctap2Types Ctap2 Ctap2Facts WorldFacts WorldSafe.
From S2P Require Import Ctap2Restart Ctap2Assert Ctap2Counter Ctap2Mirror.

#[local] Open Scope Z_scope.

Module Renewal.
Import Ctap2 Ctap2Facts WorldFacts WorldSafe StoreRoundtrip StoreRefine Ctap2Assert Ctap2Counter Ctap2Mirror.

(** A policy that the TPM computed in some session, for this reference and authority. *)
Definition computed_policy {es : Esapi} (name ref : bytes) (p : StoredPcrPolicy) : Prop :=
  policy_ref p = Some ref /\ authority_name p = Some name /\
  (exists t session, esys_policy_get_digest t session = Ok (digest p)) /\
  exists signature b, signature_marshall signature = Ok b /\ authority_signature p = Some b.

(** A private area that the TPM gave out for a key under a new authorization. *)
Definition reauthorized {es : Esapi} (hash priv : bytes) : Prop :=
  exists a t key_handle parent, auth_try_from hash = Ok a /\
    esys_object_change_auth t key_handle parent a = Ok priv.

(** The credentials [cs'] after a command that had the result [r], from [cs]. *)
Definition renewed {es : Esapi} (command : TpmCommand) (r : res string (option bytes))
    (cs cs' : list StoredCtap2Credential) : Prop :=
  match r with
  | Ok reply =>
      match command with
      | PcrPolicyUpdate id authority name ref =>
          reply = None /\ known id cs = true /\
          exists p, computed_policy name ref p /\ cs' = amend id (with_policy p) <$> cs
      | PassphraseChange id key hash salt kdf =>
          reply = None /\ recoverable id cs = true /\
          exists priv, reauthorized hash priv /\ cs' = amend id (with_recovery priv salt hash kdf) <$> cs
      | PcrDigestCheck indices => is_Some reply /\ cs' = cs
      end
  | _ => cs' = cs
  end.

Section renewal.
Context {pf : Platform} {hp : Healthy} {cr : Crypto} {codec : CborCodec}.
Context {es : Esapi} {sc : StoreCodec} {sl : StoreCodecLaws}.
Context (oc : bool) (key : bytes) (Hlen : length key = 32%nat) (cs : list StoredCtap2Credential).

(** From tables that hold [cs], [m] leads to tables for which [P] holds. *)
Definition leads {A} (P : res string A -> list StoredCtap2Credential -> Prop) (m : M St string A) : Prop :=
  forall s, shelved key (w_db (world s)) cs ->
    exists cs', shelved key (w_db (world (m s).2)) cs' /\ P (m s).1 cs'.

Lemma leads_bind {A B} (P : res string B -> list StoredCtap2Credential -> Prop) (Q : A -> Prop)
    (m : M St string A) (k : A -> M St string B) :
  keeps (on_st shelf_kept) m -> (forall s a s', m s = (Ok a, s') -> Q a) ->
  (forall e, P (Err e) cs) -> P Panic cs -> (forall a, Q a -> leads P (k a)) -> leads P (m ≫= k).
Proof.
  intros Hm HQ He Hp Hk s Hs. specialize (Hm s). unfold mbind, M_bind.
  destruct (m s) as [[a|e|] s1] eqn:E; simpl in *;
    [|exists cs; split; [by eapply shelved_kept|done]..].
  apply Hk; [by eapply HQ|by eapply shelved_kept].
Qed.

(** The last call of a command changes the tables. *)
Lemma leads_store {A} (P : res string A -> list StoredCtap2Credential -> Prop) msg op (x : A) :
  (forall w, shelved key (w_db w) cs -> exists cs', shelved key (w_db (StoreProps.run_op op w).2) cs' /\
     match (StoreProps.run_op op w).1 with Ok _ => P (Ok x) cs' | _ => cs' = cs end) ->
  (forall e, P (Err e) cs) -> P Panic cs ->
  leads P (_ ← wrap msg (StoreProps.run_op op); mret x).
Proof.
  intros Hop He Hp s Hs. destruct (Hop (world s) Hs) as (cs' & Hs' & HP).
  unfold wrap, on_world, Tpm.wrap_err, mbind, M_bind.
  destruct (StoreProps.run_op op (world s)) as [[[]|e|] w']; simpl in *; subst; eauto.
Qed.

(** The new policy names the reference and the authority that were asked for. *)
Lemma updated_binding t authority name ref w b w' :
  Tpm.update_authorized_policy t authority name ref w = (Ok b, w') ->
  computed_policy name ref (policy_of_binding b).
Proof.
  unfold Tpm.update_authorized_policy, computed_policy. intros H. Tpm.tpm_inv. simpl.
  split_and!; [done|done|by eauto|]. by eauto.
Qed.

Lemma changed_key k hash w k' w' :
  Tpm.change_key_auth k hash w = (Ok k', w') -> reauthorized hash (private k').
Proof. unfold Tpm.change_key_auth, reauthorized. intros H. Tpm.tpm_inv. simpl. eauto 10. Qed.

Lemma kept_require_tpm : keeps (on_st shelf_kept) (require_tpm oc).
Proof.
  pose proof (world_ensure_tpm (E := string) shelf_kept oc calm_op shelf_run calm_op_read).
  unfold require_tpm. keeps_walk fail.
Qed.

Lemma kept_wrap {A} msg (m : M World string A) : keeps shelf_kept m -> keeps (on_st shelf_kept) (wrap msg m).
Proof. intros Hm. unfold wrap. by apply on_st_world, store_wrap_err. Qed.

Lemma command_leads command : leads (fun r cs' => renewed command r cs cs') (handle_tpm_command oc command).
Proof.
  destruct command as [id authority name ref|id k hash salt kdf|indices]; cbn [handle_tpm_command].
  - apply (leads_bind _ (fun _ => True)); [apply kept_require_tpm|done..|]. intros t _.
    eapply (leads_bind _ (fun b => computed_policy name ref (policy_of_binding b))); [apply kept_wrap; eauto with keeps| |done|done|].
    { intros s b s' (w & H%Tpm.wrap_err_Ok & _)%on_world_Ok. by eapply updated_binding. }
    intros b Hb. apply (leads_store _ _ (StoreProps.UpdatePolicy id (policy_of_binding b)));
      [|done|done]. intros w Hs. destruct (policy_renewed key id (policy_of_binding b) w cs Hs) as (cs' & Hs' & HP).
    exists cs'. split; [done|]. simpl in *. destruct (Store.update_ctap2_policy id (policy_of_binding b) w).1; [|done..].
    destruct HP as [Hk ->]. split_and!; [done|done|]. by exists (policy_of_binding b).
  - apply (leads_bind _ (fun _ => True)); [apply kept_require_tpm|done..|]. intros t _.
    eapply (leads_bind _ (fun k' => reauthorized hash (private k'))); [apply kept_wrap; eauto with keeps| |done|done|].
    { intros s k' s' (w & H%Tpm.wrap_err_Ok & _)%on_world_Ok. by eapply changed_key. }
    intros k' Hk'.
    apply (leads_store _ _ (StoreProps.UpdateRecovery id (private k') salt hash kdf)); [|done|done].
    intros w Hs. destruct (recovery_renewed key Hlen id (private k') salt hash kdf w cs Hs) as (cs' & Hs' & HP).
    exists cs'. split; [done|]. simpl in *. destruct (Store.update_recovery_slot id (private k') salt hash kdf w).1; [|done..].
    destruct HP as [Hk ->]. eauto.
  - apply (leads_bind _ (fun _ => True)); [apply keeps_lift, _|done..|]. intros l _.
    apply (leads_bind _ (fun _ => True)); [apply kept_require_tpm|done..|]. intros t _.
    eapply (leads_bind _ (fun _ => True)); [apply kept_wrap; eauto with keeps|done..|]. intros d _ s Hs.
    exists cs. split; [done|]. simpl. eauto.
Qed.
End renewal.
End Renewal.
