(* ===== verification/DemoCtap2.v ===== *)
(** The authenticator on the toy platform, cryptography, TPM and store: one
    registration, assertion and PIN exchange computed from end to end, the
    witnesses of the theorems about the authenticator, and runs that show
    behaviour the code should not have. *)
From Stdlib Require Import ZArith Lia String.
From stdpp Require Import base list option strings gmap.
From S2P Require Import Prelude Schema Platform Cbor CborRef Session Demo Tpm DemoTpm Store.
From S2P Require Import StoreProps StoreUpdates DemoStore Ctap2Types Ctap2 Ctap2Facts Ctap2Pin.
From S2P Require Import Ctap2Assert Ctap2Mgmt Ctap2Data.

#[local] Open Scope Z_scope.

Module DemoCtap2.
Import Demo DemoTpm DemoStore Ctap2.
#[local] Existing Instance CborRef.codec.
#[local] Instance pf : Platform := approving.

Definition passphrase_blob : bytes := passphrase_encode (be_bytes 32 21, be_bytes 32 22, 65536, 3, 1).

Definition db0 : Db := set_config {["daemon_passphrase"%string := passphrase_blob]} keyed_db.

(** A fresh authenticator of the graphical session. *)
Definition auth0 : Authenticator :=
  {| tpm_path := Some "/dev/tpmrm0"%string; tpm := None; session := Session.detect_at 0; credentials := [];
     pending_assertion := None; client_pin := None; key_agreement := None; pin_uv_auth_token := None;
     management := None |}.

Definition s0 : St := {| auth := auth0; world := {| w_tick := 0; w_db := db0; w_handles := [] |} |}.

Definition request (command : Ctap2Command) (m : cbor_map) : bytes :=
  u8_of_command command :: cbor_encode (VMap m).
Definition int (k : Z) (v : Value) : Value * Value := (VInteger k, v).
Definition txt (k : string) (v : Value) : Value * Value := (VText k, v).

Definition send (payload : bytes) (s : St) : res Empty_set bytes * St := handle_cbor true payload s.

(** ** Registration and assertion *)

Definition register (rp user : string) : cbor_map :=
  [int 1 (VBytes (be_bytes 32 77)); int 2 (VMap [txt "id" (VText rp); txt "name" (VText "Shop")]);
   int 3 (VMap [txt "id" (VBytes [1; 2]); txt "name" (VText user)]);
   int 4 (VArray [VMap [txt "type" (VText "public-key"); txt "alg" (VInteger (-7))]]);
   int 6 (VMap [txt "credProps" (VBool true)]); int 7 (VMap [txt "rk" (VBool true)])].

Definition s1 : St := (send (request MakeCredential (register "a.example" "alice")) s0).2.
Definition s2 : St := (send (request MakeCredential (register "a.example" "bob")) s1).2.

Definition assert_request (rp : string) : cbor_map :=
  [int 1 (VText rp); int 2 (VBytes (be_bytes 32 78)); int 5 (VMap [txt "uv" (VBool true)])].

Definition s3 : St := (send (request GetAssertion (assert_request "a.example")) s2).2.

Example registered : length (credentials (auth s2)) = 2%nat /\
  (send (request MakeCredential (register "a.example" "bob")) s1).1 <> Ok [u8_of_status OperationDenied].
Proof. vm_compute. split; [reflexivity|discriminate]. Qed.

(** Both credentials match: the second one is pending, and one counter moved. *)
Example asserted :
  (pa_credential_indexes <$> pending_assertion (auth s3)) = Some [1%nat] /\
  (c_sign_count <$> credentials (auth s3)) = [1; 0].
Proof. vm_compute. done. Qed.

(** ** PIN *)

(** The client's side of key agreement: its COSE key and the shared keys. *)
Definition client_secret : bytes := be_bytes 32 4242.
Definition client_cose : cbor_map :=
  let p := p256_public_key client_secret in
  [int 1 (VInteger 2); int 3 (VInteger (-25)); int (-1) (VInteger 1);
   int (-2) (VBytes (slice 1 33 p)); int (-3) (VBytes (slice 33 65 p))].

Definition s_agreed : St := (send (request ClientPin [int 1 (VInteger 2); int 2 (VInteger 2)]) s2).2.

Definition keys : bytes * bytes :=
  match (pin_uv_keys (Some client_cose) s_agreed).1 with Ok k => k | _ => ([], []) end.

Definition pin : bytes := as_bytes "1234".
Definition new_pin_enc : bytes := be_bytes 16 5 ++ pin ++ repeat 0 60.
Definition set_pin_auth : bytes := hmac_sha256 keys.2 new_pin_enc.

Definition s_pin : St := (set_pin (Some client_cose) new_pin_enc set_pin_auth s_agreed).2.

Definition pin_hash : bytes := take 16 (sha256 pin).

Definition token_request (hash : bytes) : bytes :=
  request ClientPin [int 1 (VInteger 2); int 2 (VInteger 9); int 3 (VMap client_cose);
    int 6 (VBytes (be_bytes 16 9 ++ hash)); int 9 (VInteger 6); int 10 (VText "a.example")].

Definition s_token : St := (send (token_request pin_hash) s_pin).2.
Definition wrong_hash : bytes := be_bytes 16 1.
Definition wrong (n : nat) (s : St) : St := Ctap2Pin.serve true (repeat (token_request wrong_hash) n) s.

Definition pin_state (s : St) : ClientPinState :=
  default {| pin_salt := []; pin_verifier_ := []; retries := -1 |} (client_pin (auth s)).

Example pin_protocol_runs :
  (retries <$> client_pin (auth s_pin)) = Some 8 /\
  (permissions <$> pin_uv_auth_token (auth s_token)) = Some 6 /\
  (retries <$> client_pin (auth (wrong 3 s_pin))) = Some 5 /\
  (retries <$> client_pin (auth (wrong 8 s_pin))) = Some 0 /\
  (send (token_request pin_hash) (wrong 8 s_pin)).1 = Ok [u8_of_status PinBlocked].
Proof. vm_compute. done. Qed.

Definition token_mac (message : bytes) : bytes :=
  match pin_uv_auth_token (auth s_token) with
  | Some t => take 16 (hmac_sha256 (token_value t) message)
  | None => []
  end.

(** ** Behaviour the code should not have *)

(** A credential-management request without any PIN/UV parameter is not refused:
    with a PIN set and no token issued, it deletes a credential. *)
Definition first_id : bytes := match credentials (auth s2) with c :: _ => c_id c | [] => [] end.

Definition delete_request (command : Ctap2Command) : bytes :=
  request command [int 1 (VInteger 6); int 2 (VMap [int 2 (VMap [txt "id" (VBytes first_id)])])].

Example management_without_token :
  pin_uv_auth_token (auth s_pin) = None /\ length (credentials (auth s_pin)) = 2%nat /\
  (send (delete_request CredentialManagement) s_pin).1 = Ok (empty_response) /\
  length (credentials (auth (send (delete_request CredentialManagement) s_pin).2)) = 1%nat.
Proof. vm_compute. done. Qed.

(** Deleting a credential while an assertion is pending leaves indexes behind that
    are out of range: the next assertion panics. *)
Definition s_pending : St := (send (request GetAssertion (assert_request "a.example")) s_pin).2.

Example stale_pending_assertion_panics :
  let s := (send (delete_request CredentialManagement) s_pending).2 in
  length (credentials (auth s)) = 1%nat /\ (send [u8_of_command GetNextAssertion] s).1 = Panic.
Proof. vm_compute. done. Qed.

(** The preview command is not subject to the daemon passphrase: it deletes a
    credential where the command itself is denied. *)
Definition no_passphrase (s : St) : St :=
  set_world (set_db (set_config ∅ (w_db (world s))) (world s)) s.

Example preview_bypasses_passphrase :
  (send (delete_request CredentialManagement) (no_passphrase s_pin)).1 = Ok [u8_of_status OperationDenied] /\
  (send (delete_request CredentialManagementPreview) (no_passphrase s_pin)).1 = Ok empty_response.
Proof. vm_compute. done. Qed.

(** Commands that are not implemented panic. *)
Example unimplemented_commands_panic :
  (fun c => (send [u8_of_command c] s0).1) <$> [BioEnrollment; BioEnrollmentPreview; LargeBlobs; Config] =
  [Panic; Panic; Panic; Panic].
Proof. vm_compute. done. Qed.

(** A token that was issued on built-in user verification, without a PIN, survives
    a reset. *)
Definition uv_token_request : bytes :=
  request ClientPin [int 1 (VInteger 2); int 2 (VInteger 10); int 3 (VMap client_cose); int 9 (VInteger 1)].

Example token_survives_reset :
  let s := (send uv_token_request s_agreed).2 in
  let s' := (send [u8_of_command Reset] s).2 in
  is_Some (pin_uv_auth_token (auth s)) /\ credentials (auth s') = [] /\
  pin_uv_auth_token (auth s') = pin_uv_auth_token (auth s).
Proof. vm_compute. split; [by eexists|done]. Qed.

(** A registration replaces the whole store by the credentials of the session's
    user: those of another user are lost. *)
Definition other : StoredCtap2Credential := cred 9 "b.example" 5.
Definition s_other : St :=
  set_world (Store.save_ctap2_credentials [other] (world s0)).2 s0.

Example registration_drops_other_users :
  (m_user_id <$> metadata (w_db (world s_other))) = [Some 5] /\
  (m_user_id <$> metadata (w_db (world (send (request MakeCredential (register "a.example" "alice")) s_other).2)))
    = [Some 1000].
Proof. vm_compute. done. Qed.

End DemoCtap2.

Import Demo DemoTpm DemoStore Ctap2 DemoCtap2.
#[local] Existing Instance CborRef.codec.
#[local] Existing Instance CborRef.laws.
#[local] Existing Instance DemoCtap2.pf.

(** ** Witnesses *)

Definition three_guesses : list (bytes * Authenticator) :=
  Ctap2Pin.arrivals true (repeat (token_request wrong_hash) 3) s_pin.

Lemma pin_guesses_are_bounded_witness :
  Ctap2Pin.wrong_entries three_guesses = 3 /\ Ctap2Pin.wrong_entries three_guesses <= retries (pin_state s_pin) /\
  client_pin (auth (wrong 3 s_pin)) =
    Some (Ctap2Pin.after_wrong (Ctap2Pin.wrong_entries three_guesses) (pin_state s_pin)).
Proof.
  split; [vm_compute; reflexivity|].
  destruct (Ctap2Pin.pin_guesses_are_bounded true (repeat (token_request wrong_hash) 3) s_pin (pin_state s_pin))
    as (H1 & H2 & _).
  - vm_compute. reflexivity.
  - vm_compute. discriminate.
  - apply Ctap2Pin.guessing_bool. vm_compute. reflexivity.
  - exact (conj H1 H2).
Defined.

Lemma blocked_pin_stays_blocked_witness :
  client_pin (auth (wrong 1 (wrong 8 s_pin))) = Some (pin_state (wrong 8 s_pin)) /\
  forall h, (authenticate_pin h (wrong 1 (wrong 8 s_pin))).1 <> Ok tt.
Proof.
  apply (Ctap2Pin.blocked_pin_stays_blocked true [token_request wrong_hash] (wrong 8 s_pin)).
  - vm_compute. reflexivity.
  - vm_compute. reflexivity.
  - constructor; [vm_compute; discriminate|constructor].
Defined.

Lemma verified_requests_hold_a_token_witness :
  exists token mac t, pin_uv_auth_token (auth s_token) = Some token /\
    Some (token_mac (be_bytes 32 78)) = Some mac /\ Some 2 = Some PIN_UV_AUTH_PROTOCOL /\
    Ctap2Pin.token_authorizes token t mac (be_bytes 32 78) GET_ASSERTION (Some "a.example"%string).
Proof.
  pose (run := validate_pin_uv_auth (Some 2) (Some (token_mac (be_bytes 32 78))) (be_bytes 32 78)
    GET_ASSERTION (Some "a.example"%string) s_token).
  apply (Ctap2Pin.verified_requests_hold_a_token (Some 2) (Some (token_mac (be_bytes 32 78))) (be_bytes 32 78)
    GET_ASSERTION (Some "a.example"%string) s_token true run.2).
  - vm_compute. reflexivity.
Defined.

(** The token is not valid for the management of credentials. *)
Definition management_body : bytes :=
  cbor_encode (VMap [(VInteger 1, VInteger 1); (VInteger 3, VInteger 2);
    (VInteger 4, VBytes (token_mac (management_auth_message 1 None)))]).

Lemma rejected_auth_drops_token_witness :
  (if pin_uv_auth_token (auth s_token) then true else false) = true /\
  pin_uv_auth_token (auth ((_ ← clear_stale CredentialManagementPreview;
    _ ← passphrase_gate CredentialManagementPreview;
    dispatch true CredentialManagementPreview management_body) s_token).2) = None.
Proof.
  split; [vm_compute; reflexivity|].
  apply (Ctap2Pin.rejected_auth_drops_token true CredentialManagementPreview management_body s_token).
  - discriminate.
  - vm_compute. reflexivity.
Defined.

Lemma set_pin_then_authenticate_witness :
  client_pin (auth s_agreed) = None /\
  exists aes_key hmac_key new_pin salt,
    pin_uv_keys (Some client_cose) s_agreed = (Ok (aes_key, hmac_key), s_agreed) /\
    verify_pin_uv_auth_param hmac_key set_pin_auth new_pin_enc = Ok tt /\
    decrypt_pin aes_key new_pin_enc = Ok new_pin /\ (4 <= length new_pin <= 63)%nat /\ 0 ∉ new_pin /\
    authenticate_pin (take 16 (sha256 new_pin)) s_pin = (Ok tt, s_pin) /\
    forall h, length h = 16%nat ->
      constant_time_equal (pin_verifier salt h) (pin_verifier salt (take 16 (sha256 new_pin))) = false ->
      let '(r, s2) := authenticate_pin h s_pin in
      r <> Ok tt /\ (retries <$> client_pin (auth s2)) = Some 7.
Proof.
  apply (Ctap2Pin.set_pin_then_authenticate (Some client_cose) new_pin_enc set_pin_auth s_agreed empty_response s_pin).
  vm_compute. reflexivity.
Defined.

Definition body_of (m : cbor_map) : bytes := cbor_encode (VMap m).

Definition ok_bytes (r : res ErrorStatus bytes) : bytes := match r with Ok b => b | _ => [] end.

Lemma assertion_answer_witness :
  let run := get_assertion true (body_of (assert_request "a.example")) s2 in
  exists s1 cs i c data sig uv total, auth s1 = auth s2 /\ Ctap2Assert.held s1 cs /\ cs !! i = Some c /\
    credentials (auth run.2) = alter (with_sign_count (Z.min (c_sign_count c + 1) u32_max)) i cs /\
    ok_bytes run.1 = encode_assertion_response (c_id c) data sig (assertion_user uv c) total.
Proof.
  assert (get_assertion true (body_of (assert_request "a.example")) s2 =
    (Ok (ok_bytes (get_assertion true (body_of (assert_request "a.example")) s2).1),
     (get_assertion true (body_of (assert_request "a.example")) s2).2)) as E by (vm_compute; reflexivity).
  destruct (Ctap2Assert.assertion_answer true (body_of (assert_request "a.example")) s2 _ _ E)
    as (request & rp_id & cdh & verified & s1 & cs & i & rest & c & sig & w & _ & _ & _ & _ & _ & Ha & Hh & _ & Hi & _ &
        _ & _ & _ & Hc & Hr).
  do 8 eexists. exact (conj Ha (conj Hh (conj Hi (conj Hc Hr)))).
Defined.

Lemma registration_answer_witness :
  let body := body_of (register "a.example" "alice") in
  let run := make_credential true body s0 in
  exists request m verified id key policy recovery,
    let options := map_map request 7 in
    let uv := verified || option_true options "uv" in
    decode_map body = Ok request /\ parse_make_request request = Ok m /\
    (validate_pin_uv_auth (map_integer request 9) (map_bytes request 8)
       (mr_client_data_hash m ++ as_bytes (mr_rp_id m)) MAKE_CREDENTIAL (Some (mr_rp_id m)) s0).1 = Ok verified /\
    excluded_credential_exists (credentials (auth s0)) (mr_rp_id m) (map_array request 5) = false /\
    (exists w w', Session.approve (E := ErrorStatus) (register_prompt m) (session (auth s0)) w = (Ok true, w')) /\
    Ctap2Assert.key_bound_to key policy /\ length id = 32%nat /\
    credentials (auth run.2) = credentials (auth s0) ++
      [Ctap2Assert.new_credential m options (Session.uid (session (auth s0))) id key policy recovery] /\
    (exists w r, Store.save_ctap2_credentials (map stored_of_credential (credentials (auth run.2))) w = (r, world run.2)) /\
    ok_bytes run.1 = encode_response (VMap
      [(VInteger 1, VText "none");
       (VInteger 2, VBytes (make_auth_data (mr_rp_id m) (Z.lor 0x41 (uv_flag uv)) 0
          (Some (id, cose_credential_public_key key))
          (if mr_cred_props m then Some (cred_props_extension (discoverable_requested options)) else None)));
       (VInteger 3, VMap [])]).
Proof.
  apply (Ctap2Assert.registration_answer (pl := platform_laws (Ok true) None) true
    (body_of (register "a.example" "alice")) s0). vm_compute. reflexivity.
Defined.

Lemma enumerations_stay_in_range_witness :
  let s' := foldl (fun s p => ((handle_cbor true p : M St Empty_set bytes) s).2) s_pin
    [request CredentialManagement [int 1 (VInteger 2)]; delete_request CredentialManagement] in
  (enumerate_rps_next s').1 <> Panic /\ (enumerate_credentials_next s').1 <> Panic.
Proof.
  apply (Ctap2Mgmt.enumerations_stay_in_range true
    [request CredentialManagement [int 1 (VInteger 2)]; delete_request CredentialManagement] s_pin).
  vm_compute. reflexivity.
Defined.

Lemma passphrase_gate_denies_witness :
  let '(r, s') := send (0x02 :: body_of (assert_request "a.example")) (no_passphrase s2) in
  r = Ok [0x27] /\ credentials (auth s') = credentials (auth (no_passphrase s2)) /\
  client_pin (auth s') = client_pin (auth (no_passphrase s2)) /\
  pin_uv_auth_token (auth s') = pin_uv_auth_token (auth (no_passphrase s2)) /\
  session (auth s') = session (auth (no_passphrase s2)) /\
  StoreProps.same_tables (w_db (world (no_passphrase s2))) (w_db (world s')).
Proof.
  apply (Ctap2Data.passphrase_gate_denies true 0x02 (body_of (assert_request "a.example")) (no_passphrase s2)).
  - right. left.
  - intros p. vm_compute. discriminate.
Defined.

Lemma reset_forgets_witness :
  let s1 := ((assertion_approved "reset" : M St ErrorStatus bool) s_pin).2 in
  let '(r, s') := reset s_pin in
  r = Ok empty_response /\ credentials (auth s') = [] /\ client_pin (auth s') = None /\
  pending_assertion (auth s') = None /\ management (auth s') = None /\
  (is_Some (client_pin (auth s1)) -> pin_uv_auth_token (auth s') = None /\
     key_agreement (auth s') = None /\ pin_row (w_db (world s')) = None) /\
  Ctap2Data.gone (credentials (auth s1)) (w_db (world s')).
Proof.
  apply (Ctap2Data.reset_forgets (hp := healthy (Ok true) None) s_pin true). vm_compute. reflexivity.
Defined.

Lemma auth_data_reads_back_witness :
  Ctap2Data.read_auth_data (make_auth_data "a.example" 0x41 7 (Some ([1; 2; 3], cose_public_key_coordinates [4] [5]))
    (Some (cred_props_extension true))) =
  Some {| Ctap2Data.ad_rp_hash := sha256 (as_bytes "a.example"); Ctap2Data.ad_flags := 0xc1; Ctap2Data.ad_count := 7;
          Ctap2Data.ad_attested := Some (AAGUID, [1; 2; 3], cose_public_key_coordinates [4] [5]) |}.
Proof.
  apply (Ctap2Data.auth_data_reads_back "a.example" 0x41 7 (Some ([1; 2; 3], cose_public_key_coordinates [4] [5]))
    (Some (cred_props_extension true))).
  - lia.
  - reflexivity.
  - intros id pk [= <- <-]. split; [vm_compute; reflexivity|vm_compute; reflexivity].
Defined.
