(* ===== verification/DemoSafe.v ===== *)
(** The toy platform, TPM and codecs return, so that the theorem about panics
    applies to the runs of [DemoCtap2]. *)
From Stdlib Require Import ZArith Lia String.
From stdpp Require Import base list option strings gmap.
From S2P Require Import Prelude Schema Platform Cbor CborRef Session Demo Tpm DemoTpm Store DemoStore.
From S2P Require Import Ctap2Types Ctap2 WorldSafe Ctap2Safe DemoCtap2.

#[local] Open Scope Z_scope.

Module DemoSafe.
Import Demo DemoTpm DemoStore Ctap2 Ctap2Safe DemoCtap2.

#[export] Instance esapi_returns b : @EsapiReturns crypto (esapi b).
Proof.
  split; intros; simpl; try done; [by destruct s|by destruct b|].
  simpl in *. simplify_eq. split_and!; reflexivity.
Qed.

#[export] Instance approving_returns : @PlatformReturns approving.
Proof.
  split; [done| |done|by eexists]. intros t pid stat [= <-].
  exists (as_bytes "1234 (a) b"), 83, (as_bytes " 1 2 3 4 5 6 7 8 9 10 11 12 13 14 15 16 17 18 777 20").
  split; [reflexivity|]. split; [lia|]. apply (bool_decide_unpack _). vm_compute. exact I.
Qed.

#[export] Instance codec_returns : @CodecReturns crypto store_codec.
Proof.
  split; [|intros s x y Hs|done|done].
  - reflexivity.
  - cbn [pem_decode store_codec] in Hs. apply bind_Some in Hs as (b & _ & Hb).
    destruct (p256_valid b) eqn:Hv; [|done]. simplify_eq. simpl in Hv. bools.
    simpl. rewrite length_app, !length_slice by lia. done.
Qed.

(** A registration, two assertions, a deletion, and commands of other threads. *)
Definition day : list Work :=
  [Host (request MakeCredential (register "a.example" "alice"));
   Host (request GetAssertion (assert_request "a.example")); Host [u8_of_command GetNextAssertion];
   Host (delete_request CredentialManagement); Command (PcrDigestCheck [7; 11]); Host [];
   Others keyed_db; Host [u8_of_command GetInfo]; Host [u8_of_command GetNextAssertion]].

Lemma db0_settings : WorldSafe.settings_ok true (daemon_config db0).
Proof.
  split; [done|]. intros blob l H. change (daemon_config db0) with ({["daemon_passphrase"%string := passphrase_blob]} : gmap string bytes) in H.
  by rewrite lookup_singleton_ne in H.
Qed.
End DemoSafe.

Import Demo DemoTpm DemoStore Ctap2 Ctap2Safe DemoCtap2 DemoSafe.

Lemma main_thread_never_panics_witness :
  exists a w1, (new (pf := approving) (Some "/dev/tpmrm0"%string) : M World Empty_set Authenticator) (world s0) =
    (Ok a, w1) /\ never_panics (pf := approving) (codec := CborRef.codec) true day {| auth := a; world := w1 |}.
Proof.
  destruct (main_thread_never_panics (pf := approving) (codec := CborRef.codec) true (Some "/dev/tpmrm0"%string)
    (world s0) day) as [H _].
  - exact db0_settings.
  - split; [reflexivity|]. split; [reflexivity|]. split; [reflexivity|]. split; [reflexivity|].
    split; [reflexivity|]. split; [reflexivity|]. split; [|split; [reflexivity|split; [reflexivity|exact I]]].
    split; [done|]. intros blob l H. simpl in H. by rewrite lookup_empty in H.
  - exact H.
Defined.
