(* ===== verification/Management.v ===== *)
(** The management socket: [src/src/management.rs]. A client's thread is a program
    whose steps are calls of the store and TPM commands handed to the daemon's own
    thread; between two steps any other thread may run. The programs are finite
    trees, so a client's thread ends once its commands are answered. *)
From Stdlib Require Import ZArith Lia String Ascii.
From stdpp Require Import base list option strings.
From S2P Require Import Prelude Schema Platform Cbor Session Tpm Store Ctap2Types Ctap2.

#[local] Open Scope Z_scope.

Module Management.
Import Ctap2.

(** ** Requests and responses *)

Inductive CredentialTarget := All (all : bool) | Ids (credential_ids : list string).

Inductive ManagementRequest :=
| ListCredentials
| UpdatePassphrase (old_passphrase : option string) (new_passphrase : string)
| UpdatePcrReference (passphrase : string)
| UpdatePcrPolicy (passphrase : string) (pcr_indices : list Z) (credential_target : CredentialTarget)
| SetDefaultPcrPolicy (pcr_indices : list Z).

Record ManagementResponse := { ok : bool; error : option string; result : option Value }.

Definition success (v : Value) : ManagementResponse :=
  {| ok := true; error := None; result := Some v |}.
Definition failure (e : string) : ManagementResponse :=
  {| ok := false; error := Some e; result := None |}.

(** The serialization of the two types ([serde], [ciborium]) and the [hex] crate. *)
Class ManagementCodec := {
  hex_encode : bytes -> string;
  hex_decode : string -> res string bytes;
  request_encode : ManagementRequest -> res string bytes;
  request_decode : bytes -> res string ManagementRequest;
  response_encode : ManagementResponse -> res string bytes;
  response_decode : bytes -> res string ManagementResponse }.

Class ManagementCodecLaws {mc : ManagementCodec} := {
  hex_roundtrip b : bytes_ok b -> hex_decode (hex_encode b) = Ok b;
  request_roundtrip r b : request_encode r = Ok b -> request_decode b = Ok r;
  response_roundtrip r b : response_encode r = Ok b -> response_decode b = Ok r }.

(** ** Threads *)

(** What comes back from [tx.send] and [resp_rx.recv]: the command could not be
    sent, the reply channel was closed, or the daemon's answer, with the digest
    that a digest check sends on a channel of its own. *)
Inductive TpmReply := NotSent | Closed | Replied (r : res string (option bytes)).

Inductive Prog (A : Type) : Type :=
| Ret (a : A)
| Die
| Call (X : Type) (m : M World string X) (k : res string X -> Prog A)
| Tpm (c : TpmCommand) (k : TpmReply -> Prog A).
Arguments Ret {A} a.
Arguments Die {A}.
Arguments Call {A} X m k.
Arguments Tpm {A} c k.

Fixpoint prog_bind {A B : Type} (f : A -> Prog B) (p : Prog A) : Prog B :=
  match p with
  | Ret a => f a
  | Die => Die
  | Call X m k => Call X m (fun r => prog_bind f (k r))
  | Tpm c k => Tpm c (fun r => prog_bind f (k r))
  end.

#[export] Instance Prog_ret : MRet Prog := @Ret.
#[export] Instance Prog_bind : MBind Prog := @prog_bind.

Definition await {X} (m : M World string X) : Prog (res string X) := Call X m Ret.

(** A [Result] that is at hand. *)
Definition known {X} (r : res string X) : Prog (res string X) :=
  match r with Panic => Die | r => Ret r end.

Definition send_command (c : TpmCommand) : Prog TpmReply := Tpm c Ret.

(** [match m { Ok(a) => k(a), Err(e) => return f(e) }] *)
Definition or_return {X} (m : Prog (res string X)) (f : string -> ManagementResponse)
    (k : X -> Prog ManagementResponse) : Prog ManagementResponse :=
  r ← m;
  match r with Ok a => k a | Err e => Ret (f e) | Panic => Die end.

(** ** Framing of messages on the stream *)

(** What reading from a blocking stream comes to, given what the peer has written so
    far: the thread waits for more, or the peer has closed the stream before the end,
    or the bytes that were asked for are there. There is no timeout. *)
Inductive ReadResult := Blocks | Eof | Complete (data rest : bytes).

(** [read_exact] of [n] bytes; [closed] when the peer writes nothing more. *)
Definition read_exact (n : nat) (closed : bool) (input : bytes) : ReadResult :=
  if (length input <? n)%nat then (if closed then Eof else Blocks)
  else Complete (take n input) (drop n input).

(** [recv_message]: the length, then the message. *)
Definition recv_message (closed : bool) (input : bytes) : ReadResult :=
  match read_exact 4 closed input with
  | Complete len rest => read_exact (Z.to_nat (be_val len)) closed rest
  | r => r
  end.

(** [send_message]: the bytes written. *)
Definition send_message (data : bytes) : bytes :=
  be_bytes 4 (u32 (Z.of_nat (length data))) ++ data.

Definition management_socket_path : string := "/run/linux-tpm-fido2/management.sock".

(** [{:?}] of a path without characters that are escaped. *)
Definition quoted (s : string) : string := (String (ascii_of_nat 34) "" +:+ s +:+ String (ascii_of_nat 34) "")%string.

Definition value_get (value : Value) (key : string) : option Value :=
  as_map value ≫= fun map => map_value map key.

Definition filter_uid (uid : Z) : option Z := if uid =? 0 then None else Some uid.

(** [str::split_once] and [str::split] at an ASCII character. *)
Fixpoint split_once (c : Z) (l : bytes) : option (bytes * bytes) :=
  match l with
  | [] => None
  | b :: l =>
      if b =? c then Some ([], l)
      else '(a, r) ← split_once c l; Some (b :: a, r)
  end.

Fixpoint split (c : Z) (l : bytes) : list bytes :=
  match l with
  | [] => [[]]
  | b :: l =>
      if b =? c then [] :: split c l
      else match split c l with
           | [] => [[b]]
           | x :: xs => (b :: x) :: xs
           end
  end.

Definition pcr_indices_from_selection (selection : string) : option (list Z) :=
  '(_, indices_str) ← split_once 58 (as_bytes selection);
  mapM (fun s => Session.parse_unsigned u32_max (Session.trim_bytes s)) (split 44 indices_str).

Section management.
Context {pf : Platform} {cr : Crypto} {codec : CborCodec} {es : Esapi} {sc : StoreCodec}.
Context {mc : ManagementCodec}.
Context (overflow_checks : bool).

(** ** Handlers. [tx] says whether there is a channel to the daemon's thread. *)

Definition load_visible (peer_uid : Z) : Prog (res string (list StoredCtap2Credential)) :=
  await (Store.load_ctap2_credentials (filter_uid peer_uid)).

Definition check_pcr_stale (tx : bool) (policy : StoredPcrPolicy) : Prog (option bool) :=
  match pcr_indices_from_selection (selection policy) with
  | None => Ret None
  | Some pcr_indices =>
      if negb tx then Ret None
      else
        r ← send_command (PcrDigestCheck pcr_indices);
        Ret match r with
            | Replied (Ok (Some d)) => Some (negb (bool_decide (d = digest policy)))
            | _ => None
            end
  end.

Definition list_entry (tx : bool) (c : StoredCtap2Credential) : Prog Value :=
  pcr_stale ← match s_policy c with Some p => check_pcr_stale tx p | None => Ret None end;
  Ret (VMap
    [(VText "id", VText (hex_encode (s_id c)));
     (VText "rp_id", VText (s_rp_id c));
     (VText "user_name", VText (default ""%string (s_user_name c)));
     (VText "discoverable", VBool (s_discoverable c));
     (VText "pcr_stale", match pcr_stale with Some b => VBool b | None => VNull end)]).

Definition handle_list_credentials (tx : bool) (peer_uid : Z) : Prog ManagementResponse :=
  or_return (load_visible peer_uid) failure (fun credentials =>
    creds ← mapM (list_entry tx) credentials;
    Ret (success (VMap [(VText "credentials", VArray creds)]))).

(** The entries of the [results] array. *)
Definition entry_ok (id_hex : string) : Value :=
  VMap [(VText "credential", VText id_hex); (VText "status", VText "ok")].
Definition entry_skipped (id_hex reason : string) : Value :=
  VMap [(VText "credential", VText id_hex); (VText "status", VText "skipped");
        (VText "reason", VText reason)].
Definition entry_error (id_hex e : string) : Value :=
  VMap [(VText "credential", VText id_hex); (VText "status", VText "error");
        (VText "error", VText e)].

Definition entry_of (id_hex : string) (r : res string unit) : Value :=
  match r with Err e => entry_error id_hex e | _ => entry_ok id_hex end.

(** The result of a command sent to the daemon's thread. *)
Definition command_result (r : TpmReply) : res string unit :=
  match r with
  | Replied (Err e) => Err e
  | Replied _ => Ok tt
  | Closed => Err "TPM command channel closed"%string
  | NotSent => Err "failed to send TPM command"%string
  end.

(** *** Changing the daemon passphrase *)

(** [Some] is the response of an early return. *)
Definition check_old_passphrase (old_passphrase : option string)
    (stored : option (bytes * bytes * RecoveryKdf)) : Prog (option ManagementResponse) :=
  match stored with
  | None => Ret None
  | Some (salt, hash, kdf) =>
      match old_passphrase with
      | None => Ret (Some (failure
          "daemon passphrase is already set; provide the current passphrase to change it"))
      | Some old =>
          r ← known (Tpm.recovery_passphrase_hash kdf salt old);
          Ret match r with
              | Err e => Some (failure ("passphrase validation error: " +:+ e)%string)
              | Ok computed =>
                  if bool_decide (computed = hash) then None
                  else Some (failure "current passphrase does not match")
              | Panic => None
              end
      end
  end.

Definition change_one (tx : bool) (new_salt new_hash : bytes) (new_kdf : RecoveryKdf)
    (c : StoredCtap2Credential) : Prog Value :=
  let id_hex := hex_encode (s_id c) in
  match s_recovery c with
  | None => Ret (entry_skipped id_hex "no recovery slot")
  | Some recovery =>
      if tx then
        r ← send_command (PassphraseChange (s_id c) (slot_key recovery) new_hash new_salt new_kdf);
        Ret (entry_of id_hex (command_result r))
      else Ret (entry_error id_hex "TPM not available for recovery passphrase update")
  end.

Definition random_salt : M World string bytes :=
  t ← next; lift (ok_or (getrandom t 32) "failed to generate random salt"%string).

Definition handle_update_passphrase (tx : bool) (peer_uid : Z) (old_passphrase : option string)
    (new_passphrase : string) : Prog ManagementResponse :=
  or_return (await Store.load_daemon_passphrase)
    (fun e => failure ("failed to check daemon passphrase: " +:+ e)%string) (fun stored =>
  early ← check_old_passphrase old_passphrase stored;
  match early with
  | Some response => Ret response
  | None =>
      or_return (await random_salt) failure (fun new_salt =>
      let new_kdf := argon2id_default in
      or_return (known (Tpm.recovery_passphrase_hash new_kdf new_salt new_passphrase))
        (fun e => failure ("new passphrase hash error: " +:+ e)%string) (fun new_hash =>
      or_return (await (Store.save_daemon_passphrase new_salt new_hash new_kdf))
        (fun e => failure ("failed to save daemon passphrase: " +:+ e)%string) (fun _ =>
      or_return (load_visible peer_uid) failure (fun credentials =>
      results ← mapM (change_one tx new_salt new_hash new_kdf) credentials;
      Ret (success (VMap [(VText "status", VText "daemon passphrase updated");
                          (VText "results", VArray results)]))))))
  end).

(** *** Renewing PCR policies *)

(** One credential; [path] is the device of the fallback without a channel. *)
Definition renew_policy (tx : bool) (path : option string) (passphrase : string)
    (c : StoredCtap2Credential) : Prog Value :=
  let id_hex := hex_encode (s_id c) in
  match s_policy c with
  | None => Ret (entry_skipped id_hex "no PCR policy")
  | Some policy =>
  match s_recovery c with
  | None => Ret (entry_skipped id_hex "no recovery slot")
  | Some recovery =>
  match policy_ref policy with
  | None => Ret (entry_error id_hex "credential has no policyRef")
  | Some ref =>
  match authority_name policy with
  | None => Ret (entry_error id_hex "credential has no authority name")
  | Some name =>
      h ← known (Tpm.recovery_passphrase_hash (kdf recovery) (passphrase_salt recovery) passphrase);
      match h with
      | Ok h =>
          if negb (bool_decide (h = passphrase_hash recovery)) then
            Ret (entry_error id_hex "recovery passphrase does not match")
          else if tx then
            r ← send_command (PcrPolicyUpdate (s_id c) (slot_key recovery) name ref);
            Ret (entry_of id_hex (command_result r))
          else
            r ← await (update_pcr_policy_for_credential overflow_checks path (s_id c) passphrase);
            Ret (entry_of id_hex r)
      | Err e => Ret (entry_error id_hex ("passphrase validation error: " +:+ e)%string)
      | Panic => Die
      end
  end end end end.

Definition handle_update_pcr_reference (tx : bool) (peer_uid : Z) (passphrase : string)
    : Prog ManagementResponse :=
  or_return (load_visible peer_uid) failure (fun credentials =>
    results ← mapM (renew_policy tx None passphrase) credentials;
    Ret (success (VMap [(VText "results", VArray results)]))).

(** The credentials a request names. *)
Definition target_ids (credentials : list StoredCtap2Credential) (t : CredentialTarget)
    : res string (list bytes) :=
  match t with
  | All true => Ok (s_id <$> credentials)
  | All false => Err "--all must be explicitly set to true"%string
  | Ids ids => map_err (fun e => "invalid hex credential ID: " +:+ e)%string (mapM hex_decode ids)
  end.

Definition renew_by_id (tx : bool) (passphrase : string) (credentials : list StoredCtap2Credential)
    (id : bytes) : Prog Value :=
  match find_by (fun c => bool_decide (s_id c = id)) credentials with
  | None => Ret (entry_skipped (hex_encode id) "credential not found")
  | Some c => renew_policy tx (Some "/dev/tpmrm0"%string) passphrase c
  end.

(** [pcr_indices] is not used. *)
Definition handle_update_pcr_policy (tx : bool) (peer_uid : Z) (passphrase : string)
    (pcr_indices : list Z) (credential_target : CredentialTarget) : Prog ManagementResponse :=
  or_return (load_visible peer_uid) failure (fun credentials =>
  or_return (known (target_ids credentials credential_target)) failure (fun ids =>
    results ← mapM (renew_by_id tx passphrase credentials) ids;
    Ret (success (VMap [(VText "results", VArray results)])))).

Definition handle_set_default_pcr_policy (pcr_indices : list Z) : Prog ManagementResponse :=
  or_return (await (Store.save_default_pcr_policy pcr_indices)) failure (fun _ =>
    Ret (success (VMap [(VText "pcr_indices", VArray (VInteger <$> pcr_indices))]))).

Definition dispatch (tx : bool) (peer_uid : Z) (request : ManagementRequest)
    : Prog ManagementResponse :=
  match request with
  | ListCredentials => handle_list_credentials tx peer_uid
  | UpdatePassphrase old_passphrase new_passphrase =>
      handle_update_passphrase tx peer_uid old_passphrase new_passphrase
  | UpdatePcrReference passphrase => handle_update_pcr_reference tx peer_uid passphrase
  | UpdatePcrPolicy passphrase pcr_indices credential_target =>
      handle_update_pcr_policy tx peer_uid passphrase pcr_indices credential_target
  | SetDefaultPcrPolicy pcr_indices => handle_set_default_pcr_policy pcr_indices
  end.

(** What is done with a message that was read: the answer that is written. *)
Definition handle_message (tx : bool) (peer_uid : Z) (data : bytes) : Prog (option bytes) :=
  match request_decode data with
  | Ok request =>
      response ← dispatch tx peer_uid request;
      Ret match response_encode response with Ok encoded => Some (send_message encoded) | _ => None end
  | Err e =>
      Ret match response_encode (failure ("invalid request: " +:+ e)%string) with
          | Ok encoded => Some (send_message encoded)
          | _ => None
          end
  | Panic => Die
  end.

(** One connection: the peer's uid, what it has written so far and whether it has
    closed its side. [None] while the thread is blocked in [recv_message]; otherwise
    what it goes on with, whose result is handed to [write_all]. *)
Definition handle_client (tx : bool) (peer_uid : option Z) (closed : bool) (input : bytes)
    : option (Prog (option bytes)) :=
  match peer_uid with
  | None => Some (Ret None)
  | Some peer_uid =>
      match recv_message closed input with
      | Blocks => None
      | Eof => Some (Ret None)
      | Complete data _ => Some (handle_message tx peer_uid data)
      end
  end.

(** The client's side: [send_request]. It waits, without a timeout, until the daemon
    has answered or closed the stream. [connect] is what connecting to the socket
    gives, a failure or the answer of the other end to what is written. *)
Definition send_request (connect : res string (bytes -> bytes)) (request : ManagementRequest)
    : res string ManagementResponse :=
  connection ← map_err (fun e => "connecting to daemon at " +:+ quoted management_socket_path +:+ ": "
                                 +:+ e +:+ ". Is the daemon running?")%string connect;
  encoded ← map_err (fun e => "encoding request: " +:+ e)%string (request_encode request);
  match recv_message true (connection (send_message encoded)) with
  | Complete data _ => map_err (fun e => "decoding response: " +:+ e)%string (response_decode data)
  | _ => Err "receiving response"%string
  end.

(** A run in which no other thread interferes and the daemon answers. *)
Fixpoint exec {E A} (p : Prog A) : M St E A :=
  match p with
  | Ret a => mret a
  | Die => panic
  | Call X m k => r ← call m; exec (k r)
  | Tpm c k => r ← attempt (handle_tpm_command overflow_checks c); exec (k (Replied r))
  end.
End management.

End Management.
