(* ===== verification/ManagementProps.v ===== *)
(** What a management request may do, whatever the other threads do in between:
    which TPM commands it sends, what it answers, and what a refused passphrase
    leaves alone; the framing of messages; the names of PCR selections. *)
From Stdlib Require Import ZArith Lia String Ascii.
From stdpp Require Import base list option strings gmap pretty.
From S2P Require Import Prelude Schema Platform Cbor Session Tpm Store StoreProps Ctap2Types Ctap2.
From S2P Require Import Ctap2Facts Ctap2Data WorldFacts Management.

#[local] Open Scope Z_scope.

Module ManagementProps.
Import Ctap2 Ctap2Facts Ctap2Data WorldFacts Management.

(** ** Programs under interference *)

(** Every command the program sends satisfies [P], and the value it ends with
    satisfies [Q]. A call runs in any of the worlds [I]: the others may have run. *)
Fixpoint spec {A} (I : World -> Prop) (P : TpmCommand -> Prop) (Q : A -> Prop) (p : Prog A) : Prop :=
  match p with
  | Ret a => Q a
  | Die => True
  | Call X m k => forall w, I w -> (m w).1 <> Panic -> spec I P Q (k (m w).1)
  | Tpm c k => P c /\ forall r, spec I P Q (k r)
  end.

Section spec.
Context (I : World -> Prop) (P : TpmCommand -> Prop).

Lemma spec_bind {A B} (Q : B -> Prop) (p : Prog A) (f : A -> Prog B) :
  spec I P (fun a => spec I P Q (f a)) p -> spec I P Q (p ≫= f).
Proof.
  induction p as [a| |X m k IH|c k IH]; simpl; try done.
  - intros H w Hi Hw. by apply IH, H.
  - intros [Hc H]. split; [done|]. intros r. by apply IH.
Qed.

Lemma spec_mono {A} (Q Q' : A -> Prop) (p : Prog A) :
  (forall a, Q a -> Q' a) -> spec I P Q p -> spec I P Q' p.
Proof.
  intros HQ. induction p as [a| |X m k IH|c k IH]; simpl; try done.
  - apply HQ.
  - intros H w Hi Hw. by apply IH, H.
  - intros [Hc H]. split; [done|]. intros r. by apply IH.
Qed.

Lemma spec_weaken {A} (P' : TpmCommand -> Prop) (Q : A -> Prop) (p : Prog A) :
  (forall c, P c -> P' c) -> spec I P Q p -> spec I P' Q p.
Proof.
  intros HP. induction p as [a| |X m k IH|c k IH]; simpl; try done.
  - intros H w Hi Hw. by apply IH, H.
  - intros [Hc H]. split; [auto|]. intros r. by apply IH.
Qed.

Lemma spec_send Q c : P c -> (forall r, Q r) -> spec I P Q (send_command c).
Proof. by split. Qed.

Lemma spec_known {A} (r : res string A) (Q : res string A -> Prop) :
  (r <> Panic -> Q r) -> spec I P Q (known r).
Proof. unfold known. destruct r; simpl; auto. Qed.

(** The early return of a call of the store. *)
Lemma spec_or_return_await {A} Q (m : M World string A) f (k : A -> Prog ManagementResponse) :
  (forall e, Q (f e)) -> (forall w a, I w -> (m w).1 = Ok a -> spec I P Q (k a)) ->
  spec I P Q (or_return (await m) f k).
Proof.
  intros Hf Hk. apply spec_bind. intros w Hi Hw. simpl.
  destruct (m w).1 eqn:E; simpl; eauto.
Qed.

Lemma spec_or_return_known {A} Q (r : res string A) f (k : A -> Prog ManagementResponse) :
  (forall e, Q (f e)) -> (forall a, r = Ok a -> spec I P Q (k a)) ->
  spec I P Q (or_return (known r) f k).
Proof. intros Hf Hk. apply spec_bind, spec_known. destruct r; simpl; eauto. Qed.

Lemma spec_mapM {A B} (f : A -> Prog B) (R : A -> B -> Prop) l (Q : list B -> Prop) :
  (forall x, x ∈ l -> spec I P (R x) (f x)) -> (forall ys, Forall2 R l ys -> Q ys) ->
  spec I P Q (mapM f l).
Proof.
  revert Q. induction l as [|x l IH]; intros Q Hf HQ; simpl; [by apply HQ|].
  apply spec_bind. eapply spec_mono, Hf; [|left]. intros y Hy. simpl.
  apply spec_bind. eapply IH; [intros; apply Hf; by right|].
  intros ys Hys. apply HQ. by constructor.
Qed.
End spec.

(** ** The credentials a peer may touch *)

Section visible.
Context {pf : Platform} {cr : Crypto} {codec : CborCodec} {es : Esapi} {sc : StoreCodec}.
Context {mc : ManagementCodec} (I : World -> Prop).

(** Root sees everything, anybody else what is his. *)
Definition owned_by (peer_uid : Z) (c : StoredCtap2Credential) : Prop :=
  peer_uid = 0 \/ s_user_id c = Some peer_uid.

Lemma joined_of_metadata d m j : j ∈ Store.joined_of d m -> Store.j_m j = m.
Proof.
  unfold Store.joined_of. intros (p & Hj & _)%list_elem_of_bind.
  apply list_elem_of_bind in Hj as (r & Hj & _). apply list_elem_of_bind in Hj as (t & Hj & _).
  by apply list_elem_of_ret in Hj as ->.
Qed.

Lemma owner_visible u m o :
  Store.visible (Some u) m = true -> Store.owner_of_row (Some u) (m_user_id m) = Ok o -> o = Some u.
Proof.
  unfold Store.visible, Store.owner_of_row, try_u32. destruct (m_user_id m) as [v|]; intros Hv H; run_inv; [|done].
  case_match; simplify_eq. by apply Z.eqb_eq in Hv as ->.
Qed.

Lemma load_row_owner u row w c w' :
  Store.visible (Some u) (Store.j_m row) = true ->
  Store.load_row (Some u) row w = (Ok c, w') -> s_user_id c = Some u.
Proof.
  unfold Store.load_row, Store.decode_row, Store.check_integrity. intros Hv H.
  run_inv; simpl; by eapply owner_visible.
Qed.

(** What is loaded for a user other than root is his. *)
Lemma load_owned peer_uid w cs :
  (Store.load_ctap2_credentials (filter_uid peer_uid) w).1 = Ok cs -> Forall (owned_by peer_uid) cs.
Proof.
  unfold filter_uid, owned_by. intros H. apply Forall_forall. intros c Hc.
  destruct (Z.eqb_spec peer_uid 0) as [|_]; [by left|]. right.
  destruct (Store.load_ctap2_credentials (Some peer_uid) w) as [r w'] eqn:E. simpl in H. subst r.
  unfold Store.load_ctap2_credentials, Store.db_get in E. run_inv; [by apply elem_of_nil in Hc|].
  match goal with H : mapM _ _ _ = _ |- _ => apply mapM_run_Ok in H; rename H into Hrows end.
  apply list_elem_of_lookup in Hc as [i Hi].
  destruct (Forall2_lookup_r _ _ _ _ _ Hrows Hi) as (row & Hrow & w1 & w2 & Hload).
  eapply load_row_owner; [|exact Hload]. apply list_elem_of_lookup_2 in Hrow.
  unfold Store.select_rows in Hrow. rewrite elem_of_sort_by in Hrow.
  apply list_elem_of_bind in Hrow as (m & Hj & Hm). apply joined_of_metadata in Hj as ->.
  apply list_elem_of_In, List.filter_In in Hm as [_ ?]. done.
Qed.

(** ** Which commands a request sends *)

(** A credential that a load for the peer gave. *)
Definition loaded_for (peer_uid : Z) (c : StoredCtap2Credential) : Prop :=
  owned_by peer_uid c /\
  exists w cs, I w /\ (Store.load_ctap2_credentials (filter_uid peer_uid) w).1 = Ok cs /\ c ∈ cs.

(** The old passphrase is that of the daemon, if one is set. *)
Definition passphrase_accepted (old : option string) : Prop :=
  exists w stored, I w /\ (Store.load_daemon_passphrase w).1 = Ok stored /\
    match stored with
    | None => True
    | Some (salt, hash, kdf) =>
        exists o, old = Some o /\ Tpm.recovery_passphrase_hash kdf salt o = Ok hash
    end.

(** When a request may send a command to the TPM: reading PCRs to list
    credentials; renewing the policy of a credential of the peer with its own
    authority, name and reference, for its recovery passphrase; changing the
    authorization of a recovery key of the peer to the hash of the new
    passphrase, for the daemon's passphrase. *)
Definition authorized (peer_uid : Z) (request : ManagementRequest) (c : TpmCommand) : Prop :=
  match c with
  | PcrDigestCheck _ => request = ListCredentials
  | PcrPolicyUpdate id authority name ref =>
      exists passphrase c policy recovery,
        (request = UpdatePcrReference passphrase \/
         exists indices target, request = UpdatePcrPolicy passphrase indices target) /\
        loaded_for peer_uid c /\ s_id c = id /\ s_policy c = Some policy /\ s_recovery c = Some recovery /\
        authority = slot_key recovery /\ authority_name policy = Some name /\ policy_ref policy = Some ref /\
        Tpm.recovery_passphrase_hash (kdf recovery) (passphrase_salt recovery) passphrase
          = Ok (passphrase_hash recovery)
  | PassphraseChange id key new_hash new_salt new_kdf =>
      exists old new c recovery,
        request = UpdatePassphrase old new /\ passphrase_accepted old /\
        loaded_for peer_uid c /\ s_id c = id /\ s_recovery c = Some recovery /\ key = slot_key recovery /\
        new_kdf = argon2id_default /\ (exists t, getrandom t 32 = Some new_salt) /\
        Tpm.recovery_passphrase_hash new_kdf new_salt new = Ok new_hash
  end.

Lemma loaded_load peer_uid w cs c :
  I w -> (Store.load_ctap2_credentials (filter_uid peer_uid) w).1 = Ok cs -> c ∈ cs -> loaded_for peer_uid c.
Proof.
  intros Hi Hl Hc. split; [|eauto 6]. eapply Forall_forall; [by eapply load_owned|done].
Qed.

Lemma spec_list_entry peer_uid tx c :
  spec I (authorized peer_uid ListCredentials) (fun _ => True) (list_entry tx c).
Proof.
  unfold list_entry. apply spec_bind. destruct (s_policy c) as [p|]; [|done].
  unfold check_pcr_stale. destruct (pcr_indices_from_selection _); [|done]. destruct tx; [|done].
  by apply spec_bind, spec_send.
Qed.

Lemma spec_renew_policy oc peer_uid request tx path passphrase c :
  (request = UpdatePcrReference passphrase \/
   exists indices target, request = UpdatePcrPolicy passphrase indices target) ->
  loaded_for peer_uid c ->
  spec I (authorized peer_uid request) (fun _ => True) (renew_policy oc tx path passphrase c).
Proof.
  intros Hr Hc. unfold renew_policy.
  destruct (s_policy c) as [p|] eqn:Hp; [|done]. destruct (s_recovery c) as [r|] eqn:Hrec; [|done].
  destruct (policy_ref p) as [ref|] eqn:Href; [|done].
  destruct (authority_name p) as [name|] eqn:Hname; [|done].
  apply spec_bind, spec_known. destruct (Tpm.recovery_passphrase_hash _ _ _) as [h| |] eqn:Hh; [|done..].
  intros _. destruct (bool_decide _) eqn:Hb; [|done]. bools. subst h. simpl.
  destruct tx; simpl; [|done]. split; [|done]. exists passphrase, c, p, r. done.
Qed.

Lemma spec_change_one peer_uid old new tx salt hash c :
  passphrase_accepted old -> loaded_for peer_uid c -> (exists t, getrandom t 32 = Some salt) ->
  Tpm.recovery_passphrase_hash argon2id_default salt new = Ok hash ->
  spec I (authorized peer_uid (UpdatePassphrase old new)) (fun _ => True)
    (change_one tx salt hash argon2id_default c).
Proof.
  intros Hold Hc Hs Hh. unfold change_one. destruct (s_recovery c) as [r|] eqn:Hr; [|done].
  destruct tx; [|done]. apply spec_bind, spec_send; [|done]. exists old, new, c, r. done.
Qed.

Lemma check_old_accepted P old w stored (Q : option ManagementResponse -> Prop) :
  I w -> (Store.load_daemon_passphrase w).1 = Ok stored ->
  (passphrase_accepted old -> Q None) -> (forall r, Q (Some r)) ->
  spec I P Q (check_old_passphrase old stored).
Proof.
  intros Hi Hl Hn Hs. unfold check_old_passphrase.
  destruct stored as [[[salt hash] kdf]|]; [|apply Hn; exists w, None; done].
  destruct old as [o|]; [|apply Hs]. apply spec_bind, spec_known.
  destruct (Tpm.recovery_passphrase_hash kdf salt o) as [h| |] eqn:Hh; [|simpl; auto..|done].
  intros _. simpl. case_bool_decide; [|apply Hs]. subst. apply Hn. exists w, (Some (salt, hash, kdf)). eauto.
Qed.

Lemma random_salt_drawn w salt : (random_salt w).1 = Ok salt -> exists t, getrandom t 32 = Some salt.
Proof.
  destruct (random_salt w) as [r w'] eqn:E. simpl. intros ->. unfold random_salt in E. run_inv. eauto.
Qed.

Lemma spec_renew_all {A} oc peer_uid request passphrase tx path (cs : list StoredCtap2Credential) (f : A -> Prog Value) l :
  (request = UpdatePcrReference passphrase \/
   exists indices target, request = UpdatePcrPolicy passphrase indices target) ->
  Forall (loaded_for peer_uid) cs ->
  (forall x, x ∈ l -> (exists v, f x = Ret v) \/ exists c, c ∈ cs /\ f x = renew_policy oc tx path passphrase c) ->
  spec I (authorized peer_uid request) (fun _ => True)
    (results ← mapM f l; Ret (success (VMap [(VText "results", VArray results)]))).
Proof.
  intros Hr Hcs Hf. apply spec_bind. eapply (spec_mapM _ _ _ (fun _ _ => True)); [|done]. intros x Hx.
  destruct (Hf x Hx) as [[v ->]|(c & Hc & ->)]; [done|]. apply spec_renew_policy; [done|].
  rewrite Forall_forall in Hcs. by apply Hcs.
Qed.

Lemma loaded_all peer_uid w cs : I w -> (Store.load_ctap2_credentials (filter_uid peer_uid) w).1 = Ok cs ->
  Forall (loaded_for peer_uid) cs.
Proof. intros Hi Hl. apply Forall_forall. intros c Hc. by eapply loaded_load. Qed.

Lemma dispatch_authorized oc tx peer_uid request :
  spec I (authorized peer_uid request) (fun _ => True) (dispatch oc tx peer_uid request).
Proof.
  destruct request as [|old new|passphrase|passphrase indices target|indices]; simpl.
  - apply spec_or_return_await; [done|]. intros w cs _ _. apply spec_bind.
    eapply (spec_mapM _ _ _ (fun _ _ => True)); [|done]. intros c _. apply spec_list_entry.
  - apply spec_or_return_await; [done|]. intros w stored Hi Hl. apply spec_bind.
    eapply check_old_accepted; [exact Hi|exact Hl| |done]. intros Hold.
    apply spec_or_return_await; [done|]. intros ws salt _ Hs%random_salt_drawn.
    apply spec_or_return_known; [done|]. intros hash Hh.
    apply spec_or_return_await; [done|]. intros _ _ _ _.
    apply spec_or_return_await; [done|]. intros w' cs Hi' Hcs%loaded_all; [|done]. apply spec_bind.
    eapply (spec_mapM _ _ _ (fun _ _ => True)); [|done]. intros c Hc. rewrite Forall_forall in Hcs.
    by apply spec_change_one; [|apply Hcs|..].
  - apply spec_or_return_await; [done|]. intros w cs Hi Hcs%loaded_all; [|done].
    eapply spec_renew_all; [by left|done|eauto].
  - apply spec_or_return_await; [done|]. intros w cs Hi Hcs%loaded_all; [|done].
    apply spec_or_return_known; [done|]. intros ids _. eapply spec_renew_all; [by eauto|done|].
    intros id _. unfold renew_by_id. destruct (find_by _ cs) as [c|] eqn:Hf; [|eauto].
    apply find_by_Some in Hf as [Hc _]. eauto.
  - by apply spec_or_return_await.
Qed.

(** What a list of credentials says about one of them. *)
Definition describes (c : StoredCtap2Credential) (v : Value) : Prop :=
  exists stale, v = VMap
    [(VText "id", VText (hex_encode (s_id c)));
     (VText "rp_id", VText (s_rp_id c));
     (VText "user_name", VText (default ""%string (s_user_name c)));
     (VText "discoverable", VBool (s_discoverable c));
     (VText "pcr_stale", stale)].

(** A list of the credentials that the store had for the peer. *)
Definition lists (peer_uid : Z) (response : ManagementResponse) : Prop :=
  exists w cs entries, I w /\
    (Store.load_ctap2_credentials (filter_uid peer_uid) w).1 = Ok cs /\
    Forall (owned_by peer_uid) cs /\ Forall2 describes cs entries /\
    response = success (VMap [(VText "credentials", VArray entries)]).

Lemma list_describes P tx c : (forall indices, P (PcrDigestCheck indices)) -> spec I P (describes c) (list_entry tx c).
Proof.
  intros HP. unfold list_entry. apply spec_bind. unfold check_pcr_stale.
  destruct (s_policy c) as [p|]; [|by eexists].
  destruct (pcr_indices_from_selection _); [|by eexists]. destruct tx; [|by eexists].
  apply spec_bind, spec_send; [done|]. intros r. by eexists.
Qed.

Lemma list_credentials_lists P tx peer_uid : (forall indices, P (PcrDigestCheck indices)) ->
  spec I P (fun response => (exists e, response = failure e) \/ lists peer_uid response)
    (handle_list_credentials tx peer_uid).
Proof.
  intros HP. apply spec_or_return_await; [eauto|]. intros w cs Hi Hcs. apply spec_bind.
  apply (spec_mapM _ _ _ describes); [intros c _; by apply list_describes|].
  intros entries He. right. exists w, cs, entries. split_and!; [done|done|by eapply load_owned|done|done].
Qed.
End visible.

(** What holds whatever the other threads do holds of a run without them. *)
Lemma exec_spec {pf : Platform} {cr : Crypto} {es : Esapi} {sc : StoreCodec} {A} oc P Q (p : Prog A) s a s' :
  spec (fun _ => True) P Q p -> (exec oc p : M St Empty_set A) s = (Ok a, s') -> Q a.
Proof.
  revert s. induction p as [x| |X m k IH|c k IH]; intros s Hp Hrun; simpl in *.
  - by apply ret_Ok in Hrun as [-> _].
  - done.
  - apply bind_Ok in Hrun as (r & s1 & (w & Hm & Hr & ->)%call_Ok & Hk).
    eapply IH; [|exact Hk]. specialize (Hp (world s)). rewrite Hm in Hp. by apply Hp.
  - apply bind_Ok in Hrun as (r & s1 & _ & Hk). eapply IH; [|exact Hk]. apply Hp.
Qed.

(** ** Framing *)

Lemma recv_send closed data rest :
  Z.of_nat (length data) < 2 ^ 32 -> recv_message closed (send_message data ++ rest) = Complete data rest.
Proof.
  intros Hl. unfold recv_message, read_exact, send_message.
  rewrite length_app, length_app, length_be_bytes, <- app_assoc.
  rewrite (proj2 (Nat.ltb_ge _ _)) by lia.
  rewrite take_app_length', drop_app_length' by (by rewrite length_be_bytes).
  unfold u32. rewrite Z.mod_small, be_val_be_bytes, Z.mod_small, Nat2Z.id by lia.
  rewrite length_app, (proj2 (Nat.ltb_ge _ _)) by lia. by rewrite take_app_length, drop_app_length.
Qed.

(** Whether a message is there depends neither on what follows it nor on whether the
    stream was closed. *)
Lemma read_exact_complete n closed closed' input data rest more :
  read_exact n closed input = Complete data rest -> read_exact n closed' (input ++ more) = Complete data (rest ++ more).
Proof.
  unfold read_exact. destruct (length input <? n)%nat eqn:E; [by destruct closed|]. bools.
  intros [= <- <-]. rewrite length_app, (proj2 (Nat.ltb_ge _ _)) by lia.
  by rewrite take_app_le, drop_app_le by lia.
Qed.

Lemma recv_complete closed closed' input data rest more :
  recv_message closed input = Complete data rest ->
  recv_message closed' (input ++ more) = Complete data (rest ++ more).
Proof.
  unfold recv_message. destruct (read_exact 4 closed input) as [| |len body] eqn:E; [done..|].
  rewrite (read_exact_complete _ _ closed' _ _ _ more E). apply read_exact_complete.
Qed.

Lemma recv_closed closed input data rest :
  recv_message closed input = Complete data rest -> recv_message false input = Complete data rest.
Proof. intros H%(recv_complete closed false _ _ _ []). by rewrite !app_nil_r in H. Qed.

(** ** Runs of programs *)

Section exec.
Context {pf : Platform} {cr : Crypto} {es : Esapi} {sc : StoreCodec} {mc : ManagementCodec}.
Context (oc : bool).

Lemma exec_bind {E A B} (p : Prog A) (f : A -> Prog B) s :
  (exec oc (p ≫= f) : M St E B) s = (a ← exec oc p; exec oc (f a)) s.
Proof.
  revert s. induction p as [a| |X m k IH|c k IH]; intros s; simpl; try done; unfold mbind, M_bind in *.
  - destruct (call m s) as [[]]; [apply IH|done..].
  - destruct (attempt (handle_tpm_command oc c) s) as [[]]; [apply IH|done..].
Qed.
End exec.

(** The socket, while no other thread interferes: the daemon's answer to what a
    peer writes before it waits for an answer. *)
Definition socket {pf : Platform} {cr : Crypto} {es : Esapi} {sc : StoreCodec} {mc : ManagementCodec}
    (oc tx : bool) (peer_uid : Z) (s : St) : res string (bytes -> bytes) :=
  Ok (fun input =>
    match handle_client oc tx (Some peer_uid) false input with
    | Some p =>
        match (exec oc p : M St Empty_set _) s with (Ok (Some output), _) => output | _ => [] end
    | None => []
    end).

(** A management call works end to end: the response the client reads is the
    response the daemon's handler computed for the request the client wrote, for
    the uid of the client's end of the socket, as long as both messages fit their
    length prefix. *)
Lemma management_call_roundtrip {pf : Platform} {cr : Crypto} {es : Esapi} {sc : StoreCodec}
    {mc : ManagementCodec} {ml : ManagementCodecLaws} oc tx peer_uid request encoded response
    answer s s' :
  request_encode request = Ok encoded -> Z.of_nat (length encoded) < 2 ^ 32 ->
  (exec oc (dispatch oc tx peer_uid request) : M St Empty_set _) s = (Ok response, s') ->
  response_encode response = Ok answer -> Z.of_nat (length answer) < 2 ^ 32 ->
  send_request (socket oc tx peer_uid s) request = Ok response.
Proof.
  intros Hr Hlr Hx Ha Hla. unfold send_request, socket. rewrite Hr. cbn [map_err mbind res_bind].
  pose proof (recv_send false encoded [] Hlr) as Hrecv. rewrite app_nil_r in Hrecv.
  pose proof (recv_send true answer [] Hla) as Hans. rewrite app_nil_r in Hans.
  assert (forall E, (exec oc (handle_message oc tx peer_uid encoded) : M St E _) s =
    ((r ← exec oc (dispatch oc tx peer_uid request);
      mret match response_encode r with Ok b => Some (send_message b) | _ => None end) : M St E _) s) as Hc.
  { intros E. unfold handle_message. rewrite (request_roundtrip _ _ Hr). apply exec_bind. }
  unfold handle_client. rewrite Hrecv, Hc, (bind_run_Ok _ _ _ _ _ Hx). cbn [mret M_ret]. rewrite Ha, Hans. simpl.
  by rewrite (response_roundtrip _ _ Ha).
Qed.

(** ** The daemon passphrase *)

(** C29. Without the current passphrase the daemon's passphrase cannot be changed:
    when one is set and the request gives none or one with another hash, the answer
    is an error, and neither the authenticator nor any table changes. *)
Theorem wrong_passphrase_changes_nothing {pf : Platform} {cr : Crypto} {es : Esapi} {sc : StoreCodec}
    {mc : ManagementCodec} oc tx peer_uid old new s salt hash kdf :
  (Store.load_daemon_passphrase (world s)).1 = Ok (Some (salt, hash, kdf)) ->
  (forall o, old = Some o -> exists h, Tpm.recovery_passphrase_hash kdf salt o = Ok h /\ h <> hash) ->
  let '(r, s') := (exec oc (dispatch oc tx peer_uid (UpdatePassphrase old new)) : M St Empty_set _) s in
  (exists e, r = Ok (failure e)) /\ auth s' = auth s /\
  StoreProps.same_tables (w_db (world s)) (w_db (world s')).
Proof.
  intros Hl Hold. simpl. unfold handle_update_passphrase, or_return, await.
  destruct (load_daemon_passphrase_total (world s)) as [_ Ht].
  simpl. unfold call, on_world, attempt, mbind, M_bind.
  destruct (Store.load_daemon_passphrase (world s)) as [r w']. simpl in *. subst r. simpl.
  destruct old as [o|]; simpl; [|by eauto].
  destruct (Hold o eq_refl) as (h & Hh & Hne). rewrite Hh. simpl. rewrite bool_decide_eq_false_2 by done.
  simpl. eauto.
Qed.
(** Every call of the store that the program makes keeps [R]; it goes on with a
    result that the call has in some world. *)
Fixpoint calls_keep {A} (R : relation World) (p : Prog A) : Prop :=
  match p with
  | Ret _ | Die => True
  | Call X m k => keeps R m /\ forall w, calls_keep R (k (m w).1)
  | Tpm c k => forall r, calls_keep R (k r)
  end.

Section calls.
Context {pf : Platform} {cr : Crypto} {es : Esapi} {sc : StoreCodec} {mc : ManagementCodec}.
Context (R : relation World) {sr : StoreRel R}.
Context (Hop : forall op, daemon_op op = true -> keeps R (StoreProps.run_op op)).

Lemma calls_bind {A B} (p : Prog A) (f : A -> Prog B) :
  calls_keep R p -> (forall a, calls_keep R (f a)) -> calls_keep R (p ≫= f).
Proof.
  induction p as [a| |X m k IH|c k IH]; simpl; try done.
  - intros [Hm Hk] Hf. split; [done|]. intros w. by apply IH.
  - intros Hk Hf r. by apply IH.
Qed.

Lemma calls_mapM {A B} (f : A -> Prog B) l : (forall x, calls_keep R (f x)) -> calls_keep R (mapM f l).
Proof.
  intros Hf. induction l as [|x l IH]; simpl; [done|]. apply calls_bind; [done|]. intros y.
  by apply calls_bind.
Qed.

(** The early returns of a call of the store and of a result at hand. *)
Lemma calls_or_return_await {A} (m : M World string A) f (k : A -> Prog ManagementResponse) :
  keeps R m -> (forall w a, (m w).1 = Ok a -> calls_keep R (k a)) -> calls_keep R (or_return (await m) f k).
Proof. intros Hm Hk. split; [done|]. intros w. simpl. destruct (m w).1 eqn:E; simpl; eauto. Qed.

Lemma calls_or_return_known {A} (r : res string A) f (k : A -> Prog ManagementResponse) :
  (forall a, r = Ok a -> calls_keep R (k a)) -> calls_keep R (or_return (known r) f k).
Proof. intros Hk. destruct r; simpl; eauto. Qed.

Lemma calls_change_one tx s h k c : calls_keep R (change_one tx s h k c).
Proof. unfold change_one. destruct (s_recovery c), tx; done. Qed.

(** A run of such a program keeps what its calls and the daemon's commands keep. *)
Lemma exec_rel {E A} oc (Q : relation St) {po : PreOrder Q} (p : Prog A) :
  (forall X (m : M World string X), keeps R m -> keeps Q (call m : M St E _)) ->
  (forall c, keeps Q (handle_tpm_command oc c)) ->
  calls_keep R p -> keeps Q (exec oc p : M St E A).
Proof.
  intros Hcall Htpm. induction p as [a| |X m k IH|c k IH]; simpl; [intros _; eauto with keeps..| |].
  - intros [Hm Hk] s. pose proof (Hcall X m Hm s) as Hs. unfold mbind, M_bind.
    destruct (call m s) as [[r|e|] s1] eqn:E1; [|exact Hs..]. etrans; [exact Hs|].
    apply call_Ok in E1 as (w & E1 & _ & _). apply IH. specialize (Hk (world s)). by rewrite E1 in Hk.
  - intros Hk. apply keeps_bind; [apply _|by apply keeps_attempt|intros r; by apply IH].
Qed.

Lemma exec_keeps {E A} oc (p : Prog A) :
  calls_keep R p -> keeps (on_st R) (exec oc p : M St E A).
Proof.
  apply exec_rel; [apply _|intros X m; by apply world_call|]. intros c. by apply daemon_tpm_command.
Qed.
End calls.

Section passphrase.
Context {pf : Platform} {cr : Crypto} {es : Esapi} {sc : StoreCodec} {mc : ManagementCodec}.
Context (oc : bool).

(** The old passphrase opens what is stored. *)
Definition opens (old : option string) (stored : option (bytes * bytes * RecoveryKdf)) : Prop :=
  forall salt hash kdf, stored = Some (salt, hash, kdf) ->
    exists o, old = Some o /\ Tpm.recovery_passphrase_hash kdf salt o = Ok hash.

Lemma load_daemon_passphrase_config {hp : Healthy} {sl : StoreCodecLaws} salt hash w :
  daemon_config (w_db w) !! "daemon_passphrase"%string =
    Some (passphrase_encode (hash, salt, 65536, 3, 1)) ->
  (Store.load_daemon_passphrase w).1 = Ok (Some (salt, hash, argon2id_default)).
Proof.
  intros Hc. eapply (StoreProps.runs_det _ (w_db w)); [|done]. unfold Store.load_daemon_passphrase.
  eapply StoreProps.runs_bind; [apply StoreProps.runs_open_database|].
  eapply StoreProps.runs_bind; [apply StoreProps.runs_io|].
  eapply StoreProps.runs_bind; [apply StoreProps.runs_db_get|]. simpl. rewrite Hc.
  eapply StoreProps.runs_bind; [rewrite passphrase_roundtrip; apply StoreProps.runs_lift|].
  apply StoreProps.runs_ret.
Qed.

(** Changing the recovery slots does not touch the settings. *)
Lemma change_slots_config tx peer_uid salt hash kdf (k : list Value -> ManagementResponse) s :
  same_config (world s) (world ((exec oc (or_return (load_visible peer_uid) failure (fun credentials =>
    results ← mapM (change_one tx salt hash kdf) credentials; Ret (k results))) : M St Empty_set _) s).2).
Proof.
  apply (exec_keeps same_config config_run_op), calls_or_return_await.
  - apply keeps_drop, (config_run_op (StoreProps.LoadCredentials (filter_uid peer_uid))). done.
  - intros _ cs _. apply calls_bind; [|done]. apply calls_mapM. intros c. apply calls_change_one.
Qed.
End passphrase.
End ManagementProps.
