(* ===== verification/Requests.v ===== *)
(** Management requests from the socket to the stored credentials: what a request to
    renew policies or to change the passphrase makes of every credential of the
    store, and what it answers, when no other thread interferes. *)
From Stdlib Require Import ZArith Lia String.
From stdpp Require Import base list option strings gmap.
From S2P Require Import Prelude Schema Platform Cbor Session Tpm Store StoreProps StoreRoundtrip.
From S2P Require Import StoreRefine Ctap2Types Ctap2 Ctap2Facts WorldFacts WorldSafe Settings Ctap2Safe.
From S2P Require Import Ctap2Mirror Renewal Management ManagementProps.

#[local] Open Scope Z_scope.

Module Requests.
Import Ctap2 Ctap2Facts WorldFacts WorldSafe Settings StoreRoundtrip StoreRefine Ctap2Safe Ctap2Mirror Renewal.
Import Management ManagementProps.

(** ** Changes *)

(** The changes of some credentials, one after the other; [None] changes nothing. *)
Abbreviation Change := (option (StoredCtap2Credential -> StoredCtap2Credential)).

Definition change_one_of (cs : list StoredCtap2Credential) (x : bytes * Change) : list StoredCtap2Credential :=
  match x.2 with Some f => amend x.1 f <$> cs | None => cs end.

Definition change_all (l : list (bytes * Change)) (cs : list StoredCtap2Credential) : list StoredCtap2Credential :=
  foldl change_one_of cs l.

Section requests.
Context {pf : Platform} {pl : PlatformLaws} {pr : PlatformReturns} {hp : Healthy} {cr : Crypto} {codec : CborCodec}.
Context {es : Esapi} {er : EsapiReturns} {sc : StoreCodec} {sl : StoreCodecLaws} {cd : CodecReturns} {ph : PhcFits}.
Context {mc : ManagementCodec}.
Context (oc : bool) (key : bytes) (Hlen : length key = 32%nat).

(** The settings are sane and the store holds [cs]. *)
Record stands (cs : list StoredCtap2Credential) (s : St) : Prop := {
  sd_settings : config (settings_ok oc) (world s);
  sd_shelf : shelved key (w_db (world s)) cs }.

Lemma stands_db cs s w : w_db w = w_db (world s) -> stands cs s -> stands cs (set_world w s).
Proof. intros Hw [Hc Hs]. split; unfold config in *; simpl; by rewrite Hw. Qed.

(** ** Single steps of a program *)

Lemma exec_await {E A} (m : M World string A) f (k : A -> Prog ManagementResponse) s a w :
  m (world s) = (Ok a, w) ->
  (exec oc (or_return (await m) f k) : M St E _) s = exec oc (k a) (set_world w s).
Proof.
  intros Hm. simpl. rewrite (bind_run_Ok _ _ s (Ok a) (set_world w s)); [done|]. by apply call_run.
Qed.

Lemma exec_known {E A} (a : A) f (k : A -> Prog ManagementResponse) s :
  (exec oc (or_return (known (Ok a)) f k) : M St E _) s = exec oc (k a) s.
Proof. done. Qed.

Lemma exec_load {E} peer_uid f (k : list StoredCtap2Credential -> Prog ManagementResponse) cs s :
  stands cs s -> Forall (owner_known (filter_uid peer_uid)) cs ->
  exists s1, stands cs s1 /\ auth s1 = auth s /\
    (exec oc (or_return (load_visible peer_uid) f k) : M St E _) s =
      exec oc (k (loaded key (filter_uid peer_uid) cs)) s1.
Proof.
  intros Hs Ho. destruct Hs as [Hc Hsh]. pose proof Hsh as [].
  destruct (runs_load_represented key (filter_uid peer_uid) (w_db (world s)) cs) with (w := world s) as [t Hl]; try done.
  eexists. split; [|split; [|by apply exec_await]]; [by split|done].
Qed.

(** A command of the daemon's thread returns and renews what it names. *)
Lemma command_runs c cs s : stands cs s -> command_ok oc c = true ->
  exists r s' cs', handle_tpm_command oc c s = (r, s') /\ r <> Panic /\ stands cs' s' /\ renewed c r cs cs'.
Proof.
  intros [Hc Hs] Hok. destruct (safe_tpm_command oc (fun _ _ _ => True) c Hok s) as [Hr [Hc' _]]; [by split|].
  destruct (command_leads oc key Hlen cs c s Hs) as (cs' & Hs' & Hn).
  destruct (handle_tpm_command oc c s) as [r s']. by exists r, s', cs'.
Qed.

Lemma exec_command {E} c id cs s : stands cs s -> command_ok oc c = true ->
  exists r s' cs', handle_tpm_command oc c s = (r, s') /\ stands cs' s' /\ renewed c r cs cs' /\ r <> Panic /\
    (exec oc (r ← send_command c; Ret (entry_of id (command_result r))) : M St E _) s =
      (Ok (entry_of id (command_result (Replied r))), s').
Proof.
  intros Hs Hok. destruct (command_runs c cs s Hs Hok) as (r & s' & cs' & E1 & Hr & Hs' & Hn).
  exists r, s', cs'. split_and!; [done..|]. simpl. unfold attempt, mbind, M_bind. rewrite E1. by destruct r.
Qed.

(** ** One credential after the other *)

(** What was done for the elements of a list, each in the state that the one before
    has left: the entry of the answer and the change of the credential. *)
Inductive in_turn {X} (T : X -> Value -> Change -> St -> St -> Prop) : list X -> list Value -> list Change -> St -> St -> Prop :=
| in_turn_nil s : in_turn T [] [] [] s s
| in_turn_cons x v o s1 l vs os s s' :
    T x v o s s1 -> in_turn T l vs os s1 s' -> in_turn T (x :: l) (v :: vs) (o :: os) s s'.

Lemma in_turn_fmap {X Y} (g : X -> Y) (T : Y -> Value -> Change -> St -> St -> Prop) l vs os s s' :
  in_turn (fun x => T (g x)) l vs os s s' -> in_turn T (g <$> l) vs os s s'.
Proof. induction 1; [constructor|]. csimpl. by econstructor. Qed.

Lemma exec_changes {E X} (id_of : X -> bytes) (f : X -> Prog Value)
    (T : X -> Value -> Change -> St -> St -> Prop) l :
  (forall x cs s, x ∈ l -> stands cs s -> exists v o s', (exec oc (f x) : M St E _) s = (Ok v, s') /\ T x v o s s' /\
     stands (change_one_of cs (id_of x, o)) s') ->
  forall cs s, stands cs s -> exists vs os s', (exec oc (mapM f l) : M St E _) s = (Ok vs, s') /\
    in_turn T l vs os s s' /\ stands (change_all (zip (id_of <$> l) os) cs) s'.
Proof.
  induction l as [|x l IH]; intros Hf cs s Hs; [exists [], [], s; split_and!; [done|constructor|done]|].
  destruct (Hf x cs s) as (v & o & s1 & E1 & HT & Hs1); [left|done|].
  destruct (IH) with (cs := change_one_of cs (id_of x, o)) (s := s1) as (vs & os & s2 & E2 & HTs & Hs2);
    [intros; apply Hf; [by right|done]|done|].
  exists (v :: vs), (o :: os), s2. split_and!; [|by econstructor|done].
  simpl. rewrite exec_bind, (bind_run_Ok _ _ _ _ _ E1), exec_bind, (bind_run_Ok _ _ _ _ _ E2). done.
Qed.

(** Changes that leave the owner alone. *)
Definition owner_kept (o : Change) : Prop := forall f c, o = Some f -> s_user_id (f c) = s_user_id c.

Lemma change_all_owner user_id ids os cs : Forall owner_kept os ->
  Forall (owner_known user_id) cs -> Forall (owner_known user_id) (change_all (zip ids os) cs).
Proof.
  intros Hos. revert ids cs. induction Hos as [|o os Ho _ IH]; intros [|id ids] cs Hcs; try done.
  apply IH. unfold change_one_of. simpl. destruct o as [f|]; [|done].
  apply Forall_amend; [|done]. intros c. unfold owner_known. by rewrite (Ho f c eq_refl).
Qed.

(** The next load shows the changes. *)
Lemma stands_load user_id ids os cs s : Forall owner_kept os -> Forall (owner_known user_id) cs ->
  stands (change_all (zip ids os) cs) s ->
  (Store.load_ctap2_credentials user_id (world s)).1 = Ok (loaded key user_id (change_all (zip ids os) cs)).
Proof.
  intros Hos Hcs [_ []].
  destruct (runs_load_represented key user_id (w_db (world s)) (change_all (zip ids os) cs)) with (w := world s)
    as [t ->]; try done. by apply change_all_owner.
Qed.

(** ** Renewing policies *)

(** What is renewed of a credential, with the passphrase it takes. *)
Definition renewable (passphrase : string) (c : StoredCtap2Credential) (name ref : bytes) : Prop :=
  exists policy recovery, s_policy c = Some policy /\ s_recovery c = Some recovery /\
    authority_name policy = Some name /\ policy_ref policy = Some ref /\
    Tpm.recovery_passphrase_hash (kdf recovery) (passphrase_salt recovery) passphrase = Ok (passphrase_hash recovery).

(** The entry of the answer for one id and what becomes of the credential, from a
    state to another. Nothing is done if there is no such credential or nothing to
    renew, which the entry says, and nothing if the credential does not have what a
    renewal takes or the passphrase is not that of its slot, which is an error. In
    every other case the TPM is asked, with the key of the recovery slot, for the
    credential's own authority name and reference: the credential gets the policy the
    TPM has computed and the entry says [ok], or the entry has the TPM thread's own
    error. *)
Definition renewal (passphrase : string) (x : bytes * option StoredCtap2Credential) (e : Value) (o : Change)
    (s s' : St) : Prop :=
  let id_hex := hex_encode x.1 in
  let nothing_done := o = None /\ s' = s in
  match x.2 with
  | None => nothing_done /\ e = entry_skipped id_hex "credential not found"
  | Some c =>
      match s_policy c, s_recovery c with
      | None, _ => nothing_done /\ e = entry_skipped id_hex "no PCR policy"
      | Some _, None => nothing_done /\ e = entry_skipped id_hex "no recovery slot"
      | Some _, Some recovery =>
          (nothing_done /\ (exists msg, e = entry_error id_hex msg) /\
             forall name ref, ~ renewable passphrase c name ref) \/
          (exists name ref r, renewable passphrase c name ref /\
             handle_tpm_command oc (PcrPolicyUpdate (s_id c) (slot_key recovery) name ref) s = (r, s') /\
             match r with
             | Ok _ => e = entry_ok id_hex /\ exists p, computed_policy name ref p /\ o = Some (with_policy p)
             | Err msg => e = entry_error id_hex msg /\ o = None
             | Panic => False
             end)
      end
  end.

Lemma exec_renew {E} path passphrase c cs s : stands cs s ->
  exists v o s', (exec oc (renew_policy oc true path passphrase c) : M St E _) s = (Ok v, s') /\
    renewal passphrase (s_id c, Some c) v o s s' /\ stands (change_one_of cs (s_id c, o)) s'.
Proof.
  intros Hs. unfold renew_policy.
  assert (forall v, renewal passphrase (s_id c, Some c) v None s s -> exists v' o s',
    (mret v : M St E _) s = (Ok v', s') /\ renewal passphrase (s_id c, Some c) v' o s s' /\
    stands (change_one_of cs (s_id c, o)) s') as Hstay by (intros v Hv; exists v, None, s; done).
  unfold renewal in *. cbn [fst snd] in *.
  destruct (s_policy c) as [policy|] eqn:Hp; [|by apply Hstay].
  destruct (s_recovery c) as [recovery|] eqn:Hr; [|by apply Hstay].
  assert (forall msg, (forall name ref, ~ renewable passphrase c name ref) -> exists v' o s',
    (mret (entry_error (hex_encode (s_id c)) msg) : M St E _) s = (Ok v', s') /\ _ /\ _) as Herr
    by (intros msg Hno; apply (Hstay (entry_error (hex_encode (s_id c)) msg)); left; eauto).
  destruct (policy_ref policy) as [ref|] eqn:Href; [|apply Herr; intros ?? (?&?&?&?&?&?&?); congruence].
  destruct (authority_name policy) as [name|] eqn:Hname; [|apply Herr; intros ?? (?&?&?&?&?&?&?); congruence].
  pose proof (argon2id_returns (kdf recovery) (passphrase_salt recovery) (as_bytes passphrase) 32) as Hnp.
  fold (Tpm.recovery_passphrase_hash (kdf recovery) (passphrase_salt recovery) passphrase) in Hnp.
  destruct (Tpm.recovery_passphrase_hash (kdf recovery) (passphrase_salt recovery) passphrase) as [h|e|] eqn:Hh;
    simpl; [|apply Herr; intros ?? (?&?&?&?&?&?&?); congruence|done].
  case_bool_decide as Heq; simpl; [subst h|apply Herr; intros ?? (?&?&?&?&?&?&?); congruence].
  assert (renewable passphrase c name ref) as Hren by (by exists policy, recovery).
  destruct (exec_command (E := E) (PcrPolicyUpdate (s_id c) (slot_key recovery) name ref) (hex_encode (s_id c)) cs s Hs eq_refl)
    as (r & s' & cs' & Erun & Hs' & Hn & Hnr & Ex). simpl in Ex. rewrite Ex. clear Hstay Herr.
  destruct r as [reply|e|]; simpl in *; [| |done].
  - destruct Hn as (_ & _ & p & Hp' & ->). eexists _, (Some (with_policy p)), s'. split; [reflexivity|]. split; [|exact Hs'].
    right. exists name, ref, (Ok reply). split_and!; eauto.
  - subst cs'. eexists _, None, s'. split; [reflexivity|]. split; [|exact Hs']. right. by exists name, ref, (Err e).
Qed.

Lemma renewal_owner passphrase l entries os s s' :
  in_turn (renewal passphrase) l entries os s s' -> Forall owner_kept os.
Proof.
  induction 1 as [|x e o s1 l entries os s s' Ho _ IH]; constructor; [|done]. intros f c ->.
  unfold renewal in Ho. destruct (x.2) as [c'|]; [|by destruct Ho as [[? ?] ?]].
  destruct (s_policy c'), (s_recovery c'); try by destruct Ho as [[? ?] ?].
  destruct Ho as [[[? ?] ?]|(name & ref & r & _ & _ & Hr)]; [done|]. destruct r as [reply|e'|]; [|by destruct Hr|done].
  by destruct Hr as (_ & p & _ & [= ->]).
Qed.

(** The ids a request names, with the credentials the peer has under them. *)
Definition sought (request : ManagementRequest) (visible : list StoredCtap2Credential)
    : res string (list (bytes * option StoredCtap2Credential)) :=
  let under (ids : list bytes) := (fun id => (id, find_by (fun c => bool_decide (s_id c = id)) visible)) <$> ids in
  match request with
  | UpdatePcrPolicy _ _ (All true) => Ok (under (s_id <$> visible))
  | UpdatePcrPolicy _ _ (All false) => Err "--all must be explicitly set to true"%string
  | UpdatePcrPolicy _ _ (Ids texts) =>
      match mapM hex_decode texts with
      | Ok ids => Ok (under ids)
      | Err e => Err ("invalid hex credential ID: " +:+ e)%string
      | Panic => Panic
      end
  | _ => Ok ((fun c => (s_id c, Some c)) <$> visible)
  end.

Lemma sought_targets passphrase indices target visible :
  sought (UpdatePcrPolicy passphrase indices target) visible =
  match target_ids visible target with
  | Ok ids => Ok ((fun id => (id, find_by (fun c => bool_decide (s_id c = id)) visible)) <$> ids)
  | Err e => Err e
  | Panic => Panic
  end.
Proof. destruct target as [[]|texts]; [done..|]. simpl. by destruct (mapM hex_decode texts). Qed.

Lemma mapM_res_Panic {X Y E} (f : X -> res E Y) l : mapM f l = Panic -> exists x, f x = Panic.
Proof.
  induction l as [|x l IH]; [done|]. simpl. intros H. destruct (f x) eqn:Hf; [|done|by exists x].
  apply IH. by destruct (mapM f l).
Qed.

Lemma target_ids_Panic vs target : target_ids vs target = Panic -> exists text, hex_decode text = Panic.
Proof.
  destruct target as [[]|texts]; [done..|]. simpl. intros H. apply (mapM_res_Panic _ texts).
  by destruct (mapM hex_decode texts).
Qed.

(** A request to renew policies. *)
Definition renews (request : ManagementRequest) (passphrase : string) : Prop :=
  request = UpdatePcrReference passphrase \/
  exists indices target, request = UpdatePcrPolicy passphrase indices target.

Lemma exec_renewals {E X} (g : X -> bytes * option StoredCtap2Credential) (f : X -> Prog Value) passphrase l cs s :
  (forall x cs s, x ∈ l -> stands cs s -> exists v o s', (exec oc (f x) : M St E _) s = (Ok v, s') /\
     renewal passphrase (g x) v o s s' /\ stands (change_one_of cs ((g x).1, o)) s') ->
  stands cs s -> exists entries os s',
    (exec oc (results ← mapM f l; Ret (success (VMap [(VText "results", VArray results)]))) : M St E _) s =
      (Ok (success (VMap [(VText "results", VArray entries)])), s') /\
    in_turn (renewal passphrase) (g <$> l) entries os s s' /\ stands (change_all (zip (g <$> l).*1 os) cs) s'.
Proof.
  intros Hf Hs.
  destruct (exec_changes (fun x => (g x).1) f (fun x => renewal passphrase (g x)) l Hf cs s Hs)
    as (entries & os & s' & Ex & HT & Hs').
  exists entries, os, s'. rewrite <- list_fmap_compose. split_and!; [|by apply in_turn_fmap|done].
  by rewrite exec_bind, (bind_run_Ok _ _ _ _ _ Ex).
Qed.

Lemma exec_renew_by_id {E} passphrase vs id cs s : stands cs s ->
  exists v o s', (exec oc (renew_by_id oc true passphrase vs id) : M St E _) s = (Ok v, s') /\
    renewal passphrase (id, find_by (fun c => bool_decide (s_id c = id)) vs) v o s s' /\ stands (change_one_of cs (id, o)) s'.
Proof.
  intros Hs. unfold renew_by_id. destruct (find_by _ vs) as [c|] eqn:Hf.
  - apply find_by_Some in Hf as [_ Hid]. bools. subst id. by apply exec_renew.
  - exists (entry_skipped (hex_encode id) "credential not found"), None, s. done.
Qed.

Lemma exec_renewal_request {E} request passphrase peer_uid cs s :
  renews request passphrase -> stands cs s -> Forall (owner_known (filter_uid peer_uid)) cs ->
  match sought request (loaded key (filter_uid peer_uid) cs) with
  | Ok l => exists entries os s1 s', (exec oc (dispatch oc true peer_uid request) : M St E _) s =
        (Ok (success (VMap [(VText "results", VArray entries)])), s') /\ stands cs s1 /\ auth s1 = auth s /\
      in_turn (renewal passphrase) l entries os s1 s' /\ stands (change_all (zip l.*1 os) cs) s'
  | Err e => exists s', (exec oc (dispatch oc true peer_uid request) : M St E _) s = (Ok (failure e), s') /\ stands cs s'
  | Panic => exists text, hex_decode text = Panic
  end.
Proof.
  intros Hr Hs Ho. set (vs := loaded key (filter_uid peer_uid) cs).
  destruct Hr as [->|(indices & target & ->)]; [|rewrite sought_targets]; cbn [dispatch sought];
    unfold handle_update_pcr_reference, handle_update_pcr_policy;
    match goal with |- context [or_return (load_visible _) _ ?k] =>
      destruct (exec_load (E := E) peer_uid failure k cs s Hs Ho) as (s1 & Hs1 & Ha & ->) end; fold vs.
  - destruct (exec_renewals (E := E) (fun c => (s_id c, Some c)) (renew_policy oc true None passphrase) passphrase vs cs s1)
      as (entries & os & s' & ? & ? & ?); [|done|by exists entries, os, s1, s'].
    intros c cs1 s2 _ Hs2. by apply exec_renew.
  - destruct (target_ids vs target) as [ids|e|] eqn:Et; simpl; [|by exists s1|by eapply target_ids_Panic].
    destruct (exec_renewals (E := E) (fun id => (id, find_by (fun c => bool_decide (s_id c = id)) vs))
      (renew_by_id oc true passphrase vs) passphrase ids cs s1)
      as (entries & os & s' & ? & ? & ?); [|done|by exists entries, os, s1, s'].
    intros id cs1 s2 _ Hs2. by apply exec_renew_by_id.
Qed.

(** ** Changing the passphrase *)

(** The entry of the answer for one credential and what becomes of its recovery slot,
    from a state to another. Without a slot nothing is done. Otherwise the daemon's
    thread is asked: the TPM gave out its key under the new authorization, and the
    slot has the new key, salt, hash and parameters; or it is as before, and the entry
    has the error of the command. *)
Definition reslotted (salt hash : bytes) (c : StoredCtap2Credential) (e : Value) (o : Change) (s s' : St) : Prop :=
  match s_recovery c with
  | None => o = None /\ s' = s /\ exists reason, e = entry_skipped (hex_encode (s_id c)) reason
  | Some recovery => exists r,
      handle_tpm_command oc (PassphraseChange (s_id c) (slot_key recovery) hash salt argon2id_default) s = (r, s') /\
      match r with
      | Ok _ => e = entry_ok (hex_encode (s_id c)) /\
          exists priv, reauthorized hash priv /\ o = Some (with_recovery priv salt hash argon2id_default)
      | Err msg => e = entry_error (hex_encode (s_id c)) msg /\ o = None
      | Panic => False
      end
  end.

Lemma reslotted_owner salt hash l entries os s s' :
  in_turn (reslotted salt hash) l entries os s s' -> Forall owner_kept os.
Proof.
  induction 1 as [|x e o s1 l entries os s s' Ho _ IH]; constructor; [|done]. intros f c ->.
  unfold reslotted in Ho. destruct (s_recovery x); [|by destruct Ho].
  destruct Ho as (r & _ & Hr). destruct r as [reply|e'|]; [|by destruct Hr|done].
  by destruct Hr as (_ & priv & _ & [= ->]).
Qed.

Lemma exec_change_one {E} salt hash c cs s : phc_ok salt hash -> stands cs s ->
  exists v o s', (exec oc (change_one true salt hash argon2id_default c) : M St E _) s = (Ok v, s') /\
    reslotted salt hash c v o s s' /\ stands (change_one_of cs (s_id c, o)) s'.
Proof.
  intros [H1 H2] Hs. unfold change_one, reslotted. destruct (s_recovery c) as [recovery|] eqn:Hr.
  2:{ eexists _, None, s. split; [reflexivity|]. split; [|exact Hs]. eauto. }
  destruct (exec_command (E := E) (PassphraseChange (s_id c) (slot_key recovery) hash salt argon2id_default)
    (hex_encode (s_id c)) cs s Hs) as (r & s' & cs' & Erun & Hs' & Hn & Hnr & Ex); [simpl; by rewrite H1, H2|].
  simpl in Ex |- *. rewrite Ex. destruct r as [reply|e|]; simpl in *; [| |done].
  - destruct Hn as (_ & _ & priv & Hp & ->). eexists _, (Some (with_recovery priv salt hash argon2id_default)), s'.
    split; [reflexivity|]. split; [|exact Hs']. exists (Ok reply). split_and!; eauto.
  - subst cs'. eexists _, None, s'. split; [reflexivity|]. split; [|exact Hs']. by exists (Err e).
Qed.

(** The settings with a new passphrase. *)
Lemma settings_passphrase salt hash m t l c : phc_ok salt hash -> settings_ok oc c ->
  settings_ok oc (<["daemon_passphrase"%string := passphrase_encode (hash, salt, m, t, l)]> c).
Proof.
  intros Hp [_ Hi]. split; [by apply passphrase_ok_new|]. intros blob li. rewrite lookup_insert_ne by done. apply Hi.
Qed.

Lemma stands_passphrase salt hash cs s : phc_ok salt hash -> stands cs s ->
  exists w, Store.save_daemon_passphrase salt hash argon2id_default (world s) = (Ok tt, w) /\
    stands cs (set_world w s) /\
    daemon_config (w_db w) !! "daemon_passphrase"%string = Some (passphrase_encode (hash, salt, 65536, 3, 1)).
Proof.
  intros Hp [Hc Hs].
  pose proof (settings_stay key (StoreProps.SaveDaemonPassphrase salt hash argon2id_default) eq_refl (world s) cs Hs) as Hst.
  assert (StoreProps.runs (Store.save_daemon_passphrase salt hash argon2id_default) (w_db (world s)) (Ok tt)
    (set_config (<["daemon_passphrase"%string := passphrase_encode (hash, salt, 65536, 3, 1)]>
      (daemon_config (set_exists (w_db (world s))))) (set_exists (w_db (world s))))) as Hr.
  { eapply StoreProps.runs_bind; [apply StoreProps.runs_open_database|].
    eapply StoreProps.runs_bind; [apply StoreProps.runs_io|].
    apply (StoreProps.runs_db_update (fun d => set_config (<["daemon_passphrase"%string :=
      passphrase_encode (hash, salt, 65536, 3, 1)]> (daemon_config d)) d)). }
  destruct (Hr (world s) eq_refl) as [t E]. simpl in Hst. rewrite E in Hst. eexists. split; [exact E|].
  split; [|apply lookup_insert_eq]. split; [by apply settings_passphrase|exact Hst].
Qed.

Lemma exec_slots {E} salt hash peer_uid cs s : phc_ok salt hash -> stands cs s ->
  Forall (owner_known (filter_uid peer_uid)) cs ->
  exists entries os s1 s', (exec oc (or_return (load_visible peer_uid) failure (fun credentials =>
      results ← mapM (change_one true salt hash argon2id_default) credentials;
      Ret (success (VMap [(VText "status", VText "daemon passphrase updated"); (VText "results", VArray results)]))))
      : M St E _) s =
    (Ok (success (VMap [(VText "status", VText "daemon passphrase updated"); (VText "results", VArray entries)])), s') /\
    stands cs s1 /\ in_turn (reslotted salt hash) (loaded key (filter_uid peer_uid) cs) entries os s1 s' /\
    stands (change_all (zip (s_id <$> loaded key (filter_uid peer_uid) cs) os) cs) s'.
Proof.
  intros Hp Hs Ho.
  match goal with |- context [or_return (load_visible _) _ ?k] =>
    destruct (exec_load (E := E) peer_uid failure k cs s Hs Ho) as (s1 & Hs1 & _ & ->) end.
  destruct (exec_changes (E := E) s_id (change_one true salt hash argon2id_default)
    (reslotted salt hash) (loaded key (filter_uid peer_uid) cs)) with (cs := cs) (s := s1) as (entries & os & s' & Ex & HT & Hs'); [|done|].
  { intros c cs1 s2 _ Hs2. by apply exec_change_one. }
  exists entries, os, s1, s'. split_and!; [|done..].
  by rewrite exec_bind, (bind_run_Ok _ _ _ _ _ Ex).
Qed.

(** A call that leaves the shelf alone. *)
Lemma stands_calm op cs s : calm_op op = true -> stands cs s -> stands cs (set_world (StoreProps.run_op op (world s)).2 s).
Proof.
  intros Hop [Hc Hs]. pose proof (shelf_run op Hop (world s)) as Hk.
  split; [|by eapply shelved_kept]. unfold config in *. simpl. by rewrite (sk_config _ _ Hk).
Qed.

(** The current passphrase passes the check. *)
Lemma exec_check_old {E} old stored s : opens old stored ->
  (exec oc (check_old_passphrase old stored) : M St E _) s = (Ok None, s).
Proof.
  intros Ho. unfold check_old_passphrase. destruct stored as [[[salt hash] kdf]|]; [|done].
  destruct (Ho salt hash kdf eq_refl) as (o & -> & Hh). rewrite Hh. simpl. by rewrite bool_decide_eq_true_2.
Qed.

Lemma exec_salt {E} f (k : bytes -> Prog ManagementResponse) cs s : stands cs s ->
  exists salt s1, getrandom (w_tick (world s)) 32 = Some salt /\ stands cs s1 /\
    (exec oc (or_return (await random_salt) f k) : M St E _) s = exec oc (k salt) s1.
Proof.
  intros Hs. destruct (random_bytes (w_tick (world s)) 32) as (salt & Hr & _).
  exists salt. eexists. split; [done|]. split; [|apply exec_await; unfold random_salt, next, lift, mbind, M_bind; by rewrite Hr].
  by apply stands_db.
Qed.

(** The whole request, once the stored passphrase is read. *)
Lemma exec_passphrase_request old new stored peer_uid cs s :
  stands cs s -> Forall (owner_known (filter_uid peer_uid)) cs ->
  (Store.load_daemon_passphrase (world s)).1 = Ok stored -> opens old stored ->
  (forall salt, exists hash, Tpm.recovery_passphrase_hash argon2id_default salt new = Ok hash) ->
  exists t salt hash entries os s1 s',
    (exec oc (dispatch oc true peer_uid (UpdatePassphrase old new)) : M St Empty_set _) s =
      (Ok (success (VMap [(VText "status", VText "daemon passphrase updated"); (VText "results", VArray entries)])), s') /\
    getrandom t 32 = Some salt /\ Tpm.recovery_passphrase_hash argon2id_default salt new = Ok hash /\
    (Store.load_daemon_passphrase (world s')).1 = Ok (Some (salt, hash, argon2id_default)) /\
    stands cs s1 /\ in_turn (reslotted salt hash) (loaded key (filter_uid peer_uid) cs) entries os s1 s' /\
    stands (change_all (zip (s_id <$> loaded key (filter_uid peer_uid) cs) os) cs) s'.
Proof.
  intros Hs Ho Hl Hop Hh. cbn [dispatch]. unfold handle_update_passphrase.
  destruct (Store.load_daemon_passphrase (world s)) as [r w] eqn:El. simpl in Hl. subst r.
  rewrite (exec_await _ _ _ _ _ _ El), exec_bind, (bind_run_Ok _ _ _ _ _ (exec_check_old old stored _ Hop)).
  assert (stands cs (set_world w s)) as Hs1.
  { pose proof (stands_calm StoreProps.LoadDaemonPassphrase cs s eq_refl Hs) as H. simpl in H.
    unfold mbind, M_bind in H. by rewrite El in H. }
  match goal with |- context [or_return (await random_salt) ?f ?k] =>
    destruct (exec_salt (E := Empty_set) f k cs _ Hs1) as (salt & s2 & Hr & Hs2 & ->) end.
  destruct (Hh salt) as [hash Hhash]. cbv beta zeta. rewrite Hhash, exec_known.
  pose proof (drawn_phc_ok _ _ _ _ _ Hr Hhash) as Hp.
  destruct (stands_passphrase salt hash cs s2 Hp Hs2) as (w3 & Ew & Hs3 & Hcfg).
  rewrite (exec_await _ _ _ _ _ _ Ew).
  destruct (exec_slots (E := Empty_set) salt hash peer_uid cs _ Hp Hs3 Ho) as (entries & os & s4 & s' & Ex & Hs4 & HT & Hs').
  exists (w_tick (world (set_world w s))), salt, hash, entries, os, s4, s'. split_and!; try done.
  apply load_daemon_passphrase_config. rewrite <- Hcfg.
  pose proof (change_slots_config oc true peer_uid salt hash argon2id_default (fun results =>
    success (VMap [(VText "status", VText "daemon passphrase updated"); (VText "results", VArray results)]))
    (set_world w3 s2)) as Hc.
  cbv beta in Hc. rewrite Ex in Hc. unfold same_config in Hc. simpl in Hc. by rewrite <- Hc.
Qed.
End requests.

(** C28. A request to renew policies renews those it names, and no others. Let the
    store hold the credentials [cs], with sane settings, the database and the key file
    work ([Healthy]), the TPM's library return, and no other thread interfere. The
    request is answered with one entry for each id, in order, each handled in the state
    the one before has left ([renewal], [in_turn]): whenever the peer has the
    credential, it has a policy with an authority name and reference and a recovery
    slot, and the passphrase is that of the slot, the daemon's thread is asked to renew
    it for this name and reference, and the credential then has the policy that the TPM
    computed and the entry says [ok], or the entry has the error of that command; an
    entry has another error only if the credential is not [renewable], and says what is
    missing otherwise. Nothing else of these credentials and no other credential has
    changed, which the next load, by whomever, shows. A request with ids that do not
    parse, or with [all] set to false, changes nothing. The PCR indices of the request
    are not used. *)
Theorem policy_requests_renew {pf : Platform} {pl : PlatformLaws} {pr : PlatformReturns} {hp : Healthy}
    {cr : Crypto} {codec : CborCodec} {es : Esapi} {er : EsapiReturns} {sc : StoreCodec} {sl : StoreCodecLaws}
    {cd : CodecReturns} {ph : PhcFits} {mc : ManagementCodec} oc key cs peer_uid request passphrase user_id s :
  length key = 32%nat -> stands oc key cs s -> renews request passphrase ->
  Forall (owner_known (filter_uid peer_uid)) cs -> Forall (owner_known user_id) cs ->
  let run := (exec oc (dispatch oc true peer_uid request) : M St Empty_set _) s in
  match sought request (loaded key (filter_uid peer_uid) cs) with
  | Ok l => exists entries changes s1 s',
      run = (Ok (success (VMap [(VText "results", VArray entries)])), s') /\
      stands oc key cs s1 /\ auth s1 = auth s /\
      in_turn (renewal oc passphrase) l entries changes s1 s' /\
      stands oc key (change_all (zip l.*1 changes) cs) s' /\
      (Store.load_ctap2_credentials user_id (world s')).1 = Ok (loaded key user_id (change_all (zip l.*1 changes) cs))
  | Err e => exists s', run = (Ok (failure e), s') /\ stands oc key cs s'
  | Panic => exists text, hex_decode text = Panic
  end.
Proof.
  intros Hlen Hs Hr Hp Hu run. pose proof (exec_renewal_request (E := Empty_set) oc key Hlen request passphrase peer_uid cs s Hr Hs Hp) as H.
  destruct (sought request _) as [l|e|]; [|exact H|exact H]. destruct H as (entries & changes & s1 & s' & Ex & Hs1 & Ha & HT & Hs').
  exists entries, changes, s1, s'. split_and!; [done..|]. eapply stands_load; [done|by eapply renewal_owner|done|exact Hs'].
Qed.

(** C30. Changing the daemon's passphrase takes effect. Let the store hold the
    credentials [cs], with sane settings, the database and the key file work
    ([Healthy]), the TPM's library return, and no other thread interfere; and let a
    peer give the current passphrase, if one is set, and a new one that Argon2 accepts.
    The request succeeds. The
    daemon's passphrase is then the Argon2id hash of the new one under a salt of 32
    random bytes; each credential of the peer whose entry says [ok] has a recovery
    slot with this salt and hash and with the key that the TPM gave out under the new
    authorization; an entry has an error only if the daemon's thread, asked to change
    this slot in the state that the entries before have left, answered with it, and
    says that there is no slot only if there is none. Nothing else of these credentials and no other credential has changed, which the
    next load, by whomever, shows. *)
Theorem passphrase_requests_take_effect {pf : Platform} {pl : PlatformLaws} {pr : PlatformReturns} {hp : Healthy}
    {cr : Crypto} {codec : CborCodec} {es : Esapi} {er : EsapiReturns} {sc : StoreCodec} {sl : StoreCodecLaws}
    {cd : CodecReturns} {ph : PhcFits} {mc : ManagementCodec} oc key cs peer_uid old new stored user_id s :
  length key = 32%nat -> stands oc key cs s ->
  Forall (owner_known (filter_uid peer_uid)) cs -> Forall (owner_known user_id) cs ->
  (Store.load_daemon_passphrase (world s)).1 = Ok stored -> opens old stored ->
  (forall salt, exists hash, Tpm.recovery_passphrase_hash argon2id_default salt new = Ok hash) ->
  exists t salt hash entries changes s1 s',
    (exec oc (dispatch oc true peer_uid (UpdatePassphrase old new)) : M St Empty_set _) s =
      (Ok (success (VMap [(VText "status", VText "daemon passphrase updated"); (VText "results", VArray entries)])), s') /\
    getrandom t 32 = Some salt /\ length salt = 32%nat /\
    Tpm.recovery_passphrase_hash argon2id_default salt new = Ok hash /\
    (Store.load_daemon_passphrase (world s')).1 = Ok (Some (salt, hash, argon2id_default)) /\
    let mine := loaded key (filter_uid peer_uid) cs in
    let cs' := change_all (zip (s_id <$> mine) changes) cs in
    stands oc key cs s1 /\ in_turn (reslotted oc salt hash) mine entries changes s1 s' /\ stands oc key cs' s' /\
    (Store.load_ctap2_credentials user_id (world s')).1 = Ok (loaded key user_id cs').
Proof.
  intros Hlen Hs Hp Hu Hl Ho Hh.
  destruct (exec_passphrase_request oc key Hlen old new stored peer_uid cs s Hs Hp Hl Ho Hh)
    as (t & salt & hash & entries & changes & s1 & s' & Ex & Hr & Hhash & Hpw & Hs1 & HT & Hs').
  exists t, salt, hash, entries, changes, s1, s'. split_and!; try done; [by eapply length_getrandom|].
  intros mine cs'. split_and!; [done..|]. eapply stands_load; [done|by eapply reslotted_owner|done|exact Hs'].
Qed.
End Requests.
