(* ===== verification/Serve.v ===== *)
(** The management server: [serve] and [peer_uid] of [src/src/management.rs]. The
    socket is set up, then connections are accepted until the stop flag is set;
    each gets a thread that runs [handle_client], which is the connection of [Daemon]. *)
From Stdlib Require Import ZArith Lia String.
From stdpp Require Import base list option strings pretty.
From S2P Require Import Prelude Schema Platform Cbor Session Tpm Store Ctap2Types Ctap2 Management.

#[local] Open Scope Z_scope.

(** What [accept] gives: a stream, with the answer of [getsockopt] for the
    credentials of its peer (return code, uid); that nobody has connected; or an
    error. A listener that blocks does not return to say that nobody has connected. *)
Inductive AcceptResult := Connection (ucred : Z * Z) | WouldBlock | AcceptError.

(** The system calls of [serve], answered by the number of calls before; [Some] is
    an error. *)
Class SocketApi := {
  create_dir_all : nat -> string -> option string;
  remove_file : nat -> string -> option string;
  (** [UnixListener::bind], and the permissions the file is created with *)
  bind : nat -> string -> option string;
  created_mode : Z;
  set_permissions : nat -> string -> Z -> option string;
  set_nonblocking : nat -> option string;
  (** [stop.load(..)] *)
  stop_load : nat -> bool;
  accept : nat -> AcceptResult }.

Module Serve.
Import Ctap2 Management.

Definition peer_uid (ucred : Z * Z) : res string Z :=
  let '(rc, uid) := ucred in
  if negb (rc =? 0) then Err ("SO_PEERCRED failed: " +:+ pretty rc)%string else Ok uid.

(** [0o700] *)
Definition owner_only : Z := 448.

Definition socket_parent : string := "/run/linux-tpm-fido2".

(** The calls so far, the permissions of the socket file if there is one, whether
    the listener was set not to block, and the threads that were spawned: the
    permissions of the file at the time, and the uid of the peer if it is known. *)
Record Server := {
  sv_tick : nat; sv_mode : option Z; sv_nonblocking : bool;
  sv_threads : list (option Z * option Z) }.

Definition initial (mode : option Z) : Server :=
  {| sv_tick := 0; sv_mode := mode; sv_nonblocking := false; sv_threads := [] |}.

Section serve.
Context {so : SocketApi}.

Definition bump (s : Server) : Server :=
  {| sv_tick := S (sv_tick s); sv_mode := sv_mode s; sv_nonblocking := sv_nonblocking s;
     sv_threads := sv_threads s |}.

(** A system call; [f] is its effect when it succeeds. *)
Definition syscall (call : nat -> option string) (f : Server -> Server) : M Server string unit := fun s =>
  match call (sv_tick s) with
  | None => (Ok tt, f (bump s))
  | Some e => (Err e, bump s)
  end.

(** A call that only answers. *)
Definition ask {A} (call : nat -> A) : M Server string A := fun s => (Ok (call (sv_tick s)), bump s).

Definition set_mode (mode : option Z) (s : Server) : Server :=
  {| sv_tick := sv_tick s; sv_mode := mode; sv_nonblocking := sv_nonblocking s; sv_threads := sv_threads s |}.

Definition unlink : M Server string unit :=
  _ ← attempt (syscall (fun t => remove_file t management_socket_path) (set_mode None)) : M Server string _;
  mret tt.

Definition spawn (uid : option Z) (s : Server) : Server :=
  {| sv_tick := sv_tick s; sv_mode := sv_mode s; sv_nonblocking := sv_nonblocking s;
     sv_threads := sv_threads s ++ [(sv_mode s, uid)] |}.

(** The set-up of the socket. *)
Definition setup : M Server string unit :=
  _ ← syscall (fun t => create_dir_all t socket_parent) id;
  _ ← unlink;
  _ ← syscall (fun t => (fun e => "binding management socket at " +:+ quoted management_socket_path
                                 +:+ ": " +:+ e)%string <$> bind t management_socket_path)
        (set_mode (Some created_mode));
  _ ← syscall (fun t => set_permissions t management_socket_path owner_only) (set_mode (Some owner_only));
  syscall set_nonblocking (fun s =>
    {| sv_tick := sv_tick s; sv_mode := sv_mode s; sv_nonblocking := true; sv_threads := sv_threads s |}).

(** The loop, for at most [fuel] looks at the listener; [true] when it was left.
    [blocked] when the thread is still inside [accept], on a listener that blocks
    and that nobody has connected to: it does not come back to the stop flag. *)
Fixpoint accept_loop (fuel : nat) (blocked : bool) : M Server string bool :=
  match fuel with
  | O => mret false
  | S fuel =>
      stop ← (if blocked then mret false else ask stop_load);
      if stop : bool then mret true
      else
        r ← ask accept;
        nonblocking ← gets sv_nonblocking;
        match r with
        | Connection ucred => _ ← modify (spawn (res_ok (peer_uid ucred))); accept_loop fuel false
        | WouldBlock => accept_loop fuel (negb nonblocking)
        | AcceptError => accept_loop fuel false
        end
  end.

Definition serve (fuel : nat) : M Server string bool :=
  _ ← setup;
  left ← accept_loop fuel false;
  if left : bool then _ ← unlink; mret true else mret false.
End serve.

(** ** Properties *)

Section props.
Context {so : SocketApi}.

(** Every thread was spawned while the socket file was the owner's alone. *)
Definition private_threads (s : Server) : Prop := Forall (fun t => t.1 = Some owner_only) (sv_threads s).

Lemma syscall_Ok call f s u s' :
  syscall call f s = (Ok u, s') -> call (sv_tick s) = None /\ s' = f (bump s).
Proof. unfold syscall. destruct (call _) eqn:E; naive_solver. Qed.

(** The set-up only moves the time forward: it spawns nothing and does not panic. *)
Definition quiet_rel (s s' : Server) : Prop := sv_threads s' = sv_threads s.

#[local] Instance quiet_preorder : PreOrder quiet_rel.
Proof. unfold quiet_rel. split; [done|]. intros ???. congruence. Qed.

Lemma quiet_syscall call f : (forall s, quiet_rel s (f s)) -> keeps quiet_rel (syscall call f).
Proof. unfold quiet_rel. intros Hf s. unfold syscall. destruct (call _); simpl; rewrite ?Hf; done. Qed.

Lemma quiet_unlink : keeps quiet_rel unlink.
Proof. unfold unlink. keeps_walk ltac:(by apply quiet_syscall). Qed.

Lemma quiet_setup : keeps quiet_rel setup.
Proof. unfold setup. keeps_walk ltac:(first [by apply quiet_syscall | apply quiet_unlink]). Qed.

Lemma setup_private s u s' :
  setup s = (Ok u, s') -> sv_mode s' = Some owner_only /\ sv_nonblocking s' = true.
Proof.
  unfold setup. intros H. do 4 apply bind_Ok in H as (? & ? & ? & H).
  repeat match goal with H : syscall _ _ _ = (Ok _, _) |- _ => apply syscall_Ok in H as [? ?] end.
  by subst.
Qed.

Lemma unlink_Ok s : (unlink s).1 = Ok tt.
Proof. unfold unlink, syscall, attempt, mbind, M_bind. by destruct (remove_file _ _). Qed.

Lemma setup_returns s : (setup s).1 <> Panic.
Proof.
  unfold setup, unlink, syscall, attempt, mbind, M_bind.
  repeat (case_match; simplify_eq/=); done.
Qed.

(** One iteration of the loop that does not leave it. *)
Definition iterate (s : Server) : Server :=
  match accept (S (sv_tick s)) with
  | Connection ucred => spawn (res_ok (peer_uid ucred)) (bump (bump s))
  | _ => bump (bump s)
  end.

Lemma iterate_kept s :
  sv_tick (iterate s) = S (S (sv_tick s)) /\ sv_mode (iterate s) = sv_mode s /\
  sv_nonblocking (iterate s) = sv_nonblocking s.
Proof. unfold iterate. by destruct (accept _). Qed.

(** A listener that does not block. *)
Lemma accept_loop_S fuel s : sv_nonblocking s = true ->
  accept_loop (S fuel) false s =
    if stop_load (sv_tick s) then (Ok true, bump s) else accept_loop fuel false (iterate s).
Proof.
  intros Hn. cbn [accept_loop]. unfold ask, gets, modify, mbind, M_bind, iterate. simpl.
  destruct (stop_load _); [done|]. simpl. rewrite Hn. by destruct (accept _).
Qed.

Lemma accept_loop_private fuel s :
  sv_nonblocking s = true -> sv_mode s = Some owner_only -> private_threads s ->
  private_threads (accept_loop fuel false s).2.
Proof.
  revert s. induction fuel as [|fuel IH]; intros s Hn Hm Hp; [done|]. rewrite accept_loop_S by done.
  destruct (stop_load _); [done|]. destruct (iterate_kept s) as (_ & Hm' & Hn').
  apply IH; [congruence..|]. unfold iterate, private_threads. destruct (accept _); simpl; [|done..].
  rewrite Hm. by apply Forall_app_2; [|repeat constructor].
Qed.

(** The loop is left at the first look at the flag after it is set. *)
Lemma accept_loop_stops T fuel s : sv_nonblocking s = true ->
  (forall t, (T <= t)%nat -> stop_load t = true) -> (T <= sv_tick s + 2 * fuel)%nat ->
  exists s', accept_loop (S fuel) false s = (Ok true, s').
Proof.
  intros Hn HT. revert s Hn. induction fuel as [|fuel IH]; intros s Hn Hf; rewrite accept_loop_S by done.
  - rewrite HT by lia. eauto.
  - destruct (stop_load _); [eauto|]. destruct (iterate_kept s) as (Ht & _ & Hn').
    apply IH; [congruence|lia].
Qed.

(** C19. The management server only ever serves on a socket that is its owner's
    alone: every connection that gets a thread was accepted after the permissions
    of the socket file were restricted to mode 0700, however long the server runs
    and whatever the system calls answer. And it ends when it is told to, because its
    listener does not block: once the stop flag is set for good at time [T], it
    returns, with success or with the error of a system call, within [T + 1]
    iterations, even if nobody connects any more. (The program itself never sets the
    flag: its server ends with the process.) *)
Theorem server_private_until_stopped mode :
  (forall fuel, private_threads (serve fuel (initial mode)).2) /\
  forall T, (forall t, (T <= t)%nat -> stop_load t = true) ->
    (serve (S T) (initial mode)).1 = Ok true \/ exists e, (serve (S T) (initial mode)).1 = Err e.
Proof.
  unfold serve, mbind, M_bind. pose proof (quiet_setup (initial mode)) as Hq.
  pose proof (setup_returns (initial mode)) as Hr. pose proof (setup_private (initial mode)) as Hp.
  unfold quiet_rel in Hq. destruct (setup (initial mode)) as [[u|e|] s1]; simpl in Hq; [..|done].
  2: { split; [|eauto]. intros _. unfold private_threads. simpl. rewrite Hq. constructor. }
  specialize (Hp u s1 eq_refl) as [Hp Hnb]. split.
  - intros fuel. assert (private_threads s1) as Hs by (unfold private_threads; rewrite Hq; constructor).
    pose proof (accept_loop_private fuel s1 Hnb Hp Hs) as Hl.
    destruct (accept_loop fuel false s1) as [[[]| |] s2]; try done. simpl in *.
    pose proof (quiet_unlink s2) as Hu. unfold quiet_rel, private_threads in *.
    destruct (unlink s2) as [[] s3]; simpl in *; by rewrite Hu.
  - intros T HT. destruct (accept_loop_stops T T s1 Hnb HT) as [s2 ->]; [lia|]. left.
    pose proof (unlink_Ok s2) as Hu. destruct (unlink s2) as [r s3]. simpl in *. by subst.
Qed.
End props.

End Serve.
