(* ===== verification/SelectionNames.v ===== *)
(** The names of PCR selections: what [default_pcr_selection] of the TPM layer
    writes, [pcr_indices_from_selection] of the management socket reads. *)
From Stdlib Require Import ZArith Lia String Ascii.
From stdpp Require Import base list option strings pretty.
From S2P Require Import Prelude Schema Platform Session Tpm Management.

#[local] Open Scope Z_scope.

Module SelectionNames.
Import Management.

(** ** Decimal numbers *)

Definition digit (b : Z) : Prop := 48 <= b <= 57.

Lemma as_bytes_app a b : as_bytes (a +:+ b)%string = as_bytes a ++ as_bytes b.
Proof. unfold as_bytes. induction a as [|c a IH]; simpl; [done|]. f_equal. apply IH. Qed.

Lemma digit_char x : (x < 10)%N -> Z.of_N (N_of_ascii (pretty_N_char x)) = 48 + Z.of_N x.
Proof.
  intros Hx. assert (x = 0 \/ x = 1 \/ x = 2 \/ x = 3 \/ x = 4 \/ x = 5 \/ x = 6 \/ x = 7 \/ x = 8 \/ x = 9)%N
    as Hc by lia. by repeat destruct Hc as [->|Hc]; [..|subst].
Qed.

(** Reading the digits of a number below the bound leaves the number. *)
Lemma parse_pretty_go max x s :
  Z.of_N x <= max ->
  Session.parse_digits max 0 (as_bytes (pretty_N_go x s)) = Session.parse_digits max (Z.of_N x) (as_bytes s).
Proof.
  revert s. induction (N.lt_wf_0 x) as [x _ IH]. intros s Hx.
  destruct (decide (x = 0)%N) as [->|Hn]; [done|]. rewrite pretty_N_go_step by lia.
  assert (x `mod` 10 < 10)%N as Hr by (apply N.mod_lt; lia).
  assert (x `div` 10 < x)%N as Hq by (apply N.div_lt; lia).
  pose proof (N.div_mod x 10 ltac:(lia)) as Hdm. specialize (IH _ Hq). revert Hr Hq Hdm IH.
  generalize (x `div` 10)%N (x `mod` 10)%N. intros q r Hr Hq Hdm IH.
  rewrite IH by lia. unfold as_bytes at 1. simpl. fold (as_bytes s).
  rewrite digit_char by done.
  rewrite (proj2 (andb_true_iff _ _)) by (split; apply Z.leb_le; lia).
  replace (Z.of_N q * 10 + (48 + Z.of_N r - 48)) with (Z.of_N x) by lia.
  by rewrite (proj2 (Z.leb_le _ _) Hx).
Qed.

Lemma digits_pretty_go x s : Forall digit (as_bytes s) -> Forall digit (as_bytes (pretty_N_go x s)).
Proof.
  revert s. induction (N.lt_wf_0 x) as [x _ IH]. intros s Hs.
  destruct (decide (x = 0)%N) as [->|Hn]; [done|]. rewrite pretty_N_go_step by lia.
  apply IH; [apply N.div_lt; lia|]. unfold as_bytes. simpl. constructor; [|done].
  assert (x `mod` 10 < 10)%N as Hr by (apply N.mod_lt; lia). rewrite digit_char by done. revert Hr.
  unfold digit. generalize (x `mod` 10)%N. lia.
Qed.

Lemma length_pretty_go x s : (length (as_bytes s) <= length (as_bytes (pretty_N_go x s)))%nat.
Proof.
  revert s. induction (N.lt_wf_0 x) as [x _ IH]. intros s.
  destruct (decide (x = 0)%N) as [->|]; [done|]. rewrite pretty_N_go_step by lia.
  etrans; [|apply IH, N.div_lt; lia]. unfold as_bytes. simpl. lia.
Qed.

Lemma pretty_Z_N i : 0 <= i -> pretty i = pretty (Z.to_N i).
Proof. by destruct i. Qed.

Lemma pretty_digits i : 0 <= i -> Forall digit (as_bytes (pretty i)) /\ as_bytes (pretty i) <> [].
Proof.
  intros Hi. rewrite pretty_Z_N by done. unfold pretty, pretty_N. case_decide as Hz.
  - split; [|done]. by repeat constructor.
  - split; [by apply digits_pretty_go|]. rewrite pretty_N_go_step by lia.
    intros H%(f_equal length). pose proof (length_pretty_go (Z.to_N i `div` 10)
      (String (pretty_N_char (Z.to_N i `mod` 10)) "")) as Hl. rewrite H in Hl.
    unfold as_bytes in Hl. simpl in Hl. lia.
Qed.

Lemma parse_pretty max i : 0 <= i <= max -> Session.parse_unsigned max (as_bytes (pretty i)) = Some i.
Proof.
  intros Hi. destruct (pretty_digits i) as [Hd Hne]; [lia|]. unfold Session.parse_unsigned.
  destruct (as_bytes (pretty i)) as [|b l] eqn:E; [done|]. inversion_clear Hd as [|?? Hb _].
  assert (Session.parse_digits max 0 (b :: l) = Some i) as Hp.
  { rewrite <- E, pretty_Z_N by lia. unfold pretty, pretty_N. case_decide as Hz.
    - simpl. rewrite (proj2 (Z.leb_le _ _)) by lia. f_equal. lia.
    - rewrite parse_pretty_go by lia. simpl. f_equal. lia. }
  unfold digit in Hb. destruct b as [|p|p]; try lia. repeat (destruct p as [p|p|]; try done; try lia).
Qed.

(** ** Text without blanks, commas and colons *)

Lemma ws_prefix_digit l : Forall digit l -> Session.ws_prefix l = 0%nat.
Proof.
  destruct 1 as [|b l Hb _]; [done|]. unfold digit in Hb. unfold Session.ws_prefix.
  repeat match goal with |- context [?a =? ?b] =>
    rewrite (proj2 (Z.eqb_neq a b)) by lia end.
  rewrite (proj2 (Z.leb_gt b 13)) by lia. rewrite andb_false_r. simpl.
  destruct l as [|c [|d l]]; done.
Qed.

Lemma trim_digits l : Forall digit l -> Session.trim_bytes l = l.
Proof.
  intros Hl. unfold Session.trim_bytes.
  assert (forall n, Session.trim_start n l = l) as Hs by (intros []; simpl; rewrite ?ws_prefix_digit by done; done).
  rewrite Hs. destruct (length l) as [|n] eqn:E; [done|]. simpl. unfold Session.ws_suffix.
  by rewrite !ws_prefix_digit by (apply Forall_drop; done).
Qed.

Lemma split_no_comma l : Forall digit l -> split 44 l = [l].
Proof.
  induction 1 as [|b l Hb Hl IH]; [done|]. simpl. unfold digit in Hb.
  rewrite (proj2 (Z.eqb_neq b 44)) by lia. by rewrite IH.
Qed.

Lemma split_comma l r : Forall digit l -> split 44 (l ++ 44 :: r) = l :: split 44 r.
Proof.
  induction 1 as [|b l Hb Hl IH]; [done|]. simpl. unfold digit in Hb.
  rewrite (proj2 (Z.eqb_neq b 44)) by lia. by rewrite IH.
Qed.

Lemma split_joined indices :
  indices <> [] -> Forall (fun i => 0 <= i) indices ->
  split 44 (as_bytes (String.concat "," (pretty <$> indices))) = (fun i => as_bytes (pretty i)) <$> indices.
Proof.
  intros Hne Hi. induction Hi as [|i l Hi Hl IH]; [done|]. destruct (pretty_digits i Hi) as [Hd _].
  destruct l as [|j l]; [by apply split_no_comma|].
  change (String.concat "," (pretty <$> i :: j :: l))%string
    with (pretty i +:+ ("," +:+ String.concat "," (pretty <$> j :: l)))%string.
  rewrite !as_bytes_app. change (as_bytes ",") with [44]. cbn [app]. rewrite split_comma, IH by done. done.
Qed.

(** The name under which a PCR selection is stored with a policy can be read
    back: the management socket gets from it exactly the indices the TPM layer was
    given, in their order, for every non-empty list of indices. *)
Theorem selection_name_reads_back {es : Esapi} oc indices l name :
  indices <> [] -> Forall (fun i => 0 <= i <= u32_max) indices ->
  Tpm.default_pcr_selection oc (Some indices) = Ok (l, name) ->
  pcr_indices_from_selection name = Some indices.
Proof.
  intros Hne Hi H. unfold Tpm.default_pcr_selection in H. simpl in H. run_inv.
  unfold pcr_indices_from_selection. rewrite as_bytes_app. simpl.
  rewrite split_joined; [|done|eapply Forall_impl; [exact Hi|]; simpl; lia].
  apply mapM_fmap_Forall_Some. eapply Forall_impl; [exact Hi|]. intros i Hi'. simpl in Hi'.
  destruct (pretty_digits i) as [Hd _]; [lia|]. by rewrite trim_digits, parse_pretty.
Qed.
End SelectionNames.
