(* ===== verification/Daemon.v ===== *)
(** The daemon: [run_daemon] and [normalize_host_report] of [src/src/main.rs]. The
    main thread owns the packet handler, the authenticator and the TPM; every
    management connection is a thread of its own. The threads share the store, and
    the management threads reach the TPM through a queue of commands that the main
    thread serves between two UHID events. *)
From Stdlib Require Import ZArith Lia String.
From stdpp Require Import base list option strings gmap.
From S2P Require Import Prelude Schema Platform Cbor Hid CtapHid Session Tpm Store Ctap2Types Ctap2.
From S2P Require Import Management.

#[local] Open Scope Z_scope.

Module Daemon.
Import Ctap2 Management CtapHid.

(** ** UHID *)

(** The events of [uhid_virt::OutputEvent] and the two errors after which the loop
    goes on. Other errors of the device end the daemon. *)
Inductive UhidEvent :=
| Output (data : bytes) | Start | Stop | Open | Close
| GetReport (id : Z) | SetReport (id : Z) (data : bytes)
| WouldBlock | UnknownEventType (event_type : Z).

Inductive UhidWrite :=
| InputReport (packet : bytes)
| GetReportReply (id err : Z) (data : bytes)
| SetReportReply (id err : Z).

Definition normalize_host_report (data : bytes) : option (bytes * bool) :=
  if (length data =? Hid.REPORT_SIZE)%nat then Some (data, false)
  else if (length data =? Hid.REPORT_SIZE + 1)%nat && (data !!! 0%nat =? 0) then Some (drop 1 data, true)
  else None.

Section daemon.
Context {pf : Platform} {cr : Crypto} {codec : CborCodec} {es : Esapi} {sc : StoreCodec}.
Context {mc : ManagementCodec}.
Context (overflow_checks : bool).

(** The authenticator behind the framing layer. *)
#[export] Instance authenticator_ops : AuthenticatorOps St TpmCommand := {
  ao_handle_cbor payload := Ctap2.handle_cbor overflow_checks payload;
  ao_cancel_pending s := set_auth (cancel_pending (auth s)) s;
  ao_handle_tpm_command c := _ ← Ctap2.handle_tpm_command overflow_checks c; mret tt }.

(** What one event of the device makes the daemon write. *)
Definition handle_event (event : UhidEvent) : M (PacketHandler St) Empty_set (list UhidWrite) :=
  match event with
  | Output data =>
      match normalize_host_report data with
      | None => mret []
      | Some (report, _) =>
          outcome ← handle_packet report;
          mret match outcome with
               | Some (Respond response) => InputReport <$> packets response
               | _ => []
               end
      end
  | GetReport id => mret [GetReportReply id 0 []]
  | SetReport id _ => mret [SetReportReply id 0]
  | Start | Stop | Open | Close | WouldBlock | UnknownEventType _ => mret []
  end.

(** [PacketHandler::new(store_dir, Some(tpm_path))] *)
Definition start_handler {E} (tpm_path : string) : M World E (PacketHandler St) := fun w =>
  match Ctap2.new (Some tpm_path) w with
  | (Ok a, w') => (Ok (CtapHid.new {| auth := a; world := w' |}), w')
  | (Err e, w') => (Err e, w')
  | (Panic, w') => (Panic, w')
  end.

(** ** Threads *)

(** The main loop first takes at most one command, then reads one event. *)
Inductive Phase := Commands | Events.

(** A connection: waiting for input that its peer has not written yet, running,
    waiting for the main thread, or at its end. The last step of a running one is
    that its peer has taken the answer, or is gone. *)
Inductive Client :=
| Reading (peer_uid : option Z) (input : bytes)
| Running (p : Prog (option bytes))
| Waiting (k : TpmReply -> Prog (option bytes))
| Finished (output : option bytes)
| Dead.

Record Sys := {
  handler : PacketHandler St;
  phase : Phase;
  queue : list (nat * TpmCommand);
  clients : gmap nat Client }.

Definition sys_st (y : Sys) : St := authenticator (handler y).

Definition set_sys_world (w : World) (y : Sys) : Sys :=
  {| handler := set_authenticator (set_world w (sys_st y)) (handler y); phase := phase y;
     queue := queue y; clients := clients y |}.

Definition set_client (i : nat) (c : Client) (y : Sys) : Sys :=
  {| handler := handler y; phase := phase y; queue := queue y; clients := <[i := c]> (clients y) |}.

Definition boot (h : PacketHandler St) : Sys :=
  {| handler := h; phase := Commands; queue := []; clients := ∅ |}.

(** A connection whose peer has written [input], and closed its side or not. *)
Definition received (peer_uid : option Z) (closed : bool) (input : bytes) : Client :=
  match handle_client overflow_checks true peer_uid closed input with
  | Some p => Running p
  | None => Reading peer_uid input
  end.

(** One step of the main thread or of a connection, with what it writes to the
    device. Two granularities are assumed: on a connection, a store function is one
    step; on the main thread, the handling of a whole event of the device, and of a
    whole TPM command, is one step, with all the store calls and prompts in it. A
    panic of the main thread ends the process, one of a connection only its thread. *)
Inductive step : Sys -> list UhidWrite -> Sys -> Prop :=
| step_connect y i peer_uid :
    clients y !! i = None -> step y [] (set_client i (Reading peer_uid []) y)
| step_receive y i peer_uid input more closed :
    clients y !! i = Some (Reading peer_uid input) ->
    step y [] (set_client i (received peer_uid closed (input ++ more)) y)
| step_call y i X (m : M World string X) k r w :
    clients y !! i = Some (Running (Call X m k)) -> m (world (sys_st y)) = (r, w) -> r <> Panic ->
    step y [] (set_client i (Running (k r)) (set_sys_world w y))
| step_call_panic y i X (m : M World string X) k w :
    clients y !! i = Some (Running (Call X m k)) -> m (world (sys_st y)) = (Panic, w) ->
    step y [] (set_client i Dead (set_sys_world w y))
| step_die y i :
    clients y !! i = Some (Running Die) -> step y [] (set_client i Dead y)
| step_send y i c k :
    clients y !! i = Some (Running (Management.Tpm c k)) ->
    step y [] {| handler := handler y; phase := phase y; queue := queue y ++ [(i, c)];
                 clients := <[i := Waiting k]> (clients y) |}
| step_finish y i output :
    clients y !! i = Some (Running (Ret output)) -> step y [] (set_client i (Finished output) y)
| step_no_command y :
    phase y = Commands -> queue y = [] ->
    step y [] {| handler := handler y; phase := Events; queue := queue y; clients := clients y |}
| step_command y i c q k r h :
    phase y = Commands -> queue y = (i, c) :: q -> clients y !! i = Some (Waiting k) ->
    on_authenticator (Ctap2.handle_tpm_command overflow_checks c) (handler y) = (r, h) -> r <> Panic ->
    step y [] {| handler := h; phase := Events; queue := q;
                 clients := <[i := Running (k (Replied r))]> (clients y) |}
| step_event y event out h :
    phase y = Events -> handle_event event (handler y) = (Ok out, h) ->
    step y out {| handler := h; phase := Commands; queue := queue y; clients := clients y |}.

Inductive steps : Sys -> list UhidWrite -> Sys -> Prop :=
| steps_refl y : steps y [] y
| steps_snoc y1 out1 y2 out2 y3 : steps y1 out1 y2 -> step y2 out2 y3 -> steps y1 (out1 ++ out2) y3.
End daemon.

End Daemon.
