(* ===== verification/Schedule.v ===== *)
(** The daemon as a function: which thread moves next is a choice, and with the
    choice made a step computes. *)
From Stdlib Require Import ZArith String.
From stdpp Require Import base list option strings gmap.
From S2P Require Import Prelude Platform Cbor CtapHid Session Tpm Store Ctap2Types Ctap2 Management Daemon.

#[local] Open Scope Z_scope.

Module Schedule.
Import Ctap2 Management CtapHid Daemon.

(** A client connects, it writes more or closes its side, a connection goes on, the
    main thread looks at its queue, or it is given an event of the device. *)
Inductive Move :=
| Connect (i : nat) (peer_uid : option Z)
| Receive (i : nat) (more : bytes) (closed : bool)
| Advance (i : nat)
| Look
| Device (event : UhidEvent).

Section schedule.
Context {pf : Platform} {cr : Crypto} {codec : CborCodec} {es : Esapi} {sc : StoreCodec}.
Context {mc : ManagementCodec}.
Context (oc : bool).

Definition advance (i : nat) (p : Prog (option bytes)) (y : Sys) : Sys :=
  match p with
  | Ret output => set_client i (Finished output) y
  | Die => set_client i Dead y
  | Call X m k =>
      let '(r, w) := m (world (sys_st y)) in
      set_client i (match r with Panic => Dead | _ => Running (k r) end) (set_sys_world w y)
  | Management.Tpm c k =>
      {| handler := handler y; phase := phase y; queue := queue y ++ [(i, c)];
         clients := <[i := Waiting k]> (clients y) |}
  end.

Definition look (y : Sys) : option Sys :=
  match queue y with
  | [] => Some {| handler := handler y; phase := Events; queue := queue y; clients := clients y |}
  | (i, c) :: q =>
      match clients y !! i, on_authenticator (Ctap2.handle_tpm_command oc c) (handler y) with
      | Some (Waiting k), (Panic, _) => None
      | Some (Waiting k), (r, h) =>
          Some {| handler := h; phase := Events; queue := q; clients := <[i := Running (k (Replied r))]> (clients y) |}
      | _, _ => None
      end
  end.

(** What is written to the device and the next state, if the move can be made. *)
Definition move (m : Move) (y : Sys) : option (list UhidWrite * Sys) :=
  match m, phase y with
  | Connect i peer_uid, _ =>
      match clients y !! i with
      | None => Some ([], set_client i (Reading peer_uid []) y)
      | Some _ => None
      end
  | Receive i more closed, _ =>
      match clients y !! i with
      | Some (Reading peer_uid input) => Some ([], set_client i (received oc peer_uid closed (input ++ more)) y)
      | _ => None
      end
  | Advance i, _ =>
      match clients y !! i with
      | Some (Running p) => Some ([], advance i p y)
      | _ => None
      end
  | Look, Commands => pair [] <$> look y
  | Device event, Events =>
      match handle_event oc event (handler y) with
      | (Ok out, h) => Some (out, {| handler := h; phase := Commands; queue := queue y; clients := clients y |})
      | _ => None
      end
  | _, _ => None
  end.

(** Many moves, one after the other. *)
Fixpoint play (ms : list Move) (y : Sys) : option (list UhidWrite * Sys) :=
  match ms with
  | [] => Some ([], y)
  | m :: ms => '(out1, y1) ← move m y; '(out2, y2) ← play ms y1; Some (out1 ++ out2, y2)
  end.

Lemma move_step m y out y' : move m y = Some (out, y') -> step oc y out y'.
Proof.
  destruct m as [i pu|i more closed|i| |event]; simpl.
  - destruct (clients y !! i) as [|] eqn:Hi; [done|]. intros [= <- <-]. by apply step_connect.
  - destruct (clients y !! i) as [[pu inp|p|k|o|]|] eqn:Hi; try done. intros [= <- <-]. by apply step_receive.
  - destruct (clients y !! i) as [[pu inp|p|k|o|]|] eqn:Hi; try done. intros [= <- <-]. destruct p as [o| |X m k|c k]; simpl.
    + by apply step_finish.
    + by apply step_die.
    + destruct (m (world (sys_st y))) as [r w] eqn:Hm. destruct r; [by eapply step_call..|by eapply step_call_panic].
    + by apply step_send.
  - destruct (phase y) eqn:Hp; [|done]. unfold look. destruct (queue y) as [|[i c] q] eqn:Hq; simpl.
    + intros [= <- <-]. rewrite <- Hq. by apply step_no_command.
    + destruct (clients y !! i) as [[pu inp|p|k|o|]|] eqn:Hi; try done.
      destruct (on_authenticator (Ctap2.handle_tpm_command oc c) (handler y)) as [r h] eqn:Hc.
      destruct r; simpl; [intros [= <- <-]; by eapply step_command..|done].
  - destruct (phase y) eqn:Hp; [done|].
    destruct (handle_event oc event (handler y)) as [[o|[]|] h] eqn:He; [|done]. intros [= <- <-]. by eapply step_event.
Qed.

Lemma step_move y out y' : step oc y out y' -> exists m, move m y = Some (out, y').
Proof.
  destruct 1 as [y i pu Hi|y i pu inp more closed Hi|y i X m k r w Hi Hm Hr|y i X m k w Hi Hm|y i Hi|y i c k Hi
    |y i o Hi|y Hp Hq|y i c q k r h Hp Hq Hi Hc Hr|y ev out h Hp He].
  - exists (Connect i pu). simpl. by rewrite Hi.
  - exists (Receive i more closed). simpl. by rewrite Hi.
  - exists (Advance i). simpl. rewrite Hi. simpl. rewrite Hm. by destruct r.
  - exists (Advance i). simpl. rewrite Hi. simpl. by rewrite Hm.
  - exists (Advance i). simpl. by rewrite Hi.
  - exists (Advance i). simpl. by rewrite Hi.
  - exists (Advance i). simpl. by rewrite Hi.
  - exists Look. simpl. unfold look. by rewrite Hp, Hq.
  - exists Look. simpl. unfold look. rewrite Hp, Hq, Hi, Hc. by destruct r.
  - exists (Device ev). simpl. by rewrite Hp, He.
Qed.

Lemma steps_app y1 out1 y2 out2 y3 : steps oc y1 out1 y2 -> steps oc y2 out2 y3 -> steps oc y1 (out1 ++ out2) y3.
Proof.
  intros H1 H2. induction H2 as [y2|y2 o2 y3 o3 y4 _ IH Hs]; [by rewrite app_nil_r|].
  rewrite app_assoc. eapply steps_snoc; [by apply IH|done].
Qed.

Lemma play_steps ms : forall y out y', play ms y = Some (out, y') -> steps oc y out y'.
Proof.
  induction ms as [|m ms IH]; intros y out y'; simpl; [intros [= <- <-]; constructor|].
  destruct (move m y) as [[out1 y1]|] eqn:Hm; [|done]. simpl.
  destruct (play ms y1) as [[out2 y2]|] eqn:Hp; [|done]. simpl. intros [= <- <-].
  apply (steps_app _ out1 y1); [|by apply IH]. apply (steps_snoc oc y [] y); [constructor|by apply (move_step m)].
Qed.

Lemma play_app ms1 ms2 : forall y out1 y1 out2 y2,
  play ms1 y = Some (out1, y1) -> play ms2 y1 = Some (out2, y2) -> play (ms1 ++ ms2) y = Some (out1 ++ out2, y2).
Proof.
  induction ms1 as [|m ms1 IH]; intros y out1 y1 out2 y2; simpl; [by intros [= <- <-]|].
  destruct (move m y) as [[o ya]|]; [|done]. simpl. destruct (play ms1 ya) as [[o' yb]|] eqn:Hp; [|done]. simpl.
  intros [= <- <-] H2. rewrite (IH _ _ _ _ _ Hp H2). simpl. by rewrite app_assoc.
Qed.

(** Every run is one of these. *)
Lemma steps_play y out y' : steps oc y out y' -> exists ms, play ms y = Some (out, y').
Proof.
  induction 1 as [y|y1 o1 y2 o2 y3 _ [ms IH] [m Hm]%step_move]; [by exists []|]. exists (ms ++ [m]).
  eapply play_app; [exact IH|]. simpl. rewrite Hm. simpl. by rewrite app_nil_r.
Qed.
End schedule.
End Schedule.
