(* ===== verification/DaemonProps.v ===== *)
(** Properties of the whole daemon, for every interleaving of host reports, TPM
    commands and management connections. *)
From Stdlib Require Import ZArith Lia String.
From stdpp Require Import base list option strings gmap.
From S2P Require Import Prelude Schema Platform Cbor Hid CtapHid Session Tpm Store StoreProps Ctap2Types.
From S2P Require Import Ctap2 Ctap2Facts WorldFacts Ctap2Pin Management ManagementProps Daemon.

#[local] Open Scope Z_scope.

Module DaemonProps.
Import Ctap2 Ctap2Facts WorldFacts Ctap2Pin Management ManagementProps CtapHid Daemon.

(** ** What a report does to the authenticator *)

Section packet.
Context {A C : Type} `{!AuthenticatorOps A C}.

(** It leaves it alone, cancels what is pending, or makes it answer a request. *)
Definition touched (a a' : A) : Prop :=
  a' = a \/ a' = ao_cancel_pending a \/ exists payload, a' = (ao_handle_cbor payload a).2.

Lemma dispatch_touches cid c payload h :
  touched (authenticator h) (authenticator (CtapHid.dispatch cid c payload h).2).
Proof.
  unfold touched, CtapHid.dispatch. destruct c; simpl; auto.
  - destruct (allocate_cid cid h) as [n h'] eqn:E. left. unfold allocate_cid in E.
    destruct (_ =? BROADCAST_CID); simplify_eq; [|done]. simpl. by destruct (next_cid h =? 0).
  - right. right. exists payload. unfold on_authenticator, mbind, M_bind.
    destruct (ao_handle_cbor payload (authenticator h)) as [[] a]; done.
Qed.

Lemma respond_touches cid c payload h a :
  authenticator h = a -> touched a (authenticator (respond (CtapHid.dispatch cid c payload) h).2).
Proof.
  intros <-. pose proof (dispatch_touches cid c payload h) as H. unfold respond, mbind, M_bind.
  by destruct (CtapHid.dispatch cid c payload h) as [[] h'].
Qed.

Lemma packet_touches report h : touched (authenticator h) (authenticator (handle_packet report h).2).
Proof.
  unfold handle_packet, handle_init_packet, handle_continuation_packet.
  repeat first [ by left | by apply respond_touches | case_match | progress simpl ].
Qed.
End packet.

(** ** Threads keep the constraints of the schema *)

Section threads.
Context {pf : Platform} {cr : Crypto} {codec : CborCodec} {es : Esapi} {sc : StoreCodec}.
Context {mc : ManagementCodec}.
Context (oc : bool) (R : relation World) {sr : StoreRel R}.
Context (Hop : forall op, management_op op -> keeps R (StoreProps.run_op op)).

Ltac calls_walk tac :=
  repeat first
    [ done | tac
    | apply calls_bind; [|intro]
    | apply calls_mapM; intro
    | split; [|intro]
    | case_match
    | progress simpl ].

Lemma keeps_load peer_uid : keeps R (Store.load_ctap2_credentials (filter_uid peer_uid)).
Proof. apply keeps_drop, (Hop (StoreProps.LoadCredentials (filter_uid peer_uid))). done. Qed.

Lemma calls_renew tx path p c : calls_keep R (renew_policy oc tx path p c).
Proof.
  unfold renew_policy, known, send_command, await.
  assert (forall op, manager_op op = true -> management_op op) by (by intros []).
  assert (forall op, read_op op = true -> manager_op op = true) by (by intros []).
  calls_walk ltac:(apply (world_update_pcr_policy R oc manager_op); auto).
Qed.

Lemma calls_list_entry tx c : calls_keep R (list_entry tx c).
Proof. unfold list_entry, check_pcr_stale, send_command. calls_walk fail. Qed.

Lemma calls_dispatch tx peer_uid request : calls_keep R (Management.dispatch oc tx peer_uid request).
Proof.
  destruct request; simpl;
    unfold handle_list_credentials, handle_update_passphrase, handle_update_pcr_reference,
      handle_update_pcr_policy, handle_set_default_pcr_policy, load_visible, renew_by_id, check_old_passphrase;
    calls_walk ltac:(first
      [ apply calls_or_return_await; [|intros ? ? ?] | apply calls_or_return_known; intros ? ?
      | apply keeps_load | apply calls_renew | apply calls_list_entry | apply calls_change_one
      | apply keeps_drop, (Hop StoreProps.LoadDaemonPassphrase); done
      | apply (Hop (StoreProps.SaveDaemonPassphrase _ _ _)); split; [by eapply random_salt_drawn|by eauto]
      | apply (Hop (StoreProps.SaveDefaultPcrPolicy _)); done
      | solve [unfold random_salt; store_walk fail] | solve [unfold known; by case_match] ]).
Qed.

Lemma calls_message tx peer_uid data : calls_keep R (handle_message oc tx peer_uid data).
Proof. unfold handle_message. calls_walk ltac:(apply calls_dispatch). Qed.
End threads.

(** ** The invariant *)

Definition client_keeps (R : relation World) (c : Client) : Prop :=
  match c with
  | Running p => calls_keep R p
  | Waiting k => forall r, calls_keep R (k r)
  | Reading _ _ | Finished _ | Dead => True
  end.

Lemma received_keeps {pf : Platform} {cr : Crypto} {es : Esapi} {sc : StoreCodec} {mc : ManagementCodec}
    oc R {sr : StoreRel R} peer_uid closed input :
  (forall op, management_op op -> keeps R (StoreProps.run_op op)) -> client_keeps R (received oc peer_uid closed input).
Proof.
  intros Hop. unfold received, handle_client. destruct peer_uid as [u|]; [|done].
  destruct (recv_message closed input) as [| |data rest]; [done|done|]. by apply calls_message.
Qed.

(** The assembly table is well formed, the store satisfies its constraints, every
    thread only uses the store's operations, and the connections that wait for an
    answer are exactly those whose command is in the queue, once. *)
Record sys_inv {pf : Platform} {cr : Crypto} {sc : StoreCodec} (y : Sys) : Prop := {
  inv_handler : wf (handler y);
  inv_store : StoreProps.db_wf (w_db (world (sys_st y)));
  inv_clients : map_Forall (fun _ => client_keeps StoreProps.wf_rel) (clients y);
  inv_queue : NoDup (queue y).*1;
  inv_waiting i : i ∈ (queue y).*1 <-> exists k, clients y !! i = Some (Waiting k) }.

(** A report for the host is 64 bytes long. *)
Definition write_ok (w : UhidWrite) : Prop :=
  match w with InputReport packet => length packet = Hid.REPORT_SIZE | _ => True end.

Lemma packets_ok r : Forall write_ok (InputReport <$> packets r).
Proof.
  unfold packets, encode_message. simpl. constructor; [apply length_first_packet|].
  generalize (length (drop (Nat.min (length (r_payload r)) 57) (r_payload r))) as fuel.
  generalize (drop (Nat.min (length (r_payload r)) 57) (r_payload r)) as rest. intros rest fuel.
  revert rest. generalize 0 as s. induction fuel as [|fuel IH]; intros s [|b rest]; simpl; try constructor.
  - apply length_continuation_packet. cbn [length]. rewrite length_take. lia.
  - apply IH.
Qed.

Section invariant.
Context {pf : Platform} {cr : Crypto} {codec : CborCodec} {es : Esapi} {sc : StoreCodec}.
Context {mc : ManagementCodec}.
Context (oc : bool).
#[local] Instance ops : AuthenticatorOps St TpmCommand := authenticator_ops oc.

Lemma wf_op op : daemon_op op = true -> keeps StoreProps.wf_rel (StoreProps.run_op op).
Proof. intros _. apply StoreProps.wf_run_op. Qed.

(** An event keeps the handler and the store well formed. *)
Lemma event_inv event h :
  wf h -> StoreProps.db_wf (w_db (world (authenticator h))) ->
  let h' := (handle_event oc event h).2 in
  wf h' /\ StoreProps.db_wf (w_db (world (authenticator h'))).
Proof.
  intros Hwf Hdb. destruct event; simpl; try done. destruct (normalize_host_report data) as [p|]; [|done].
  destruct p as [report b]. unfold mbind, M_bind.
  pose proof (wf_handle_packet report h Hwf) as Hwf'. pose proof (packet_touches report h) as Ht.
  assert (StoreProps.db_wf (w_db (world (authenticator (handle_packet report h).2)))) as Hdb'.
  { destruct Ht as [->|[->|[payload ->]]]; [done|done|].
    by apply (daemon_handle_cbor StoreProps.wf_rel oc wf_op payload (authenticator h)). }
  by destruct (handle_packet report h) as [[] h'].
Qed.

Lemma client_at y i c :
  sys_inv y -> clients y !! i = Some c -> client_keeps StoreProps.wf_rel c.
Proof. intros Hy Hi. by apply (inv_clients y Hy i c). Qed.

(** A connection that does not wait moves on without a command in the queue. *)
Lemma inv_move y i d c :
  sys_inv y -> clients y !! i = d -> (forall k, d <> Some (Waiting k)) -> client_keeps StoreProps.wf_rel c ->
  (forall k, c <> Waiting k) -> sys_inv (set_client i c y).
Proof.
  intros Hy Hi Hd Hc Hw. destruct Hy as [H1 H2 H3 H4 H5]. split; simpl; try done.
  - by apply map_Forall_insert_2.
  - intros j. rewrite H5. destruct (decide (j = i)) as [->|Hj].
    + rewrite Hi, lookup_insert_eq. naive_solver.
    + by rewrite lookup_insert_ne.
Qed.

Lemma inv_world y w :
  sys_inv y -> StoreProps.db_wf (w_db w) -> sys_inv (set_sys_world w y).
Proof. intros [H1 H2 H3 H4 H5] Hw. by split. Qed.

Lemma inv_send y i c k :
  sys_inv y -> clients y !! i = Some (Running (Management.Tpm c k)) ->
  sys_inv {| handler := handler y; phase := phase y; queue := queue y ++ [(i, c)];
             clients := <[i := Waiting k]> (clients y) |}.
Proof.
  intros Hy Hi. pose proof (client_at _ _ _ Hy Hi) as Hk. destruct Hy as [H1 H2 H3 H4 H5].
  assert (i ∉ (queue y).*1) as Hn by (rewrite H5, Hi; naive_solver).
  split; simpl; [done|done|by apply map_Forall_insert_2| |].
  - rewrite fmap_app. apply NoDup_app. split_and!; [done|set_solver|apply NoDup_singleton].
  - intros j. rewrite fmap_app, elem_of_app, H5. simpl. rewrite list_elem_of_singleton.
    destruct (decide (j = i)) as [->|Hj]; [rewrite lookup_insert_eq; naive_solver|].
    rewrite lookup_insert_ne by done. naive_solver.
Qed.

Lemma inv_command y i c q k r h p :
  sys_inv y -> queue y = (i, c) :: q -> clients y !! i = Some (Waiting k) ->
  on_authenticator (Ctap2.handle_tpm_command oc c) (handler y) = (r, h) ->
  sys_inv {| handler := h; phase := p; queue := q; clients := <[i := Running (k (Replied r))]> (clients y) |}.
Proof.
  intros Hy Hq Hi Hc. pose proof (client_at _ _ _ Hy Hi) as Hk. destruct Hy as [H1 H2 H3 H4 H5].
  unfold on_authenticator in Hc. rewrite Hq in H4. apply NoDup_cons in H4 as [Hn H4].
  pose proof (daemon_tpm_command StoreProps.wf_rel oc wf_op c (authenticator (handler y)) H2) as Hw.
  destruct (Ctap2.handle_tpm_command oc c (authenticator (handler y))) as [r' a]. simplify_eq.
  split; simpl; [done|done|apply map_Forall_insert_2; [apply Hk|done]|done|].
  intros j. destruct (decide (j = i)) as [->|Hj].
  - rewrite lookup_insert_eq. split; [done|]. by intros [].
  - rewrite lookup_insert_ne by done. rewrite <- H5, Hq. simpl. set_solver.
Qed.

Lemma step_inv y out y' : sys_inv y -> step oc y out y' -> sys_inv y' /\ Forall write_ok out.
Proof.
  intros Hy Hs. destruct Hs as [y i pu Hi|y i pu inp more closed Hi|y i X m k r w Hi Hm Hr|y i X m k w Hi Hm|y i Hi|y i c k Hi
    |y i o Hi|y Hp Hq|y i c q k r h Hp Hq Hi Hc Hr|y ev out h Hp He]; (split; [|try constructor]).
  - by eapply inv_move.
  - eapply inv_move; [done|exact Hi|done| |].
    + apply received_keeps; [apply _|]. intros op _. apply StoreProps.wf_run_op.
    + unfold received. by destruct (handle_client _ _ _ _ _).
  - pose proof (client_at _ _ _ Hy Hi) as [Hk1 Hk2]. specialize (Hk1 (world (sys_st y)) (inv_store _ Hy)).
    specialize (Hk2 (world (sys_st y))). rewrite Hm in Hk1, Hk2.
    eapply inv_move; [by apply inv_world|exact Hi|done|exact Hk2|done].
  - pose proof (client_at _ _ _ Hy Hi) as [Hk1 Hk2]. specialize (Hk1 (world (sys_st y)) (inv_store _ Hy)).
    rewrite Hm in Hk1. eapply inv_move; [by apply inv_world|exact Hi|done..].
  - by eapply inv_move.
  - by apply inv_send.
  - by eapply inv_move.
  - by destruct Hy.
  - by eapply inv_command.
  - destruct (event_inv ev (handler y) (inv_handler _ Hy) (inv_store _ Hy)) as [H1 H2].
    rewrite He in H1, H2. destruct Hy. by split.
  - destruct ev; simpl in He; try (apply ret_Ok in He as [-> _]; by repeat constructor).
    destruct (normalize_host_report data) as [[report b]|]; [|apply ret_Ok in He as [-> _]; constructor].
    apply bind_Ok in He as (o & h1 & _ & [-> ->]%ret_Ok). destruct o as [[]|]; [constructor|apply packets_ok|constructor].
Qed.

Lemma steps_inv y out y' : sys_inv y -> steps oc y out y' -> sys_inv y' /\ Forall write_ok out.
Proof.
  intros Hy. induction 1 as [|y1 o1 y2 o2 y3 _ IH Hs]; [done|]. destruct (IH Hy) as [H2 Ho1].
  destruct (step_inv _ _ _ H2 Hs) as [H3 Ho2]. split; [done|]. by apply Forall_app.
Qed.

Lemma boot_inv tpm_path w h w' :
  StoreProps.db_wf (w_db w) -> start_handler (E := Empty_set) tpm_path w = (Ok h, w') -> sys_inv (boot h).
Proof.
  intros Hw Hs. unfold start_handler in Hs.
  pose proof (daemon_new (E := Empty_set) StoreProps.wf_rel wf_op (Some tpm_path) w Hw) as Hn.
  destruct (Ctap2.new (Some tpm_path) w) as [[a|e|] w1]; simplify_eq/=.
  split; simpl; [apply wf_new|done|apply map_Forall_empty|constructor|].
  intros i. rewrite lookup_empty. split; [by intros ?%elem_of_nil|by intros []].
Qed.

(** ** The PIN *)

Definition sys_pin (y : Sys) : option ClientPinState := client_pin (auth (sys_st y)).

Lemma same_pin_tpm_command c : keeps same_pin (Ctap2.handle_tpm_command oc c).
Proof. unfold Ctap2.handle_tpm_command, require_tpm, wrap. handler_walk ltac:(reflexivity). Qed.

End invariant.

(** C16. The daemon as a whole: started on a store that satisfies the constraints
    of its schema, in every interleaving of the steps of the main thread (device events with host
    reports, and TPM commands, each as a whole) and of the management connections (each
    store function as a whole), the store keeps satisfying them, the
    assembly table of the framing layer stays well formed, every report written to
    the host has 64 bytes, and the connections waiting for the TPM are exactly the
    ones with a command in the queue, each with one. *)
Theorem daemon_keeps_invariants {pf : Platform} {cr : Crypto} {codec : CborCodec} {es : Esapi}
    {sc : StoreCodec} {mc : ManagementCodec} oc tpm_path w h w' out y :
  StoreProps.db_wf (w_db w) -> start_handler (E := Empty_set) tpm_path w = (Ok h, w') -> steps oc (boot h) out y ->
  StoreProps.db_wf (w_db (world (sys_st y))) /\ wf (handler y) /\ Forall write_ok out /\
  NoDup (queue y).*1 /\
  forall i, i ∈ (queue y).*1 <-> exists k, clients y !! i = Some (Waiting k).
Proof.
  intros Hw Hs Hr. destruct (steps_inv oc (boot h) out y) as [[H1 H2 H3 H4 H5] Ho]; [by eapply boot_inv|done|].
  done.
Qed.

End DaemonProps.
