(* ===== verification/Dialogue.v ===== *)
(** What the host and the authenticator say to each other in a run of the daemon:
    the CBOR requests that the framing layer hands over, in order, with their
    outcomes; and what becomes of the authenticator between them. *)
From Stdlib Require Import ZArith Lia String.
From stdpp Require Import base list option strings gmap.
From S2P Require Import Prelude Schema Platform Cbor Hid CtapHid Session Tpm Store StoreProps Ctap2Types.
From S2P Require Import Ctap2 Ctap2Facts WorldFacts Ctap2Pin Management ManagementProps Daemon Schedule.
From S2P Require Import DaemonProps.

#[local] Open Scope Z_scope.

Module Dialogue.
Import Ctap2 Ctap2Facts WorldFacts Ctap2Pin Management ManagementProps CtapHid Daemon Schedule DaemonProps.

(** ** The request in a report *)

(** An authenticator that only remembers what it was asked. *)
#[local] Instance listener : AuthenticatorOps (option bytes) unit := {
  ao_handle_cbor payload := fun _ => (Ok [], Some payload);
  ao_cancel_pending a := a;
  ao_handle_tpm_command _ := mret tt }.

Section packet.
Context {A C : Type} {ao : AuthenticatorOps A C}.

(** The framing layer of [h] in front of the listener. *)
Definition overhear (h : PacketHandler A) : PacketHandler (option bytes) :=
  {| pending := pending h; next_cid := next_cid h; authenticator := None |}.

(** The CBOR request that the report completes, if it does. *)
Definition asked (report : bytes) (h : PacketHandler A) : option bytes :=
  authenticator (handle_packet report (overhear h)).2.

(** What a completed request makes of the authenticator and of the answer; without
    one, nothing that is sent is a CBOR response. *)
Definition heard (a : A) (request : option bytes) (r : res Empty_set (option PacketOutcome)) (a' : A) : Prop :=
  match request with
  | Some payload => exists cid,
      r = (p ← (ao_handle_cbor payload a).1;
           mret (Some (Respond {| r_cid := cid; r_command := CtapHid.Cbor; r_payload := p |}))) /\
      a' = (ao_handle_cbor payload a).2
  | None => (a' = a \/ a' = ao_cancel_pending a) /\
      exists o, r = Ok o /\ forall m, o = Some (Respond m) -> r_command m <> CtapHid.Cbor
  end.

Lemma dispatch_heard cid c payload p n (h : PacketHandler A) :
  pending h = p -> next_cid h = n ->
  heard (authenticator h)
    (authenticator (respond (CtapHid.dispatch cid c payload) {| pending := p; next_cid := n; authenticator := None |}).2)
    (respond (CtapHid.dispatch cid c payload) h).1 (authenticator (respond (CtapHid.dispatch cid c payload) h).2).
Proof.
  intros <- <-. unfold respond, CtapHid.dispatch, mbind, M_bind, allocate_cid, handle_init.
  destruct c; [..|exists cid; unfold on_authenticator; simpl;
    by destruct (ao_handle_cbor payload (authenticator h)) as [[] a]| |].
  all: simpl; repeat (case_match; simplify_eq/=);
    (split; [by auto|]; eexists; split; [done|]; by intros m [= <-]).
Qed.

Lemma packet_heard report h :
  heard (authenticator h) (asked report h) (handle_packet report h).1 (authenticator (handle_packet report h).2).
Proof.
  assert (forall o, (forall m, o = Some (Respond m) -> r_command m <> CtapHid.Cbor) ->
    heard (authenticator h) None (Ok o) (authenticator h)) as Hquiet by (intros o Ho; split; eauto).
  unfold asked, overhear, handle_packet, handle_init_packet, handle_continuation_packet. cbn [pending].
  repeat first
    [ progress cbn [pending authenticator fst snd]
    | case_match
    | apply Hquiet; by intros ? [= <-]
    | by apply Hquiet
    | apply (dispatch_heard _ _ _ _ _ (set_pending _ h)); done
    | progress simpl ].
Qed.
End packet.

(** ** A run as a dialogue *)

(** A request and what the authenticator made of it. *)
Abbreviation Exchange := (bytes * res Empty_set bytes)%type.

(** A message for the host, or an answer to the kernel. *)
Inductive Shown :=
| Message (m : Response) | GetReply (id err : Z) (data : bytes) | SetReply (id err : Z).

Definition show (x : Shown) : list UhidWrite :=
  match x with
  | Message m => InputReport <$> packets m
  | GetReply id err data => [GetReportReply id err data]
  | SetReply id err => [SetReportReply id err]
  end.

(** The CBOR responses among what is shown. *)
Definition response_of (x : Shown) : option bytes :=
  match x with
  | Message m => if decide (r_command m = CtapHid.Cbor) then Some (r_payload m) else None
  | _ => None
  end.

Section dialogue.
Context {pf : Platform} {cr : Crypto} {codec : CborCodec} {es : Esapi} {sc : StoreCodec}.
Context {mc : ManagementCodec}.
Context (oc : bool).
#[local] Instance ops : AuthenticatorOps St TpmCommand := authenticator_ops oc.

(** The exchange that an event of the device brings about. *)
Definition exchange (event : UhidEvent) (h : PacketHandler St) : option Exchange :=
  match event with
  | Output data =>
      '(report, _) ← normalize_host_report data;
      payload ← asked report h;
      Some (payload, (Ctap2.handle_cbor oc payload (authenticator h)).1)
  | _ => None
  end.

(** A step that is not the main thread's handling of an event. *)
Definition aside (y : Sys) (out : list UhidWrite) (y' : Sys) : Prop :=
  step oc y out y' /\ (phase y = Events -> phase y' = Events).

(** A run with the exchanges in it. *)
Inductive dialogue (y : Sys) : list Exchange -> list UhidWrite -> Sys -> Prop :=
| dialogue_start : dialogue y [] [] y
| dialogue_aside l out1 y1 out2 y2 :
    dialogue y l out1 y1 -> aside y1 out2 y2 -> dialogue y l (out1 ++ out2) y2
| dialogue_event l out1 y1 event out2 h :
    dialogue y l out1 y1 -> phase y1 = Events -> handle_event oc event (handler y1) = (Ok out2, h) ->
    dialogue y (l ++ option_list (exchange event (handler y1))) (out1 ++ out2)
      {| handler := h; phase := Commands; queue := queue y1; clients := clients y1 |}.

Lemma steps_dialogue y out y' : steps oc y out y' <-> exists l, dialogue y l out y'.
Proof.
  split.
  - induction 1 as [|y1 out1 y2 out2 y3 _ [l IH] Hs]; [exists []; constructor|].
    pose proof Hs as Hs'. destruct Hs as [y2 i pu Hi|y2 i pu inp more closed Hi|y2 i X m k r w Hi Hm Hr|y2 i X m k w Hi Hm|y2 i Hi|y2 i c k Hi
      |y2 i o Hi|y2 Hp Hq|y2 i c q k r h Hp Hq Hi Hc Hr|y2 ev out2 h Hp He];
      [exists l; eapply dialogue_aside; [exact IH|by split]..|].
    eexists. by eapply dialogue_event.
  - intros [l Hd]. induction Hd as [|l out1 y1 out2 y2 _ IH [Hs _]|l out1 y1 ev out2 h _ IH Hp He];
      [constructor|by eapply steps_snoc|]. eapply steps_snoc; [exact IH|by eapply step_event].
Qed.

Lemma aside_out y out y' : aside y out y' -> out = [].
Proof.
  intros [Hs Hp]. destruct Hs as [| | | | | | | | |y ev out h Hp' He]; try done. by specialize (Hp Hp').
Qed.

(** What an event makes the daemon show is the answer to its exchange, if it has
    one, and otherwise no CBOR response. *)
Lemma event_shown event h out h' :
  handle_event oc event h = (Ok out, h') ->
  exists shown, out = concat (show <$> shown) /\
    snd <$> option_list (exchange event h) = Ok <$> omap response_of shown.
Proof.
  destruct event; simpl; intros He;
    try (apply ret_Ok in He as [-> _]; first [by exists [] | by eexists [GetReply _ _ _] | by eexists [SetReply _ _]]).
  destruct (normalize_host_report data) as [[report b]|]; simpl; [|apply ret_Ok in He as [-> _]; by exists []].
  apply bind_Ok in He as (o & h1 & Hh & [-> _]%ret_Ok). pose proof (packet_heard report h) as Hp. unfold heard, ops in Hp.
  rewrite Hh in Hp. simpl in Hp. destruct (asked report h) as [payload|]; simpl.
  - destruct Hp as (cid & Hr & _). destruct (Ctap2.handle_cbor oc payload (authenticator h)).1 as [p|[]|]; [|done].
    injection Hr as ->.
    exists [Message {| r_cid := cid; r_command := CtapHid.Cbor; r_payload := p |}]. split; [simpl; by rewrite app_nil_r|done].
  - destruct Hp as (_ & o' & [= <-] & Ho). destruct o as [[|m]|]; [by exists []| |by exists []].
    exists [Message m]. simpl. rewrite app_nil_r, decide_False by auto. done.
Qed.

Lemma dialogue_shown y l out y' : dialogue y l out y' ->
  exists shown, out = concat (show <$> shown) /\ l.*2 = Ok <$> omap response_of shown.
Proof.
  induction 1 as [|l out1 y1 out2 y2 _ (shown & -> & IH) Ha%aside_out|l out1 y1 ev out2 h _ (shown & -> & IH) Hp He];
    [by exists []|subst; exists shown; by rewrite app_nil_r|].
  destruct (event_shown _ _ _ _ He) as (more & -> & Hm). exists (shown ++ more).
  by rewrite !fmap_app, concat_app, omap_app, fmap_app, IH, Hm.
Qed.

(** The exchanges in a sequence of moves. *)
Fixpoint talk (ms : list Move) (y : Sys) : list Exchange :=
  match ms with
  | [] => []
  | m :: ms =>
      option_list match m with Device event => exchange event (handler y) | _ => None end ++
      match move oc m y with Some (_, y1) => talk ms y1 | None => [] end
  end.

Lemma move_dialogue m y0 l out0 y out y' :
  dialogue y0 l out0 y -> move oc m y = Some (out, y') ->
  dialogue y0 (l ++ option_list match m with Device event => exchange event (handler y) | _ => None end)
    (out0 ++ out) y'.
Proof.
  intros Hd Hm. pose proof (move_step _ _ _ _ _ Hm) as Hs.
  assert ((phase y = Events -> phase y' = Events) ->
    dialogue y0 (l ++ []) (out0 ++ out) y') as Ha.
  { intros Hp. rewrite app_nil_r. by eapply dialogue_aside. }
  destruct m as [i pu|i more closed|i| |event]; simpl in Hm |- *.
  - apply Ha. destruct (clients y !! i); by simplify_eq.
  - apply Ha. destruct (clients y !! i) as [[]|]; by simplify_eq.
  - apply Ha. destruct (clients y !! i) as [[|p| | |]|]; simplify_eq. intros Hp.
    destruct p as [o| |X m k|c k]; simpl; [done..| |done]. by destruct (m (world (sys_st y))).
  - apply Ha. by destruct (phase y).
  - destruct (phase y) eqn:Hp; [done|]. destruct (handle_event oc event (handler y)) as [[o|[]|] h] eqn:He; simplify_eq.
    by apply dialogue_event.
Qed.

Lemma play_dialogue ms y out y' : play oc ms y = Some (out, y') -> dialogue y (talk ms y) out y'.
Proof.
  assert (forall y0 l out0, dialogue y0 l out0 y -> play oc ms y = Some (out, y') ->
    dialogue y0 (l ++ talk ms y) (out0 ++ out) y') as H; [|apply (H y [] []), dialogue_start].
  revert y out. induction ms as [|m ms IH]; intros y out y0 l out0 Hd; simpl.
  - intros [= <- <-]. by rewrite !app_nil_r.
  - destruct (move oc m y) as [[out1 y1]|] eqn:Hm; [|done]. simpl.
    destruct (play oc ms y1) as [[out2 y2]|] eqn:Hp; [|done]. simpl. intros [= <- <-].
    rewrite !app_assoc. apply IH; [|done]. by apply move_dialogue.
Qed.

(** ** The client PIN *)

(** The request that a move hands over, with the authenticator that gets it. *)
Definition arrival (m : Move) (y : Sys) : list (bytes * Authenticator) :=
  match m with
  | Device event => (fun x => (x.1, auth (sys_st y))) <$> option_list (exchange event (handler y))
  | _ => []
  end.

(** The requests of a run, each with the state it arrives in. *)
Fixpoint arrivals_in (ms : list Move) (y : Sys) : list (bytes * Authenticator) :=
  match ms with
  | [] => []
  | m :: ms => arrival m y ++ match move oc m y with Some (_, y1) => arrivals_in ms y1 | None => [] end
  end.

Lemma arrivals_talk ms y : (arrivals_in ms y).*1 = (talk ms y).*1.
Proof.
  revert y. induction ms as [|m ms IH]; intros y; [done|]. simpl. rewrite !fmap_app. f_equal.
  - destruct m as [| | | |event]; [done..|]. simpl. by destruct (exchange event (handler y)) as [[]|].
  - by destruct (move oc m y) as [[out y1]|].
Qed.

Lemma command_pin c a : same_pin a (Ctap2.handle_tpm_command oc c a).2.
Proof. apply same_pin_tpm_command. Qed.

Lemma advance_pin i q y : sys_pin (advance i q y) = sys_pin y.
Proof. destruct q as [o| |X m k|c k]; simpl; [done..| |done]. by destruct (m (world (sys_st y))). Qed.

Lemma look_pin y y' : look oc y = Some y' -> sys_pin y' = sys_pin y.
Proof.
  unfold look. destruct (queue y) as [|[i c] q]; [by intros [= <-]|].
  destruct (clients y !! i) as [[| |k| |]|]; try done. unfold on_authenticator.
  pose proof (command_pin c (authenticator (handler y))) as Hc. unfold same_pin in Hc.
  destruct (Ctap2.handle_tpm_command oc c (authenticator (handler y))) as [[r|e|] a]; intros [= <-]; exact Hc.
Qed.

Lemma event_pin event h out h' p :
  handle_event oc event h = (Ok out, h') -> client_pin (auth (authenticator h)) = Some p ->
  match exchange event h with
  | None => client_pin (auth (authenticator h')) = Some p
  | Some (payload, _) => head payload <> Some 0x07 -> right_entry (payload, auth (authenticator h)) = false ->
      exists p1, client_pin (auth (authenticator h')) = Some p1 /\
        if wrong_entry (payload, auth (authenticator h))
        then retries p <> 0 /\ p1 = with_retries (saturating_sub (retries p) 1) p else p1 = p
  end.
Proof.
  destruct event; simpl; intros He Hp; try (apply ret_Ok in He as [_ ->]; exact Hp).
  destruct (normalize_host_report data) as [[report b]|]; simpl; [|apply ret_Ok in He as [_ ->]; exact Hp].
  apply bind_Ok in He as (o & h1 & Hh & [_ ->]%ret_Ok). pose proof (packet_heard report h) as Ht. unfold heard, ops in Ht.
  rewrite Hh in Ht. simpl in Ht. destruct (asked report h) as [payload|]; simpl; [|by destruct Ht as [[-> | ->] _]].
  destruct Ht as (cid & _ & ->). intros H7 Hr.
  pose proof (entry_counts oc (E := Empty_set) payload (authenticator h) p Hp H7 Hr) as H.
  destruct (Ctap2.handle_cbor oc payload (authenticator h)) as [r s']. simpl.
  destruct (wrong_entry _); [destruct H as (Hn & -> & _)|rewrite H]; by eauto.
Qed.

Lemma move_pin m y out y' p :
  move oc m y = Some (out, y') -> sys_pin y = Some p -> guessing (arrival m y) ->
  match arrival m y with
  | [] => sys_pin y' = Some p
  | x :: l => l = [] /\ exists p1, sys_pin y' = Some p1 /\
      if wrong_entry x then retries p <> 0 /\ p1 = with_retries (saturating_sub (retries p) 1) p else p1 = p
  end.
Proof.
  intros Hm Hp Hg. destruct m as [i pu|i more closed|i| |event]; simpl in *.
  - destruct (clients y !! i); by simplify_eq.
  - destruct (clients y !! i) as [[]|]; by simplify_eq.
  - destruct (clients y !! i) as [[|q| | |]|]; simplify_eq. by rewrite advance_pin.
  - destruct (phase y); [|done]. destruct (look oc y) as [y1|] eqn:Hl; simplify_eq/=. by rewrite (look_pin y).
  - destruct (phase y); [done|]. destruct (handle_event oc event (handler y)) as [[o|[]|] h] eqn:He; simplify_eq.
    pose proof (event_pin _ _ _ _ p He Hp) as H. destruct (exchange event (handler y)) as [[payload r]|]; [|exact H].
    simpl in *. apply Forall_cons in Hg as [[H1 H2] _]. split; [done|]. by apply H.
Qed.

Lemma play_pin ms : forall y out y' p,
  play oc ms y = Some (out, y') -> sys_pin y = Some p -> 0 <= retries p -> guessing (arrivals_in ms y) ->
  wrong_entries (arrivals_in ms y) <= retries p /\ sys_pin y' = Some (after_wrong (wrong_entries (arrivals_in ms y)) p).
Proof.
  induction ms as [|m ms IH]; intros y out y' p Hm Hp Hr Hg; simpl in *.
  { simplify_eq. split; [done|]. by rewrite after_wrong_0. }
  destruct (move oc m y) as [[out1 y1]|] eqn:E; [|done]. simpl in *.
  destruct (play oc ms y1) as [[out2 y2]|] eqn:E2; simplify_eq/=.
  apply Forall_app in Hg as [Hg1 Hg2]. pose proof (move_pin m y out1 y1 p E Hp Hg1) as H.
  destruct (arrival m y) as [|x l]; simpl in *; [by eapply IH|]. destruct H as (-> & p1 & Hp1 & H1).
  eapply after_wrong_cons; [done|exact H1|]. intros Hr1. by eapply IH.
Qed.

(** ** The course of the authenticator *)

(** Stops of the process: killed between two steps, or a panic of its main thread. *)
Inductive ends (y : Sys) : list Exchange -> St -> Prop :=
| ends_killed : ends y [] (sys_st y)
| ends_event event h :
    phase y = Events -> handle_event oc event (handler y) = (Panic, h) ->
    ends y (option_list (exchange event (handler y))) (authenticator h)
| ends_command i c q h :
    phase y = Commands -> queue y = (i, c) :: q ->
    on_authenticator (Ctap2.handle_tpm_command oc c) (handler y) = (Panic, h) -> ends y [] (authenticator h).

Section course.
Context (R : relation World) {sr : StoreRel R}.
Context (Hop : forall op, management_op op -> keeps R (StoreProps.run_op op)).

(** What happens to the authenticator and its world between two requests: another
    thread uses the store, the host cancels, or a TPM command is run. *)
Inductive quiet (s : St) : St -> Prop :=
| quiet_call w : R (world s) w -> quiet s (set_world w s)
| quiet_cancel : quiet s (set_auth (cancel_pending (auth s)) s)
| quiet_command c : quiet s (Ctap2.handle_tpm_command oc c s).2.

Inductive course (s : St) : list Exchange -> St -> Prop :=
| course_start : course s [] s
| course_quiet l s1 s2 : course s l s1 -> quiet s1 s2 -> course s l s2
| course_request l s1 payload :
    course s l s1 ->
    course s (l ++ [(payload, (Ctap2.handle_cbor oc payload s1).1)]) (Ctap2.handle_cbor (E := Empty_set) oc payload s1).2.

Lemma course_one s s' : quiet s s' -> course s [] s'.
Proof. apply course_quiet, course_start. Qed.

Lemma course_trans s l1 s1 l2 s2 : course s l1 s1 -> course s1 l2 s2 -> course s (l1 ++ l2) s2.
Proof.
  intros H1. induction 1 as [|l2 s2 s3 _ IH Hq|l2 s2 payload _ IH]; [by rewrite app_nil_r|by eapply course_quiet|].
  rewrite app_assoc. by apply course_request.
Qed.

Lemma event_course event h r h' : handle_event oc event h = (r, h') ->
  course (authenticator h) (option_list (exchange event h)) (authenticator h').
Proof.
  destruct event; simpl; try (intros [= _ <-]; by constructor).
  destruct (normalize_host_report data) as [[report b]|]; simpl; [|intros [= _ <-]; by constructor].
  pose proof (packet_heard report h) as Hp. unfold heard, ops in Hp. unfold mbind, M_bind.
  destruct (handle_packet report h) as [o h1]. simpl in Hp. intros He.
  assert (h' = h1) as -> by (by destruct o as [|[]|]; injection He).
  destruct (asked report h) as [payload|]; simpl.
  - destruct Hp as (cid & _ & ->). apply (course_request _ []), course_start.
  - destruct Hp as [[-> | ->] _]; [constructor|]. apply course_one, quiet_cancel.
Qed.

Lemma aside_course y out y' :
  map_Forall (fun _ => client_keeps R) (clients y) -> aside y out y' ->
  map_Forall (fun _ => client_keeps R) (clients y') /\ course (sys_st y) [] (sys_st y').
Proof.
  intros Hc [Hs Hp].
  assert (forall i c, clients y !! i = Some c -> client_keeps R c) as Hat by (intros i; apply (Hc i)).
  destruct Hs as [y i pu Hi|y i pu inp more closed Hi|y i X m k r w Hi Hm Hr|y i X m k w Hi Hm|y i Hi|y i c k Hi
    |y i o Hi|y Hp' Hq|y i c q k r h Hp' Hq Hi Hr Hn|y ev out h Hp' He]; simpl;
    try (split; [by apply map_Forall_insert_2; [try apply (Hat _ _ Hi)|]|by constructor]).
  - split; [|by constructor]. apply map_Forall_insert_2; [|done]. by apply received_keeps.
  - destruct (Hat _ _ Hi) as [Hk1 Hk2]. specialize (Hk1 (world (sys_st y))). specialize (Hk2 (world (sys_st y))).
    rewrite Hm in Hk1, Hk2. split; [by apply map_Forall_insert_2|]. by apply course_one, quiet_call.
  - destruct (Hat _ _ Hi) as [Hk1 Hk2]. specialize (Hk1 (world (sys_st y))). rewrite Hm in Hk1.
    split; [by apply map_Forall_insert_2|]. by apply course_one, quiet_call.
  - split; [done|constructor].
  - split; [apply map_Forall_insert_2; [apply (Hat _ _ Hi)|done]|]. unfold on_authenticator in Hr.
    destruct (Ctap2.handle_tpm_command oc c (authenticator (handler y))) as [r' a] eqn:Ec. simplify_eq.
    unfold sys_st. simpl. replace a with (Ctap2.handle_tpm_command oc c (authenticator (handler y))).2 by (by rewrite Ec).
    apply course_one, quiet_command.
  - by specialize (Hp Hp').
Qed.

Lemma dialogue_course y l out y' :
  map_Forall (fun _ => client_keeps R) (clients y) -> dialogue y l out y' ->
  map_Forall (fun _ => client_keeps R) (clients y') /\ course (sys_st y) l (sys_st y').
Proof.
  intros Hc. induction 1 as [|l out1 y1 out2 y2 _ [IH1 IH2] Ha|l out1 y1 ev out2 h _ [IH1 IH2] Hp He];
    [split; [done|constructor]|..].
  - destruct (aside_course _ _ _ IH1 Ha) as [? Hcs]. split; [done|].
    rewrite <- (app_nil_r l). by eapply course_trans.
  - split; [done|]. eapply course_trans; [exact IH2|]. by eapply (event_course ev).
Qed.

Lemma ends_course y l s : ends y l s -> course (sys_st y) l s.
Proof.
  intros [|ev h Hp He|i c q h Hp Hq Hc]; [constructor|by eapply event_course|].
  unfold on_authenticator in Hc.
  destruct (Ctap2.handle_tpm_command oc c (authenticator (handler y))) as [r a] eqn:Ec. simplify_eq. simpl.
  replace a with (Ctap2.handle_tpm_command oc c (sys_st y)).2 by (unfold sys_st; by rewrite Ec).
  apply course_one, quiet_command.
Qed.

(** A whole life, from its start to its end. *)
Lemma life_course h l out y l' s :
  dialogue (boot h) l out y -> ends y l' s -> course (authenticator h) (l ++ l') s.
Proof.
  intros Hd He. eapply course_trans; [|by eapply ends_course].
  eapply (dialogue_course (boot h)); [apply map_Forall_empty|exact Hd].
Qed.
End course.
End dialogue.

(** C15. The host gets every answer, once and in order. However the steps of the
    daemon's threads are interleaved, a run is a dialogue: a list of requests that the reports
    of the host amount to, each with the outcome the authenticator had for it. What
    the daemon writes to the device in this run is a sequence of whole messages and
    of replies to the kernel; the CBOR responses among the messages are exactly the
    answers to the requests, in their order, with nothing lost, added or exchanged
    by the other threads. *)
Theorem host_gets_every_answer {pf : Platform} {cr : Crypto} {codec : CborCodec} {es : Esapi}
    {sc : StoreCodec} {mc : ManagementCodec} oc y out y' :
  (steps oc y out y' <-> exists l, dialogue oc y l out y') /\
  forall l, dialogue oc y l out y' ->
    exists shown, out = concat (show <$> shown) /\ l.*2 = Ok <$> omap response_of shown.
Proof. split; [apply steps_dialogue|intros l; apply dialogue_shown]. Qed.

(** C14. Nobody gets more PIN guesses out of the daemon by any other way. Let a PIN be
    set, and run the daemon, its threads in any interleaving of their steps, with any
    reports and cancellations of the host and any management connections. Take the
    requests that the reports amount to, each with the state it arrives in: if none
    enters the right PIN and none is a Reset, at most as many enter a wrong PIN as
    there were retries, and at the end the retries are fewer by exactly their number,
    with the PIN unchanged. Every run is the play of some moves. *)
Theorem daemon_pin_guesses_bounded {pf : Platform} {cr : Crypto} {codec : CborCodec} {es : Esapi}
    {sc : StoreCodec} {mc : ManagementCodec} oc ms y out y' p :
  play oc ms y = Some (out, y') -> sys_pin y = Some p -> 0 <= retries p -> guessing (arrivals_in oc ms y) ->
  wrong_entries (arrivals_in oc ms y) <= retries p /\
  sys_pin y' = Some (after_wrong (wrong_entries (arrivals_in oc ms y)) p) /\
  (arrivals_in oc ms y).*1 = (talk oc ms y).*1.
Proof.
  intros Hm Hp Hr Hg. destruct (play_pin oc ms y out y' p Hm Hp Hr Hg). split_and!; [done..|apply arrivals_talk].
Qed.
End Dialogue.
