(* ===== verification/DaemonSafe.v ===== *)
(** The main thread of the daemon among the others: built without overflow checks,
    it panics in no interleaving, whatever clients connect and send, as long as the
    host sends no request that is not implemented or continues an assertion after
    credentials may have been deleted. *)
From Stdlib Require Import ZArith Lia String.
From stdpp Require Import base list option strings gmap.
From S2P Require Import Prelude Schema Platform Cbor Hid CtapHid Session Tpm Store StoreProps Ctap2Types.
From S2P Require Import Ctap2 Ctap2Facts WorldFacts WorldSafe Settings Ctap2Safe Management ManagementProps.
From S2P Require Import Daemon DaemonProps Dialogue.

#[local] Open Scope Z_scope.

Module DaemonSafe.
Import Ctap2 Ctap2Facts WorldFacts WorldSafe Settings Ctap2Safe Management ManagementProps.
Import CtapHid Daemon DaemonProps Dialogue.

(** ** Requests in order *)

(** Every request is answerable after those before it. *)
Fixpoint proper (managed : bool) (payloads : list bytes) : bool :=
  match payloads with
  | [] => true
  | p :: payloads => answerable managed p && proper (managed_after managed p) payloads
  end.

Lemma proper_app managed l1 l2 :
  proper managed (l1 ++ l2) = proper managed l1 && proper (foldl managed_after managed l1) l2.
Proof.
  revert managed. induction l1 as [|p l1 IH]; intros managed; simpl; [done|]. by rewrite IH, andb_assoc.
Qed.

Section safe.
Context {pf : Platform} {pl : PlatformLaws} {pr : PlatformReturns} {cr : Crypto} {codec : CborCodec}.
Context {es : Esapi} {er : EsapiReturns} {sc : StoreCodec} {sl : StoreCodecLaws} {cd : CodecReturns} {ph : PhcFits}.
Context {mc : ManagementCodec}.
#[local] Instance ops : AuthenticatorOps St TpmCommand := authenticator_ops false.

(** ** Connections *)

(** A command that a request may send does not make the main thread panic. *)
Lemma authorized_ok I peer_uid request c : authorized I peer_uid request c -> command_ok false c = true.
Proof.
  destruct c as [id a n r|id k hash salt kdf|l]; [done| |done].
  intros (old & new & c & recovery & _ & _ & _ & _ & _ & _ & _ & [t Ht] & Hh).
  destruct (drawn_phc_ok _ _ _ _ _ Ht Hh) as [H1 H2]. simpl. by rewrite H1, H2.
Qed.

(** What is left of a connection keeps the settings and sends such commands only. *)
Definition harmless (p : Prog (option bytes)) : Prop :=
  calls_keep passphrase_kept p /\ spec (fun _ => True) (fun c => command_ok false c = true) (fun _ => True) p.

Lemma message_harmless tx peer_uid data : harmless (handle_message false tx peer_uid data).
Proof.
  split; [apply calls_message; [apply _|apply passphrase_management_op]|]. unfold handle_message.
  destruct (request_decode data) as [request|e|]; [|done..]. apply spec_bind.
  eapply (spec_mono _ _ (fun _ => True)); [by intros r _|].
  eapply spec_weaken; [apply authorized_ok|apply dispatch_authorized].
Qed.

Definition client_harmless_at (c : Client) : Prop :=
  match c with
  | Running p => harmless p
  | Waiting k => forall r, harmless (k r)
  | Reading _ _ | Finished _ | Dead => True
  end.

Lemma received_harmless peer_uid closed input : client_harmless_at (received false peer_uid closed input).
Proof.
  unfold received, handle_client. destruct peer_uid as [u|]; [|done].
  destruct (recv_message closed input) as [| |data rest]; [done|done|apply message_harmless].
Qed.

(** ** The main thread *)

Record undisturbed (managed : bool) (y : Sys) : Prop := {
  un_main : both false (between managed) (sys_st y);
  un_clients : map_Forall (fun _ => client_harmless_at) (clients y);
  un_queue : Forall (fun '(_, c) => command_ok false c = true) (queue y) }.

Lemma both_world R s w : passphrase_kept (world s) w -> both false R s -> both false R (set_world w s).
Proof. intros Hw [[Hp Hi] HR]. split; [|done]. split; [by apply Hw|done]. Qed.

Lemma both_cancel managed s :
  both false (between managed) s -> both false (between managed) (set_auth (cancel_pending (auth s)) s).
Proof.
  intros [Hw [[Hp Hm] Hb]]. split; [done|]. split; [by split|]. by intros _ pa.
Qed.

(** A TPM command of a connection. *)
Lemma command_returns managed c h : both false (between managed) (authenticator h) -> command_ok false c = true ->
  exists r h', on_authenticator (Ctap2.handle_tpm_command false c) h = (r, h') /\ r <> Panic /\
    both false (between managed) (authenticator h').
Proof.
  intros Hh Hc. destruct (safe_tpm_command false (between managed) c Hc _ Hh) as [Hr Hs].
  unfold on_authenticator. destruct (Ctap2.handle_tpm_command false c (authenticator h)) as [r a].
  by eexists _, _.
Qed.

(** An event of the device. *)
Lemma event_returns managed event h :
  both false (between managed) (authenticator h) ->
  proper managed (option_list (exchange false event h)).*1 = true ->
  exists out h', handle_event false event h = (Ok out, h') /\
    both false (between (foldl managed_after managed (option_list (exchange false event h)).*1)) (authenticator h').
Proof.
  intros Hh Hp. destruct event; simpl in *; try (by eexists _, h).
  destruct (normalize_host_report data) as [[report b]|]; simpl in *; [|by eexists _, h].
  pose proof (packet_heard report h) as Ht. unfold heard, ops in Ht. unfold mbind, M_bind.
  destruct (handle_packet report h) as [o h1]. cbn [fst snd] in Ht.
  destruct (asked report h) as [payload|]; simpl in *.
  - rewrite andb_true_r in Hp. destruct Ht as (cid & -> & Ha).
    destruct (handle_answered (E := Empty_set) false managed payload _ Hh Hp) as (r & s & E & Hs). rewrite E in *.
    eexists _, h1. split; [done|]. by rewrite Ha.
  - destruct Ht as [Ha (o' & -> & _)]. eexists _, h1. split; [done|]. destruct Ha as [-> | ->]; [done|by apply both_cancel].
Qed.

(** ** Runs *)

Lemma undisturbed_client managed i c y :
  client_harmless_at c -> undisturbed managed y -> undisturbed managed (set_client i c y).
Proof. intros Hc []. split; [done|by apply map_Forall_insert_2|done]. Qed.

Lemma undisturbed_world managed w y :
  passphrase_kept (world (sys_st y)) w -> undisturbed managed y -> undisturbed managed (set_sys_world w y).
Proof. intros Hw []. split; [by apply both_world|done|done]. Qed.

Lemma aside_undisturbed managed y out y' : undisturbed managed y -> aside false y out y' -> undisturbed managed y'.
Proof.
  intros Hy [Hs Hp].
  assert (forall i c, clients y !! i = Some c -> client_harmless_at c) as Hat by (intros i; apply (un_clients _ _ Hy i)).
  destruct Hs as [y i pu Hi|y i pu inp more closed Hi|y i X m k r w Hi Hm Hr|y i X m k w Hi Hm|y i Hi|y i c k Hi
    |y i o Hi|y Hp' Hq|y i c q k r h Hp' Hq Hi Hc Hn|y ev out h Hp' He].
  - by apply undisturbed_client.
  - apply undisturbed_client; [apply received_harmless|done].
  - destruct (Hat _ _ Hi) as [[Hk1 Hk2] Hsp]. specialize (Hk1 (world (sys_st y))). specialize (Hk2 (world (sys_st y))).
    specialize (Hsp (world (sys_st y))). rewrite Hm in *.
    apply undisturbed_client; [|by apply undisturbed_world]. split; [done|by apply Hsp].
  - destruct (Hat _ _ Hi) as [[Hk1 _] _]. specialize (Hk1 (world (sys_st y))). rewrite Hm in *.
    apply undisturbed_client; [done|by apply undisturbed_world].
  - by apply undisturbed_client.
  - destruct (Hat _ _ Hi) as [Hk [Hc Hsp]]. destruct Hy as [H1 H2 H3]. split; simpl; [done| |].
    + apply map_Forall_insert_2; [|done]. intros r. split; [apply Hk|apply Hsp].
    + apply Forall_app. by repeat constructor.
  - by apply undisturbed_client.
  - by destruct Hy.
  - destruct Hy as [H1 H2 H3]. rewrite Hq in H3. apply Forall_cons in H3 as [Hok H3].
    destruct (command_returns managed c (handler y) H1 Hok) as (r' & h' & E & _ & Hb). rewrite Hc in E. simplify_eq.
    split; simpl; [done|apply map_Forall_insert_2; [apply (Hat _ _ Hi)|done]|done].
  - by specialize (Hp Hp').
Qed.

Lemma dialogue_undisturbed managed y l out y' :
  undisturbed managed y -> dialogue false y l out y' -> proper managed l.*1 = true ->
  undisturbed (foldl managed_after managed l.*1) y'.
Proof.
  intros Hy. induction 1 as [|l out1 y1 out2 y2 _ IH Ha|l out1 y1 ev out2 h _ IH Hp He]; intros Hl; [done|..].
  - by eapply aside_undisturbed; [apply IH|].
  - rewrite fmap_app, proper_app in Hl. apply andb_true_iff in Hl as [Hl1 Hl2]. destruct (IH Hl1) as [H1 H2 H3].
    destruct (event_returns _ ev _ H1 Hl2) as (out & h' & E & Hb). rewrite He in E. simplify_eq.
    rewrite fmap_app, foldl_app. by split.
Qed.

Lemma boot_undisturbed path w : passphrase_ok (daemon_config (w_db w)) ->
  exists h w', start_handler (E := Empty_set) path w = (Ok h, w') /\ undisturbed false (boot h).
Proof.
  intros Hp. destruct (new_ready (E := Empty_set) false (Some path) w) as (a & w' & E & Hb); [by split|].
  unfold start_handler. rewrite E. eexists _, w'. split; [done|]. split; [done|apply map_Forall_empty|constructor].
Qed.
End safe.

(** C8. The daemon's main thread does not panic. Start the daemon, built without
    overflow checks, on a store that satisfies its constraints and let its threads
    run in any interleaving of their steps, whatever management clients connect and send. It starts,
    and from every point of the run its main loop goes on: when it looks at the queue
    of TPM commands, it serves the first one or finds none, and when the device has
    an event, it returns with what is to be written. This holds when the crates
    return, and provided that the host has sent none of the commands that are not
    implemented and has not asked for the next assertion after a credential
    management request. The former always panic, whatever the state. *)
Theorem daemon_never_panics {pf : Platform} {pl : PlatformLaws} {pr : PlatformReturns} {cr : Crypto}
    {codec : CborCodec} {es : Esapi} {er : EsapiReturns} {sc : StoreCodec} {sl : StoreCodecLaws}
    {cd : CodecReturns} {ph : PhcFits} {mc : ManagementCodec} path w :
  StoreProps.db_wf (w_db w) -> passphrase_ok (daemon_config (w_db w)) ->
  (exists h w1, start_handler (E := Empty_set) path w = (Ok h, w1) /\
     forall l out y, dialogue false (boot h) l out y -> proper false l.*1 = true ->
       match phase y with
       | Commands => exists y', step false y [] y' /\ phase y' = Events /\ queue y' = tail (queue y)
       | Events => forall event, proper false (l ++ option_list (exchange false event (handler y))).*1 = true ->
           exists out' h', handle_event false event (handler y) = (Ok out', h')
       end) /\
  forall payload c s, command_of payload = Some c -> unimplemented c = true ->
    ((handle_cbor false payload : M St Empty_set bytes) s).1 = Panic.
Proof.
  intros Hwf Hp. split; [|intros payload c s; apply handle_unimplemented].
  destruct (boot_undisturbed path w Hp) as (h & w1 & Hst & Hb). exists h, w1. split; [done|].
  intros l out y Hd Hl. pose proof (dialogue_undisturbed false (boot h) l out y Hb Hd Hl) as [Hm _ Hq].
  destruct (phase y) eqn:Hph.
  - assert (steps false (boot h) out y) as Hs by (apply steps_dialogue; eauto).
    destruct (steps_inv false (boot h) out y (boot_inv path w h w1 Hwf Hst) Hs) as [[_ _ _ _ Hw] _].
    destruct (queue y) as [|[i c] q] eqn:Hqy; [eexists; split; [by apply step_no_command|]; by rewrite Hqy|].
    destruct (proj1 (Hw i)) as [k Hk]; [left|]. apply Forall_cons in Hq as [Hc _].
    destruct (command_returns _ c (handler y) Hm Hc) as (r & h' & E & Hr & _).
    eexists. split; [by eapply step_command|done].
  - intros ev Hl'. rewrite fmap_app, proper_app in Hl'. apply andb_true_iff in Hl' as [_ Hl'].
    destruct (event_returns _ ev _ Hm Hl') as (out' & h' & E & _). eauto.
Qed.
End DaemonSafe.
