(* ===== verification/Authority.v ===== *)
(** Who may do what over the management socket, in every run of the daemon: each TPM
    command comes from a connection whose peer was entitled to it, and each list of
    credentials shows its peer what the store had for it. *)
From Stdlib Require Import ZArith Lia String.
From stdpp Require Import base list option strings gmap.
From S2P Require Import Prelude Schema Platform Cbor CtapHid Session Tpm Store Ctap2Types Ctap2.
From S2P Require Import Management ManagementProps Daemon Schedule.

#[local] Open Scope Z_scope.

Module Authority.
Import Ctap2 Management ManagementProps CtapHid Daemon Schedule.

Section authority.
Context {pf : Platform} {cr : Crypto} {codec : CborCodec} {es : Esapi} {sc : StoreCodec}.
Context {mc : ManagementCodec} (oc : bool).

(** The worlds that occur while the moves are played. *)
Definition seen (ms : list Move) (y : Sys) (w : World) : Prop :=
  exists ms1 ms2 out y1, ms = ms1 ++ ms2 /\ play oc ms1 y = Some (out, y1) /\ world (sys_st y1) = w.

(** What the peer of a connection has written, and been read, in a run. *)
Fixpoint sent (i : nat) (ms : list Move) : bytes :=
  match ms with
  | Receive j more _ :: ms => if decide (j = i) then more ++ sent i ms else sent i ms
  | _ :: ms => sent i ms
  | [] => []
  end.

Lemma sent_snoc i ms m :
  sent i (ms ++ [m]) =
    sent i ms ++ match m with Receive j more _ => if decide (j = i) then more else [] | _ => [] end.
Proof.
  induction ms as [|m' ms IH]; simpl; [destruct m; try done; case_decide; by rewrite ?app_nil_r|].
  destruct m'; try done. case_decide; [by rewrite IH, app_assoc|done].
Qed.

Section run.
Context (I : World -> Prop).

(** What was written on a connection asks for what the command does, for a peer that
    may. *)
Definition entitled (peer_uid : option Z) (input : bytes) (c : TpmCommand) : Prop :=
  exists u data rest request,
    peer_uid = Some u /\ recv_message false input = Complete data rest /\
    request_decode data = Ok request /\ authorized I u request c.

(** What a peer may get for an answer. *)
Definition answered (peer_uid : option Z) (input : bytes) (output : option bytes) : Prop :=
  forall u data rest, peer_uid = Some u -> recv_message false input = Complete data rest ->
    request_decode data = Ok ListCredentials ->
    exists response, ((exists e, response = failure e) \/ lists I u response) /\
      output = match response_encode response with Ok b => Some (send_message b) | _ => None end.

Definition lawful_prog (peer_uid : option Z) (input : bytes) : Prog (option bytes) -> Prop :=
  spec I (entitled peer_uid input) (answered peer_uid input).

Lemma entitled_more pu input more c : entitled pu input c -> entitled pu (input ++ more) c.
Proof.
  intros (u & data & rest & request & -> & Hr & H). exists u, data, (rest ++ more), request.
  split; [done|]. split; [by eapply recv_complete|done].
Qed.

Lemma client_lawful pu closed input p :
  handle_client oc true pu closed input = Some p -> lawful_prog pu input p.
Proof.
  unfold handle_client, lawful_prog. destruct pu as [u|]; [|intros [= <-]; by intros ???].
  destruct (recv_message closed input) as [| |data rest] eqn:Hrecv; [done| |].
  { intros [= <-] u' data rest [= <-] Hr. apply (recv_complete _ closed _ _ _ []) in Hr.
    rewrite app_nil_r in Hr. congruence. }
  apply recv_closed in Hrecv. intros [= <-]. unfold handle_message.
  assert (forall data' rest', recv_message false input = Complete data' rest' -> data' = data) as Hdata by (intros; congruence).
  destruct (request_decode data) as [request|e|] eqn:Hd; [|intros ? d r _ ?%Hdata ?; congruence|done].
  assert (forall c, authorized I u request c -> entitled (Some u) input c) as He by (intros c Ha; by exists u, data, rest, request).
  apply spec_bind.
  assert (request = ListCredentials \/ request <> ListCredentials) as [->|Hne] by (destruct request; auto).
  - eapply spec_mono; [|apply list_credentials_lists; intros l; by apply He].
    intros response Hr u' data' rest' [= <-] _ _. by exists response.
  - eapply spec_mono; [|eapply spec_weaken; [exact He|apply dispatch_authorized]].
    intros response _ u' data' rest' _ ?%Hdata ?. congruence.
Qed.

(** ** Runs *)

(** A connection in the state [c], whose peer has written [input]. *)
Definition client_lawful_at (peer_uid : option Z) (input : bytes) (c : Client) : Prop :=
  match c with
  | Reading pu got => pu = peer_uid /\ got = input
  | Running p => lawful_prog peer_uid input p
  | Waiting k => forall r, lawful_prog peer_uid input (k r)
  | Finished output => answered peer_uid input output
  | Dead => True
  end.

(** The state after the moves [T]. *)
Record lawful (T : list Move) (y : Sys) : Prop := {
  la_clients i c : clients y !! i = Some c -> exists pu, Connect i pu ∈ T /\ client_lawful_at pu (sent i T) c;
  la_absent i : clients y !! i = None -> sent i T = [];
  la_queue i c : (i, c) ∈ queue y -> exists pu, Connect i pu ∈ T /\ entitled pu (sent i T) c }.

(** A move that writes nothing. *)
Definition silent (m : Move) : Prop := match m with Receive _ _ _ => False | _ => True end.

Lemma sent_silent i T m : silent m -> sent i (T ++ [m]) = sent i T.
Proof. intros Hm. rewrite sent_snoc. destruct m; try done; by rewrite app_nil_r. Qed.

(** Such a move gives one connection a new state, and may queue a command for it. *)
Lemma lawful_silent T m y i c c' y' :
  silent m -> lawful T y -> clients y !! i = Some c -> clients y' = <[i := c']> (clients y) ->
  (forall pu, client_lawful_at pu (sent i T) c -> client_lawful_at pu (sent i T) c') ->
  (forall j d, (j, d) ∈ queue y' -> (j, d) ∈ queue y \/
     j = i /\ forall pu, client_lawful_at pu (sent i T) c -> entitled pu (sent i T) d) ->
  lawful (T ++ [m]) y'.
Proof.
  intros Hm [H1 H2 H3] Hi Hy Hc Hq. destruct (H1 i c Hi) as (pu & Hin & Hl). split.
  - intros j d Hj. rewrite Hy in Hj. rewrite (sent_silent j T m Hm). destruct (decide (j = i)) as [->|Hne].
    + rewrite lookup_insert_eq in Hj. simplify_eq. exists pu. split; [set_solver|by apply Hc].
    + rewrite lookup_insert_ne in Hj by done. destruct (H1 j d Hj) as (pu' & ? & ?). exists pu'. split; [set_solver|done].
  - intros j Hj. rewrite Hy in Hj. rewrite (sent_silent j T m Hm). destruct (decide (j = i)) as [->|Hne].
    + by rewrite lookup_insert_eq in Hj.
    + rewrite lookup_insert_ne in Hj by done. by apply H2.
  - intros j d [Hd|[-> Hd]]%Hq; rewrite (sent_silent _ T m Hm).
    + destruct (H3 j d Hd) as (pu' & ? & ?). exists pu'. split; [set_solver|done].
    + exists pu. split; [set_solver|by apply Hd].
Qed.

(** One that touches no connection. *)
Lemma lawful_kept T m y y' :
  silent m -> lawful T y -> clients y' = clients y -> queue y' = queue y -> lawful (T ++ [m]) y'.
Proof.
  intros Hm [H1 H2 H3] Hc Hq. split.
  - intros j d Hj. rewrite Hc in Hj. rewrite (sent_silent j T m Hm). destruct (H1 j d Hj) as (pu & ? & ?).
    exists pu. split; [set_solver|done].
  - intros j. rewrite Hc, (sent_silent j T m Hm). apply H2.
  - intros j d. rewrite Hq, (sent_silent j T m Hm). intros Hj. destruct (H3 j d Hj) as (pu & ? & ?).
    exists pu. split; [set_solver|done].
Qed.

Lemma lawful_connect T i pu y :
  clients y !! i = None -> lawful T y -> lawful (T ++ [Connect i pu]) (set_client i (Reading pu []) y).
Proof.
  intros Hi [H1 H2 H3]. split; simpl.
  - intros j d Hj. rewrite sent_silent by done. destruct (decide (j = i)) as [->|Hne].
    + rewrite lookup_insert_eq in Hj. simplify_eq. exists pu. split; [set_solver|]. simpl. by rewrite H2.
    + rewrite lookup_insert_ne in Hj by done. destruct (H1 j d Hj) as (pu' & ? & ?). exists pu'. split; [set_solver|done].
  - intros j Hj. rewrite sent_silent by done. apply H2. destruct (decide (j = i)) as [->|Hne]; [done|].
    by rewrite lookup_insert_ne in Hj.
  - intros j d Hd. rewrite sent_silent by done. destruct (H3 j d Hd) as (pu' & ? & ?). exists pu'. split; [set_solver|done].
Qed.

Lemma lawful_receive T i more closed pu input y :
  clients y !! i = Some (Reading pu input) -> lawful T y ->
  lawful (T ++ [Receive i more closed]) (set_client i (received oc pu closed (input ++ more)) y).
Proof.
  intros Hi [H1 H2 H3]. destruct (H1 i _ Hi) as (pu' & Hin & -> & ->).
  assert (forall j, j <> i -> sent j (T ++ [Receive i more closed]) = sent j T) as Hother
    by (intros j Hj; rewrite sent_snoc, decide_False, app_nil_r by done; done).
  assert (sent i (T ++ [Receive i more closed]) = sent i T ++ more) as Hsame by (by rewrite sent_snoc, decide_True).
  split; simpl.
  - intros j d Hj. destruct (decide (j = i)) as [->|Hne].
    + rewrite lookup_insert_eq in Hj. simplify_eq. exists pu'. split; [set_solver|]. rewrite Hsame. unfold received.
      destruct (handle_client oc true pu' closed (sent i T ++ more)) as [p|] eqn:E; [by eapply client_lawful|done].
    + rewrite lookup_insert_ne in Hj by done. rewrite Hother by done. destruct (H1 j d Hj) as (pu & ? & ?).
      exists pu. split; [set_solver|done].
  - intros j Hj. destruct (decide (j = i)) as [->|Hne]; [by rewrite lookup_insert_eq in Hj|].
    rewrite lookup_insert_ne in Hj by done. rewrite Hother by done. by apply H2.
  - intros j d Hd. destruct (H3 j d Hd) as (pu & ? & He). exists pu. split; [set_solver|].
    destruct (decide (j = i)) as [->|Hne]; [rewrite Hsame; by apply entitled_more|by rewrite Hother].
Qed.

Lemma lawful_advance T i p y :
  clients y !! i = Some (Running p) -> I (world (sys_st y)) -> lawful T y ->
  lawful (T ++ [Advance i]) (advance i p y).
Proof.
  intros Hi HI Hy. destruct p as [o| |X m k|c k]; simpl.
  - eapply lawful_silent; [done|exact Hy|exact Hi|done|done|by left].
  - eapply lawful_silent; [done|exact Hy|exact Hi|done|done|by left].
  - destruct (m (world (sys_st y))) as [r w] eqn:Em.
    eapply lawful_silent; [done|exact Hy|exact Hi|done| |by left]. intros pu Hp. specialize (Hp _ HI).
    rewrite Em in Hp. simpl in Hp. destruct r; [by apply Hp..|done].
  - eapply lawful_silent; [done|exact Hy|exact Hi|done|by intros pu [_ Hp]|].
    intros j d [?|[= -> ->]%list_elem_of_singleton]%elem_of_app; [by left|]. right. split; [done|]. by intros pu [Hp _].
Qed.

Lemma lawful_look T y y' : lawful T y -> look oc y = Some y' -> lawful (T ++ [Look]) y'.
Proof.
  intros Hy Hl. unfold look in Hl. destruct (queue y) as [|[i c] q] eqn:Hq; [simplify_eq; by eapply lawful_kept|].
  destruct (clients y !! i) as [[pu inp|p|k|o|]|] eqn:Hi; try done.
  assert (forall j d, (j, d) ∈ q -> (j, d) ∈ queue y) as Hsub by (rewrite Hq; set_solver).
  destruct (on_authenticator _ (handler y)) as [[r|e|] h]; simplify_eq;
    (eapply lawful_silent; [done|exact Hy|exact Hi|done|by intros pu Hp; apply Hp|by left; apply Hsub]).
Qed.

Lemma lawful_move T m y out y' :
  I (world (sys_st y)) -> lawful T y -> move oc m y = Some (out, y') -> lawful (T ++ [m]) y'.
Proof.
  intros HI Hy Hm. destruct m as [i pu|i more closed|i| |event]; simpl in Hm.
  - destruct (clients y !! i) eqn:Hi; simplify_eq. by apply lawful_connect.
  - destruct (clients y !! i) as [[pu inp|p| | |]|] eqn:Hi; simplify_eq. by apply lawful_receive.
  - destruct (clients y !! i) as [[pu inp|p| | |]|] eqn:Hi; simplify_eq. by apply lawful_advance.
  - destruct (phase y); [|done]. destruct (look oc y) as [y1|] eqn:Hl; simplify_eq/=. by eapply lawful_look.
  - destruct (phase y); [done|]. destruct (handle_event oc event (handler y)) as [[o|[]|] h]; simplify_eq.
    by eapply lawful_kept.
Qed.

Lemma lawful_play ms : forall T y out y',
  (forall w, seen ms y w -> I w) -> lawful T y -> play oc ms y = Some (out, y') -> lawful (T ++ ms) y'.
Proof.
  induction ms as [|m ms IH]; intros T y out y' HI Hy Hp; simpl in Hp; [simplify_eq; by rewrite app_nil_r|].
  destruct (move oc m y) as [[out1 y1]|] eqn:Hm; [|done]. simpl in Hp.
  destruct (play oc ms y1) as [[out2 y2]|] eqn:Hp2; simplify_eq/=.
  replace (T ++ m :: ms) with ((T ++ [m]) ++ ms) by (by rewrite <- app_assoc). eapply IH; [| |exact Hp2].
  - intros w (ms1 & ms2 & o & ya & -> & Hpa & Hw). apply HI. exists (m :: ms1), ms2. simpl. rewrite Hm. simpl.
    rewrite Hpa. eexists _, ya. done.
  - eapply lawful_move; [|exact Hy|exact Hm]. apply HI. by exists [], (m :: ms), [], y.
Qed.
End run.

Lemma boot_lawful ms h out y : play oc ms (boot h) = Some (out, y) -> lawful (seen ms (boot h)) ms y.
Proof.
  intros Hp. apply (lawful_play _ ms [] (boot h) out); [done| |exact Hp].
  split; simpl; [intros i c; by rewrite lookup_empty|done|by intros i c ?%not_elem_of_nil].
Qed.
End authority.

(** C20. Every TPM command comes from somebody who may ask for it. Run the daemon, its
    threads in any interleaving of their steps. Every command in the queue of the main thread was
    sent by a connection whose request authorizes it: PCRs are read only to list
    credentials; a policy is renewed only for a credential that, at some moment of
    this run, the store had for the peer, which for anybody but root is one of his,
    with the recovery passphrase of that credential, under its own authority key, name
    and policy reference; a recovery key gets a new authorization only if the request
    gave the passphrase that the daemon had at some moment of this run, or none was
    set, and the new one is the hash of the new passphrase under a salt that was drawn
    at random. *)
Theorem daemon_commands_authorized {pf : Platform} {cr : Crypto} {codec : CborCodec} {es : Esapi}
    {sc : StoreCodec} {mc : ManagementCodec} oc ms h out y i c :
  play oc ms (boot h) = Some (out, y) -> (i, c) ∈ queue y ->
  exists peer_uid data rest request,
    Connect i (Some peer_uid) ∈ ms /\ recv_message false (sent i ms) = Complete data rest /\
    request_decode data = Ok request /\ authorized (seen oc ms (boot h)) peer_uid request c.
Proof.
  intros [_ _ Hq]%boot_lawful Hin. destruct (Hq i c Hin) as (pu & Hc & u & data & rest & request & -> & H).
  by exists u, data, rest, request.
Qed.

(** C36. A list shows its peer what is his. Run the daemon, its threads in any
    interleaving of their steps. A connection that has asked for the credentials and has ended was
    sent the error of the store, or exactly the credentials that at some moment of
    this run the store had for the peer: all of them for root, and for anybody else
    his own and no others, each once and in the order of the store; or nothing, if
    the response cannot be encoded. *)
Theorem lists_show_own_credentials {pf : Platform} {cr : Crypto} {codec : CborCodec} {es : Esapi}
    {sc : StoreCodec} {mc : ManagementCodec} oc ms h out y i output :
  play oc ms (boot h) = Some (out, y) -> clients y !! i = Some (Finished output) ->
  exists peer_uid, Connect i peer_uid ∈ ms /\ forall u data rest,
    peer_uid = Some u -> recv_message false (sent i ms) = Complete data rest ->
    request_decode data = Ok ListCredentials ->
    exists response, ((exists e, response = failure e) \/ lists (seen oc ms (boot h)) u response) /\
      output = match response_encode response with Ok b => Some (send_message b) | _ => None end.
Proof. intros [Hc _ _]%boot_lawful Hi. exact (Hc i _ Hi). Qed.
End Authority.
