(* ===== verification/Lives.v ===== *)
(** Whole lives of the daemon: it is started on the store the life before left, its
    threads run in any interleaving, and it is killed between two steps or ends in
    a panic. What a life cannot lose is the client PIN with its retries, and what
    it cannot take back are the signature counters it answered with. *)
From Stdlib Require Import ZArith Lia String.
From stdpp Require Import base list option strings gmap.
From S2P Require Import Prelude Schema Platform Cbor CtapHid Session Tpm Store StoreProps StoreCounts.
From S2P Require Import Ctap2Types Ctap2 Ctap2Facts WorldFacts WorldSafe Settings Ctap2Pin Ctap2Restart.
From S2P Require Import Ctap2Assert Ctap2Counter Ctap2Mirror Management ManagementProps Daemon.
From S2P Require Import DaemonProps Dialogue.

#[local] Open Scope Z_scope.

Module Lives.
Import Management Ctap2 Ctap2Facts WorldFacts Ctap2Pin Ctap2Restart Ctap2Assert StoreCounts Ctap2Counter.
Import CtapHid Daemon DaemonProps Dialogue Ctap2Mirror.

Section lives.
Context {pf : Platform} {cr : Crypto} {codec : CborCodec} {es : Esapi} {sc : StoreCodec}.
Context {mc : ManagementCodec} (oc : bool).

(** The requests of all the lives and their outcomes, and the world at the end. *)
Inductive lives (path : string) (w : World) : list Exchange -> World -> Prop :=
| lives_none : lives path w [] w
| lives_more l w1 h w2 l1 out y l2 s :
    lives path w l w1 -> start_handler (E := Empty_set) path w1 = (Ok h, w2) ->
    dialogue oc (boot h) l1 out y -> ends oc y l2 s -> lives path w (l ++ (l1 ++ l2)) (world s).

(** ** The client PIN *)

Section pin.
Context {hp : Healthy} {cl : CryptoLaws}.

Lemma quiet_in_step s s' : quiet oc pin_row_kept s s' -> in_step s s'.
Proof.
  intros [w Hw| |c]; [|by intros [Hk Ho]; split|by apply in_step_handle_tpm_command].
  intros [Hk Ho]. split; [by apply Hw|by eapply holds_pin_kept].
Qed.

Lemma course_in_step s l s' : course oc pin_row_kept s l s' -> in_step s s'.
Proof.
  induction 1 as [|l s1 s2 _ IH Hq|l s1 payload _ IH]; [done|..]; intros Hs; specialize (IH Hs).
  - by apply (quiet_in_step s1).
  - by apply (in_step_handle_cbor (E := Empty_set) oc payload s1).
Qed.

Lemma life_in_step h l out y l' s :
  pin_in_step (authenticator h) -> dialogue oc (boot h) l out y -> ends oc y l' s -> pin_in_step s.
Proof.
  intros Hh Hd He. eapply course_in_step; [|exact Hh]. eapply (life_course oc pin_row_kept); [|exact Hd|exact He].
  intros op Hop. apply kept_run_op. by destruct op.
Qed.

Lemma start_in_step path o w : key_ok (w_db w) -> holds_pin o (w_db w) ->
  exists h w', start_handler (E := Empty_set) path w = (Ok h, w') /\
    client_pin (auth (authenticator h)) = o /\ pin_in_step (authenticator h).
Proof.
  intros Hk Ho. destruct (new_in_step (E := Empty_set) (Some path) o w Hk Ho) as (a & w' & E & Ha & Hs).
  unfold start_handler. rewrite E. eauto.
Qed.

Lemma lives_in_step path w l w' : lives path w l w' -> forall o, key_ok (w_db w) -> holds_pin o (w_db w) ->
  exists o', key_ok (w_db w') /\ holds_pin o' (w_db w').
Proof.
  induction 1 as [|l w1 h w2 l1 out y l2 s _ IH Hst Hd He]; intros o Hk Ho; [by exists o|].
  destruct (IH o Hk Ho) as (o' & Hk' & Ho').
  destruct (start_in_step path o' w1 Hk' Ho') as (h' & w3 & Hst' & _ & Hs). rewrite Hst in Hst'. simplify_eq.
  exists (client_pin (auth s)). eapply life_in_step; eassumption.
Qed.
End pin.

(** ** Signature counters *)

(** Of two assertions with one credential the later has the larger counter, until
    it cannot grow. *)
Definition increasing (log : list (option (bytes * Z))) : Prop :=
  ForallOrdPairs (fun e e' => forall id k k', e = Some (id, k) -> e' = Some (id, k') -> k < k' \/ k' = u32_max) log.

Lemma increasing_snoc log e :
  increasing log -> (forall i k, e = Some (i, k) -> after (omap id log) i k) -> increasing (log ++ [e]).
Proof.
  induction 1 as [|e1 log He1 Hlog IH]; intros He; simpl; [by repeat constructor|]. constructor.
  - apply Forall_app. split; [done|]. constructor; [|constructor]. intros i k k' -> ->.
    apply (He i k' eq_refl). simpl. left.
  - apply IH. intros i k Hk k' Hin. apply (He i k Hk). destruct e1; simpl; [by right|done].
Qed.

(** The assertions that were answered are known, and their counters increase. *)
Definition chronicle (l : list Exchange) (s : St) : Prop :=
  exists log, Forall2 (fun '(payload, r) e => answered payload r e) l log /\
    tracked (omap id log) none s /\ (distinct_draws (w_tick (world s)) -> increasing log).

Lemma chronicle_settles l s s' : settles s s' -> chronicle l s -> chronicle l s'.
Proof.
  intros Hs (log & Ha & Ht & Hi). exists log. split_and!; [done|by eapply tracked_settles|].
  intros Hd. apply Hi. eapply distinct_draws_le; [apply (se_tick _ _ Hs)|done].
Qed.

Lemma tick_handle_cbor payload s :
  (w_tick (world s) <= w_tick (world ((handle_cbor oc payload : M St Empty_set bytes) s).2))%nat.
Proof.
  apply (daemon_handle_cbor (within anything) oc anything_op (E := Empty_set) payload s).
Qed.

Lemma chronicle_request l s payload :
  chronicle l s ->
  chronicle (l ++ [(payload, (handle_cbor oc payload s).1)]) ((handle_cbor oc payload : M St Empty_set bytes) s).2.
Proof.
  intros (log & Ha & Ht & Hi). destruct (handle_cbor_logs oc payload _ s Ht) as (e & Hae & He & Ht').
  exists (log ++ [e]). split_and!.
  - apply Forall2_app; [done|]. by constructor.
  - rewrite omap_app. by destruct e.
  - intros Hd. apply increasing_snoc; [|by intros i k ->; apply He].
    apply Hi. eapply distinct_draws_le; [apply tick_handle_cbor|exact Hd].
Qed.

Lemma quiet_settles s s' : quiet oc (within nothing) s s' -> settles s s'.
Proof.
  intros [w Hw| |c]; [by apply settles_world| |apply steady_tpm_command].
  by apply (settles_credentials (E := Empty_set) cancel_pending).
Qed.

Lemma course_chronicle s l s' l0 :
  course oc (within nothing) s l s' -> chronicle l0 s -> chronicle (l0 ++ l) s'.
Proof.
  intros Hc H0. induction Hc as [|l s1 s2 _ IH Hq|l s1 payload _ IH]; [by rewrite app_nil_r|..].
  - by eapply chronicle_settles; [apply quiet_settles|].
  - rewrite app_assoc. by apply chronicle_request.
Qed.

Lemma start_settles path s0 : exists h w,
  start_handler (E := Empty_set) path (world s0) = (Ok h, w) /\ settles s0 (authenticator h).
Proof.
  destruct (new_settles (Some path) s0) as (a & w & E & Hs). unfold start_handler. rewrite E. eauto.
Qed.

Lemma lives_chronicle path s0 l w' :
  lives path (world s0) l w' -> chronicle [] s0 -> exists s, world s = w' /\ chronicle l s.
Proof.
  intros Hl H0. induction Hl as [|l w1 h w2 l1 out y l2 s _ (s1 & <- & IH) Hst Hd He]; [by exists s0|].
  exists s. split; [done|]. destruct (start_settles path s1) as (h' & w3 & Hst' & Hs). rewrite Hst in Hst'. simplify_eq.
  eapply course_chronicle; [|by eapply chronicle_settles].
  eapply (life_course oc (within nothing)); [|exact Hd|exact He].
  intros op Hop. apply steady_run. by destruct op.
Qed.

(** ** Credentials *)

Section credentials.
Context {hp : Healthy} {er : EsapiReturns} {sl : StoreCodecLaws}.
Context (key : bytes) (Hlen : length key = 32%nat) (u : Z).

Lemma course_mirror s l s' : course oc (others key) s l s' -> mirror key u s -> mirror key u s'.
Proof.
  intros Hc Hs. induction Hc as [|l s1 s2 _ IH [w Hw| |c]|l s1 payload _ IH]; [done|..].
  - by apply mirror_others.
  - by apply (mirror_update key u (E := Empty_set) cancel_pending).
  - by apply mirror_tpm_command.
  - by apply mirror_handle_cbor.
Qed.

Lemma life_mirror {pl : PlatformLaws} {ph : PhcFits} h l out y l' s :
  mirror key u (authenticator h) -> dialogue oc (boot h) l out y -> ends oc y l' s -> mirror key u s.
Proof.
  intros Hh Hd He. eapply course_mirror; [|exact Hh]. eapply (life_course oc (others key)); [|exact Hd|exact He].
  intros op Hop. by apply others_management.
Qed.

Lemma start_mirrors path w cs h w1 : stocked key u w cs -> start_handler (E := Empty_set) path w = (Ok h, w1) ->
  0 <= u < 2 ^ 32 -> Session.uid (session (auth (authenticator h))) = Some u ->
  credentials (auth (authenticator h)) = reread key u cs /\ mirror key u (authenticator h).
Proof.
  unfold start_handler. intros Hst Hn Hu Huid.
  destruct (Ctap2.new (Some path) w) as [[a|e|] w'] eqn:E; simplify_eq/=. by eapply start_mirror.
Qed.
End credentials.
End lives.

(** C4. While the store works, what was registered stays registered. Assume that no
    call of the database and no access to the key file fails and random bytes are
    always available ([Healthy]), that the TPM's library returns instead of panicking
    ([EsapiReturns]), that the codecs of the store read back what they wrote
    ([StoreCodecLaws]), that Argon2 returns and its hashes fit their format ([PhcFits]), that random
    bytes come in the length asked for ([PlatformLaws]), and that the random generator
    never gave the same 32 bytes twice. Let the daemon start on a store with the
    credentials of one user and run, its threads serving the host and any management
    clients in any interleaving of their steps, until it panics or is killed between
    two steps, which are whole requests and whole TPM commands on the main thread. The
    next start succeeds, and if it is for the same user, the daemon has exactly the
    credentials it had in memory when it ended, each with its id, relying party, user,
    key and counter; and the store is again one to start from. (Policies and recovery
    slots come back as the store has them. A save that fails is only logged, and its
    credential is lost at the restart.) *)
Theorem credentials_survive_restarts {pf : Platform} {pl : PlatformLaws} {hp : Healthy} {cr : Crypto}
    {codec : CborCodec} {es : Esapi} {er : EsapiReturns} {sc : StoreCodec} {sl : StoreCodecLaws} {ph : PhcFits}
    {mc : ManagementCodec} oc key u path w cs h w1 out y l s :
  length key = 32%nat -> 0 <= u < 2 ^ 32 -> stocked key u w cs ->
  start_handler (E := Empty_set) path w = (Ok h, w1) -> Session.uid (session (auth (authenticator h))) = Some u ->
  steps oc (boot h) out y -> ends oc y l s -> distinct_draws (w_tick (world s)) ->
  exists h' w2, start_handler (E := Empty_set) path (world s) = (Ok h', w2) /\
    (Session.uid (session (auth (authenticator h'))) = Some u ->
       (fun c => core (stored_of_credential c)) <$> credentials (auth (authenticator h')) ≡ₚ memory_core s /\
       exists cs', stocked key u (world s) cs' /\ credentials (auth (authenticator h')) = reread key u cs').
Proof.
  intros Hlen Hu Hst Hn Huid [l1 Hd]%steps_dialogue He Hdr.
  destruct (start_mirrors key Hlen u path w cs h w1 Hst Hn Hu Huid) as [_ Hm].
  pose proof (life_mirror oc key Hlen u h l1 out y l s Hm Hd He) as Hm'.
  destruct (mirror_stocked key u s Hm' Hdr) as (cs' & Hst' & Hp).
  destruct (start_settles path s) as (h' & w2 & Hn' & _). exists h', w2. split; [done|]. intros Huid'.
  destruct (start_mirrors key Hlen u path (world s) cs' h' w2 Hst' Hn' Hu Huid') as [Hr _].
  split; [|eauto]. rewrite Hr, reread_core; [done|apply Hst'].
Qed.

(** C3. While the store works, a restart neither forgets the PIN nor gives back
    guesses. Assume that no call of the database and no access to the key file fails,
    that random bytes are always available ([Healthy]) and that hashes have their
    lengths ([CryptoLaws]). Start the daemon on an empty store and let it live any
    number of lives, in each of which its threads serve the host and management
    clients in any interleaving of their steps until it panics or is killed between
    two steps, which are whole requests and whole TPM commands on the main thread.
    Start it once more and let it run and end: the next start succeeds, and the PIN
    state it comes back with (salt, verifier and the retries that are left) is the one
    the daemon had in memory when it ended. (When the store fails after a wrong PIN,
    the guess is counted in memory only, and the restart gives it back.) *)
Theorem pin_survives_restarts {pf : Platform} {hp : Healthy} {cr : Crypto} {cl : CryptoLaws}
    {codec : CborCodec} {es : Esapi} {sc : StoreCodec} {mc : ManagementCodec} oc path w l w1 h w2 out y l' s :
  w_db w = empty_db -> lives oc path w l w1 -> start_handler (E := Empty_set) path w1 = (Ok h, w2) ->
  steps oc (boot h) out y -> ends oc y l' s ->
  exists h' w3, start_handler (E := Empty_set) path (world s) = (Ok h', w3) /\
    client_pin (auth (authenticator h')) = client_pin (auth s).
Proof.
  intros Hw Hl Hst [l1 Hd]%steps_dialogue He. destruct (lives_in_step oc path w l w1 Hl None) as (o & Hk & Ho).
  { by rewrite Hw. }
  { by rewrite Hw. }
  destruct (start_in_step path o w1 Hk Ho) as (h1 & w3 & Hst1 & _ & Hs1). rewrite Hst in Hst1. simplify_eq.
  destruct (life_in_step oc _ l1 out y l' s Hs1 Hd He) as [Hk2 Ho2].
  destruct (start_in_step path _ _ Hk2 Ho2) as (h' & w4 & Hst2 & Hp & _). eauto.
Qed.

(** C2. Signature counters increase. Start the daemon on an empty store and let it
    live any number of lives, in each of which its threads serve the host and
    management clients in any interleaving of their steps until it is killed between
    two steps or panics, whatever
    the platform, the TPM and the store answer. It starts every time; each request
    for an assertion is refused, or answered with one credential's id and, in the
    signed data, a counter from 0 to 2^32 - 1; and of two answers with the same
    credential, in the same life or across restarts, the later has the larger counter
    or the largest possible one, unless the kernel's random generator gave the same
    32 bytes twice during the run. *)
Theorem signature_counters_increase {pf : Platform} {cr : Crypto} {codec : CborCodec}
    {es : Esapi} {sc : StoreCodec} {mc : ManagementCodec} oc path w l w' :
  w_db w = empty_db -> lives oc path w l w' ->
  (exists h w1, start_handler (E := Empty_set) path w' = (Ok h, w1)) /\
  exists log, Forall2 (fun '(payload, outcome) e => answered payload outcome e) l log /\
    (distinct_draws (w_tick w') -> increasing log).
Proof.
  intros Hw Hl. set (a := {| tpm_path := None; tpm := None; session := Session.env_fallback; credentials := [];
    pending_assertion := None; client_pin := None; key_agreement := None; pin_uv_auth_token := None;
    management := None |}).
  destruct (lives_chronicle oc path {| auth := a; world := w |} l w' Hl) as (s & <- & log & Ha & _ & Hi).
  - exists []. split_and!; [constructor| |constructor]. split.
    { split; [simpl; rewrite Hw; apply StoreProps.db_wf_empty|]. unfold live. simpl. rewrite Hw. by intros p ?%not_elem_of_nil. }
    intros _. split; simpl; rewrite ?Hw.
    + apply StoreProps.db_wf_empty.
    + constructor.
    + unfold live. simpl. rewrite Hw. by intros p ?%not_elem_of_nil.
    + by intros ? [].
    + by intros ? _ [].
    + by intros ? ? ?%not_elem_of_nil.
  - split; [|eauto]. destruct (start_settles path s) as (h & w1 & Hst & _). eauto.
Qed.
End Lives.
