(* ===== verification/DaemonLive.v ===== *)
(** The daemon does not leave its clients waiting: the queue of TPM commands is
    served in order, one command in each round of the main loop, and a connection
    takes finitely many steps. *)
From Stdlib Require Import ZArith Lia String.
From stdpp Require Import base list option strings gmap.
From S2P Require Import Prelude Schema Platform Cbor Hid CtapHid Session Tpm Store StoreProps Ctap2Types.
From S2P Require Import WorldSafe Settings Ctap2 Management ManagementProps Daemon Schedule DaemonProps.
From S2P Require Import Ctap2Safe Dialogue DaemonSafe.

#[local] Open Scope Z_scope.

Module DaemonLive.
Import Ctap2 Management ManagementProps CtapHid Daemon Schedule DaemonProps Dialogue DaemonSafe.

Section live.
Context {pf : Platform} {cr : Crypto} {codec : CborCodec} {es : Esapi} {sc : StoreCodec}.
Context {mc : ManagementCodec} (oc : bool).

(** ** Rounds of the main loop *)

(** Whether the main thread has looked at the queue in a step. *)
Definition looked (y y' : Sys) : nat :=
  match phase y, phase y' with Commands, Events => 1 | _, _ => 0 end.

(** A run in which the main thread looks at the queue [n] times. *)
Inductive rounds : nat -> Sys -> Sys -> Prop :=
| rounds_refl y : rounds 0 y y
| rounds_step n y1 out y2 y3 :
    step oc y1 out y2 -> rounds n y2 y3 -> rounds (looked y1 y2 + n) y1 y3.

(** Somewhere in the run from [y] to [y'], the main thread takes the command of the
    client, runs it, and the client goes on with the reply. *)
Definition answered (i : nat) (c : TpmCommand) (k : TpmReply -> Prog (option bytes)) (y y' : Sys) : Prop :=
  exists n1 n2 y1 y2 r h, rounds n1 y y1 /\ clients y1 !! i = Some (Waiting k) /\
    on_authenticator (Ctap2.handle_tpm_command oc c) (handler y1) = (r, h) /\
    step oc y1 [] y2 /\ handler y2 = h /\ clients y2 !! i = Some (Running (k (Replied r))) /\
    rounds n2 y2 y'.

Lemma answered_later i c k y1 out y2 y3 :
  step oc y1 out y2 -> answered i c k y2 y3 -> answered i c k y1 y3.
Proof.
  intros Hs (n1 & n2 & ya & yb & r & h & Hr & H). exists (looked y1 y2 + n1)%nat, n2, ya, yb, r, h.
  split; [by eapply rounds_step|done].
Qed.

(** One step: the command at the head of the queue is answered, or the commands
    before it have become fewer by the look at the queue. *)
Lemma step_queue y out y' q1 i c q2 k :
  step oc y out y' -> NoDup (queue y).*1 -> queue y = q1 ++ (i, c) :: q2 ->
  clients y !! i = Some (Waiting k) ->
  (exists r h, on_authenticator (Ctap2.handle_tpm_command oc c) (handler y) = (r, h) /\ out = [] /\
     handler y' = h /\ clients y' !! i = Some (Running (k (Replied r)))) \/
  (exists q1' q2', queue y' = q1' ++ (i, c) :: q2' /\ clients y' !! i = Some (Waiting k) /\
     (length q1' + looked y y')%nat = length q1).
Proof.
  intros Hs Hnd Hq Hi.
  assert (forall y1, phase y1 = phase y -> looked y y1 = 0%nat) as Hph.
  { intros y1 H1. unfold looked. rewrite H1. by destruct (phase y). }
  destruct Hs as [y j pu Hj|y j pu inp more closed Hj|y j X m k' r w Hj Hm Hr|y j X m k' w Hj Hm|y j Hj|y j c' k' Hj
    |y j o Hj|y Hp Hq'|y j c' q k' r h Hp Hq' Hj Hc Hr|y ev out h Hp He].
  1-5,7: right; exists q1, q2; simpl; rewrite lookup_insert_ne by congruence;
    split_and!; [done|done|rewrite Hph by done; lia].
  - right. exists q1, (q2 ++ [(j, c')]). simpl. rewrite lookup_insert_ne by congruence.
    split_and!; [by rewrite Hq, <- app_assoc|done|rewrite Hph by done; lia].
  - rewrite Hq in Hq'. by destruct q1.
  - rewrite Hq in Hq'. destruct q1 as [|x q1]; simplify_eq/=.
    + left. exists r, h. split_and!; [done..|]. by rewrite lookup_insert_eq.
    + right. exists q1, q2. assert (j <> i) as Hne.
      { intros ->. rewrite Hq, fmap_cons in Hnd. apply NoDup_cons in Hnd as [Hn _]. apply Hn.
        rewrite fmap_app. set_solver. }
      rewrite lookup_insert_ne by done. split_and!; [done|done|]. unfold looked. rewrite Hp. simpl. lia.
  - right. exists q1, q2. split_and!; [done|done|]. unfold looked. rewrite Hp. lia.
Qed.

Lemma answered_in_order n y y' q1 i c q2 k :
  rounds n y y' -> sys_inv y -> queue y = q1 ++ (i, c) :: q2 -> clients y !! i = Some (Waiting k) ->
  (length q1 < n)%nat -> answered i c k y y'.
Proof.
  intros Hr. revert q1 q2. induction Hr as [y|n y1 out y2 y3 Hs Hr IH]; intros q1 q2 Hy Hq Hi Hn; [lia|].
  destruct (step_queue y1 out y2 q1 i c q2 k Hs (inv_queue _ Hy) Hq Hi)
    as [(r & h & Hc & -> & Hh & Hk)|(q1' & q2' & Hq' & Hi' & Hl)].
  - exists 0%nat, n, y1, y2, r, h. split_and!; try done. constructor.
  - eapply answered_later; [exact Hs|]. apply (IH q1' q2'); [by eapply step_inv|done|done|lia].
Qed.

(** The main thread is not stuck in a round: it takes the next command, or finds
    the queue empty, and answers whatever event the device has; only a panic of the
    authenticator stops it. *)
Lemma commands_progress y :
  sys_inv y -> phase y = Commands ->
  (exists y', step oc y [] y' /\ phase y' = Events) \/
  exists i c q, queue y = (i, c) :: q /\ (Ctap2.handle_tpm_command oc c (sys_st y)).1 = Panic.
Proof.
  intros Hy Hp. destruct (queue y) as [|[i c] q] eqn:Hq.
  { left. eexists. split; [by apply step_no_command|done]. }
  destruct (proj1 (inv_waiting _ Hy i)) as [k Hi]; [rewrite Hq; left|].
  destruct (on_authenticator (Ctap2.handle_tpm_command oc c) (handler y)) as [r h] eqn:Hc.
  assert (r = (Ctap2.handle_tpm_command oc c (sys_st y)).1) as Hr.
  { unfold on_authenticator, sys_st in *. by destruct (Ctap2.handle_tpm_command oc c _); simplify_eq. }
  destruct r as [r|e|]; [left..|right; eauto 10].
  all: eexists; (split; [eapply step_command; [done|exact Hq|exact Hi|exact Hc|done]|done]).
Qed.

Lemma events_progress y event :
  phase y = Events -> (handle_event oc event (handler y)).1 <> Panic ->
  exists out y', step oc y out y' /\ phase y' = Commands.
Proof.
  intros Hp Hn. destruct (handle_event oc event (handler y)) as [[out|[]|] h] eqn:He; [|done].
  eexists out, _. split; [by eapply step_event|done].
Qed.

(** ** Steps of one connection *)

(** What becomes of a connection in one step of its own or of the main thread. *)
Definition client_step (c c' : Client) : Prop :=
  match c with
  | Reading pu input => (exists p, c' = Running p) \/
      exists more, more <> [] /\ recv_message false (input ++ more) = Blocks /\ c' = Reading pu (input ++ more)
  | Running (Call X m k) => (exists r, c' = Running (k r)) \/ c' = Dead
  | Running Die => c' = Dead
  | Running (Management.Tpm _ k) => c' = Waiting k
  | Running (Ret output) => c' = Finished output
  | Waiting k => exists r, c' = Running (k (Replied r))
  | Finished _ | Dead => False
  end.

Lemma received_step pu input closed more c' :
  c' = received oc pu closed (input ++ more) -> c' = Reading pu input \/ client_step (Reading pu input) c'.
Proof.
  intros ->. unfold received, handle_client. destruct pu as [u|]; [|right; left; eauto].
  destruct (recv_message closed (input ++ more)) as [| |data rest] eqn:E; [|right; left; eauto..].
  destruct more as [|b more]; [left; by rewrite app_nil_r|right; right]. exists (b :: more). split_and!; [done| |done].
  destruct closed; [|done]. unfold recv_message, read_exact in E. repeat case_match; done.
Qed.

Lemma step_client y out y' i c c' :
  step oc y out y' -> clients y !! i = Some c -> clients y' !! i = Some c' -> c' = c \/ client_step c c'.
Proof.
  intros Hs Hi Hi'.
  assert (forall j d, clients y !! j = Some d -> forall d', clients y' = <[j := d']> (clients y) ->
    client_step d d' -> c' = c \/ client_step c c') as Hone.
  { intros j d Hj d' Hy Hd. rewrite Hy in Hi'. destruct (decide (i = j)) as [->|Hne].
    - rewrite lookup_insert_eq in Hi'. simplify_eq. by right.
    - rewrite lookup_insert_ne in Hi' by done. left. congruence. }
  destruct Hs as [y j pu Hj|y j pu inp more closed Hj|y j X m k r w Hj Hm Hr|y j X m k w Hj Hm|y j Hj|y j cm k Hj
    |y j o Hj|y Hp Hq|y j cm q k r h Hp Hq Hj Hc Hr|y ev out h Hp He].
  1: simpl in Hi'; rewrite lookup_insert_ne in Hi' by congruence; left; congruence.
  1: { simpl in Hi'. destruct (decide (i = j)) as [->|Hne].
    - rewrite lookup_insert_eq in Hi'. rewrite Hj in Hi. simplify_eq. by eapply received_step.
    - rewrite lookup_insert_ne in Hi' by done. left. congruence. }
  all: try (eapply Hone; [exact Hj|reflexivity|simpl; eauto]).
  all: left; simpl in *; congruence.
Qed.

Definition client_next (c' c : Client) : Prop := client_step c c'.

Lemma running_acc p : Acc client_next (Running p).
Proof.
  assert (Acc client_next Dead) as Hd by (constructor; by intros ? []).
  induction p as [a| |X m k IH|cm k IH]; constructor; intros c' Hc; unfold client_next in Hc; simpl in Hc.
  - subst. constructor. by intros ? [].
  - by subst.
  - destruct Hc as [[r ->]| ->]; [apply IH|done].
  - subst. constructor. intros c2 [r ->]. apply IH.
Qed.

(** A message has a length, so its peer cannot go on writing for ever. *)
Lemma body_acc pu n : forall input, (4 <= length input)%nat ->
  (4 + Z.to_nat (be_val (take 4 input)) < length input + n)%nat -> Acc client_next (Reading pu input).
Proof.
  induction n as [|n IH]; intros input H4 Hn; constructor; intros c' [[p ->]|(more & Hm & Hb & ->)];
    try apply running_acc; unfold recv_message, read_exact in Hb; rewrite length_app in Hb.
  all: rewrite (proj2 (Nat.ltb_ge _ 4)), take_app_le in Hb by lia.
  all: destruct (_ <? _)%nat eqn:E; [|done]; bools; rewrite length_drop, length_app in E.
  - lia.
  - assert (0 < length more)%nat by (by destruct more; simpl; [|lia]).
    apply IH; rewrite ?length_app, ?take_app_le by lia; lia.
Qed.

Lemma reading_acc pu n : forall input, (4 <= length input + n)%nat -> Acc client_next (Reading pu input).
Proof.
  induction n as [|n IH]; intros input Hn.
  - eapply (body_acc pu (S (4 + Z.to_nat (be_val (take 4 input))))); lia.
  - constructor; intros c' [[p ->]|(more & Hm & Hb & ->)]; [apply running_acc|].
    apply IH. rewrite length_app. destruct more; [done|]. simpl. lia.
Qed.

Lemma client_acc c : Acc client_next c.
Proof.
  destruct c as [pu input|p|k|o|]; [apply (reading_acc pu 4); lia|apply running_acc| |constructor; by intros ? []..].
  constructor. intros c' [r ->]. apply running_acc.
Qed.

(** A connection changes from [c] to [c'] in some step of the daemon. *)
Definition moves (c' c : Client) : Prop :=
  exists y out y' i, step oc y out y' /\ clients y !! i = Some c /\ clients y' !! i = Some c' /\ c' <> c.

Lemma moves_next c' c : moves c' c -> client_next c' c.
Proof.
  intros (y & out & y' & i & Hs & Hi & Hi' & Hne).
  destruct (step_client _ _ _ _ _ _ Hs Hi Hi') as [|]; [done|done].
Qed.

(** No connection changes for ever. *)
Lemma connection_acc c : Acc moves c.
Proof. induction (client_acc c) as [c _ IH]. constructor. intros c' Hc. by apply IH, moves_next. Qed.

(** C17. No management connection waits for the TPM in vain. In every state the
    daemon can reach, the main thread can go on: it takes a command or finds none,
    and it answers any event of the device, unless the authenticator panics. And the
    queue is served in order, one command per round: a command with [n] others
    before it has been run, and the connection has gone on with its result, when the
    main thread has looked at the queue [n + 1] times. *)
Theorem queued_commands_answered tpm_path w h w' out y :
  StoreProps.db_wf (w_db w) -> start_handler (E := Empty_set) tpm_path w = (Ok h, w') ->
  steps oc (boot h) out y ->
  (phase y = Commands ->
     (exists y', step oc y [] y' /\ phase y' = Events) \/
     exists i c q, queue y = (i, c) :: q /\ (Ctap2.handle_tpm_command oc c (sys_st y)).1 = Panic) /\
  (phase y = Events -> forall event, (handle_event oc event (handler y)).1 <> Panic ->
     exists out y', step oc y out y' /\ phase y' = Commands) /\
  (forall before i c behind, queue y = before ++ (i, c) :: behind ->
     exists k, clients y !! i = Some (Waiting k) /\
       forall n y', (length before < n)%nat -> rounds n y y' -> answered i c k y y').
Proof.
  intros Hw Hs Hr. destruct (steps_inv oc (boot h) out y) as [Hy _]; [by eapply boot_inv|done|].
  split_and!; [by apply commands_progress|intros Hp event; by apply events_progress|].
  intros before i c behind Hq. destruct (proj1 (inv_waiting _ Hy i)) as [k Hk].
  { rewrite Hq, fmap_app. set_solver. }
  exists k. split; [done|]. intros n y' Hn Hrun. by eapply answered_in_order.
Qed.
End live.

(** ** No connection is stuck *)

Section finish.
Context {pf : Platform} {pl : PlatformLaws} {pr : PlatformReturns} {cr : Crypto} {codec : CborCodec}.
Context {es : Esapi} {er : EsapiReturns} {sc : StoreCodec} {sl : StoreCodecLaws} {cd : CodecReturns} {ph : PhcFits}.
Context {mc : ManagementCodec}.

Definition ended (c : Client) : Prop := match c with Finished _ | Dead => True | _ => False end.

(** A state the daemon can be in, in which its main thread can go on. *)
Definition sound (managed : bool) (y : Sys) : Prop := sys_inv y /\ undisturbed managed y.

Lemma sound_aside managed y out y' : sound managed y -> aside false y out y' -> sound managed y'.
Proof.
  intros [Hi Hu] Ha. split; [|by eapply aside_undisturbed]. destruct Ha as [Hs _]. by eapply step_inv.
Qed.

(** Nothing is there to be read. *)
Lemma idle_event managed y : sound managed y -> phase y = Events ->
  exists y', step false y [] y' /\ phase y' = Commands /\ sound managed y'.
Proof.
  intros [Hi [H1 H2 H3]] Hp. eexists. split; [by apply (step_event false y WouldBlock [] (handler y))|].
  split; [done|]. split; [by destruct Hi|by split].
Qed.

Lemma next_command managed y : sound managed y -> phase y = Commands ->
  exists y', step false y [] y' /\ phase y' = Events /\ sound managed y'.
Proof.
  intros Hy Hp. assert (exists y', step false y [] y' /\ phase y' = Events) as (y' & Hs & Hp').
  { destruct (commands_progress false y) as [H|(i & c & q & Hq & Hr)]; [apply Hy|done|exact H|].
    destruct Hy as [_ [Hm _ Hok]]. rewrite Hq in Hok. apply Forall_cons in Hok as [Hc _].
    destruct (command_returns managed c (handler y) Hm Hc) as (r & h & E & Hn & _).
    unfold on_authenticator, sys_st in *. destruct (Ctap2.handle_tpm_command false c _) as [r' a]. simplify_eq. }
  exists y'. split_and!; [done..|]. eapply sound_aside; [exact Hy|split; [exact Hs|by rewrite Hp]].
Qed.

Definition turn (y : Sys) : nat := match phase y with Commands => 0 | Events => 1 end.

Lemma main_goes_on managed y : sound managed y ->
  exists y', step false y [] y' /\ sound managed y' /\ (turn y + turn y' = 1)%nat /\ looked y y' = turn y'.
Proof.
  intros Hy. unfold turn, looked. destruct (phase y) eqn:Hp.
  - destruct (next_command managed y Hy Hp) as (y' & Hs & Hp' & Hy'). exists y'. by rewrite Hp'.
  - destruct (idle_event managed y Hy Hp) as (y' & Hs & Hp' & Hy'). exists y'. by rewrite Hp'.
Qed.

Lemma steps_cons y y1 out y' : step false y [] y1 -> steps false y1 out y' -> steps false y out y'.
Proof.
  intros Hs Hr. apply (steps_app false y [] y1 out y'); [|done].
  apply (steps_snoc false y [] y [] y1); [constructor|done].
Qed.

(** The main thread, left alone, comes to the command of a connection. *)
Lemma command_comes managed i k n : forall y q1 c q2, sound managed y -> (2 * length q1 + turn y < n)%nat ->
  queue y = q1 ++ (i, c) :: q2 -> clients y !! i = Some (Waiting k) ->
  exists y' r, steps false y [] y' /\ clients y' !! i = Some (Running (k (Replied r))) /\ sound managed y'.
Proof.
  induction n as [|n IH]; intros y q1 c q2 Hy Hn Hq Hi; [lia|].
  destruct (main_goes_on managed y Hy) as (y1 & Hs & Hy1 & Ht & Hl).
  destruct (step_queue false y [] y1 q1 i c q2 k Hs (inv_queue _ (proj1 Hy)) Hq Hi)
    as [(r & h & _ & _ & _ & Hi')|(q1' & q2' & Hq' & Hi' & Hlen)].
  - exists y1, r. split_and!; [|done..]. eapply steps_cons; [exact Hs|constructor].
  - destruct (IH y1 q1' c q2') as (y' & r & Hst & H); [done|lia|done..|].
    exists y', r. split; [by eapply steps_cons|done].
Qed.

(** A connection that runs can take its next step, by itself. *)
Lemma client_goes_on managed y i p : sound managed y -> clients y !! i = Some (Running p) ->
  exists y' c', step false y [] y' /\ sound managed y' /\ clients y' !! i = Some c' /\ client_step (Running p) c'.
Proof.
  intros Hy Hi.
  assert (forall y' c', step false y [] y' -> phase y' = phase y -> clients y' !! i = Some c' ->
    client_step (Running p) c' -> exists y' c', step false y [] y' /\ sound managed y' /\
      clients y' !! i = Some c' /\ client_step (Running p) c') as Hgo.
  { intros y' c' Hs Hp Hc Hst. exists y', c'. split_and!; [done| |done..].
    eapply sound_aside; [exact Hy|split; [exact Hs|congruence]]. }
  destruct p as [o| |X m k|c k].
  - eapply Hgo; [by eapply step_finish|done|apply lookup_insert_eq|done].
  - eapply Hgo; [by eapply step_die|done|apply lookup_insert_eq|done].
  - destruct (m (world (sys_st y))) as [r w] eqn:Em.
    destruct r as [a|e|]; (eapply Hgo; [first [eapply step_call_panic; [exact Hi|exact Em]|eapply step_call; [exact Hi|exact Em|done]]
      |done|apply lookup_insert_eq|simpl; eauto]).
  - eapply Hgo; [by eapply step_send|done|apply lookup_insert_eq|done].
Qed.

(** The peer of the connection does nothing, or writes more or closes its side. *)
Definition gets_input (i : nat) (y y1 : Sys) : Prop :=
  y1 = y \/ exists pu input more closed, clients y !! i = Some (Reading pu input) /\
    y1 = set_client i (received false pu closed (input ++ more)) y.

Lemma gets_input_sound managed i y y1 : sound managed y -> gets_input i y y1 -> sound managed y1.
Proof.
  intros Hy [->|(pu & input & more & closed & Hi & ->)]; [done|].
  eapply sound_aside; [exact Hy|]. split; [by apply step_receive|done].
Qed.

(** The thread is blocked in [read_exact]. *)
Definition reads (c : Client) : Prop := exists pu input, c = Reading pu input.

Lemma connection_ends managed i c : Acc client_next c -> forall y, sound managed y -> clients y !! i = Some c ->
  ~ reads c -> exists y' c', steps false y [] y' /\ clients y' !! i = Some c' /\ ended c'.
Proof.
  induction 1 as [c _ IH]. intros y Hy Hi Hr.
  assert (forall y1 c1, steps false y [] y1 -> sound managed y1 -> clients y1 !! i = Some c1 -> client_step c c1 ->
    ~ reads c1 -> exists y' c', steps false y [] y' /\ clients y' !! i = Some c' /\ ended c') as Hnext.
  { intros y1 c1 Hs Hy1 Hi1 Hst Hr1. destruct (IH c1 Hst y1 Hy1 Hi1 Hr1) as (y' & c' & Hs' & H).
    exists y', c'. split; [|done]. by apply (steps_app false y [] y1 [] y'). }
  destruct c as [pu input|p|k|o|]; [destruct Hr; by eexists _, _| | |exists y, (Finished o); split; [constructor|done]|exists y, Dead; split; [constructor|done]].
  - destruct (client_goes_on managed y i p Hy Hi) as (y1 & c1 & Hs & Hy1 & Hi1 & Hst).
    eapply Hnext; [eapply steps_cons; [exact Hs|constructor]|done..|]. intros (pu & input & ->).
    destruct p; simpl in Hst; naive_solver.
  - assert (i ∈ (queue y).*1) as Hq by (apply (inv_waiting _ (proj1 Hy)); eauto).
    apply list_elem_of_fmap in Hq as ([i' c] & -> & (q1 & q2 & Hq)%list_elem_of_split).
    destruct (command_comes managed i' k (S (2 * length q1 + turn y)) y q1 c q2 Hy) as (y1 & r & Hs & Hi1 & Hy1);
      [lia|done|done|]. eapply Hnext; [done..|by exists r|]. by intros (pu & input & ?).
Qed.
End finish.

(** C18. A management connection comes to its end once its peer lets it. The state
    of a connection can change only finitely often, whatever its peer writes, in
    whatever pieces, and however the threads are scheduled: it ends or waits for a
    peer that is silent, for which the daemon has no timeout. And it is never stuck
    otherwise: in every state of a run of the daemon, built without overflow checks
    and started on a store that satisfies its constraints, a connection that has its
    message, or gets the rest of it or the end of the stream now, is brought to its
    end by letting it and the main thread go on, when the crates return, the peer
    takes its answer and the host has sent no request that makes the main thread
    panic. *)
Theorem connections_terminate {pf : Platform} {pl : PlatformLaws} {pr : PlatformReturns} {cr : Crypto}
    {codec : CborCodec} {es : Esapi} {er : EsapiReturns} {sc : StoreCodec} {sl : StoreCodecLaws}
    {cd : CodecReturns} {ph : PhcFits} {mc : ManagementCodec} path w h w1 l out y i c :
  StoreProps.db_wf (w_db w) -> WorldSafe.passphrase_ok (daemon_config (w_db w)) ->
  start_handler (E := Empty_set) path w = (Ok h, w1) ->
  dialogue false (boot h) l out y -> proper false l.*1 = true -> clients y !! i = Some c ->
  Acc (moves false) c /\
  forall y1 c1, gets_input i y y1 -> clients y1 !! i = Some c1 -> ~ reads c1 ->
    exists y' c', steps false y1 [] y' /\ clients y' !! i = Some c' /\ ended c'.
Proof.
  intros Hw Hp Hs Hd Hl Hi. split; [apply connection_acc|]. intros y1 c1 Hg Hi1 Hr1.
  destruct (boot_undisturbed path w Hp) as (h' & w2 & Hs' & Hb). rewrite Hs in Hs'. simplify_eq.
  assert (sound (foldl Ctap2Safe.managed_after false l.*1) y) as Hy.
  { split; [|by eapply dialogue_undisturbed]. eapply steps_inv; [by eapply (boot_inv path w)|]. apply steps_dialogue. eauto. }
  eapply connection_ends; [apply client_acc| |exact Hi1|exact Hr1]. by eapply gets_input_sound.
Qed.

End DaemonLive.
