(* ===== verification/Cli.v ===== *)
(** The command line: [src/src/main.rs] but for the loop of the daemon. The
    subcommands of the client prompt for what they need, send one request over the
    management socket and print the answer; [daemon] starts the daemon. *)
From Stdlib Require Import ZArith Lia String Ascii.
From stdpp Require Import base list option strings gmap pretty.
From S2P Require Import Prelude Schema Platform Cbor Hid CtapHid Session Tpm Store Ctap2Types Ctap2.
From S2P Require Import Management Daemon.

#[local] Open Scope Z_scope.

(** What the command line uses beyond the daemon's platform: [rpassword], the
    working directory, and creating a UHID device. The number given to a prompt is
    the number of prompts before it. *)
Class Terminal := {
  prompt_password : nat -> string -> res string string;
  current_dir : option string;
  uhid_create : nat -> Hid.CreateParams -> string -> res string unit }.

Module Cli.
Import Ctap2 Management Daemon.

(** ** Arguments *)

Definition DEV_STORE_DIR : string := ".linux-tpm-fido2-store".
Definition CREDENTIALS_DATABASE_FILE : string := "credentials.sqlite".

Record DaemonArgs := { uhid_path : string; tpm_path : string; store_dir : string; dry_run : bool }.
Record PcrPolicyArgs := { pcr : list Z; all : bool; credential_ids : list string }.
Record DefaultPcrPolicyArgs := { pcr_indices : list Z }.

(** The defaults of the options. *)
Definition default_daemon_args : DaemonArgs :=
  {| uhid_path := "/dev/uhid"; tpm_path := "/dev/tpmrm0"; store_dir := DEV_STORE_DIR; dry_run := false |}.

Inductive Command :=
| Daemon (args : DaemonArgs)
| ListCredentials
| UpdatePassphrase
| UpdatePcrReference
| UpdatePcrPolicy (args : PcrPolicyArgs)
| SetDefaultPcrPolicy (args : DefaultPcrPolicyArgs).

(** ** Paths *)

Definition is_absolute (path : string) : bool :=
  match path with String c _ => bool_decide (c = ascii_of_nat 47) | EmptyString => false end.

(** [Path::join] *)
Definition join (base path : string) : string :=
  if is_absolute path then path
  else match last (list_ascii_of_string base) with
       | None => path
       | Some c => if bool_decide (c = ascii_of_nat 47) then (base +:+ path)%string
                   else (base +:+ "/" +:+ path)%string
       end.

Definition credentials_database_path_in_dir (dir : string) : string := join dir CREDENTIALS_DATABASE_FILE.

Section cli.
Context {mc : ManagementCodec} {tm : Terminal}.

Definition absolute_path (path : string) : string :=
  if is_absolute path then path else join (default "."%string current_dir) path.

(** ** The subcommands of the client

    Each gives the lines it prints. Nothing is printed before the last thing that
    can fail, so an error comes without output. *)

Definition prompt_password_confirm (n : nat) (prompt : string) : res string string :=
  pw ← map_err (fun e => "reading passphrase: " +:+ e)%string (prompt_password n prompt);
  _ ← guard (negb (bool_decide (pw = ""%string))) "passphrase must not be empty"%string;
  Ok pw.

(** [if !response.ok { bail!(..) }] *)
Definition checked (response : ManagementResponse) : res string ManagementResponse :=
  if ok response then Ok response
  else Err ("daemon error: " +:+ default "" (error response))%string.

Definition tab : string := String (ascii_of_nat 9) "".

(** [value_get(v, key).and_then(|v| v.as_text()).unwrap_or(missing)] *)
Definition text_or (missing : string) (v : Value) (key : string) : string :=
  default missing (value_get v key ≫= as_text).

(** The entries of the array under [key] in the result, each printed by [line]. *)
Definition print_entries (key : string) (line : Value -> string) (response : ManagementResponse)
    : list string :=
  match result response ≫= fun result => value_get result key ≫= as_array with
  | Some entries => line <$> entries
  | None => []
  end.

Definition credential_line (cred : Value) : string :=
  (text_or "" cred "id" +:+ tab +:+ text_or "" cred "rp_id" +:+ tab +:+ text_or "" cred "user_name")%string.

Definition status_line (r : Value) : string :=
  (text_or "?" r "credential" +:+ tab +:+ text_or "?" r "status")%string.

Definition run_list_credentials (connect : res string (bytes -> bytes)) : res string (list string) :=
  response ← send_request connect Management.ListCredentials;
  response ← checked response;
  Ok (print_entries "credentials" credential_line response).

Definition run_update_passphrase (connect : res string (bytes -> bytes)) : res string (list string) :=
  old ← map_err (fun e => "reading passphrase: " +:+ e)%string
          (prompt_password 0 "Enter current daemon passphrase (leave empty if not set yet): ");
  let old := if bool_decide (old = ""%string) then None else Some old in
  new ← prompt_password_confirm 1 "Enter new daemon passphrase: ";
  response ← send_request connect (Management.UpdatePassphrase old new);
  _ ← checked response;
  Ok ["Daemon passphrase updated."%string].

Definition run_update_pcr_reference (connect : res string (bytes -> bytes)) : res string (list string) :=
  passphrase ← prompt_password_confirm 0 "Enter recovery passphrase: ";
  response ← send_request connect (Management.UpdatePcrReference passphrase);
  response ← checked response;
  Ok (print_entries "results" status_line response).

Definition run_update_pcr_policy (connect : res string (bytes -> bytes)) (args : PcrPolicyArgs)
    : res string (list string) :=
  _ ← guard (negb (length (pcr args) =? 0)%nat) "at least one --pcr index is required"%string;
  passphrase ← prompt_password_confirm 0 "Enter recovery passphrase: ";
  let credential_target := if all args then All true else Ids (credential_ids args) in
  response ← send_request connect (Management.UpdatePcrPolicy passphrase (pcr args) credential_target);
  response ← checked response;
  Ok (print_entries "results" status_line response).

(** [{:?}] of a [Vec<u32>] *)
Definition debug_indices (l : list Z) : string := ("[" +:+ String.concat ", " (pretty <$> l) +:+ "]")%string.

Definition run_set_default_pcr_policy (connect : res string (bytes -> bytes)) (args : DefaultPcrPolicyArgs)
    : res string (list string) :=
  response ← send_request connect (Management.SetDefaultPcrPolicy (pcr_indices args));
  _ ← checked response;
  Ok [("default PCR policy set to " +:+ debug_indices (pcr_indices args))%string].

(** ** Starting the daemon *)

Context {pf : Platform} {cr : Crypto} {es : Esapi} {sc : StoreCodec}.

(** [run_daemon] up to its loop; [None] is a dry run. The store directory is the
    one of the world. *)
Definition start_daemon (args : DaemonArgs) : M World string (option Sys) :=
  _ ← Session.detect;
  if dry_run args then mret None
  else
    _ ← attempt (Tpm.check_device (tpm_path args));
    t ← next;
    _ ← lift (map_err (fun _ => "opening UHID device " +:+ uhid_path args)%string
                (uhid_create t Hid.create_params (uhid_path args)));
    h ← start_handler (tpm_path args);
    mret (Some (boot h)).

(** [main], after the arguments are parsed: the subcommands of the client print,
    the daemon starts. *)
Definition main (connect : res string (bytes -> bytes)) (command : Command)
    : M World string (list string + option Sys) :=
  match command with
  | Daemon args => y ← start_daemon args; mret (inr y)
  | ListCredentials => l ← lift (run_list_credentials connect); mret (inl l)
  | UpdatePassphrase => l ← lift (run_update_passphrase connect); mret (inl l)
  | UpdatePcrReference => l ← lift (run_update_pcr_reference connect); mret (inl l)
  | UpdatePcrPolicy args => l ← lift (run_update_pcr_policy connect args); mret (inl l)
  | SetDefaultPcrPolicy args => l ← lift (run_set_default_pcr_policy connect args); mret (inl l)
  end.
End cli.

End Cli.
