(* ===== verification/CliProps.v ===== *)
(** What the command line sends and prints. *)
From Stdlib Require Import ZArith Lia String Ascii.
From stdpp Require Import base list option strings gmap.
From S2P Require Import Prelude Schema Platform Cbor Hid CtapHid Session Tpm Store StoreProps Ctap2Types.
From S2P Require Import Ctap2 Ctap2Facts WorldFacts Management ManagementProps Daemon Cli.

#[local] Open Scope Z_scope.

Module CliProps.
Import Ctap2 Ctap2Facts WorldFacts Management ManagementProps Daemon Cli.

(** The line for a credential. *)
Definition line_of {mc : ManagementCodec} (c : StoredCtap2Credential) : string :=
  (hex_encode (s_id c) +:+ tab +:+ s_rp_id c +:+ tab +:+ default "" (s_user_name c))%string.

Lemma describes_line {mc : ManagementCodec} c v : describes c v -> credential_line v = line_of c.
Proof. intros [stale ->]. done. Qed.

Section list.
Context {pf : Platform} {cr : Crypto} {es : Esapi} {sc : StoreCodec} {mc : ManagementCodec}.

(** The answer to a list request, while no other thread interferes. *)
Lemma list_response oc tx peer_uid s response s' cs w :
  Store.load_ctap2_credentials (filter_uid peer_uid) (world s) = (Ok cs, w) ->
  (exec oc (dispatch oc tx peer_uid Management.ListCredentials) : M St Empty_set _) s = (Ok response, s') ->
  exists entries, Forall2 describes cs entries /\
    response = success (VMap [(VText "credentials", VArray entries)]).
Proof.
  intros Hl. simpl. unfold handle_list_credentials. simpl.
  intros (r & s1 & (w1 & Hm & _ & ->)%call_Ok & Hk)%bind_Ok. rewrite Hl in Hm. simplify_eq.
  rewrite exec_bind in Hk. apply bind_Ok in Hk as (entries & s2 & He & [-> _]%ret_Ok).
  exists entries. split; [|done]. eapply (exec_spec oc (fun _ => True)); [|exact He].
  apply (spec_mapM _ _ _ describes); [intros c _; by apply list_describes|done].
Qed.
End list.

(** C37. [list-credentials] prints what is stored: when the daemon answers, the
    command prints one line for each credential the store holds for the peer, in
    the order of the store, with the identifier in hexadecimal, the relying party
    and the user name. *)
Theorem list_command_prints {pf : Platform} {cr : Crypto} {es : Esapi} {sc : StoreCodec}
    {mc : ManagementCodec} {ml : ManagementCodecLaws} oc tx peer_uid s cs w encoded response answer s' :
  Store.load_ctap2_credentials (filter_uid peer_uid) (world s) = (Ok cs, w) ->
  request_encode Management.ListCredentials = Ok encoded -> Z.of_nat (length encoded) < 2 ^ 32 ->
  (exec oc (dispatch oc tx peer_uid Management.ListCredentials) : M St Empty_set _) s = (Ok response, s') ->
  response_encode response = Ok answer -> Z.of_nat (length answer) < 2 ^ 32 ->
  run_list_credentials (socket oc tx peer_uid s) = Ok (line_of <$> cs).
Proof.
  intros Hl Hr Hlr Hx Ha Hla. unfold run_list_credentials.
  erewrite management_call_roundtrip by eassumption.
  destruct (list_response oc tx peer_uid s response s' cs w Hl Hx) as (entries & He & ->).
  change (Ok (credential_line <$> entries) = Ok (line_of <$> cs) :> res string (list string)).
  f_equal. clear -He. induction He as [|c v cs vs Hv _ IH]; [done|].
  by rewrite !fmap_cons, (describes_line _ _ Hv), IH.
Qed.

(** The request that is sent never has an empty new passphrase, and an empty
    current passphrase is sent as none. *)
Lemma update_passphrase_request {mc : ManagementCodec} {tm : Terminal} connect lines :
  run_update_passphrase connect = Ok lines ->
  exists old new response, prompt_password 0 "Enter current daemon passphrase (leave empty if not set yet): " = Ok old /\
    prompt_password 1 "Enter new daemon passphrase: " = Ok new /\ new <> ""%string /\
    send_request connect (Management.UpdatePassphrase (if bool_decide (old = ""%string) then None else Some old) new)
      = Ok response /\ ok response = true.
Proof.
  unfold run_update_passphrase, prompt_password_confirm, checked. intros H.
  repeat (apply res_bind_Ok in H as (? & ? & H)).
  repeat match goal with
  | H : map_err _ _ = Ok _ |- _ => apply map_err_Ok in H
  | H : _ ≫= _ = Ok _ |- _ => apply res_bind_Ok in H as (? & ? & H)
  | H : guard _ _ = Ok _ |- _ => apply guard_Ok in H
  | H : Ok _ = Ok _ |- _ => injection H as <-
  end. bools. case_match; simplify_eq. eauto 10.
Qed.

(** A dry run opens no device and changes nothing in the store. *)
Lemma dry_run_keeps_store {pf : Platform} {cr : Crypto} {es : Esapi} {sc : StoreCodec} {tm : Terminal} args w :
  dry_run args = true -> exists w', start_daemon args w = (Ok None, w') /\ w_db w' = w_db w.
Proof. intros Hd. unfold start_daemon. simpl. rewrite Hd. eauto. Qed.

End CliProps.
