(* ===== verification/DemoDaemon.v ===== *)
(** The daemon on the toy platform: the messages of the management socket in the
    form [serde] gives them, requests that arrive as host reports, a change of the
    daemon passphrase, and the witnesses of the theorems about the daemon. *)
From Stdlib Require Import ZArith Lia String Ascii.
From stdpp Require Import base list option strings gmap.
From S2P Require Import Prelude Schema Platform Cbor CborRef Hid CtapHid Session Demo Tpm DemoTpm Store.
From S2P Require Import StoreProps DemoStore Ctap2Types Ctap2 Ctap2Facts Ctap2Pin Ctap2Data DemoCtap2.
From S2P Require Import Management ManagementProps SelectionNames Daemon Schedule DaemonProps Dialogue.

#[local] Open Scope Z_scope.

Module DemoDaemon.
Import Demo DemoTpm DemoStore Ctap2 DemoCtap2 Management.
#[local] Existing Instance CborRef.codec.
#[local] Existing Instance CborRef.laws.
#[local] Existing Instance DemoCtap2.pf.

(** ** Moves of a client *)

(** A client of a user connects and writes a message in two pieces. *)
Definition arrives (i : nat) (uid : Z) (input : bytes) : list Schedule.Move :=
  [Schedule.Connect i (Some uid); Schedule.Receive i (take 3 input) false; Schedule.Receive i (drop 3 input) false].

(** ** Reference codecs of the management socket *)

Definition hex_digit (n : Z) : ascii := ascii_of_N (Z.to_N (if n <? 10 then 48 + n else 87 + n)).
Definition hex_value (c : ascii) : option Z :=
  let n := Z.of_N (N_of_ascii c) in
  if (48 <=? n) && (n <=? 57) then Some (n - 48)
  else if (97 <=? n) && (n <=? 102) then Some (n - 87)
  else if (65 <=? n) && (n <=? 70) then Some (n - 55)
  else None.

Fixpoint to_hex (b : bytes) : string :=
  match b with
  | [] => EmptyString
  | x :: b => String (hex_digit (x / 16)) (String (hex_digit (x mod 16)) (to_hex b))
  end.

Fixpoint of_hex (s : string) : res string bytes :=
  match s with
  | EmptyString => Ok []
  | String _ EmptyString => Err "Odd number of digits"%string
  | String a (String b s) =>
      match hex_value a, hex_value b with
      | Some x, Some y => rest ← of_hex s; Ok (x * 16 + y :: rest)
      | _, _ => Err "Invalid character"%string
      end
  end.

Lemma hex_value_digit n : 0 <= n < 16 -> hex_value (hex_digit n) = Some n.
Proof.
  intros Hn. assert (forallb (fun n => bool_decide (hex_value (hex_digit n) = Some n)) (seqZ 0 16) = true) as H
    by (vm_compute; reflexivity).
  rewrite forallb_forall in H. specialize (H n). rewrite bool_decide_eq_true in H. apply H.
  apply list_elem_of_In, elem_of_seqZ. lia.
Qed.

Lemma of_to_hex b : bytes_ok b -> of_hex (to_hex b) = Ok b.
Proof.
  induction 1 as [|x b Hx _ IH]; [done|]. unfold byte_ok in Hx. simpl.
  pose proof (Z.mod_pos_bound x 16 ltac:(lia)). pose proof (Z.div_mod x 16 ltac:(lia)).
  rewrite !hex_value_digit by lia. rewrite IH. simpl. f_equal. f_equal. lia.
Qed.

(** A sequence of texts or numbers that a CBOR array carries. *)
Definition texts (l : list Value) : option (list string) := mapM as_text l.
Definition ints (l : list Value) : option (list Z) := mapM as_integer l.

(** [#[serde(tag = "cmd", content = "params")]] *)
Definition value_of_request (r : ManagementRequest) : Value :=
  let cmd (s : string) := (VText "cmd", VText s) in
  let indices l := (VText "pcr_indices", VArray (VInteger <$> l)) in
  match r with
  | ListCredentials => VMap [cmd "list-credentials"]
  | UpdatePassphrase old new =>
      VMap [cmd "update-passphrase"; (VText "params", VMap
        [(VText "old_passphrase", match old with Some o => VText o | None => VNull end);
         (VText "new_passphrase", VText new)])]
  | UpdatePcrReference p =>
      VMap [cmd "update-pcr-reference"; (VText "params", VMap [(VText "passphrase", VText p)])]
  | UpdatePcrPolicy p l t =>
      VMap [cmd "update-pcr-policy"; (VText "params", VMap
        [(VText "passphrase", VText p); indices l;
         match t with
         | All b => (VText "all", VBool b)
         | Ids ids => (VText "credential_ids", VArray (VText <$> ids))
         end])]
  | SetDefaultPcrPolicy l => VMap [cmd "set-default-pcr-policy"; (VText "params", VMap [indices l])]
  end.

Definition request_of_value (v : Value) : option ManagementRequest :=
  m ← as_map v;
  cmd ← map_text m "cmd"%string;
  let params := map_map m "params"%string in
  let indices := params ≫= fun p => map_array p "pcr_indices"%string ≫= ints in
  if bool_decide (cmd = "list-credentials"%string) then Some ListCredentials
  else if bool_decide (cmd = "update-passphrase"%string) then
    p ← params; new ← map_text p "new_passphrase"%string;
    Some (UpdatePassphrase (map_text p "old_passphrase"%string) new)
  else if bool_decide (cmd = "update-pcr-reference"%string) then
    p ← params; UpdatePcrReference <$> map_text p "passphrase"%string
  else if bool_decide (cmd = "update-pcr-policy"%string) then
    p ← params; passphrase ← map_text p "passphrase"%string; l ← indices;
    match map_bool p "all"%string with
    | Some b => Some (UpdatePcrPolicy passphrase l (All b))
    | None =>
        ids ← map_array p "credential_ids"%string ≫= texts; Some (UpdatePcrPolicy passphrase l (Ids ids))
    end
  else if bool_decide (cmd = "set-default-pcr-policy"%string) then SetDefaultPcrPolicy <$> indices
  else None.

Lemma ints_of l : ints (VInteger <$> l) = Some l.
Proof. by apply mapM_fmap_Some. Qed.
Lemma texts_of l : texts (VText <$> l) = Some l.
Proof. by apply mapM_fmap_Some. Qed.

Lemma request_of_value_of r : request_of_value (value_of_request r) = Some r.
Proof.
  destruct r as [|[]| |p l [b|ids]|l]; try done.
  - trans (l ← ints (VInteger <$> l); Some (UpdatePcrPolicy p l (All b))); [done|]. by rewrite ints_of.
  - trans (l ← ints (VInteger <$> l); ids ← texts (VText <$> ids); Some (UpdatePcrPolicy p l (Ids ids)));
      [done|]. by rewrite ints_of, texts_of.
  - trans (SetDefaultPcrPolicy <$> ints (VInteger <$> l)); [done|]. by rewrite ints_of.
Qed.

Definition value_of_response (r : ManagementResponse) : Value :=
  VMap ((VText "ok", VBool (ok r))
    :: match error r with Some e => [(VText "error", VText e)] | None => [] end
    ++ match result r with Some v => [(VText "result", v)] | None => [] end).

Definition response_of_value (v : Value) : option ManagementResponse :=
  m ← as_map v;
  b ← map_bool m "ok"%string;
  Some {| ok := b; error := map_text m "error"%string; result := map_value m "result"%string |}.

Lemma response_of_value_of r : response_of_value (value_of_response r) = Some r.
Proof. destruct r as [b [e|] [v|]]; done. Qed.

Definition encode_checked (v : Value) : res string bytes :=
  if value_ok v then Ok (cbor_encode v) else Err "value out of range"%string.

#[export] Instance management_codec : ManagementCodec := {
  hex_encode := to_hex; hex_decode := of_hex;
  request_encode r := encode_checked (value_of_request r);
  request_decode b := ok_or (cbor_decode b ≫= request_of_value) "malformed request"%string;
  response_encode r := encode_checked (value_of_response r);
  response_decode b := ok_or (cbor_decode b ≫= response_of_value) "malformed response"%string }.

Lemma decode_checked v b : encode_checked v = Ok b -> cbor_decode b = Some v.
Proof.
  unfold encode_checked. destruct (value_ok v) eqn:Hv; intros [= <-].
  pose proof (cbor_roundtrip v [] Hv) as H. by rewrite app_nil_r in H.
Qed.

#[export] Instance management_codec_laws : ManagementCodecLaws.
Proof.
  split; cbn [hex_encode hex_decode request_encode request_decode response_encode response_decode
    management_codec].
  - apply of_to_hex.
  - intros r b H%decode_checked. rewrite H. cbn [mbind option_bind]. by rewrite request_of_value_of.
  - intros r b H%decode_checked. rewrite H. cbn [mbind option_bind]. by rewrite response_of_value_of.
Qed.

(** ** Host reports *)

Import CtapHid Daemon.

(** Events one after the other, with an empty queue of commands. *)
Definition run_events (events : list UhidEvent) : M (PacketHandler St) Empty_set (list (list UhidWrite)) :=
  mapM (handle_event true) events.

Lemma events_steps y events outs h :
  phase y = Commands -> queue y = [] -> run_events events (handler y) = (Ok outs, h) ->
  steps true y (concat outs) {| handler := h; phase := Commands; queue := []; clients := clients y |}.
Proof.
  assert (forall y1 o1 y2, steps true y1 o1 y2 -> phase y2 = Commands -> queue y2 = [] ->
    forall outs h, run_events events (handler y2) = (Ok outs, h) ->
    steps true y1 (o1 ++ concat outs) {| handler := h; phase := Commands; queue := []; clients := clients y2 |})
    as Hgen.
  { induction events as [|e events IH]; intros y1 o1 y2 Hs Hp Hq os h2 Hr.
    - apply ret_Ok in Hr as [-> ->]. simpl. rewrite app_nil_r.
      destruct y2. simpl in *. by subst.
    - simpl in Hr. apply bind_Ok in Hr as (o & h1 & He & Hr). apply bind_Ok in Hr as (os' & h3 & Hr & [-> ->]%ret_Ok).
      simpl. rewrite app_assoc.
      apply (IH y1 (o1 ++ o) {| handler := h1; phase := Commands; queue := []; clients := clients y2 |});
        [|done..|exact Hr].
      pose proof (steps_snoc _ _ _ _ _ _ Hs (step_no_command _ y2 Hp Hq)) as H1. rewrite app_nil_r in H1.
      pose proof (step_event true {| handler := handler y2; phase := Events; queue := queue y2;
        clients := clients y2 |} e o h1 eq_refl He) as H2.
      simpl in H2. rewrite Hq in H2, H1. by eapply steps_snoc. }
  intros Hp Hq Hr. apply (Hgen y [] y (steps_refl _ y) Hp Hq outs h Hr).
Qed.

Definition h0 : PacketHandler St := CtapHid.new s0.

(** A message on channel 1, cut into host reports with a report id in front. *)
Definition host_message (c : CtapHidCommand) (payload : bytes) : list UhidEvent :=
  (fun r => Output (0 :: r)) <$> encode_message 1 c payload.

Definition written (outs : list (list UhidWrite)) : list bytes :=
  concat outs ≫= fun w => match w with InputReport r => [r] | _ => [] end.

(** A registration that arrives as reports is answered with reports, whose payload
    starts with the length and the status 0. *)
Example registration_over_hid :
  match run_events (host_message Cbor (request MakeCredential (register "a.example" "alice"))) h0 with
  | (Ok outs, h) =>
      slice 0 5 (nth 0 (written outs) []) = [0; 0; 0; 1; 0x90] /\
      nth 7 (nth 0 (written outs) []) 1 = 0 /\
      length (credentials (auth (authenticator h))) = 1%nat
  | _ => False
  end.
Proof. vm_compute. done. Qed.

(** ** The passphrase *)

Definition old_passphrase : string := "old".
Definition new_passphrase : string := "new".

(** The first passphrase is set over the socket, then it is changed. *)
Definition s_fresh : St :=
  {| auth := auth0; world := {| w_tick := 0; w_db := keyed_db; w_handles := [] |} |}.
Definition update (old : option string) (new : string) (s : St) : res Empty_set ManagementResponse * St :=
  exec true (Management.dispatch true true 0 (UpdatePassphrase old new)) s.
Definition s_set : St := (update None old_passphrase s_fresh).2.
Definition s_changed : St := (update (Some old_passphrase) new_passphrase s_set).2.

Definition answer_of {A} (d : A) (r : res Empty_set A) : A := match r with Ok a => a | _ => d end.

Example passphrase_changes :
  ok (answer_of (failure "") (update None old_passphrase s_fresh).1) = true /\
  ok (answer_of (failure "") (update (Some old_passphrase) new_passphrase s_set).1) = true /\
  ok (answer_of (failure "") (update (Some old_passphrase) "x" s_changed).1) = false /\
  ok (answer_of (failure "") (update None "x" s_changed).1) = false.
Proof. vm_compute. done. Qed.

End DemoDaemon.

Import Demo DemoTpm DemoStore Ctap2 DemoCtap2 Management CtapHid Daemon DemoDaemon.
#[local] Existing Instance CborRef.codec.
#[local] Existing Instance CborRef.laws.
#[local] Existing Instance DemoCtap2.pf.

(** ** Witnesses *)

Definition stored_passphrase : bytes * bytes * RecoveryKdf :=
  match (Store.load_daemon_passphrase (world s_set)).1 with
  | Ok (Some p) => p
  | _ => ([], [], argon2id_default)
  end.

Lemma wrong_passphrase_changes_nothing_witness :
  let '(r, s') := update (Some "guess"%string) "mine" s_set in
  (exists e, r = Ok (failure e)) /\ auth s' = auth s_set /\
  StoreProps.same_tables (w_db (world s_set)) (w_db (world s')).
Proof.
  apply (ManagementProps.wrong_passphrase_changes_nothing true true 0 (Some "guess"%string) "mine" s_set
    stored_passphrase.1.1 stored_passphrase.1.2 stored_passphrase.2).
  - vm_compute. reflexivity.
  - intros o [= <-]. eexists. split; [vm_compute; reflexivity|vm_compute; discriminate].
Defined.

Definition selection_name : string :=
  match Tpm.default_pcr_selection true (Some [1; 7; 11]) with Ok (_, n) => n | _ => ""%string end.
Definition selection_list : list Z :=
  match Tpm.default_pcr_selection true (Some [1; 7; 11]) with Ok (l, _) => l | _ => [] end.

Lemma selection_name_reads_back_witness :
  selection_name = "sha256:1,7,11"%string /\ pcr_indices_from_selection selection_name = Some [1; 7; 11].
Proof.
  split; [vm_compute; reflexivity|].
  apply (SelectionNames.selection_name_reads_back true [1; 7; 11] selection_list selection_name).
  - discriminate.
  - repeat constructor; unfold u32_max; lia.
  - vm_compute. reflexivity.
Defined.

Definition list_run : res Empty_set ManagementResponse * St :=
  exec true (Management.dispatch true true 1000 ListCredentials) s2.
Definition list_response : ManagementResponse := answer_of (failure "") list_run.1.
Definition encoding {A} (r : res string A) (d : A) : A := match r with Ok a => a | _ => d end.

Lemma management_call_roundtrip_witness :
  send_request (ManagementProps.socket true true 1000 s2) ListCredentials = Ok list_response.
Proof.
  apply (ManagementProps.management_call_roundtrip true true 1000 ListCredentials
    (encoding (request_encode ListCredentials) []) list_response
    (encoding (response_encode list_response) []) s2 list_run.2); vm_compute; reflexivity.
Defined.

Definition w_start : World := {| w_tick := 0; w_db := db0; w_handles := [] |}.
Definition h_started : PacketHandler St :=
  match start_handler (E := Empty_set) "/dev/tpmrm0" w_start with (Ok h, _) => h | _ => h0 end.

(** A ping of the host, answered by one report. *)
Definition ping_run : res Empty_set (list (list UhidWrite)) * PacketHandler St :=
  run_events (host_message Ping [1; 2; 3]) h_started.
Definition ping_outs : list (list UhidWrite) := answer_of [] ping_run.1.
Definition y_pinged : Sys :=
  {| handler := ping_run.2; phase := Commands; queue := []; clients := ∅ |}.

Lemma daemon_keeps_invariants_witness :
  concat ping_outs <> [] /\
  StoreProps.db_wf (w_db (world (sys_st y_pinged))) /\ CtapHid.wf (handler y_pinged) /\
  Forall DaemonProps.write_ok (concat ping_outs) /\ NoDup (queue y_pinged).*1 /\
  forall i, i ∈ (queue y_pinged).*1 <-> exists k, clients y_pinged !! i = Some (Waiting k).
Proof.
  split; [vm_compute; discriminate|].
  apply (DaemonProps.daemon_keeps_invariants true "/dev/tpmrm0" w_start h_started
    (start_handler (E := Empty_set) "/dev/tpmrm0" w_start).2 (concat ping_outs) y_pinged).
  - split; simpl; constructor.
  - vm_compute. reflexivity.
  - apply (events_steps (boot h_started) (host_message Ping [1; 2; 3]) ping_outs ping_run.2);
      [reflexivity|reflexivity|vm_compute; reflexivity].
Defined.

(** A wrong PIN that arrives as host reports. *)
Definition y_pin : Sys := boot (CtapHid.new s_pin).
Definition guess_moves : list Schedule.Move :=
  host_message Cbor (token_request wrong_hash) ≫= fun e => [Schedule.Look; Schedule.Device e].
Definition guess_played : list UhidWrite * Sys := default ([], y_pin) (Schedule.play true guess_moves y_pin).

Lemma play_default (o : option (list UhidWrite * Sys)) d :
  match o with Some _ => true | None => false end = true -> o = Some ((default d o).1, (default d o).2).
Proof. by destruct o as [[]|]. Qed.

Lemma daemon_pin_guesses_bounded_witness :
  let entered := Dialogue.arrivals_in true guess_moves y_pin in
  Ctap2Pin.wrong_entries entered = 1 /\ Ctap2Pin.wrong_entries entered <= retries (pin_state s_pin) /\
  DaemonProps.sys_pin guess_played.2 =
    Some (Ctap2Pin.after_wrong (Ctap2Pin.wrong_entries entered) (pin_state s_pin)).
Proof.
  split; [vm_compute; reflexivity|].
  destruct (Dialogue.daemon_pin_guesses_bounded true guess_moves y_pin guess_played.1 guess_played.2 (pin_state s_pin))
    as (H1 & H2 & _).
  - apply play_default. vm_compute. reflexivity.
  - vm_compute. reflexivity.
  - vm_compute. discriminate.
  - apply Ctap2Pin.guessing_bool. vm_compute. reflexivity.
  - exact (conj H1 H2).
Defined.
