(* ===== verification/DemoLives.v ===== *)
(** Lives of the daemon on the toy platform, from an empty store: the daemon
    passphrase is set over the management socket, a credential is registered and
    used before and after a restart while a client lists the credentials, a PIN is
    set and guessed wrongly. *)
From Stdlib Require Import ZArith Lia String.
From stdpp Require Import base list option strings gmap.
From S2P Require Import Prelude Schema Platform Cbor CborRef CtapHid Session Demo Tpm DemoTpm Store.
From S2P Require Import StoreProps DemoStore Ctap2Types Ctap2 Ctap2Facts Ctap2Pin DemoCtap2.
From S2P Require Import StoreRoundtrip Settings Ctap2Counter Ctap2Mirror Renewal DemoSafe Management Requests Daemon.
From S2P Require Import ManagementProps Schedule Authority Dialogue DaemonSafe Lives DaemonLive DemoDaemon.

#[local] Open Scope Z_scope.

Module DemoLives.
Import Demo DemoTpm DemoStore Ctap2 DemoCtap2 Management CtapHid Daemon Schedule Dialogue DemoDaemon Lives.
#[local] Existing Instance CborRef.codec.
#[local] Existing Instance CborRef.laws.
#[local] Existing Instance DemoCtap2.pf.

Definition tpm_path : string := "/dev/tpmrm0".

(** ** Scripts *)

(** A request of the host, report by report; the main thread looks at its queue
    before each. *)
Definition ask (payload : bytes) : list Move :=
  host_message CtapHid.Cbor payload ≫= fun e => [Look; Device e].

Definition message (r : ManagementRequest) : bytes := send_message (encoding (request_encode r) []).

(** User 1000 sets the daemon passphrase. *)
Definition set_passphrase : list Move :=
  arrives 7 1000 (message (UpdatePassphrase None old_passphrase)) ++ repeat (Advance 7) 5.

(** One life on the script [ms]: what is said in it, and the daemon when it is
    killed. *)
Definition started (w : World) : PacketHandler St :=
  match start_handler (E := Empty_set) tpm_path w with (Ok h, _) => h | _ => h0 end.
Definition played (ms : list Move) (w : World) : list UhidWrite * Sys :=
  default ([], boot h0) (play true ms (boot (started w))).
Definition spoken (ms : list Move) (w : World) : list Exchange := talk true ms (boot (started w)).

Definition runs (ms : list Move) (w : World) : bool :=
  match (start_handler (E := Empty_set) tpm_path w).1, play true ms (boot (started w)) with
  | Ok _, Some _ => true
  | _, _ => false
  end.

Lemma runs_started ms w : runs ms w = true ->
  start_handler (E := Empty_set) tpm_path w = (Ok (started w), (start_handler (E := Empty_set) tpm_path w).2).
Proof. unfold runs, started. by destruct (start_handler tpm_path w) as [[] ?]. Qed.

Lemma runs_played ms w : runs ms w = true ->
  play true ms (boot (started w)) = Some ((played ms w).1, (played ms w).2).
Proof.
  unfold runs, played. destruct (start_handler tpm_path w).1; [|done..].
  by destruct (play true ms (boot (started w))) as [[]|].
Qed.

Lemma runs_lives ms w l w1 : runs ms w1 = true -> lives true tpm_path w l w1 ->
  lives true tpm_path w (l ++ (spoken ms w1 ++ [])) (world (sys_st (played ms w1).2)).
Proof.
  intros Hr Hl. eapply lives_more; [exact Hl|by eapply runs_started| |apply ends_killed].
  by apply play_dialogue, runs_played.
Qed.

(** ** Assertions before and after a restart *)

Definition assertion : list Move := ask (request GetAssertion (assert_request "a.example")).

(** The client's list waits for the TPM while the host asks for an assertion. *)
Definition first_life : list Move :=
  set_passphrase ++ ask (request MakeCredential (register "a.example" "alice")) ++ assertion ++
  arrives 8 1000 (message ListCredentials) ++ [Advance 8; Advance 8] ++ assertion ++ [Advance 8].
Definition second_life : list Move := assertion ++ assertion.

Definition w_stopped : World := world (sys_st (played first_life w0).2).
Definition w_last : World := world (sys_st (played second_life w_stopped).2).
Definition said : list Exchange := ([] ++ (spoken first_life w0 ++ [])) ++ (spoken second_life w_stopped ++ []).

Example counters_run :
  (fun '(p, r) => (hd 0 p, match r with Ok (b :: _) => b | _ => -1 end)) <$> said =
    [(1, 0); (2, 0); (2, 0); (2, 0); (2, 0)] /\
  (m_sign_count <$> metadata (w_db w_stopped)) = [2] /\ (m_sign_count <$> metadata (w_db w_last)) = [4] /\
  match clients (played first_life w0).2 !! 8%nat with Some (Finished (Some _)) => true | _ => false end = true.
Proof. vm_compute. done. Qed.

Lemma said_lives : lives true tpm_path w0 said w_last.
Proof.
  apply runs_lives; [vm_compute; reflexivity|]. apply runs_lives; [vm_compute; reflexivity|constructor].
Qed.

(** ** PIN *)

(** The client asks for the daemon's key, encrypts its PIN under the shared one, and
    enters a wrong PIN twice. *)
Definition agreement : list Move := ask (request ClientPin [int 1 (VInteger 2); int 2 (VInteger 2)]).
Definition s_key : St := sys_st (played (set_passphrase ++ agreement) w0).2.
Definition shared : bytes * bytes :=
  match (pin_uv_keys (Some client_cose) s_key).1 with Ok k => k | _ => ([], []) end.
Definition choose_pin : list Move :=
  ask (request ClientPin [int 1 (VInteger 2); int 2 (VInteger 3); int 3 (VMap client_cose);
    int 4 (VBytes (hmac_sha256 shared.2 new_pin_enc)); int 5 (VBytes new_pin_enc)]).
Definition guess : list Move := ask (token_request wrong_hash).
Definition pin_life : list Move := set_passphrase ++ agreement ++ choose_pin ++ guess ++ guess.

Definition y_pin : Sys := (played pin_life w0).2.

Example pin_run : (retries <$> client_pin (auth (sys_st y_pin))) = Some 6.
Proof. vm_compute. done. Qed.

(** ** A lost update *)

(** The daemon passphrase is changed, and with it the passphrase of the recovery slot
    of the stored credential. *)
Definition change_life : list Move :=
  set_passphrase ++ ask (request MakeCredential (register "a.example" "alice")) ++
  arrives 9 1000 (message (UpdatePassphrase (Some old_passphrase) new_passphrase)) ++ repeat (Advance 9) 5 ++
  [Look; Device WouldBlock; Advance 9].

(** Whether the recovery slots have the daemon passphrase. *)
Definition recoverable_with_passphrase (w : World) : list bool :=
  match (Store.load_ctap2_credentials None w).1, (Store.load_daemon_passphrase w).1 with
  | Ok cs, Ok (Some (_, hash, _)) => (fun c => bool_decide (passphrase_hash <$> s_recovery c = Some hash)) <$> cs
  | _, _ => []
  end.

(** A registration after the change saves all credentials from memory, where the
    first one still has its old recovery slot: the change of its passphrase is lost. *)
Example recovery_change_is_lost :
  recoverable_with_passphrase (world (sys_st (played change_life w0).2)) = [true] /\
  recoverable_with_passphrase (world (sys_st
    (played (change_life ++ ask (request MakeCredential (register "b.example" "bob"))) w0).2)) = [false; true].
Proof. vm_compute. done. Qed.

(** ** Credentials *)

(** Two registrations, the passphrase set and changed in between, an assertion and a
    deletion that finds nothing, from a store that was opened. *)
Definition w_ready : World := {| w_tick := 0; w_db := set_exists keyed_db; w_handles := [] |}.
Definition credential_life : list Move :=
  change_life ++ ask (request MakeCredential (register "b.example" "bob")) ++
  ask (request GetAssertion (assert_request "b.example")) ++ ask (delete_request CredentialManagement).
Definition s_served : St := sys_st (played credential_life w_ready).2.

Lemma credential_life_runs : runs credential_life w_ready = true.
Proof. vm_compute. reflexivity. Qed.

Lemma ready_stocked : Ctap2Mirror.stocked hmac_key 1000 w_ready [].
Proof.
  split; [|constructor|by intros ? ?%not_elem_of_nil|].
  - split; [eapply StoreProps.db_wf_same; [..|exact keyed_wf]; reflexivity|reflexivity|reflexivity|constructor|constructor].
  - intros blob hash salt m t l _ _. split; reflexivity.
Qed.
End DemoLives.

Import Demo DemoTpm DemoStore Ctap2 DemoCtap2 Management CtapHid Daemon Schedule Dialogue DemoDaemon Lives DemoLives.
#[local] Existing Instance CborRef.codec.
#[local] Existing Instance CborRef.laws.
#[local] Existing Instance DemoCtap2.pf.

(** ** Witnesses *)

#[local] Instance demo_platform_laws : @PlatformLaws DemoCtap2.pf := platform_laws _ _.

#[local] Existing Instance DemoSafe.codec_returns.
#[local] Instance demo_returns : @WorldSafe.PlatformReturns DemoCtap2.pf := DemoSafe.approving_returns.

#[local] Instance demo_phc_fits : PhcFits.
Proof.
  split; [done| |done|done]. intros k salt p n h. cbn [argon2id_hash crypto]. intros [= <-]. apply length_be_bytes.
Qed.

#[local] Instance tpm2_returns : @WorldSafe.EsapiReturns crypto tpm2 := DemoSafe.esapi_returns true.

Lemma demo_draws n : Z.of_nat n < 2 ^ 64 -> Ctap2Counter.distinct_draws n.
Proof.
  intros Hn t t' b Ht Ht' H1 H2. cbn [getrandom DemoCtap2.pf approving platform] in *.
  rewrite <- H2 in H1. apply (inj Some), be_bytes_inj in H1; [lia|..];
    (change (256 ^ Z.of_nat 32) with (2 ^ 256); assert (2 ^ 64 * 257 + 1 < 2 ^ 256) by (vm_compute; reflexivity); lia).
Qed.

Lemma signature_counters_increase_witness :
  length said = 5%nat /\
  exists log, Forall2 (fun '(payload, outcome) e => Ctap2Counter.answered payload outcome e) said log /\
    increasing log.
Proof.
  split; [vm_compute; reflexivity|].
  destruct (Lives.signature_counters_increase true tpm_path w0 said w_last eq_refl said_lives) as (_ & log & Ha & Hi).
  exists log. split; [exact Ha|]. apply Hi, demo_draws. vm_compute. reflexivity.
Defined.

Lemma pin_survives_restarts_witness :
  (retries <$> client_pin (auth (sys_st y_pin))) = Some 6 /\
  exists h w, start_handler (E := Empty_set) tpm_path (world (sys_st y_pin)) = (Ok h, w) /\
    client_pin (auth (authenticator h)) = client_pin (auth (sys_st y_pin)).
Proof.
  split; [vm_compute; reflexivity|].
  assert (runs pin_life w0 = true) as Hr by (vm_compute; reflexivity).
  apply (Lives.pin_survives_restarts true tpm_path w0 [] w0 (started w0)
    (start_handler (E := Empty_set) tpm_path w0).2 (played pin_life w0).1 y_pin [] (sys_st y_pin)).
  - reflexivity.
  - apply lives_none.
  - exact (runs_started pin_life w0 Hr).
  - apply (play_steps true pin_life). exact (runs_played pin_life w0 Hr).
  - apply ends_killed.
Defined.

(** A life again, with a daemon built without overflow checks. *)
Definition unchecked (ms : list Move) : list UhidWrite * Sys :=
  default ([], boot h0) (play false ms (boot (started w0))).

Lemma unchecked_played ms :
  match play false ms (boot (started w0)) with Some _ => true | None => false end = true ->
  play false ms (boot (started w0)) = Some ((unchecked ms).1, (unchecked ms).2).
Proof. unfold unchecked. by destruct (play false ms (boot (started w0))) as [[out y]|]. Qed.

Lemma unchecked_first :
  match play false first_life (boot (started w0)) with Some _ => true | None => false end = true.
Proof. vm_compute. reflexivity. Qed.

Lemma daemon_never_panics_witness :
  length (talk false first_life (boot (started w0))) = 3%nat /\ phase (unchecked first_life).2 = Commands /\
  exists y, step false (unchecked first_life).2 [] y /\ phase y = Events /\ queue y = tail (queue (unchecked first_life).2).
Proof.
  split; [vm_compute; reflexivity|]. assert (phase (unchecked first_life).2 = Commands) as Hp by (vm_compute; reflexivity).
  split; [exact Hp|].
  destruct (DaemonSafe.daemon_never_panics tpm_path w0) as [(h & w1 & Hst & H) _].
  - exact StoreProps.db_wf_empty.
  - intros blob hash salt m t l _ _. split; reflexivity.
  - assert (h = started w0) as -> by (unfold started; by rewrite Hst).
    specialize (H _ _ _ (play_dialogue false first_life _ _ _ (unchecked_played first_life unchecked_first))). rewrite Hp in H.
    apply H. vm_compute. reflexivity.
Defined.

(** The change of a recovery passphrase waits in the queue. *)
Definition queued_life : list Move :=
  set_passphrase ++ ask (request MakeCredential (register "a.example" "alice")) ++
  arrives 9 1000 (message (UpdatePassphrase (Some old_passphrase) new_passphrase)) ++ repeat (Advance 9) 5.
Definition queued : nat * TpmCommand :=
  default (0%nat, PcrDigestCheck []) (head (queue (played queued_life w0).2)).

Lemma daemon_commands_authorized_witness :
  match queued with (9%nat, PassphraseChange _ _ _ _ _) => True | _ => False end /\
  exists peer_uid data rest request,
    Connect queued.1 (Some peer_uid) ∈ queued_life /\
    recv_message false (Authority.sent queued.1 queued_life) = Complete data rest /\
    request_decode data = Ok request /\
    ManagementProps.authorized (Authority.seen true queued_life (boot (started w0))) peer_uid request queued.2.
Proof.
  split; [vm_compute; exact I|].
  apply (Authority.daemon_commands_authorized true queued_life (started w0) (played queued_life w0).1
    (played queued_life w0).2).
  - apply runs_played. vm_compute. reflexivity.
  - assert (queue (played queued_life w0).2 = [queued]) as -> by (vm_compute; reflexivity).
    destruct queued as [i c]. left.
Defined.

(** The connection that waits comes to its end. *)
Definition waiting : Client := default Dead (clients (unchecked queued_life).2 !! 9%nat).

Lemma default_there (o : option Client) :
  match o with Some _ => true | None => false end = true -> o = Some (default Dead o).
Proof. by destruct o. Qed.

Lemma waiting_there : clients (unchecked queued_life).2 !! 9%nat = Some waiting.
Proof. apply default_there. vm_compute. reflexivity. Qed.

Lemma not_reading (c : Client) :
  match c with Reading _ _ => false | _ => true end = true -> ~ DaemonLive.reads c.
Proof. by intros H (pu & input & ->). Qed.

Lemma connections_terminate_witness :
  match waiting with Waiting _ => True | _ => False end /\
  exists y c, steps false (unchecked queued_life).2 [] y /\ clients y !! 9%nat = Some c /\ DaemonLive.ended c.
Proof.
  split; [vm_compute; exact I|].
  destruct (DaemonLive.connections_terminate tpm_path w0 (started w0) (start_handler (E := Empty_set) tpm_path w0).2
    (talk false queued_life (boot (started w0))) (unchecked queued_life).1 (unchecked queued_life).2 9 waiting)
    as [_ H].
  - exact StoreProps.db_wf_empty.
  - intros blob hash salt m t l _ _. split; reflexivity.
  - apply (runs_started []). vm_compute. reflexivity.
  - apply play_dialogue, unchecked_played. vm_compute. reflexivity.
  - vm_compute. reflexivity.
  - exact waiting_there.
  - apply (H _ waiting (or_introl eq_refl) waiting_there), not_reading. vm_compute. reflexivity.
Defined.

(** The client of the first life has its list. *)
Definition listed : option bytes :=
  match clients (played first_life w0).2 !! 8%nat with Some (Finished output) => output | _ => None end.

Lemma lists_show_own_credentials_witness :
  exists peer_uid, Connect 8 peer_uid ∈ first_life /\ forall u data rest,
    peer_uid = Some u -> recv_message false (Authority.sent 8 first_life) = Complete data rest ->
    request_decode data = Ok ListCredentials ->
    exists response, ((exists e, response = failure e) \/
        ManagementProps.lists (Authority.seen true first_life (boot (started w0))) u response) /\
      listed = match response_encode response with Ok b => Some (send_message b) | _ => None end.
Proof.
  apply (Authority.lists_show_own_credentials true first_life (started w0) (played first_life w0).1
    (played first_life w0).2).
  - apply runs_played. vm_compute. reflexivity.
  - vm_compute. reflexivity.
Defined.

Lemma host_gets_every_answer_witness :
  length (spoken first_life w0) = 3%nat /\
  exists shown, (played first_life w0).1 = concat (show <$> shown) /\
    (spoken first_life w0).*2 = Ok <$> omap response_of shown.
Proof.
  split; [vm_compute; reflexivity|].
  destruct (Dialogue.host_gets_every_answer true (boot (started w0)) (played first_life w0).1
    (played first_life w0).2) as [_ H].
  apply H, play_dialogue, runs_played. vm_compute. reflexivity.
Defined.

Lemma credentials_survive_restarts_witness :
  length (credentials (auth s_served)) = 2%nat /\
  (fun c => Ctap2Mirror.core (stored_of_credential c)) <$> credentials (auth (authenticator (started (world s_served))))
    ≡ₚ Ctap2Mirror.memory_core s_served.
Proof.
  split; [vm_compute; reflexivity|].
  destruct (Lives.credentials_survive_restarts true hmac_key 1000 tpm_path w_ready [] (started w_ready)
    (start_handler (E := Empty_set) tpm_path w_ready).2 (played credential_life w_ready).1
    (played credential_life w_ready).2 [] s_served) as (h & w & Hst & H).
  - reflexivity.
  - lia.
  - exact ready_stocked.
  - exact (runs_started _ _ credential_life_runs).
  - vm_compute. reflexivity.
  - apply (play_steps true credential_life). exact (runs_played _ _ credential_life_runs).
  - apply ends_killed.
  - apply demo_draws. vm_compute. reflexivity.
  - assert (started (world s_served) = h) as -> by (unfold started; by rewrite Hst).
    apply H. assert (h = started (world s_served)) as -> by (unfold started; by rewrite Hst). vm_compute. reflexivity.
Defined.

Lemma served_stocked : exists cs, Ctap2Mirror.stocked hmac_key 1000 (world s_served) cs /\
  Ctap2Mirror.core <$> cs ≡ₚ Ctap2Mirror.memory_core s_served.
Proof.
  destruct (start_mirrors hmac_key eq_refl 1000 tpm_path w_ready [] (started w_ready) _ ready_stocked
    (runs_started _ _ credential_life_runs)) as [_ Hm]; [lia|vm_compute; reflexivity|].
  apply Ctap2Mirror.mirror_stocked; [|apply demo_draws; vm_compute; reflexivity].
  eapply (life_mirror true hmac_key eq_refl 1000); [exact Hm| |apply ends_killed].
  apply play_dialogue. exact (runs_played _ _ credential_life_runs).
Qed.

Lemma served_stands : exists cs, length cs = 2%nat /\ Requests.stands true hmac_key cs s_served /\
  Forall (fun c => s_user_id c = Some 1000) cs.
Proof.
  destruct served_stocked as (cs & Hst & Hp). exists cs. split_and!.
  - apply Permutation_length in Hp. rewrite length_fmap in Hp. rewrite Hp. vm_compute. reflexivity.
  - split; [|exact (Ctap2Mirror.so_shelf _ _ _ _ Hst)]. split.
    + intros blob hash salt m t l _ _. split; reflexivity.
    + intros blob l H. exfalso.
      assert (daemon_config (w_db (world s_served)) !! "default_pcr_policy"%string = None) as E by (vm_compute; reflexivity).
      rewrite E in H. discriminate H.
  - exact (Ctap2Mirror.so_owner _ _ _ _ Hst).
Qed.

Lemma owner_of_all u cs : Forall (fun c => s_user_id c = Some u) cs -> Forall (StoreRoundtrip.owner_known (Some u)) cs.
Proof. intros H. eapply Forall_impl; [exact H|]. intros c Hc. right. simpl in Hc. rewrite Hc. by eexists. Qed.

(** Policies are renewed with the new passphrase, which only the second credential
    has, since the registration took the change of the first one back. *)
Definition renewal_request : ManagementRequest := UpdatePcrReference new_passphrase.
Definition status_of (v : Value) : option Value := value_get v "status".
Definition statuses (r : res Empty_set ManagementResponse) : list (option Value) :=
  match r with
  | Ok r => match result r ≫= fun v => value_get v "results" with Some (VArray l) => status_of <$> l | _ => [] end
  | _ => []
  end.

Example renewal_statuses :
  statuses (exec true (Management.dispatch true true 1000 renewal_request) s_served).1 =
    [Some (VText "error"); Some (VText "ok")].
Proof. vm_compute. done. Qed.

Lemma policy_requests_renew_witness :
  exists cs entries changes s1 s', length cs = 2%nat /\
    (exec true (Management.dispatch true true 1000 renewal_request) : M St Empty_set _) s_served =
      (Ok (success (VMap [(VText "results", VArray entries)])), s') /\
    let mine := (fun c => (s_id c, Some c)) <$> StoreRoundtrip.loaded hmac_key (Some 1000) cs in
    Requests.in_turn (Requests.renewal true new_passphrase) mine entries changes s1 s' /\
    (Store.load_ctap2_credentials (Some 1000) (world s')).1 =
      Ok (StoreRoundtrip.loaded hmac_key (Some 1000) (Requests.change_all (zip mine.*1 changes) cs)).
Proof.
  destruct served_stands as (cs & Hl & Hs & Ho%owner_of_all).
  destruct (Requests.policy_requests_renew true hmac_key cs 1000 renewal_request new_passphrase (Some 1000) s_served)
    as (entries & changes & s1 & s' & Ex & _ & _ & HT & _ & Hload).
  - reflexivity.
  - exact Hs.
  - by left.
  - exact Ho.
  - exact Ho.
  - exists cs, entries, changes, s1, s'. exact (conj Hl (conj Ex (conj HT Hload))).
Defined.

Definition current_passphrase : option (bytes * bytes * RecoveryKdf) :=
  match (Store.load_daemon_passphrase (world s_served)).1 with Ok o => o | _ => None end.

Lemma current_opens :
  match current_passphrase with
  | Some (salt, hash, kdf) => Tpm.recovery_passphrase_hash kdf salt new_passphrase = Ok hash
  | None => True
  end.
Proof. vm_compute. reflexivity. Qed.

Lemma passphrase_requests_take_effect_witness :
  exists salt hash s',
    ((exec true (Management.dispatch true true 1000 (UpdatePassphrase (Some new_passphrase) "newer"))
        : M St Empty_set _) s_served).2 = s' /\
    Tpm.recovery_passphrase_hash argon2id_default salt "newer" = Ok hash /\
    (Store.load_daemon_passphrase (world s')).1 = Ok (Some (salt, hash, argon2id_default)).
Proof.
  destruct served_stands as (cs & Hl & Hs & Ho%owner_of_all).
  destruct (Requests.passphrase_requests_take_effect true hmac_key cs 1000 (Some new_passphrase) "newer"
    current_passphrase (Some 1000) s_served) as (t & salt & hash & entries & changes & s1 & s' & Ex & _ & _ & Hh & Hpw & _).
  - reflexivity.
  - exact Hs.
  - exact Ho.
  - exact Ho.
  - vm_compute. reflexivity.
  - intros salt hash kdf H. exists new_passphrase. split; [reflexivity|].
    pose proof current_opens as Hc. rewrite H in Hc. exact Hc.
  - intros salt. eexists. reflexivity.
  - exists salt, hash, s'. rewrite Ex. exact (conj eq_refl (conj Hh Hpw)).
Defined.

Example slot_statuses :
  statuses (exec true (Management.dispatch true true 1000 (UpdatePassphrase (Some new_passphrase) "newer")) s_served).1 =
    [Some (VText "ok"); Some (VText "ok")].
Proof. vm_compute. done. Qed.
