(* ===== verification/DemoService.v ===== *)
(** The management server, the queue of TPM commands and the command line on the
    toy platform, with the witnesses of the theorems about them. *)
From Stdlib Require Import ZArith Lia String.
From stdpp Require Import base list option strings gmap.
From S2P Require Import Prelude Schema Platform Cbor CborRef Hid CtapHid CtapHidLimits Session Demo Tpm.
From S2P Require Import DemoTpm Store StoreProps DemoStore Ctap2Types Ctap2 WorldFacts DemoCtap2 Management.
From S2P Require Import ManagementProps Serve Daemon Schedule DaemonProps DaemonLive Cli CliProps DemoDaemon.

#[local] Open Scope Z_scope.

Module DemoService.
Import Demo DemoTpm DemoStore Ctap2 DemoCtap2 Management CtapHid Daemon Schedule DemoDaemon.
#[local] Existing Instance CborRef.codec.
#[local] Existing Instance CborRef.laws.
#[local] Existing Instance DemoCtap2.pf.

(** ** The server *)

Definition list_message : bytes := send_message (encoding (request_encode ListCredentials) []).

(** One connection of user 1000 arrives at the sixth call; the daemon is stopped at
    the tenth. *)
#[export] Instance sockets : SocketApi := {
  create_dir_all := fun _ _ => None; remove_file := fun _ _ => Some "no such file"%string;
  bind := fun _ _ => None; created_mode := 511; set_permissions := fun _ _ _ => None;
  set_nonblocking := fun _ => None; stop_load := fun t => (10 <=? t)%nat;
  accept := fun t => if (t =? 6)%nat then Connection (0, 1000) else Serve.WouldBlock }.

Example one_connection :
  (Serve.serve 11 (Serve.initial None)).1 = Ok true /\
  Serve.sv_threads (Serve.serve 11 (Serve.initial None)).2 = [(Some Serve.owner_only, Some 1000)].
Proof. split; [vm_compute; reflexivity|reflexivity]. Qed.

(** ** The queue *)

(** The daemon is started on a store with two credentials, and a client asks for
    their list. *)
Definition db_two : Db := w_db (world s2).
Definition w_two : World := {| w_tick := 0; w_db := db_two; w_handles := [] |}.
Definition h_two : PacketHandler St :=
  match start_handler (E := Empty_set) "/dev/tpmrm0" w_two with (Ok h, _) => h | _ => h0 end.
(** The client connects, loads its credentials and sends a command. *)
Definition waiting_moves : list Move := arrives 7 1000 list_message ++ [Advance 7; Advance 7].
Definition y_waiting : Sys := (default ([], boot h_two) (play true waiting_moves (boot h_two))).2.

Example one_command_waits : fst <$> queue y_waiting = [7%nat].
Proof. vm_compute. reflexivity. Qed.

Lemma y_waiting_steps : steps true (boot h_two) [] y_waiting.
Proof.
  apply (play_steps true waiting_moves).
  assert (fst <$> play true waiting_moves (boot h_two) = Some []) as H by (vm_compute; reflexivity).
  unfold y_waiting. destruct (play true waiting_moves (boot h_two)) as [[out y]|]; [|done].
  by injection H as ->.
Qed.
End DemoService.

Import Demo DemoTpm DemoStore Ctap2 WorldFacts DemoCtap2 Management CtapHid Daemon DemoDaemon DemoService.
#[local] Existing Instance CborRef.codec.
#[local] Existing Instance CborRef.laws.
#[local] Existing Instance DemoCtap2.pf.

(** ** Witnesses *)

Lemma server_private_until_stopped_witness :
  Serve.private_threads (Serve.serve 11 (Serve.initial None)).2 /\
  ((Serve.serve 11 (Serve.initial None)).1 = Ok true \/
   exists e, (Serve.serve 11 (Serve.initial None)).1 = Err e).
Proof.
  destruct (Serve.server_private_until_stopped None) as [Hp Ht]. split; [apply Hp|].
  apply Ht. intros t Hl. by apply Nat.leb_le.
Defined.

Lemma db_two_wf : StoreProps.db_wf db_two.
Proof.
  unfold db_two.
  assert (forall p s, StoreProps.db_wf (w_db (world s)) -> StoreProps.db_wf (w_db (world (send p s).2))) as Hs.
  { intros p s. exact (WorldFacts.daemon_handle_cbor StoreProps.wf_rel true DaemonProps.wf_op p s). }
  apply Hs, Hs. eapply StoreProps.db_wf_same; [..|apply keyed_wf]; reflexivity.
Qed.

Lemma h_two_started :
  start_handler (E := Empty_set) "/dev/tpmrm0" w_two =
    (Ok h_two, (start_handler (E := Empty_set) "/dev/tpmrm0" w_two).2).
Proof.
  assert (match (start_handler (E := Empty_set) "/dev/tpmrm0" w_two).1 with Ok _ => true | _ => false end = true)
    as H by (vm_compute; reflexivity).
  unfold h_two. by destruct (start_handler "/dev/tpmrm0" w_two) as [[] ?].
Qed.

Lemma queued_commands_answered_witness :
  exists c k, queue y_waiting = [(7%nat, c)] /\ clients y_waiting !! 7%nat = Some (Waiting k) /\
    forall y', DaemonLive.rounds true 1 y_waiting y' -> DaemonLive.answered true 7 c k y_waiting y'.
Proof.
  assert (exists c, queue y_waiting = [(7%nat, c)]) as [c Hq] by (eexists; vm_compute; reflexivity).
  destruct (DaemonLive.queued_commands_answered true "/dev/tpmrm0" w_two h_two
    (start_handler (E := Empty_set) "/dev/tpmrm0" w_two).2 [] y_waiting) as (_ & _ & Ha).
  - exact db_two_wf.
  - exact h_two_started.
  - exact y_waiting_steps.
  - destruct (Ha [] 7%nat c [] Hq) as (k & Hk & Hr). exists c, k.
    split; [exact Hq|split; [exact Hk|]]. intros y'. apply Hr. simpl. lia.
Defined.

Definition two_credentials : list StoredCtap2Credential :=
  match (Store.load_ctap2_credentials (filter_uid 1000) (world s2)).1 with Ok cs => cs | _ => [] end.

Lemma list_command_prints_witness :
  length two_credentials = 2%nat /\
  Cli.run_list_credentials (ManagementProps.socket true true 1000 s2) =
    Ok (CliProps.line_of <$> two_credentials).
Proof.
  split; [vm_compute; reflexivity|].
  apply (CliProps.list_command_prints true true 1000 s2 two_credentials
    (Store.load_ctap2_credentials (filter_uid 1000) (world s2)).2
    (encoding (request_encode ListCredentials) []) list_response
    (encoding (response_encode list_response) []) list_run.2); vm_compute; reflexivity.
Defined.

#[local] Instance demo_ops : AuthenticatorOps St TpmCommand := authenticator_ops true.

Lemma oversized_response_unreadable_witness :
  exists r e h', encode_message 1 Cbor (repeat 0 7610) !! 129%nat = Some r /\
    handle_packet r h0 = (Ok (Some (Respond (error 1 e))), h').
Proof.
  apply (CtapHidLimits.oversized_response_unreadable 1 Cbor (repeat 0 7610) h0).
  - lia.
  - rewrite repeat_length. vm_compute. lia.
Defined.
